(* ===== verification/_CoqProject ===== *)
-Q . S2P
Prelude.v
PyStr.v
PyFormat.v
TestExpr.v
TestGrammar.v
TestConfig.v
TestRun.v
PyPath.v
TestSuite.v
TestProgress.v
TestMessage.v
Common.v
Ordered.v
FileSystem.v
Install.v
InstallProps.v
GypValue.v
Merge.v
Heap.v
DepGraph.v
Targets.v
ListFilters.v
Expand.v
ExpandProps.v
BuildFiles.v
Parallel.v
Load.v
Analyzer.v
AnalyzerProps.v
AnalyzerSpec.v
MsvsSettings.v
MsvsTables.v
MsvsProps.v
GypMain.v
GypMainProps.v
EasyXml.v
VcProject.v
VcProjectProps.v
MsvsUtil.v
MsvsUtilProps.v
Md5.v
MsvsNew.v
MsvsNewProps.v
Make.v
MakeProps.v
MakeRules.v
MakeTemplates.v
MakeRoot.v
MakeRootProps.v
Js2c.v
NinjaSyntax.v
