(* ===== verification/Prelude.v ===== *)
(** * The io.js build and test tooling: a verification library

    io.js is configured, built and tested by Python programs under [src/tools]:
    - [tools/gyp] turns a tree of [.gyp] and [.gypi] files into the input of a build
      tool.  [gyp/input.py] is its middle: it loads the files, evaluates them as
      restricted Python literals, follows their includes and dependencies, merges
      dictionaries and configurations, expands, filters and validates, and orders
      the targets so that each comes after its dependencies.  [gyp/common.py],
      [gyp/ordered_dict.py], [gyp/simple_copy.py] are helpers of it and of the
      generators; [gyp/ninja_syntax.py] is the writer of the Ninja generator,
      [gyp/generator/make.py] the Make generator, and [gyp/MSVS*.py] with
      [gyp/easy_xml.py] serve the one for Visual Studio.
    - [tools/js2c.py] embeds the JavaScript library into the binary as C arrays.
    - [tools/install.py] copies what was built to where it is to be used.
    - [tools/test.py] with [tools/utils.py] selects the tests, runs them on a pool of
      threads against expectations in status files, and decides the exit code.

    ** The files

    - [Prelude]: the error monad [res] (a value, a Python exception, or an exhausted
      recursion budget), loops over it, the interface [SetPop] of [set.pop], and
      lemmas on lists and finite relations.
    - [PyStr], [PyFormat], [PyPath]: the methods of Python's [str], its [%] operator
      and the functions of [posixpath] that the programs use.
    - [TestExpr], [TestGrammar], [TestConfig], [TestRun] ([tools/test.py]): the language
      of the expressions in status files (tokenizer, parser, two evaluators), and its
      grammar; patterns, rules, sections, the reader of status files, [ClassifyTests];
      the verdict on an output, the wait for a child process and the thread pool, with
      the exceptions that leave the lock held.  [TestRun] meets [TestConfig] in the
      outcomes of a [ClassifiedTest].
    - [TestSuite] ([tools/test.py], [tools/utils.py], [test/testpy], [test/timers]): the
      kinds of tests and their commands, which tests there are, and [Main], which puts
      the parts together; [TestProgress]: what the indicators print and log meanwhile;
      [TestMessage] ([test/message/testcfg.py]): when a message test has failed.
    - [Common] ([gyp/common.py]): qualified targets, paths, shell quoting,
      [DeepDependencyTargets], [TopologicallySorted].  [RelativePath_on] is over the
      host's [os.path] with symbolic links and drives; the other parts use it on a posix
      host without links.
    - [Ordered] ([common.OrderedSet], [ordered_dict.OrderedDict]): the linked ring of
      both, with one heap of links; association lists.
    - [GypValue] ([input.py], [simple_copy.py]): what a loaded file consists of,
      [CheckedEval] over syntax trees with all constants of Python, [deepcopy], the
      predicates on texts.
    - [Merge] ([input.py]): [MergeLists], [MergeDicts], [SetUpConfigurations] on trees.
    - [Heap] ([input.py]): the store of lists and dictionaries, the cache of command
      results, the commands run and the files written; merging in the store.
    - [DepGraph] ([input.py]): [DependencyGraphNode], [BuildDependencyList], cycles.
    - [Targets] ([input.py]): the passes over all targets, in the order of [Load].
    - [ListFilters] ([input.py]): the exclusion and regular-expression filters.
    - [Expand], [ExpandProps] ([input.py]): [ExpandVariables], the conditions, and
      [ProcessVariablesAndConditionsInDict] and [InList], in the store; their theorems.
    - [BuildFiles], [Parallel] ([input.py]): included files, toolsets, what loading a
      file adds to it; loading many files on a pool of processes.
    - [Load] ([input.py]): [LoadTargetBuildFile] and [Load], which compose all of gyp's
      parts above.
    - [GypMain], [GypMainProps] ([gyp/__init__.py]): the options with the [optparse] that
      reads them, what is loaded for which format, and the flags of a regeneration.
    - [Analyzer], [AnalyzerProps], [AnalyzerSpec] ([gyp/generator/analyzer.py]): the
      generator that says which targets a change affects; the lemmas on its three
      traversals; what it writes, in terms of the dependencies alone.
    - [MsvsSettings], [MsvsTables], [MsvsProps] ([gyp/MSVSSettings.py]): the types of
      the settings of the Microsoft tools, the registry with the declarations of the
      module, validation and conversion; their theorems.
    - [EasyXml] ([gyp/easy_xml.py]): XML from nested lists, with a reader for it that
      normalises and rejects as XML readers do.
    - [VcProject], [VcProjectProps] ([gyp/MSVSProject.py], [MSVSToolFile.py],
      [MSVSUserFile.py]): the writers of project files, on [EasyXml], with the store
      of nodes that two indices share; the refinement of it to trees.
    - [MsvsUtil], [MsvsUtilProps] ([gyp/MSVSUtil.py]): targets that are taken apart
      and targets that are added because of a large symbol file.
    - [MsvsNew], [MsvsNewProps] ([gyp/MSVSNew.py]), [Md5] ([hashlib]): solutions, a
      reader for them, and the digest that GUIDs are made of.
    - [Make] ([gyp/generator/make.py]): what is written for a target, and the loop over
      the targets.  [MakeProps], [MakeRules]: what make and a shell read of it, as
      readers of assignments, words and rules; the order of the targets.  [MakeRoot],
      [MakeTemplates], [MakeRootProps]: the root makefile, its fixed texts, and what it
      includes.
    - [FileSystem]: a posix file system with symbolic links, for [Install] and
      [InstallProps] ([tools/install.py]).
    - [Js2c] ([tools/js2c.py]), [NinjaSyntax] ([gyp/ninja_syntax.py]).
    A definition has the name of the function or method it translates; a helper is a
    part of one, and stands in front of it.

    ** What is shown

    - Selecting tests: the parser of conditions answers just what their grammar
      derives, and ends on every text; evaluation is the meaning of the condition;
      printed status files are read back; every listed test gets the outcomes of all
      rules that match it, and the unused rules are reported; listing below a path is
      filtering the list of all tests.
    - Running tests: an invariant of the pool over every interleaving (every test is
      once in a queue, with a thread, recorded or lost), a measure that every step
      decreases, when the pool can go on and how an exception under the lock leaves it
      stuck; what the final verdict says about the outputs, with the two ways to report
      success without having run every test; which tests an exit code of zero stands
      for, and what a reader of the log finds.
    - gyp's helpers: round trips for qualified names and shell words, relative paths
      lead where they should, the two traversals are reachability and topological
      order; the ordered containers refine lists without repetition.
    - gyp's values: [CheckedEval] accepts exactly the files that start with a literal
      whose keys do not repeat, merging lists and
      dictionaries as the documentation of the input format says, filters keep what
      the last matching pattern says.
    - gyp's expansion: references are replaced by what the variables mean, a command
      runs once for its text and directory, a conditions entry is an if-chain.
    - gyp's graphs: the flat list is a topological order, or there is a cycle or an
      undefined dependency; deep dependencies are reachability; imports are a
      closure, and including and loading files end on cyclic inputs too.
    - gyp's command line: the flags of a regeneration are read as equivalent options,
      but for empty values and two switches.
    - gyp's analyzer: affected is who depends on a changed target, and what is to be
      built covers every changed target that requires a build.
    - gyp's Visual Studio settings: what is valid in the old format is converted to
      what is valid in the new one, whatever the order of the dictionaries.
    - gyp's Visual Studio files: what is written reads back as the XML that was meant,
      project files hold what the calls said, solutions all that their folders lead to,
      where no entry is listed twice, sharding loses and doubles no source.
    - gyp's makefiles: definitions reach the compiler as they are in the gyp file, rules
      mean what they were written for (the name that forces them is among the normal
      prerequisites), and inputs are those of the dependencies, which have to be written
      first; every target has its file, and make finds them all in the root makefile.
    - The installer: uninstalling removes what was installed and nothing else.
    - The writers: what a C compiler and Ninja read back is what was to be written.
    Where a theorem's premises or its disjunction shows behaviour that the code does
    not intend (a cycle that is not named, a pool that is never made, macro
    parameters that are never bound), the doc comment of the theorem says so.

    ** Conventions

    Python 2 byte strings are [string]; integers are [Z].  A dictionary is the list of
    its items in iteration order, which Python leaves open: statements hold for every
    order.  A dictionary that is only looked up is a [gmap].  Objects that are shared
    while they change are named: links by a number ([Ordered]), nodes by their [ref]
    ([DepGraph]), dictionaries by file and path ([BuildFiles]), and while variables
    are expanded, lists and dictionaries by their address ([Heap]): [Load] reads a
    tree into the store for each call of [ProcessVariablesAndConditionsInDict], whose
    lists in ["variables"] are shared, and reads it back.  An exception is the
    whole result, so the half-done state that Python leaves behind is not modelled
    unless somebody reads it.  Threads ([TestRun], [Parallel]) are step relations: one
    step is what one thread does between two points where another can see it.

    A recursion that is not structural takes a budget, and each is shown to suffice:
    the parser's is a multiple of the length of the text, a traversal's the number of
    nodes, [_line]'s the length of the text, [LoadTargetBuildFile]'s the number of
    readable files, [ExpandVariables]'s the longest chain of references.  The
    expansion of macros in [Js2c] and of variables that refer to themselves can
    diverge in Python too; there the budget is a parameter.

    ** What is not modelled

    Files, processes and clocks: reading a file or running a program is a parameter of
    the definitions that need its result. What is printed is kept where somebody reads
    it ([TestProgress], the files that generators write), but no warnings. Python's
    regular-expression engine and [eval] are parameters; the fixed patterns in the
    sources are written out as functions. After loading, data are strings, integers
    and string keys ([BuildFiles.plain_data]); a file with another constant, and none
    in the repository has one, ends in an error that stands for no error of the code.
    Of [make.py] the branches for Mac are left out, of [gyp/__init__.py] the import of
    a generator and the debug output. Not modelled at all: the other generators
    ([gyp/generator]), [MSVSVersion.py] and the Xcode files, and the other tools
    (linters, [configure]), which are tables, printing and calls of other programs;
    vendored code under [deps]. *)

From Stdlib Require Export ZArith Lia Ascii.
From stdpp Require Export base tactics list strings gmap fin_maps pretty relations option.
From stdpp Require Import options.
#[export] Set Warnings "-clear-no-such-hyp,-register-all".

(** ** The error monad

    A Python call returns a value or raises.  [exn] lists the exception
    classes that the modelled code raises or lets escape; [NoFuel] is not a
    Python outcome: it marks an exhausted recursion budget of a definition
    that takes one, and the theorems on such definitions exclude it. *)
Inductive exn :=
  | GypError (msg : string)
  | TypeError (msg : string)
  | ValueError (msg : string)
  | KeyError (key : string)
  | IndexError
  | ZeroDivisionError
  | AttributeError (attr : string)
  | NameError (name : string)
  | ImportError (msg : string)
  | AssertionError
  | RuntimeError (msg : string)
  | Exception_ (msg : string)
  | CycleError (nodes : gset string)
  | CircularException (cycles : list (list string))
  | SystemExit (code : Z)
  | OSError (errno : string)
  | ScriptError (msg : string).

#[global] Instance exn_eq_dec : EqDecision exn.
Proof. solve_decision. Defined.

Inductive res (A : Type) :=
  | Ok (a : A)
  | Err (e : exn)
  | NoFuel.
Arguments Ok {A} a.
Arguments Err {A} e.
Arguments NoFuel {A}.

#[global] Instance res_eq_dec `{EqDecision A} : EqDecision (res A).
Proof. solve_decision. Defined.

#[global] Instance res_ret : MRet res := fun A a => Ok a.
#[global] Instance res_bind : MBind res := fun A B f m =>
  match m with Ok a => f a | Err e => Err e | NoFuel => NoFuel end.
#[global] Instance res_fmap : FMap res := fun A B f m =>
  match m with Ok a => Ok (f a) | Err e => Err e | NoFuel => NoFuel end.

Definition is_ok {A} (m : res A) : bool :=
  match m with Ok _ => true | _ => false end.

(** [x = d[k]]: a missing entry raises. *)
Definition of_option {A} (e : exn) (o : option A) : res A :=
  match o with Some a => Ok a | None => Err e end.

(** [assert b] *)
Definition assert_ (b : bool) : res unit :=
  if b then Ok tt else Err AssertionError.

(** [for x in l: s = f(s, x)] where the body may raise. *)
Fixpoint foldM {S A} (f : S -> A -> res S) (s : S) (l : list A) : res S :=
  match l with
  | [] => Ok s
  | x :: l' => s' ← f s x; foldM f s' l'
  end.

(** ** Generic lemmas on the monad *)
Lemma bind_ok {A B} (m : res A) (f : A -> res B) b :
  (m ≫= f) = Ok b <-> exists a, m = Ok a /\ f a = Ok b.
Proof.
  split; [destruct m as [a| |]; simpl; [|done..]; eauto|].
  by intros (a & -> & ?).
Qed.

Lemma bind_err {A B} (m : res A) (f : A -> res B) e :
  (m ≫= f) = Err e <-> m = Err e \/ exists a, m = Ok a /\ f a = Err e.
Proof.
  split.
  - destruct m as [a| |]; simpl; [eauto|intros [= ->]; auto|done].
  - by intros [->|(a & -> & ?)].
Qed.

Lemma of_option_ok {A} e (o : option A) a : of_option e o = Ok a <-> o = Some a.
Proof. destruct o; simpl; split; congruence. Qed.

Section Monad.
Context {A S : Type}.

Lemma foldM_app (f : S -> A -> res S) s l1 l2 :
  foldM f s (l1 ++ l2) = (foldM f s l1 ≫= fun s' => foldM f s' l2).
Proof.
  revert s; induction l1 as [|x l1 IH]; intros s; simpl; [done|].
  destruct (f s x); simpl; auto.
Qed.

(** An invariant of the loop body is an invariant of the loop. *)
Lemma foldM_inv (P : S -> Prop) (f : S -> A -> res S) s l s' :
  P s -> (forall s x s', x ∈ l -> P s -> f s x = Ok s' -> P s') ->
  foldM f s l = Ok s' -> P s'.
Proof.
  revert s; induction l as [|x l IH]; intros s Hs Hstep; simpl.
  - intros [= <-]; done.
  - intros (s1 & H1 & H2)%bind_ok. eapply IH; [| |exact H2].
    + eapply Hstep; [left| |]; done.
    + intros; eapply Hstep; [right| |]; done.
Qed.

Lemma foldM_ok_pure (f : S -> A -> S) s l :
  foldM (fun s x => Ok (f s x)) s l = Ok (foldl f s l).
Proof. revert s; induction l; intros; simpl; auto. Qed.

Lemma foldM_ext (f g : S -> A -> res S) s l :
  (forall s x, x ∈ l -> f s x = g s x) -> foldM f s l = foldM g s l.
Proof.
  revert s; induction l as [|x l IH]; intros s H; simpl; [done|].
  rewrite H by left. destruct (g s x); simpl; [|done..]. apply IH. intros; apply H. by right.
Qed.

(** A loop whose body never raises on states satisfying [P] ends. *)
Lemma foldM_total (P : S -> Prop) (f : S -> A -> res S) s l :
  P s -> (forall s x, x ∈ l -> P s -> exists s', f s x = Ok s' /\ P s') ->
  exists s', foldM f s l = Ok s' /\ P s'.
Proof.
  revert s; induction l as [|x l IH]; intros s Hs Hstep; simpl; [eauto|].
  destruct (Hstep s x) as (s1 & -> & H1); [left|done|]. simpl.
  apply IH; [done|]. intros; eapply Hstep; [right|]; done.
Qed.

(** A loop whose body never exhausts a budget does not. *)
Lemma foldM_fuel (P : S -> Prop) (f : S -> A -> res S) s l :
  P s -> (forall s x, x ∈ l -> P s -> f s x <> NoFuel /\ forall s', f s x = Ok s' -> P s') ->
  foldM f s l <> NoFuel.
Proof.
  revert s; induction l as [|x l IH]; intros s Hs Hstep; simpl; [done|].
  destruct (Hstep s x) as [H1 H2]; [left|done|]. destruct (f s x) as [s1|e|]; simpl; [|done..].
  apply IH; [by apply H2|]. intros; apply Hstep; [by right|done].
Qed.
End Monad.

Lemma mapM_ok {A B} (f : A -> res B) l k : mapM f l = Ok k -> Forall2 (fun x y => f x = Ok y) l k.
Proof.
  revert k. induction l as [|x l IH]; intros k; simpl; [by intros [= <-]|].
  intros (y & Hy & (k' & Hk & [= <-])%bind_ok)%bind_ok. constructor; auto.
Qed.

Lemma forallb_Forall {A} (p : A -> bool) l : forallb p l = true -> Forall (fun x => p x = true) l.
Proof. intros H. apply list.Forall_forall. intros x Hx. rewrite forallb_forall in H. by apply H, list_elem_of_In. Qed.

Lemma bind_fuel {A B} (m : res A) (f : A -> res B) :
  m <> NoFuel -> (forall a, m = Ok a -> f a <> NoFuel) -> (m ≫= f) <> NoFuel.
Proof. destruct m; simpl; auto; done. Qed.

(** ** Tactics *)

(** Splits a call that is to be shown not to exhaust its budget. *)
Ltac no_fuel :=
  repeat first
    [ apply bind_fuel; [|intros ? ?]
    | discriminate
    | case_match; simplify_eq ].


(** Inverts [(x ← m; k) = Ok b] hypotheses, naming nothing. *)
Ltac inv_ok :=
  repeat match goal with
  | H : Ok _ = Ok _ |- _ => injection H; clear H; intros; subst
  | H : mret _ = Ok _ |- _ => unfold mret, res_ret in H
  | H : Err _ = Ok _ |- _ => discriminate H
  | H : NoFuel = Ok _ |- _ => discriminate H
  | H : (_ ≫= _) = Ok _ |- _ =>
      apply bind_ok in H; destruct H as (? & ? & H)
  | H : of_option _ _ = Ok _ |- _ => apply of_option_ok in H
  | H : Ok _ = Err _ |- _ => discriminate H
  end.

(** Case analysis on every [if]/[match] of the goal, closing absurd cases. *)
Ltac cases :=
  repeat (case_match; simplify_eq/=; try done).

(** A decidable closed proposition, by evaluation. *)
Ltac decided := apply (bool_decide_unpack _); vm_compute; exact I.

(** Turns boolean tests into propositions. *)
Ltac reflect :=
  repeat match goal with
  | H : _ && _ = true |- _ => apply andb_true_iff in H; destruct H
  | H : _ || _ = false |- _ => apply orb_false_iff in H; destruct H
  | H : negb _ = true |- _ => apply negb_true_iff in H
  | H : negb _ = false |- _ => apply negb_false_iff in H
  | H : bool_decide _ = true |- _ => apply bool_decide_eq_true in H
  | H : bool_decide _ = false |- _ => apply bool_decide_eq_false in H
  | H : String.eqb _ _ = true |- _ => apply String.eqb_eq in H
  | H : String.eqb _ _ = false |- _ => apply String.eqb_neq in H
  | H : Ascii.eqb _ _ = true |- _ => apply Ascii.eqb_eq in H
  | H : Ascii.eqb _ _ = false |- _ => apply Ascii.eqb_neq in H
  | H : (_ =? _)%nat = true |- _ => apply Nat.eqb_eq in H
  | H : (_ =? _)%nat = false |- _ => apply Nat.eqb_neq in H
  | H : (_ <? _)%nat = true |- _ => apply Nat.ltb_lt in H
  | H : (_ <? _)%nat = false |- _ => apply Nat.ltb_ge in H
  | H : (_ <=? _)%nat = true |- _ => apply Nat.leb_le in H
  | H : (_ <=? _)%nat = false |- _ => apply Nat.leb_gt in H
  | H : (_ =? _)%Z = true |- _ => apply Z.eqb_eq in H
  | H : (_ =? _)%Z = false |- _ => apply Z.eqb_neq in H
  | H : (_ <? _)%Z = true |- _ => apply Z.ltb_lt in H
  | H : (_ <? _)%Z = false |- _ => apply Z.ltb_ge in H
  | H : (_ <=? _)%Z = true |- _ => apply Z.leb_le in H
  | H : (_ <=? _)%Z = false |- _ => apply Z.leb_gt in H
  end.

Create HintDb py.
Create Rewrite HintDb py_rw.
#[export] Hint Rewrite @foldM_app @foldM_ok_pure : py_rw.

(** ** Lists *)
Section Lists.
Context {A : Type}.

(** [l[i:j]] for [0 <= i <= j]. *)
Definition slice (i j : nat) (l : list A) : list A := take (j - i) (drop i l).

Lemma NoDup_snoc (l : list A) x : NoDup l -> x ∉ l -> NoDup (l ++ [x]).
Proof.
  intros Hl Hx. apply list.NoDup_app. split_and!; [done| |apply NoDup_singleton].
  intros y Hy ->%list_elem_of_singleton. done.
Qed.

Lemma filter_length_le (P : A -> Prop) `{!forall x, Decision (P x)} (l : list A) :
  length (filter P l) <= length l.
Proof. apply length_filter. Qed.
End Lists.

(** ** [set.pop]

    Python's [set.pop] takes an arbitrary element of a set that has one.  Code
    that calls it is modelled over any such choice. *)
Class SetPop (pop : gset string -> option string) : Prop := {
  set_pop_some s x : pop s = Some x -> x ∈ s;
  set_pop_none s : pop s = None -> s = ∅ }.

Definition pop_first (s : gset string) : option string := head (elements s).
#[export] Instance pop_first_ok : SetPop pop_first.
Proof.
  split; intros s; unfold pop_first.
  - intros x H. apply elem_of_elements. destruct (elements s); [done|].
    injection H as <-. left.
  - intros H. apply leibniz_equiv, elements_empty_inv. by destruct (elements s).
Qed.

(** ** Cycles in finite relations *)
Section FiniteCycles.
Context `{Countable A}.

Lemma tc_contract (R : relation A) x y z :
  tc (fun a b => R a b \/ (R a x /\ R x b)) y z -> tc R y z.
Proof.
  induction 1 as [y z [Hyz|[? ?]]|y w z [Hyw|[? ?]] _ IH].
  - by constructor.
  - eapply tc_l; [done|by constructor].
  - by eapply tc_l.
  - eapply tc_l; [done|]. by eapply tc_l.
Qed.

(** In a finite set where every element has a successor, some element reaches
    itself. *)
Lemma finite_cycle (S : gset A) (R : relation A) :
  S <> ∅ -> (forall x, x ∈ S -> exists y, y ∈ S /\ R x y) -> exists z, z ∈ S /\ tc R z z.
Proof.
  remember (size S) as n eqn:Hn. revert S R Hn.
  induction n as [|n IH]; intros S R Hn HS Hsucc.
  { symmetry in Hn. apply size_empty_iff in Hn. set_solver. }
  destruct (set_choose_L S HS) as [x Hx].
  destruct (Hsucc x Hx) as (w & Hw & Hxw).
  destruct (decide (w = x)) as [->|Hwx]; [exists x; split; [done|by constructor]|].
  destruct (IH (S ∖ {[x]}) (fun a b => R a b \/ (R a x /\ R x b))) as (z & Hz & Hc).
  - rewrite size_difference, size_singleton by set_solver. lia.
  - set_solver.
  - intros y Hy. destruct (Hsucc y) as (z & Hz & Hyz); [set_solver|].
    destruct (decide (z = x)) as [->|Hzx]; [exists w|exists z]; set_solver.
  - exists z. split; [set_solver|]. by eapply tc_contract.
Qed.
End FiniteCycles.

Lemma NoDup_incl_Permutation {A} (l k : list A) :
  NoDup l -> NoDup k -> l ⊆ k -> length l = length k -> l ≡ₚ k.
Proof.
  intros Hl Hk Hsub Hlen. apply submseteq_length_Permutation; [|lia].
  apply NoDup_submseteq; [done|]. exact Hsub.
Qed.
