(* ===== verification/PyStr.v ===== *)
(** * Python 2 byte strings: the [str] methods that the tooling uses

    A Python 2 [str] is a sequence of bytes; it is modelled by [string], whose
    characters are the 256 values of [ascii].  Character classes are those of
    the C locale. *)
From S2P Require Import Prelude.
From stdpp Require Import options.

#[global] Arguments String.append : simpl nomatch.

Declare Scope py_scope.
Delimit Scope py_scope with py.
Open Scope py_scope.

(** ** Character classes *)
Definition ord (c : ascii) : nat := nat_of_ascii c.
Definition in_range (lo hi : nat) (c : ascii) : bool := (lo <=? ord c) && (ord c <=? hi).
Definition isspace (c : ascii) : bool := in_range 9 13 c || (ord c =? 32).
Definition isdigit (c : ascii) : bool := in_range 48 57 c.
Definition isupper (c : ascii) : bool := in_range 65 90 c.
Definition islower (c : ascii) : bool := in_range 97 122 c.
Definition isalpha (c : ascii) : bool := isupper c || islower c.
Definition tolower (c : ascii) : ascii :=
  if isupper c then ascii_of_nat (ord c + 32) else c.
Definition toupper (c : ascii) : ascii :=
  if islower c then ascii_of_nat (ord c - 32) else c.

Definition newline : ascii := "010"%char.
Definition nl : string := String newline "".
Definition dquote : ascii := "034"%char.
Definition carriage_return : ascii := "013"%char.
(** The dot of a regular expression *)
Definition any_char (c : ascii) : bool := negb (Ascii.eqb c newline).

(** ** Methods *)
Fixpoint str_map (f : ascii -> ascii) (s : string) : string :=
  match s with "" => "" | String c s' => String (f c) (str_map f s') end.
Definition lower : string -> string := str_map tolower.
Definition upper : string -> string := str_map toupper.

(** [all(p(c) for c in s)] and [any(p(c) for c in s)] *)
Fixpoint str_forallb (p : ascii -> bool) (s : string) : bool :=
  match s with "" => true | String c s' => p c && str_forallb p s' end.
Fixpoint str_existsb (p : ascii -> bool) (s : string) : bool :=
  match s with "" => false | String c s' => p c || str_existsb p s' end.
(** [c in s] for a one-character [c] *)
Definition str_mem (c : ascii) : string -> bool := str_existsb (Ascii.eqb c).

Fixpoint lstrip_of (p : ascii -> bool) (s : string) : string :=
  match s with
  | "" => ""
  | String c s' => if p c then lstrip_of p s' else s
  end.
Fixpoint rstrip_of (p : ascii -> bool) (s : string) : string :=
  match s with
  | "" => ""
  | String c s' =>
      match rstrip_of p s' with
      | "" => if p c then "" else String c ""
      | r => String c r
      end
  end.
Definition strip (s : string) : string := rstrip_of isspace (lstrip_of isspace s).
Definition rstrip : string -> string := rstrip_of isspace.

Definition startswith (pre s : string) : bool := String.prefix pre s.
Fixpoint endswith (suf s : string) : bool :=
  String.eqb suf s ||
  match s with "" => false | String _ s' => endswith suf s' end.

Fixpoint str_take (n : nat) (s : string) : string :=
  match n, s with S n', String c s' => String c (str_take n' s') | _, _ => "" end.
Fixpoint str_drop (n : nat) (s : string) : string :=
  match n, s with S n', String _ s' => str_drop n' s' | _, _ => s end.
(** [s[i:j]] for [0 <= i] and [0 <= j] *)
Definition str_slice (i j : nat) (s : string) : string := str_take (j - i) (str_drop i s).
(** [s[-n:]] and [s[:-n]] for [n > 0] *)
Definition str_last (n : nat) (s : string) : string := str_drop (String.length s - n) s.
Definition str_init (n : nat) (s : string) : string := str_take (String.length s - n) s.

(** [s.find(sub, start)] *)
Definition str_find (sub : string) (start : nat) (s : string) : option nat :=
  String.index start sub s.
Definition contains (sub s : string) : bool :=
  match str_find sub 0 s with Some _ => true | None => false end.

(** [s.split(c)] for a separator given as a predicate: never empty. *)
Fixpoint split_on (p : ascii -> bool) (s : string) : list string :=
  match s with
  | "" => [""]
  | String a s' =>
      if p a then "" :: split_on p s'
      else match split_on p s' with
           | [] => [String a ""]
           | h :: t => String a h :: t
           end
  end.
Definition split_char (c : ascii) : string -> list string := split_on (Ascii.eqb c).
(** The longest prefix of characters that satisfy [p], and the rest: a greedy match *)
Fixpoint span (p : ascii -> bool) (s : string) : string * string :=
  match s with
  | "" => ("", "")
  | String c s' => if p c then let (a, b) := span p s' in (String c a, b) else ("", s)
  end.
(** [s.split()] *)
Definition split_ws (s : string) : list string :=
  filter (fun w => w <> "") (split_on isspace s).

(** [sep.join(l)] *)
Definition join : string -> list string -> string := String.concat.

(** [s.split(c, 1)] and [s.rsplit(c, 1)]: [None] when there is one part. *)
Fixpoint split1 (c : ascii) (s : string) : option (string * string) :=
  match s with
  | "" => None
  | String a s' =>
      if Ascii.eqb c a then Some ("", s')
      else match split1 c s' with Some (x, y) => Some (String a x, y) | None => None end
  end.
Fixpoint rsplit1 (c : ascii) (s : string) : option (string * string) :=
  match s with
  | "" => None
  | String a s' =>
      match rsplit1 c s' with
      | Some (x, y) => Some (String a x, y)
      | None => if Ascii.eqb c a then Some ("", s') else None
      end
  end.

(** [s.replace(old, new)], occurrences taken from the left without overlap;
    [skip] counts the characters of the current occurrence still to drop. *)
Fixpoint str_replace_from (old new : string) (skip : nat) (s : string) : string :=
  match s with
  | "" => ""
  | String a s' =>
      match skip with
      | S k => str_replace_from old new k s'
      | 0 => if String.prefix old s
             then new +:+ str_replace_from old new (String.length old - 1) s'
             else String a (str_replace_from old new 0 s')
      end
  end.
(** [old] is a non-empty literal at every use. *)
Definition str_replace (old new s : string) : string := str_replace_from old new 0 s.

(** [s.replace(c, new)] for a one-character [c], also [re.sub] on a class. *)
Fixpoint str_subst (f : ascii -> string) (s : string) : string :=
  match s with "" => "" | String a s' => f a +:+ str_subst f s' end.

(** [n * s] *)
Fixpoint str_repeat (n : nat) (s : string) : string :=
  match n with 0 => "" | S n' => s +:+ str_repeat n' s end.

(** [int(s)] for an optional minus sign and decimal digits (the only forms the
    tooling relies on); [None] stands for [ValueError]. *)
Fixpoint digits_value (acc : Z) (s : string) : option Z :=
  match s with
  | "" => Some acc
  | String c s' =>
      if isdigit c then digits_value (10 * acc + Z.of_nat (ord c - 48)) s' else None
  end.
Definition int_of_string (s : string) : option Z :=
  match s with
  | "" => None
  | String c "" => if isdigit c then digits_value 0 s else None
  | String c s' =>
      if Ascii.eqb c "-" then Z.opp <$> digits_value 0 s' else digits_value 0 s
  end.
(** [str(n)] *)
Definition string_of_int (n : Z) : string := pretty n.

(** [shlex.split]: [word] is the current word, if one has begun, and [quote] the
    open quotation mark. *)
Fixpoint shlex_words (quote : option ascii) (word : option string) (s : string)
    : res (list string) :=
  let put (c : ascii) := Some (default "" word +:+ String c "") in
  match s with
  | "" =>
      match quote with
      | Some _ => Err (ValueError "No closing quotation")
      | None => Ok (match word with Some w => [w] | None => [] end)
      end
  | String c s =>
      match quote with
      | Some q =>
          if Ascii.eqb c q then shlex_words None (Some (default "" word)) s
          else if Ascii.eqb q dquote && Ascii.eqb c "\" then
            match s with
            | "" => Err (ValueError "No escaped character")
            | String d s =>
                let word := if Ascii.eqb d dquote || Ascii.eqb d "\" then put d
                            else Some (default "" word +:+ String c (String d "")) in
                shlex_words quote word s
            end
          else shlex_words quote (put c) s
      | None =>
          if isspace c && negb (ord c =? 11) && negb (ord c =? 12) then
            match word with
            | Some w => ws ← shlex_words None None s; Ok (w :: ws)
            | None => shlex_words None None s
            end
          else if Ascii.eqb c "'" || Ascii.eqb c dquote then
            shlex_words (Some c) (Some (default "" word)) s
          else if Ascii.eqb c "\" then
            match s with
            | "" => Err (ValueError "No escaped character")
            | String d s => shlex_words None (put d) s
            end
          else shlex_words None (put c) s
      end
  end.
Definition shlex_split (s : string) : res (list string) := shlex_words None None s.

(** [sorted(d.iteritems())], by the keys, which are all different *)
Fixpoint insert_item {V} (item : string * V) (l : list (string * V)) : list (string * V) :=
  match l with
  | [] => [item]
  | x :: l' => if String.leb item.1 x.1 then item :: l else x :: insert_item item l'
  end.
Definition sorted_items {V} (l : list (string * V)) : list (string * V) := foldr insert_item [] l.

(** ** Lemmas *)
Lemma append_nil_r s : s +:+ "" = s.
Proof. induction s; simpl; congruence. Qed.
Lemma append_assoc s1 s2 s3 : (s1 +:+ s2) +:+ s3 = s1 +:+ s2 +:+ s3.
Proof. induction s1; simpl; congruence. Qed.
Lemma append_cons c s1 s2 : String c s1 +:+ s2 = String c (s1 +:+ s2).
Proof. done. Qed.
Lemma length_append s1 s2 :
  String.length (s1 +:+ s2) = String.length s1 + String.length s2.
Proof. induction s1; simpl; congruence. Qed.
Lemma append_inj_l s s1 s2 : s +:+ s1 = s +:+ s2 -> s1 = s2.
Proof. induction s; simpl; [done|]. intros [= H]; auto. Qed.
#[export] Hint Rewrite append_nil_r append_assoc append_cons length_append : py_rw.

Lemma str_existsb_app p s1 s2 :
  str_existsb p (s1 +:+ s2) = str_existsb p s1 || str_existsb p s2.
Proof. induction s1; simpl; [done|]. by rewrite IHs1, orb_assoc. Qed.
Lemma str_mem_app c s1 s2 : str_mem c (s1 +:+ s2) = str_mem c s1 || str_mem c s2.
Proof. apply str_existsb_app. Qed.
Lemma str_forallb_app p s1 s2 :
  str_forallb p (s1 +:+ s2) = str_forallb p s1 && str_forallb p s2.
Proof. induction s1; simpl; [done|]. by rewrite IHs1, andb_assoc. Qed.
#[export] Hint Rewrite str_existsb_app str_mem_app str_forallb_app : py_rw.

Lemma str_existsb_forallb p s : str_existsb p s = negb (str_forallb (fun c => negb (p c)) s).
Proof. induction s; simpl; [done|]. rewrite IHs. by destruct (p a). Qed.

Lemma str_take_drop n s : str_take n s +:+ str_drop n s = s.
Proof. revert s; induction n; intros [|c s]; simpl; [done..|]. by rewrite IHn. Qed.
Lemma str_take_app s1 s2 : str_take (String.length s1) (s1 +:+ s2) = s1.
Proof. induction s1; simpl; [by destruct s2|]. congruence. Qed.
Lemma str_drop_app s1 s2 : str_drop (String.length s1) (s1 +:+ s2) = s2.
Proof. induction s1; simpl; [by destruct s2|]. congruence. Qed.
Lemma str_take_all s : str_take (String.length s) s = s.
Proof. induction s; simpl; congruence. Qed.
Lemma str_drop_all s : str_drop (String.length s) s = "".
Proof. by induction s. Qed.
Lemma length_str_drop n s : String.length (str_drop n s) = String.length s - n.
Proof. revert s; induction n; intros [|c s]; simpl; auto. Qed.
Lemma length_str_take n s : String.length (str_take n s) = min n (String.length s).
Proof. revert s; induction n; intros [|c s]; simpl; auto. Qed.
#[export] Hint Rewrite str_take_app str_drop_app str_take_all
  length_str_drop length_str_take : py_rw.

Lemma split_on_nonempty p s : split_on p s <> [].
Proof. destruct s; simpl; [done|]. destruct (p _), (split_on p s); done. Qed.

Lemma join_split_char c s : join (String c "") (split_char c s) = s.
Proof.
  unfold split_char; induction s as [|a s IH]; [done|]; simpl.
  pose proof (split_on_nonempty (Ascii.eqb c) s) as Hne.
  destruct (Ascii.eqb_spec c a) as [->|]; destruct (split_on _ s) as [|h t];
    simpl in *; try done.
  - by rewrite IH.
  - destruct t; simpl in *; by rewrite <- IH.
Qed.

Lemma split_char_free c s : str_mem c s = false -> split_char c s = [s].
Proof.
  unfold split_char, str_mem; induction s as [|a s IH]; [done|]; simpl.
  intros [-> H]%orb_false_iff. by rewrite IH.
Qed.
Lemma split_char_app c s1 s2 : str_mem c s1 = false ->
  split_char c (s1 +:+ String c s2) = s1 :: split_char c s2.
Proof.
  unfold split_char, str_mem; induction s1 as [|a s1 IH]; simpl.
  - by rewrite Ascii.eqb_refl.
  - intros [-> H]%orb_false_iff. by rewrite IH.
Qed.

Lemma split_char_join c l :
  l <> [] -> Forall (fun w => str_mem c w = false) l ->
  split_char c (join (String c "") l) = l.
Proof.
  intros Hne Hl; induction Hl as [|w l Hw Hl IH]; [done|].
  destruct l as [|w' l].
  - by apply split_char_free.
  - change (join _ _) with (w +:+ String c (join (String c "") (w' :: l))).
    rewrite split_char_app by done. by rewrite IH.
Qed.

Lemma rsplit1_free c s : rsplit1 c s = None <-> str_mem c s = false.
Proof.
  unfold str_mem; induction s as [|a s IH]; simpl; [done|].
  destruct (rsplit1 c s) as [[x y]|] eqn:E.
  - destruct (str_existsb _ s); [by rewrite orb_true_r|]. naive_solver.
  - destruct IH as [H1 _]. rewrite (H1 eq_refl), orb_false_r.
    by destruct (Ascii.eqb c a).
Qed.
Lemma rsplit1_app c x y : str_mem c y = false ->
  rsplit1 c (x +:+ String c y) = Some (x, y).
Proof.
  intros Hy; induction x as [|a x IH]; simpl.
  - apply rsplit1_free in Hy. by rewrite Hy, Ascii.eqb_refl.
  - by rewrite IH.
Qed.
Lemma rsplit1_some c s x y : rsplit1 c s = Some (x, y) ->
  s = x +:+ String c y /\ str_mem c y = false.
Proof.
  revert x y; induction s as [|a s IH]; intros x y; simpl; [done|].
  destruct (rsplit1 c s) as [[x' y']|] eqn:E.
  - intros [= <- <-]. destruct (IH x' y' eq_refl) as [-> ?]. done.
  - destruct (Ascii.eqb_spec c a) as [->|]; [|done].
    intros [= <- <-]. split; [done|]. by apply rsplit1_free.
Qed.

Lemma str_subst_app f s1 s2 : str_subst f (s1 +:+ s2) = str_subst f s1 +:+ str_subst f s2.
Proof. induction s1; simpl; [done|]. by rewrite IHs1, append_assoc. Qed.
Lemma str_subst_id f s : (forall c, str_mem c s = true -> f c = String c "") ->
  str_subst f s = s.
Proof.
  unfold str_mem; induction s as [|a s IH]; simpl; intros H; [done|].
  rewrite H by (by rewrite Ascii.eqb_refl). simpl. f_equal.
  apply IH. intros c Hc. apply H. by rewrite Hc, orb_true_r.
Qed.

Lemma prefix_app p s : String.prefix p (p +:+ s) = true.
Proof. induction p; simpl; [by destruct s|]. by destruct (ascii_dec a a). Qed.
Lemma prefix_split p s : String.prefix p s = true ->
  s = p +:+ str_drop (String.length p) s.
Proof.
  revert s; induction p as [|a p IH]; intros [|c s]; simpl; try done.
  destruct (ascii_dec a c) as [->|]; [|done]. intros; f_equal; auto.
Qed.

Lemma str_mem_cons c d s : str_mem c (String d s) = Ascii.eqb c d || str_mem c s.
Proof. done. Qed.
Lemma startswith_cons c p d s :
  startswith (String c p) (String d s) = Ascii.eqb c d && startswith p s.
Proof.
  unfold startswith. simpl. destruct (ascii_dec c d) as [->|Hne]; [by rewrite Ascii.eqb_refl|].
  by apply Ascii.eqb_neq in Hne as ->.
Qed.
Lemma startswith_nil s : startswith "" s = true.
Proof. by destruct s. Qed.
Lemma span_shift p a s : str_forallb p a = true -> span p (a +:+ s) = (a +:+ (span p s).1, (span p s).2).
Proof.
  induction a as [|c a IH]; cbn [str_forallb String.append span]; intros Hp; [by destruct (span p s)|].
  apply andb_true_iff in Hp as [-> Hp]. by rewrite (IH Hp).
Qed.
Lemma span_app p a c b : str_forallb p a = true -> p c = false ->
  span p (a +:+ String c b) = (a, String c b).
Proof. intros Ha Hc. rewrite span_shift by done. cbn [span]. rewrite Hc. cbn. by rewrite append_nil_r. Qed.

Lemma rstrip_of_none p s : str_forallb (fun c => negb (p c)) s = true -> rstrip_of p s = s.
Proof.
  induction s as [|c s IH]; simpl; [done|]. intros [Hc Hs]%andb_true_iff.
  rewrite IH by done. destruct s; [|done]. by destruct (p c).
Qed.
Lemma strip_spaceless s : str_forallb (fun c => negb (isspace c)) s = true -> strip s = s.
Proof.
  intros H. unfold strip. replace (lstrip_of isspace s) with s; [by apply rstrip_of_none|].
  destruct s as [|c s]; [done|]. simpl in *. by destruct (isspace c).
Qed.

Lemma lower_idem s : lower (lower s) = lower s.
Proof.
  unfold lower; induction s as [|c s IH]; simpl; [done|]. f_equal; [|done].
  clear. by destruct c as [[] [] [] [] [] [] [] []].
Qed.

(** *** Ends of texts *)
Lemma join_snoc sep ts t : ts <> [] -> join sep (ts ++ [t]) = join sep ts +:+ sep +:+ t.
Proof.
  intros Hne. induction ts as [|a ts IH]; [done|]. destruct ts as [|b ts]; [done|].
  change (join sep ((a :: b :: ts) ++ [t])) with (a +:+ sep +:+ join sep ((b :: ts) ++ [t])).
  rewrite IH by done.
  change (join sep (a :: b :: ts)) with (a +:+ sep +:+ join sep (b :: ts)).
  by rewrite !append_assoc.
Qed.
Lemma str_init_snoc t c : str_init 1 (t +:+ String c "") = t.
Proof.
  unfold str_init. rewrite length_append. simpl. rewrite Nat.add_sub. apply str_take_app.
Qed.
Lemma endswith_app a b : endswith b (a +:+ b) = true.
Proof.
  induction a as [|c a IH]; cbn [String.append endswith].
  - destruct b; cbn; [done|]. by rewrite Ascii.eqb_refl, String.eqb_refl.
  - rewrite IH. apply orb_true_r.
Qed.
Definition one_line (s : string) : bool := negb (str_mem newline s).
Lemma one_line_app a b : one_line a = true -> one_line b = true -> one_line (a +:+ b) = true.
Proof. unfold one_line. rewrite str_mem_app. intros ->%negb_true_iff ->%negb_true_iff. done. Qed.

Lemma split_newlines l : Forall (fun s => one_line s = true) l ->
  split_char newline (join "" (map (fun s => s +:+ nl) l)) = (l ++ [""])%list.
Proof.
  induction 1 as [|s l Hs Hl IH]; [done|].
  assert (E : join "" (map (fun s => s +:+ nl) (s :: l)) = s +:+ String newline (join "" (map (fun s => s +:+ nl) l))).
  { unfold join in *. destruct l as [|s' l]; [done|]. cbn [map String.concat]. by rewrite append_assoc. }
  rewrite E, split_char_app, IH; [done|]. by apply negb_true_iff.
Qed.

(** *** [split1] *)
Lemma split1_free c s : str_mem c s = false -> split1 c s = None.
Proof.
  unfold str_mem. induction s as [|d s IH]; simpl; [done|]. intros [H1 H2]%orb_false_iff.
  by rewrite H1, IH.
Qed.
Lemma split1_app c a b : str_mem c a = false -> split1 c (a +:+ String c b) = Some (a, b).
Proof.
  induction a as [|d a IH]; cbn [String.append split1]; [by rewrite Ascii.eqb_refl|].
  rewrite str_mem_cons. intros [Hd Ha]%orb_false_iff. by rewrite Hd, (IH Ha).
Qed.

(** *** The order of texts *)
Lemma ascii_compare_eq a b : Ascii.compare a b = Eq <-> a = b.
Proof.
  unfold Ascii.compare. rewrite N.compare_eq_iff. split; [|by intros ->].
  intros H. by rewrite <- (ascii_N_embedding a), H, ascii_N_embedding.
Qed.
Lemma string_leb_refl s : String.leb s s = true.
Proof.
  unfold String.leb. induction s as [|c s IH]; [done|]. cbn [String.compare].
  by rewrite (proj2 (ascii_compare_eq c c)).
Qed.
Lemma string_leb_total s t : String.leb s t = true \/ String.leb t s = true.
Proof. apply String.leb_total. Qed.
Lemma string_leb_cons c s d t : String.leb (String c s) (String d t) = true <->
  (N_of_ascii c < N_of_ascii d)%N \/ c = d /\ String.leb s t = true.
Proof.
  unfold String.leb. cbn [String.compare]. destruct (Ascii.compare c d) eqn:E.
  - apply ascii_compare_eq in E as ->. split; [by right|]. intros [?|[_ ?]]; [lia|done].
  - split; [left; exact (proj1 (N.compare_lt_iff _ _) E)|done].
  - split; [done|]. unfold Ascii.compare in E. rewrite N.compare_gt_iff in E. intros [?|[-> _]]; lia.
Qed.
Lemma string_leb_trans s t u : String.leb s t = true -> String.leb t u = true -> String.leb s u = true.
Proof.
  revert t u. induction s as [|c s IH]; intros [|d t] [|e u]; try done.
  rewrite !string_leb_cons. intros [?|[-> Hst]] [?|[-> Htu]]; [left; lia|by left|by left|].
  right. split; [done|]. by eapply IH.
Qed.

(** *** Numbers *)
Section Numbers.
#[local] Open Scope Z_scope.
Lemma pretty_digit x : (x < 10)%N -> isdigit (pretty_N_char x) = true /\ Z.of_nat (ord (pretty_N_char x) - 48) = Z.of_N x.
Proof. intros H. destruct x as [|p]; [by split|]. do 4 (destruct p as [p|p|]; try (by split); try lia). Qed.
Lemma digits_value_go x s : (0 < x)%N -> exists k : N, forall acc,
  digits_value acc (pretty_N_go x s) = digits_value (acc * 10 ^ Z.of_N k + Z.of_N x) s.
Proof.
  revert s. induction (N.lt_wf_0 x) as [x _ IH]. intros s Hx. rewrite pretty_N_go_step by done.
  destruct (pretty_digit (x mod 10)) as [Hd Hv]; [by apply N.mod_lt|].
  assert (E : forall acc, digits_value acc (String (pretty_N_char (x mod 10)) s) = digits_value (10 * acc + Z.of_N (x mod 10)) s).
  { intros acc. cbn [digits_value]. by rewrite Hd, Hv. }
  assert (Hdiv : Z.of_N x = 10 * Z.of_N (x / 10) + Z.of_N (x mod 10)).
  { rewrite N2Z.inj_div, N2Z.inj_mod. by apply Z.div_mod. }
  destruct (decide (x / 10 = 0)%N) as [E0|E0].
  - exists 1%N. intros acc. rewrite E0, pretty_N_go_0, E. f_equal. rewrite E0 in Hdiv. lia.
  - destruct (IH (x / 10)%N) with (s := String (pretty_N_char (x mod 10)) s) as (k & Hk); [by apply N.div_lt|by apply N.neq_0_lt_0|].
    exists (k + 1)%N. intros acc. rewrite Hk, E. f_equal. rewrite Hdiv, N2Z.inj_add, Z.pow_add_r by lia.
    change (10 ^ Z.of_N 1) with 10. ring.
Qed.
Lemma int_of_digits s n : s <> "" -> digits_value 0 s = Some n -> int_of_string s = Some n.
Proof.
  destruct s as [|c s]; [done|]. intros _ H. assert (Hc : isdigit c = true) by (cbn in H; by destruct (isdigit c)).
  unfold int_of_string. destruct s as [|d s]; [by rewrite Hc|]. destruct (Ascii.eqb_spec c "-") as [->|]; [done|done].
Qed.
Lemma int_of_string_of_int n : 0 <= n -> int_of_string (string_of_int n) = Some n.
Proof.
  intros Hn. destruct n as [|p|p]; [done| |lia]. unfold string_of_int.
  change (pretty (Z.pos p)) with (pretty_N_go (N.pos p) "").
  destruct (digits_value_go (N.pos p) "") as (k & Hk); [done|]. specialize (Hk 0). rewrite Z.mul_0_l, Z.add_0_l in Hk.
  apply int_of_digits; [|done]. intros E. rewrite E in Hk. done.
Qed.
Lemma pretty_free c x s : isdigit c = false -> str_mem c s = false -> str_mem c (pretty_N_go x s) = false.
Proof.
  intros Hc. revert s. induction (N.lt_wf_0 x) as [x _ IH]. intros s Hs.
  destruct (decide (x = 0)%N) as [->|Hx]; [by rewrite pretty_N_go_0|].
  rewrite pretty_N_go_step by lia. apply IH; [apply N.div_lt; lia|].
  destruct (pretty_digit (x mod 10)) as [Hd _]; [by apply N.mod_lt|]. rewrite str_mem_cons.
  destruct (Ascii.eqb_spec c (pretty_N_char (x mod 10))) as [E|]; [by rewrite <- E, Hc in Hd|done].
Qed.
Lemma string_of_int_free c n : isdigit c = false -> c <> "-"%char -> str_mem c (string_of_int n) = false.
Proof.
  intros Hc Hm. unfold string_of_int. destruct n as [|p|p].
  - cbn. destruct (Ascii.eqb_spec c "0") as [->|]; done.
  - change (pretty (Z.pos p)) with (pretty_N_go (N.pos p) ""). by apply pretty_free.
  - change (pretty (Z.neg p)) with (String "-" (pretty_N_go (N.pos p) "")). rewrite str_mem_cons, pretty_free by done.
    by destruct (Ascii.eqb_spec c "-").
Qed.
End Numbers.
