(* ===== verification/PyFormat.v ===== *)
(** * [text % dictionary], Python's formatting of texts *)
From S2P Require Import Prelude PyStr.
From stdpp Require Import options.
#[local] Open Scope nat_scope.

(** A directive of Python's formatting: the key in brackets, what is between it and
    the type, and the type.  Those other than a plain [%(key)s] and [%%] are [other]. *)
Record directive := { d_key : option string; d_spec : string; d_type : ascii }.
Definition spec_char (c : ascii) : bool := str_mem c "#0- +123456789.*hlL".
(** The key, up to the bracket that closes it *)
Fixpoint format_key (depth : nat) (s : string) : option (string * string) :=
  match s with
  | "" => None
  | String c rest =>
      if Ascii.eqb c ")" then
        match depth with
        | 0 => Some ("", rest)
        | S depth => '(k, r) ← format_key depth rest; Some (String c k, r)
        end
      else '(k, r) ← format_key (if Ascii.eqb c "(" then S depth else depth) rest; Some (String c k, r)
  end.
Definition read_directive (s : string) : res (directive * string) :=
  '(key, s) ← (if startswith "(" s then
                 '(k, r) ← of_option (ValueError "incomplete format key") (format_key 0 (str_drop 1 s));
                 Ok (Some k, r)
               else Ok (None, s));
  match span spec_char s with
  | (_, "") => Err (ValueError "incomplete format")
  | (spec, String c rest) => Ok ({| d_key := key; d_spec := spec; d_type := c |}, rest)
  end.

Section Percent.
Context (other : directive -> option string).

Definition convert (env : list (string * string)) (d : directive) : res string :=
  if Ascii.eqb (d_type d) "%" then Ok "%"
  else
    match d_key d with
    | Some k =>
        if Ascii.eqb (d_type d) "s" && String.eqb (d_spec d) "" then
          of_option (KeyError k) (snd <$> head (filter (fun kv : string * string => kv.1 = k) env))
        else of_option (ValueError "unsupported format character") (other d)
    | None => of_option (ValueError "unsupported format character") (other d)
    end.
Fixpoint percent_loop (fuel : nat) (env : list (string * string)) (s : string) : res string :=
  match fuel, s with
  | _, "" => Ok ""
  | 0, _ => NoFuel
  | S fuel, String c rest =>
      if Ascii.eqb c "%" then
        '(d, rest) ← read_directive rest;
        t ← convert env d;
        u ← percent_loop fuel env rest;
        Ok (t +:+ u)
      else u ← percent_loop fuel env rest; Ok (String c u)
  end.
Definition percent (env : list (string * string)) (s : string) : res string :=
  percent_loop (String.length s) env s.

End Percent.

(** ** Formatting ends *)
Lemma format_key_shorter depth s k r : format_key depth s = Some (k, r) -> String.length r < String.length s.
Proof.
  revert depth k r. induction s as [|c s IH]; intros depth k r; cbn [format_key String.length]; [done|].
  assert (H : forall depth, (format_key depth s ≫= fun '(k0, r0) => Some (String c k0, r0)) = Some (k, r) ->
    String.length r < S (String.length s)).
  { intros e. destruct (format_key e s) as [[k0 r0]|] eqn:E; [|done]. intros [= _ <-]. apply IH in E. lia. }
  destruct (Ascii.eqb c ")"); [|apply H]. destruct depth as [|depth]; [intros [= _ <-]; lia|apply H].
Qed.
Lemma span_shorter p s a b : span p s = (a, b) -> String.length b <= String.length s.
Proof.
  revert a b. induction s as [|c s IH]; intros a b; cbn [span]; [by intros [= <- <-]|].
  destruct (p c); [|by intros [= <- <-]]. destruct (span p s) as [x y] eqn:E. intros [= <- <-].
  cbn. specialize (IH x y eq_refl). lia.
Qed.
Lemma read_directive_shorter s d r : read_directive s = Ok (d, r) -> String.length r < String.length s.
Proof.
  unfold read_directive. intros ([key s1] & H1 & H)%bind_ok.
  assert (Hs : String.length s1 <= String.length s).
  { destruct (startswith "(" s); [|by injection H1 as _ <-].
    apply bind_ok in H1 as ([k r1] & Hk%of_option_ok & [= <- <-]). apply format_key_shorter in Hk.
    rewrite length_str_drop in Hk. lia. }
  destruct (span spec_char s1) as [spec t] eqn:E. apply span_shorter in E.
  destruct t as [|c t]; [done|]. injection H as _ <-. cbn in E. lia.
Qed.
Lemma read_directive_fuel s : read_directive s <> NoFuel.
Proof.
  unfold read_directive. apply bind_fuel.
  - destruct (startswith "(" s); [|done]. apply bind_fuel; [by destruct (format_key _ _)|by intros [] _].
  - intros [key s1] _. by destruct (span spec_char s1) as [? [|? ?]].
Qed.

Section Fuel.
Context (other : directive -> option string).
Lemma convert_fuel env d : convert other env d <> NoFuel.
Proof.
  unfold convert. repeat case_match; try done; [by destruct (head _)|by destruct (other d)..].
Qed.
Lemma percent_fuel env s : percent other env s <> NoFuel.
Proof.
  unfold percent. remember (String.length s) as n eqn:Hn. assert (Hl : String.length s <= n) by lia. clear Hn.
  revert s Hl. induction n as [|n IH]; intros s Hl; [destruct s; [done|cbn in Hl; lia]|].
  destruct s as [|c s]; [done|]. cbn [percent_loop]. cbn in Hl. destruct (Ascii.eqb c "%").
  - apply bind_fuel; [apply read_directive_fuel|]. intros [d r] Hr%read_directive_shorter.
    apply bind_fuel; [apply convert_fuel|]. intros t _. apply bind_fuel; [apply IH; lia|done].
  - apply bind_fuel; [apply IH; lia|done].
Qed.
End Fuel.
