(* ===== verification/TestExpr.v ===== *)
(** * The status-file expression language of [tools/test.py]

    Outcome sets, expressions with their two evaluators, the tokenizer, the
    scanner and the recursive-descent parser.  [Evaluate] and [GetOutcomes]
    recurse through the [defs] dictionary, so they take a budget [fuel];
    [Evaluate_wt] shows that it is enough for every well-typed expression
    over non-circular definitions.  The parser takes a budget as well, and
    [parse_fuel_enough] shows that [parse_fuel] never runs out. *)
From S2P Require Import Prelude PyStr.
From stdpp Require Import options.

(** ** Outcome sets *)

(** A Python value in a [ListSet]: a string, or [None] ([GuessOS()] may
    return it and the environment passes it on). *)
Abbreviation pyelm := (option string).

Inductive outcome_set :=
  | ListSet (elms : list pyelm)
  | Everything
  | Nothing.

Definition Intersect (self that : outcome_set) : outcome_set :=
  match self with
  | ListSet l =>
      match that with
      | ListSet l' => ListSet (filter (fun x => x ∈ l') l)
      | Everything => self
      | Nothing => Nothing
      end
  | Everything => that
  | Nothing => self
  end.

Definition Union_ (self that : outcome_set) : outcome_set :=
  match self with
  | ListSet l =>
      match that with
      | ListSet l' => ListSet (l ++ filter (fun x => x ∉ l) l')
      | Everything => Everything
      | Nothing => self
      end
  | Everything => self
  | Nothing => that
  end.

Definition IsEmpty (self : outcome_set) : bool :=
  match self with
  | ListSet l => length l =? 0
  | Everything => false
  | Nothing => true
  end.

(** ** Expressions *)
Inductive expr :=
  | Constant (value : bool)
  | Variable_ (name : string)
  | Outcome (name : string)
  | Operation (lhs : expr) (op : string) (rhs : expr).

#[global] Instance expr_eq_dec : EqDecision expr.
Proof. solve_decision. Defined.

Section Evaluation.
Context (env : gmap string pyelm) (defs : gmap string expr).

Fixpoint Evaluate (fuel : nat) (self : expr) : res bool :=
  match fuel with
  | 0 => NoFuel
  | S fuel =>
      match self with
      | Constant value => Ok value
      | Variable_ _ | Outcome _ => Err (AttributeError "Evaluate")
      | Operation lhs op rhs =>
          if String.eqb op "||" || String.eqb op "," then
            b ← Evaluate fuel lhs;
            if b : bool then Ok true else Evaluate fuel rhs
          else if String.eqb op "if" then Ok false
          else if String.eqb op "==" then
            l ← GetOutcomes fuel lhs;
            r ← GetOutcomes fuel rhs;
            Ok (negb (IsEmpty (Intersect l r)))
          else
            _ ← assert_ (String.eqb op "&&");
            b ← Evaluate fuel lhs;
            if b : bool then Evaluate fuel rhs else Ok false
      end
  end
with GetOutcomes (fuel : nat) (self : expr) : res outcome_set :=
  match fuel with
  | 0 => NoFuel
  | S fuel =>
      match self with
      | Constant _ => Err (AttributeError "GetOutcomes")
      | Variable_ name =>
          match env !! name with
          | Some v => Ok (ListSet [v])
          | None => Ok Nothing
          end
      | Outcome name =>
          match defs !! name with
          | Some e => GetOutcomes fuel e
          | None => Ok (ListSet [Some name])
          end
      | Operation lhs op rhs =>
          if String.eqb op "||" || String.eqb op "," then
            l ← GetOutcomes fuel lhs;
            r ← GetOutcomes fuel rhs;
            Ok (Union_ l r)
          else if String.eqb op "if" then
            b ← Evaluate fuel rhs;
            if b : bool then GetOutcomes fuel lhs else Ok Nothing
          else
            _ ← assert_ (String.eqb op "&&");
            l ← GetOutcomes fuel lhs;
            r ← GetOutcomes fuel rhs;
            Ok (Intersect l r)
      end
  end.
End Evaluation.

(** ** The tokenizer

    The state is the text that [self.index] has not passed yet, that is
    [self.expr[self.index:]], and the tokens found. *)
Definition IsAlpha_char (c : ascii) : bool :=
  isalpha c || isdigit c || Ascii.eqb c "_".
Definition IsAlpha : string -> bool := str_forallb IsAlpha_char.

Definition HasMore (rest : string) (len : nat) : bool :=
  0 <? String.length rest + (len - 1).
Definition Current (rest : string) (len : nat) : string :=
  if HasMore rest len then str_take len rest else "".
Definition Advance (rest : string) (count : nat) : string := str_drop count rest.
Definition SkipSpaces : string -> string := lstrip_of isspace.

(** The inner loop of [Tokenize]: [buf] is the longest alphanumeric prefix. *)
Fixpoint take_word (rest : string) : string * string :=
  match rest with
  | "" => ("", "")
  | String c rest' =>
      if IsAlpha_char c then let (buf, r) := take_word rest' in (String c buf, r)
      else ("", rest)
  end.

Fixpoint Tokenize_from (fuel : nat) (rest : string) (tokens : list string)
    : res (option (list string)) :=
  match fuel with
  | 0 => NoFuel
  | S fuel =>
      if negb (HasMore rest 1) then Ok (Some tokens)
      else
        let rest := SkipSpaces rest in
        if negb (HasMore rest 1) then Ok None
        else if String.eqb (Current rest 1) "(" then
          Tokenize_from fuel (Advance rest 1) (tokens ++ ["("])
        else if String.eqb (Current rest 1) ")" then
          Tokenize_from fuel (Advance rest 1) (tokens ++ [")"])
        else if String.eqb (Current rest 1) "$" then
          Tokenize_from fuel (Advance rest 1) (tokens ++ ["$"])
        else if String.eqb (Current rest 1) "," then
          Tokenize_from fuel (Advance rest 1) (tokens ++ [","])
        else if IsAlpha (Current rest 1) then
          let (buf, rest) := take_word rest in
          Tokenize_from fuel rest (tokens ++ [buf])
        else if String.eqb (Current rest 2) "&&" then
          Tokenize_from fuel (Advance rest 2) (tokens ++ ["&&"])
        else if String.eqb (Current rest 2) "||" then
          Tokenize_from fuel (Advance rest 2) (tokens ++ ["||"])
        else if String.eqb (Current rest 2) "==" then
          Tokenize_from fuel (Advance rest 2) (tokens ++ ["=="])
        else Ok None
  end.
Definition Tokenize (expr : string) : res (option (list string)) :=
  Tokenize_from (S (String.length expr)) expr [].

(** ** The scanner and the parser

    A scanner is the list of tokens from [self.index] on; [Current] past the
    end raises [IndexError], which no caller catches.  A parse function
    returns Python's [None] as [Ok None]. *)
Abbreviation Scanner := (list string).
Definition Scan_HasMore (scan : Scanner) : bool := negb (length scan =? 0).
Definition Scan_Current (scan : Scanner) : res string :=
  match scan with [] => Err IndexError | t :: _ => Ok t end.
Definition Scan_Advance (scan : Scanner) : Scanner := tail scan.

Definition BINARIES : list string := ["=="].
Definition LOGICALS : list string := ["&&"; "||"; ","].

(** [scan.HasMore() and scan.Current() in ops] *)
Definition at_op (scan : Scanner) (ops : list string) : option string :=
  match scan with
  | t :: _ => if bool_decide (t ∈ ops) then Some t else None
  | [] => None
  end.

Abbreviation parse_result := (res (option (expr * Scanner))).

Fixpoint ParseAtomicExpression (fuel : nat) (scan : Scanner) : parse_result :=
  match fuel with
  | 0 => NoFuel
  | S fuel =>
      tok ← Scan_Current scan;
      if String.eqb tok "true" then Ok (Some (Constant true, Scan_Advance scan))
      else if String.eqb tok "false" then Ok (Some (Constant false, Scan_Advance scan))
      else if IsAlpha tok then Ok (Some (Outcome (lower tok), Scan_Advance scan))
      else if String.eqb tok "$" then
        let scan := Scan_Advance scan in
        name ← Scan_Current scan;
        if negb (IsAlpha name) then Ok None
        else Ok (Some (Variable_ (lower name), Scan_Advance scan))
      else if String.eqb tok "(" then
        r ← ParseLogicalExpression fuel (Scan_Advance scan);
        match r with
        | None => Ok None
        | Some (result, scan) =>
            close ← Scan_Current scan;
            if negb (String.eqb close ")") then Ok None
            else Ok (Some (result, Scan_Advance scan))
        end
      else Ok None
  end
with ParseOperatorExpression (fuel : nat) (scan : Scanner) : parse_result :=
  match fuel with
  | 0 => NoFuel
  | S fuel =>
      r ← ParseAtomicExpression fuel scan;
      match r with
      | None => Ok None
      | Some (lhs, scan) => operator_loop fuel lhs scan
      end
  end
with operator_loop (fuel : nat) (lhs : expr) (scan : Scanner) : parse_result :=
  match fuel with
  | 0 => NoFuel
  | S fuel =>
      match at_op scan BINARIES with
      | None => Ok (Some (lhs, scan))
      | Some op =>
          r ← ParseOperatorExpression fuel (Scan_Advance scan);
          match r with
          | None => Ok None
          | Some (rhs, scan) => operator_loop fuel (Operation lhs op rhs) scan
          end
      end
  end
with ParseConditionalExpression (fuel : nat) (scan : Scanner) : parse_result :=
  match fuel with
  | 0 => NoFuel
  | S fuel =>
      r ← ParseOperatorExpression fuel scan;
      match r with
      | None => Ok None
      | Some (lhs, scan) => conditional_loop fuel lhs scan
      end
  end
with conditional_loop (fuel : nat) (lhs : expr) (scan : Scanner) : parse_result :=
  match fuel with
  | 0 => NoFuel
  | S fuel =>
      match at_op scan ["if"] with
      | None => Ok (Some (lhs, scan))
      | Some _ =>
          r ← ParseOperatorExpression fuel (Scan_Advance scan);
          match r with
          | None => Ok None
          | Some (rhs, scan) => conditional_loop fuel (Operation lhs "if" rhs) scan
          end
      end
  end
with ParseLogicalExpression (fuel : nat) (scan : Scanner) : parse_result :=
  match fuel with
  | 0 => NoFuel
  | S fuel =>
      r ← ParseConditionalExpression fuel scan;
      match r with
      | None => Ok None
      | Some (lhs, scan) => logical_loop fuel lhs scan
      end
  end
with logical_loop (fuel : nat) (lhs : expr) (scan : Scanner) : parse_result :=
  match fuel with
  | 0 => NoFuel
  | S fuel =>
      match at_op scan LOGICALS with
      | None => Ok (Some (lhs, scan))
      | Some op =>
          r ← ParseConditionalExpression fuel (Scan_Advance scan);
          match r with
          | None => Ok None
          | Some (rhs, scan) => logical_loop fuel (Operation lhs op rhs) scan
          end
      end
  end.

(** Every token is met at most five calls deep. *)
Definition parse_fuel (tokens : list string) : nat := 5 * length tokens + 5.

#[global] Arguments parse_fuel : simpl never.

(** [not tokens] holds of [None] and of the empty list. *)
Definition ParseCondition (expr_ : string) : res (option expr) :=
  tokens ← Tokenize expr_;
  match tokens with
  | None | Some [] => Ok None
  | Some tokens =>
      ast ← ParseLogicalExpression (parse_fuel tokens) tokens;
      match ast with
      | None => Ok None
      | Some (ast, scan) => if Scan_HasMore scan then Ok None else Ok (Some ast)
      end
  end.

(** ** The meaning of outcome sets and of expressions *)
Definition in_set (x : pyelm) (s : outcome_set) : Prop :=
  match s with ListSet l => x ∈ l | Everything => True | Nothing => False end.

(** What an expression means, with no evaluation order, budget or exceptions:
    when a condition holds and which outcomes an outcome expression yields. *)
Inductive holds (env : gmap string pyelm) (defs : gmap string expr) : expr -> Prop :=
  | holds_true : holds env defs (Constant true)
  | holds_or_l l r op : op ∈ ["||"; ","] ->
      holds env defs l -> holds env defs (Operation l op r)
  | holds_or_r l r op : op ∈ ["||"; ","] ->
      holds env defs r -> holds env defs (Operation l op r)
  | holds_and l r :
      holds env defs l -> holds env defs r -> holds env defs (Operation l "&&" r)
  | holds_eq l r x :
      yields env defs l x -> yields env defs r x -> holds env defs (Operation l "==" r)
with yields (env : gmap string pyelm) (defs : gmap string expr) : expr -> pyelm -> Prop :=
  | yields_var n v : env !! n = Some v -> yields env defs (Variable_ n) v
  | yields_name n : defs !! n = None -> yields env defs (Outcome n) (Some n)
  | yields_def n e x :
      defs !! n = Some e -> yields env defs e x -> yields env defs (Outcome n) x
  | yields_or_l l r op x : op ∈ ["||"; ","] ->
      yields env defs l x -> yields env defs (Operation l op r) x
  | yields_or_r l r op x : op ∈ ["||"; ","] ->
      yields env defs r x -> yields env defs (Operation l op r) x
  | yields_and l r x :
      yields env defs l x -> yields env defs r x -> yields env defs (Operation l "&&" r) x
  | yields_if l r x :
      yields env defs l x -> holds env defs r -> yields env defs (Operation l "if" r) x.

(** Well-typed expressions over non-circular definitions: a derivation unfolds
    every defined name that the expression reaches. *)
Inductive cond_ok (defs : gmap string expr) : expr -> Prop :=
  | cond_const b : cond_ok defs (Constant b)
  | cond_bool l r op : op ∈ ["||"; ","; "&&"] ->
      cond_ok defs l -> cond_ok defs r -> cond_ok defs (Operation l op r)
  | cond_if l r : cond_ok defs (Operation l "if" r)
  | cond_eq l r :
      out_ok defs l -> out_ok defs r -> cond_ok defs (Operation l "==" r)
with out_ok (defs : gmap string expr) : expr -> Prop :=
  | out_var n : out_ok defs (Variable_ n)
  | out_name n : defs !! n = None -> out_ok defs (Outcome n)
  | out_def n e : defs !! n = Some e -> out_ok defs e -> out_ok defs (Outcome n)
  | out_set l r op : op ∈ ["||"; ","; "&&"] ->
      out_ok defs l -> out_ok defs r -> out_ok defs (Operation l op r)
  | out_if l r : out_ok defs l -> cond_ok defs r -> out_ok defs (Operation l "if" r).

Scheme cond_ok_min := Minimality for cond_ok Sort Prop
  with out_ok_min := Minimality for out_ok Sort Prop.
Combined Scheme ok_mutind from cond_ok_min, out_ok_min.

(** ** Printing: every operation in parentheses, names in upper case (so that
    an outcome called [true] or [if] is not read as a keyword). *)
Fixpoint expr_tokens (e : expr) : list string :=
  match e with
  | Constant true => ["true"]
  | Constant false => ["false"]
  | Variable_ n => ["$"; n]
  | Outcome n => [upper n]
  | Operation l op r => ["("] ++ expr_tokens l ++ [op] ++ expr_tokens r ++ [")"]
  end.
Definition render (e : expr) : string := join " " (expr_tokens e).

Definition name_ok (n : string) : Prop := n <> "" /\ IsAlpha n = true /\ lower n = n.
Fixpoint expr_wf (e : expr) : Prop :=
  match e with
  | Constant _ => True
  | Variable_ n | Outcome n => name_ok n
  | Operation l op r => op ∈ ["=="; "if"; "&&"; "||"; ","] /\ expr_wf l /\ expr_wf r
  end.

Definition punct : list string := ["("; ")"; "$"; ","; "&&"; "||"; "=="].
Definition token_ok (t : string) : Prop := t ∈ punct \/ (t <> "" /\ IsAlpha t = true).
(** The text goes on with a character of a word. *)
Definition starts_word (r : string) : bool :=
  match r with "" => false | String c _ => IsAlpha_char c end.
Definition despace : string -> string :=
  str_subst (fun c => if isspace c then "" else String c "").

(** ** Outcome sets: lemmas *)
Lemma in_set_Intersect x s t : in_set x (Intersect s t) <-> in_set x s /\ in_set x t.
Proof. destruct s, t; simpl; rewrite ?list_elem_of_filter; naive_solver. Qed.
Lemma in_set_Union x s t : in_set x (Union_ s t) <-> in_set x s \/ in_set x t.
Proof.
  destruct s as [l| |], t as [l'| |]; simpl; rewrite ?elem_of_app, ?list_elem_of_filter;
    try naive_solver.
  destruct (decide (x ∈ l)); naive_solver.
Qed.
Lemma IsEmpty_spec s : IsEmpty s = true <-> forall x, ~ in_set x s.
Proof.
  destruct s as [[|x l]| |]; simpl; split; try done.
  - intros _ x. apply not_elem_of_nil.
  - intros H. destruct (H x). left.
  - intros H. by destruct (H None).
  - tauto.
Qed.

(** ** Evaluation: lemmas *)
Ltac split_ops :=
  repeat match goal with
  | H : _ ∈ [] |- _ => by apply not_elem_of_nil in H
  | H : _ ∈ _ :: _ |- _ =>
      apply elem_of_cons in H; destruct H as [H|H]; [first [discriminate H | subst]|]
  end.

(** The result is the same for every larger budget. *)
Definition settles {A} (f : nat -> res A) (a : A) : Prop :=
  exists n, forall fuel, n <= fuel -> f fuel = Ok a.

Lemma settles_step {A} (f : nat -> res A) (g : nat -> res A) a :
  (forall fuel, f (S fuel) = g fuel) -> settles g a -> settles f a.
Proof.
  intros Hfg [n Hn]. exists (S n). intros [|fuel] ?; [lia|].
  rewrite Hfg. apply Hn. lia.
Qed.
Lemma settles_ret {A} (a : A) : settles (fun _ => Ok a) a.
Proof. by exists 0. Qed.
Lemma settles_bind {A B} (f : nat -> res A) (g : nat -> A -> res B) a b :
  settles f a -> settles (fun n => g n a) b -> settles (fun n => f n ≫= g n) b.
Proof.
  intros [n Hn] [m Hm]. exists (n `max` m). intros fuel ?.
  rewrite Hn by lia. apply Hm. lia.
Qed.
Ltac settle :=
  eapply settles_step; [reflexivity|]; simpl;
  repeat (eapply settles_bind; [eassumption|]; simpl);
  try assumption; try apply settles_ret.

Section Meaning.
Context (env : gmap string pyelm) (defs : gmap string expr).
Local Abbreviation holds := (holds env defs).
Local Abbreviation yields := (yields env defs).

Lemma holds_or_iff l r op : op ∈ ["||"; ","] ->
  holds (Operation l op r) <-> holds l \/ holds r.
Proof.
  intros Hop. split.
  - inversion 1; subst; auto; split_ops.
  - intros [?|?]; [apply holds_or_l|apply holds_or_r]; done.
Qed.
Lemma holds_and_iff l r : holds (Operation l "&&" r) <-> holds l /\ holds r.
Proof.
  split; [inversion 1; subst; auto; split_ops|].
  intros [? ?]; by apply holds_and.
Qed.
Lemma holds_eq_iff l r :
  holds (Operation l "==" r) <-> exists x, yields l x /\ yields r x.
Proof.
  split; [inversion 1; subst; eauto; split_ops|].
  intros (x & ? & ?); by eapply holds_eq.
Qed.
Lemma holds_if l r : ~ holds (Operation l "if" r).
Proof. inversion 1; split_ops. Qed.
Lemma yields_or_iff l r op x : op ∈ ["||"; ","] ->
  yields (Operation l op r) x <-> yields l x \/ yields r x.
Proof.
  intros Hop. split.
  - inversion 1; subst; auto; split_ops.
  - intros [?|?]; [apply yields_or_l|apply yields_or_r]; done.
Qed.
Lemma yields_and_iff l r x :
  yields (Operation l "&&" r) x <-> yields l x /\ yields r x.
Proof.
  split; [inversion 1; subst; auto; split_ops|].
  intros [? ?]; by apply yields_and.
Qed.
Lemma yields_if_iff l r x :
  yields (Operation l "if" r) x <-> yields l x /\ holds r.
Proof.
  split; [inversion 1; subst; auto; split_ops|].
  intros [? ?]; by apply yields_if.
Qed.

Lemma in_set_cap e1 e2 s1 s2 :
  (forall x, in_set x s1 <-> yields e1 x) -> (forall x, in_set x s2 <-> yields e2 x) ->
  negb (IsEmpty (Intersect s1 s2)) = true <-> holds (Operation e1 "==" e2).
Proof.
  intros E1 E2. rewrite holds_eq_iff, negb_true_iff. split.
  - intros Hne. destruct (Intersect s1 s2) as [[|x l]| |] eqn:E; try done.
    + exists x. rewrite <- E1, <- E2, <- in_set_Intersect, E. simpl. left.
    + exists None. by rewrite <- E1, <- E2, <- in_set_Intersect, E.
  - intros (x & H1 & H2). apply not_true_iff_false. rewrite IsEmpty_spec.
    intros Hno. apply (Hno x). by rewrite in_set_Intersect, E1, E2.
Qed.

(** Both evaluators settle on the meaning of a well-typed expression. *)
Lemma Evaluate_GetOutcomes_meaning :
  (forall e, cond_ok defs e ->
     exists b, settles (fun n => Evaluate env defs n e) b /\ (b = true <-> holds e)) /\
  (forall e, out_ok defs e ->
     exists s, settles (fun n => GetOutcomes env defs n e) s /\
               (forall x, in_set x s <-> yields e x)).
Proof.
  apply ok_mutind.
  - intros b. exists b. split; [settle|].
    split; [intros ->; constructor|by inversion 1].
  - intros l r op Hop _ (b1 & H1 & E1) _ (b2 & H2 & E2).
    exists (if String.eqb op "&&" then b1 && b2 else b1 || b2).
    split_ops; simpl; (split; [settle; destruct b1; simpl; try assumption; apply settles_ret|]).
    + by rewrite orb_true_iff, E1, E2, holds_or_iff by set_solver.
    + by rewrite orb_true_iff, E1, E2, holds_or_iff by set_solver.
    + by rewrite andb_true_iff, E1, E2, holds_and_iff.
  - intros l r. exists false. split; [settle|].
    split; [done|]. by intros ?%holds_if.
  - intros l r _ (s1 & H1 & E1) _ (s2 & H2 & E2).
    exists (negb (IsEmpty (Intersect s1 s2))). split; [settle|]. by apply in_set_cap.
  - intros n. destruct (env !! n) as [v|] eqn:E.
    + exists (ListSet [v]). split; [settle; rewrite E; apply settles_ret|].
      intros x. simpl. rewrite list_elem_of_singleton. split; [intros ->; by constructor|].
      inversion 1; congruence.
    + exists Nothing. split; [settle; rewrite E; apply settles_ret|].
      intros x. split; [done|]. inversion 1; congruence.
  - intros n E. exists (ListSet [Some n]).
    split; [settle; rewrite E; apply settles_ret|].
    intros x. simpl. rewrite list_elem_of_singleton. split; [intros ->; by constructor|].
    inversion 1; congruence.
  - intros n e E _ (s & Hs & Es). exists s.
    split; [settle; rewrite E; exact Hs|].
    intros x. rewrite Es. split; [by apply yields_def|inversion 1; congruence].
  - intros l r op Hop _ (s1 & H1 & E1) _ (s2 & H2 & E2).
    exists (if String.eqb op "&&" then Intersect s1 s2 else Union_ s1 s2).
    split_ops; simpl; (split; [settle|]); intros x.
    + by rewrite in_set_Union, E1, E2, yields_or_iff by set_solver.
    + by rewrite in_set_Union, E1, E2, yields_or_iff by set_solver.
    + by rewrite in_set_Intersect, E1, E2, yields_and_iff.
  - intros l r _ (s & Hs & Es) _ (b & Hb & Eb).
    exists (if b then s else Nothing). split; [settle; destruct b; [done|apply settles_ret]|].
    intros x. rewrite yields_if_iff, <- Es, <- Eb. destruct b; simpl; naive_solver.
Qed.
End Meaning.

(** ** The tokenizer: lemmas *)
Lemma IsAlpha_not_space c : IsAlpha_char c = true -> isspace c = false.
Proof. destruct c as [[] [] [] [] [] [] [] []]; done. Qed.

Lemma take_word_spec r :
  let (b, r') := take_word r in
  r = b +:+ r' /\ IsAlpha b = true /\ starts_word r' = false.
Proof.
  induction r as [|c r IH]; simpl; [done|].
  destruct (IsAlpha_char c) eqn:Hc; [|done].
  destruct (take_word r) as [b r']. destruct IH as (-> & Hb & Hr).
  split_and!; [done| |done]. unfold IsAlpha in *. simpl. by rewrite Hc.
Qed.
Lemma take_word_app t r :
  IsAlpha t = true -> starts_word r = false -> take_word (t +:+ r) = (t, r).
Proof.
  intros Ht Hr; induction t as [|c t IH]; simpl.
  - destruct r as [|c r]; simpl in *; [done|]. by rewrite Hr.
  - unfold IsAlpha in Ht; simpl in Ht; reflect. by rewrite H, IH.
Qed.

Lemma lstrip_of_cons p c s : p c = false -> lstrip_of p (String c s) = String c s.
Proof. intros H; simpl. by rewrite H. Qed.
Lemma lstrip_of_head p s c s' : lstrip_of p s = String c s' -> p c = false.
Proof.
  induction s as [|a s IH]; simpl; [done|]. destruct (p a) eqn:E; [done|].
  by intros [= -> ->].
Qed.
Lemma length_lstrip_of p s : String.length (lstrip_of p s) <= String.length s.
Proof. induction s; simpl; [done|]. destruct (p a); simpl; lia. Qed.

(** Case split on the innermost test of the token being a given punctuation. *)
Ltac eqb_literal tac :=
  repeat match goal with
  | |- context [String.eqb (String ?c ?s) ?l] =>
      let E := fresh in
      destruct (String.eqb_spec (String c s) l) as [E|_];
      [injection E; intros; subst; by tac l|]
  end.

(** One iteration of the loop of [Tokenize] gives up or takes one token. *)
Lemma Tokenize_step fuel rest acc : rest <> "" ->
  Tokenize_from (S fuel) rest acc = Ok None \/
  exists t r, token_ok t /\ SkipSpaces rest = t +:+ r /\
    (IsAlpha t = true -> starts_word r = false) /\
    Tokenize_from (S fuel) rest acc = Tokenize_from fuel r (acc ++ [t]).
Proof.
  intros Hne. destruct rest as [|c0 rest0]; [done|]. cbn [Tokenize_from].
  change (HasMore (String c0 rest0) 1) with true. cbn [negb].
  destruct (SkipSpaces (String c0 rest0)) as [|c r'] eqn:Er; [by left|].
  change (HasMore (String c r') 1) with true. cbn [negb].
  change (Current (String c r') 1) with (String c "").
  eqb_literal ltac:(fun l => right; exists l, r'; split_and!; [left; unfold punct; set_solver|done..]).
  destruct (IsAlpha (String c "")) eqn:Hc.
  { right. pose proof (take_word_spec (String c r')) as Hw.
    destruct (take_word _) as [b r2] eqn:Ew. destruct Hw as (Hb & Ha & Hr2).
    exists b, r2. split_and!; [right|done..]. split; [|done]. intros ->.
    unfold IsAlpha in Hc; simpl in Hc, Ew. reflect. rewrite H in Ew.
    by destruct (take_word r'). }
  destruct r' as [|d r'].
  { left. simpl. by repeat case_match. }
  change (Current (String c (String d r')) 2) with (String c (String d "")).
  eqb_literal ltac:(fun l => right; exists l, r'; split_and!; [left; unfold punct; set_solver|done..]).
  by left.
Qed.

Lemma despace_lstrip s : despace (SkipSpaces s) = despace s.
Proof.
  unfold despace, SkipSpaces; induction s as [|c s IH]; simpl; [done|].
  destruct (isspace c) eqn:E; simpl; [done|]. by rewrite E.
Qed.
Lemma token_ok_despace t : token_ok t -> despace t = t.
Proof.
  intros [Ht|[_ Ht]].
  - unfold punct in Ht. split_ops; done.
  - unfold IsAlpha, despace in *. induction t as [|c t IH]; [done|].
    simpl in *. reflect. by rewrite IsAlpha_not_space, IH.
Qed.
Lemma token_ok_nonempty t : token_ok t -> 0 < String.length t.
Proof.
  intros [Ht|[Ht _]]; [unfold punct in Ht; split_ops; simpl; lia|].
  destruct t; [done|simpl; lia].
Qed.

Lemma Tokenize_from_sound fuel rest acc :
  String.length rest < fuel -> Forall token_ok acc ->
  exists o, Tokenize_from fuel rest acc = Ok o /\
    forall ts, o = Some ts ->
      Forall token_ok ts /\ join "" ts = join "" acc +:+ despace rest.
Proof.
  revert rest acc; induction fuel as [|fuel IH]; intros rest acc Hl Hacc; [lia|].
  destruct (decide (rest = "")) as [->|Hne].
  { exists (Some acc). split; [done|]. intros ts [= <-]. split; [done|].
    by rewrite append_nil_r. }
  destruct (Tokenize_step fuel rest acc Hne) as [->|(t & r & Ht & Hs & _ & ->)]; [by exists None|].
  pose proof (f_equal String.length Hs) as Hlen. rewrite length_append in Hlen.
  pose proof (length_lstrip_of isspace rest). pose proof (token_ok_nonempty t Ht).
  unfold SkipSpaces in Hlen.
  destruct (IH r (acc ++ [t])) as (o & -> & Ho); [lia|by apply Forall_app_2; auto|].
  exists o. split; [done|]. intros ts ->. destruct (Ho ts eq_refl) as [? ->]. split; [done|].
  rewrite <- (despace_lstrip rest), Hs. unfold despace at 2. rewrite str_subst_app.
  fold despace. rewrite (token_ok_despace t Ht).
  rewrite <- append_assoc. f_equal. clear.
  induction acc as [|a acc IH]; [by destruct t|].
  destruct acc as [|b acc]; [done|].
  change (join "" ((a :: b :: acc) ++ [t])) with (a +:+ join "" ((b :: acc) ++ [t])).
  rewrite IH. change (join "" (a :: b :: acc)) with (a +:+ join "" (b :: acc)).
  by rewrite append_assoc.
Qed.

Lemma Tokenize_token fuel t r acc :
  token_ok t -> (IsAlpha t = true -> starts_word r = false) ->
  Tokenize_from (S fuel) (t +:+ r) acc = Tokenize_from fuel r (acc ++ [t]).
Proof.
  intros [Ht|[Hne Ht]] Hr; [unfold punct in Ht; split_ops; by destruct r|].
  destruct t as [|c t]; [done|]. pose proof Ht as Hc. unfold IsAlpha in Hc. simpl in Hc. reflect.
  cbn [Tokenize_from]. rewrite append_cons. change (HasMore (String c (t +:+ r)) 1) with true.
  cbn [negb]. unfold SkipSpaces. rewrite lstrip_of_cons by by apply IsAlpha_not_space.
  change (HasMore (String c (t +:+ r)) 1) with true. cbn [negb].
  change (Current (String c (t +:+ r)) 1) with (String c "").
  eqb_literal ltac:(fun _ => discriminate).
  unfold IsAlpha at 1. simpl str_forallb. rewrite H. simpl.
  rewrite take_word_app by auto. by rewrite H.
Qed.

Lemma Tokenize_join fuel ts acc : length ts < fuel -> Forall token_ok ts ->
  Tokenize_from fuel (join " " ts) acc = Ok (Some (acc ++ ts)) /\
  (ts <> [] -> Tokenize_from fuel (String " " (join " " ts)) acc = Ok (Some (acc ++ ts))).
Proof.
  intros Hf Hts; revert fuel acc Hf; induction Hts as [|t ts Ht Hts IH]; intros fuel acc Hf.
  { destruct fuel; [simpl in Hf; lia|]. simpl. by rewrite app_nil_r. }
  destruct fuel as [|fuel]; simpl in Hf; [lia|].
  assert (exists r, join " " (t :: ts) = t +:+ r /\ starts_word r = false /\
            forall acc, Tokenize_from fuel r acc = Ok (Some (acc ++ ts))) as (r & -> & Hr & HT).
  { destruct ts as [|t' ts].
    - exists "". split_and!; [by rewrite append_nil_r|done|].
      intros acc'. destruct fuel; [simpl in Hf; lia|]. simpl. by rewrite app_nil_r.
    - exists (String " " (join " " (t' :: ts))). split_and!; [done..|].
      intros acc'. apply IH; [simpl in *; lia|done]. }
  assert (Tokenize_from (S fuel) (t +:+ r) acc = Ok (Some (acc ++ t :: ts))) as Hgo.
  { rewrite Tokenize_token by done. rewrite HT. by rewrite <- app_assoc. }
  split; [done|]. intros _. rewrite <- Hgo.
  pose proof (token_ok_nonempty t Ht). destruct t as [|c t]; [simpl in *; lia|]. reflexivity.
Qed.

(** ** The parser: lemmas *)
Lemma str_map_compose f g s : str_map f (str_map g s) = str_map (fun c => f (g c)) s.
Proof. induction s; simpl; congruence. Qed.
Lemma str_map_ext f g s : (forall c, f c = g c) -> str_map f s = str_map g s.
Proof. intros H; induction s; simpl; congruence. Qed.
Lemma lower_upper n : lower (upper n) = lower n.
Proof.
  unfold lower, upper. rewrite str_map_compose. apply str_map_ext.
  intros c. by destruct c as [[] [] [] [] [] [] [] []].
Qed.
Lemma upper_idem n : upper (upper n) = upper n.
Proof.
  unfold upper. rewrite str_map_compose. apply str_map_ext.
  intros c. by destruct c as [[] [] [] [] [] [] [] []].
Qed.
Lemma IsAlpha_str_map f s :
  (forall c, IsAlpha_char (f c) = IsAlpha_char c) -> IsAlpha (str_map f s) = IsAlpha s.
Proof. intros H; unfold IsAlpha; induction s; simpl; congruence. Qed.
Lemma IsAlpha_upper n : IsAlpha (upper n) = IsAlpha n.
Proof. apply IsAlpha_str_map. intros c. by destruct c as [[] [] [] [] [] [] [] []]. Qed.
Lemma IsAlpha_lower n : IsAlpha (lower n) = IsAlpha n.
Proof. apply IsAlpha_str_map. intros c. by destruct c as [[] [] [] [] [] [] [] []]. Qed.
Lemma upper_not_lower n s : upper s <> s -> String.eqb (upper n) s = false.
Proof.
  intros Hs. apply String.eqb_neq. intros H. apply Hs. by rewrite <- H, upper_idem.
Qed.

Lemma token_name_ok t : token_ok t -> IsAlpha t = true -> name_ok (lower t).
Proof.
  intros Ht Ha. split_and!.
  - pose proof (token_ok_nonempty t Ht). by destruct t; [simpl in *; lia|].
  - by rewrite IsAlpha_lower.
  - apply lower_idem.
Qed.

(** What every parse function guarantees of its result on [scan]: it does not
    run out of budget, raises nothing but [IndexError], consumes at least [d]
    tokens, and builds a well-formed tree when the tokens are well formed. *)
Definition parse_post (d : nat) (scan : Scanner) (Pre : Prop) (r : parse_result) : Prop :=
  match r with
  | NoFuel => False
  | Err e => e = IndexError
  | Ok None => True
  | Ok (Some (e, rest)) =>
      length rest + d <= length scan /\
      (Forall token_ok scan -> Pre -> expr_wf e /\ Forall token_ok rest)
  end.

Lemma parse_post_bind d scan Pre r d' scan' Pre' k :
  parse_post d scan Pre r -> k None = Ok None ->
  (forall e rest, length rest + d <= length scan ->
     (Forall token_ok scan -> Pre -> expr_wf e /\ Forall token_ok rest) ->
     parse_post d' scan' Pre' (k (Some (e, rest)))) ->
  parse_post d' scan' Pre' (r ≫= k).
Proof.
  intros Hr Hn Hk. destruct r as [[[e rest]|]|e|]; simpl in *; [|by rewrite Hn|done..].
  destruct Hr; by apply Hk.
Qed.

Lemma at_op_some scan ops op : at_op scan ops = Some op ->
  exists rest, scan = op :: rest /\ op ∈ ops.
Proof.
  destruct scan as [|t rest]; simpl; [done|]. case_bool_decide; [|done].
  intros [= <-]. eauto.
Qed.

(** The three loops share their shape. *)
Lemma loop_post fuel ops (sub : Scanner -> parse_result)
    (loop : expr -> Scanner -> parse_result) (mk : string -> string) lhs scan :
  (forall op, op ∈ ops -> mk op ∈ ["=="; "if"; "&&"; "||"; ","]) ->
  5 * length scan <= fuel ->
  (forall s, 5 * length s + 4 <= fuel -> parse_post 1 s True (sub s)) ->
  (forall l s, 5 * length s + 1 <= fuel -> parse_post 0 s (expr_wf l) (loop l s)) ->
  parse_post 0 scan (expr_wf lhs)
    match at_op scan ops with
    | None => Ok (Some (lhs, scan))
    | Some op =>
        r ← sub (Scan_Advance scan);
        match r with
        | None => Ok None
        | Some (rhs, scan) => loop (Operation lhs (mk op) rhs) scan
        end
    end.
Proof.
  intros Hops Hf Hsub Hloop. destruct (at_op scan ops) as [op|] eqn:E; [|simpl; split; [lia|auto]].
  apply at_op_some in E as (rest & -> & Hop). simpl in *.
  eapply parse_post_bind; [apply Hsub; lia|done|]. intros e s Hl Hw. simpl.
  specialize (Hloop (Operation lhs (mk op) e) s).
  destruct (loop _ s) as [[[e' s']|]|e'|]; simpl in *; try (apply Hloop; lia).
  destruct Hloop as [Hl' Hw']; [lia|]. split; [lia|].
  inversion 1; subst; intros. apply Hw'; naive_solver.
Qed.

Lemma parse_posts fuel :
  (forall s, 5 * length s + 1 <= fuel -> parse_post 1 s True (ParseAtomicExpression fuel s)) /\
  (forall s, 5 * length s + 2 <= fuel -> parse_post 1 s True (ParseOperatorExpression fuel s)) /\
  (forall l s, 5 * length s + 1 <= fuel ->
     parse_post 0 s (expr_wf l) (operator_loop fuel l s)) /\
  (forall s, 5 * length s + 3 <= fuel ->
     parse_post 1 s True (ParseConditionalExpression fuel s)) /\
  (forall l s, 5 * length s + 1 <= fuel ->
     parse_post 0 s (expr_wf l) (conditional_loop fuel l s)) /\
  (forall s, 5 * length s + 4 <= fuel -> parse_post 1 s True (ParseLogicalExpression fuel s)) /\
  (forall l s, 5 * length s + 1 <= fuel ->
     parse_post 0 s (expr_wf l) (logical_loop fuel l s)).
Proof.
  induction fuel as [|fuel (IHa & IHo & IHol & IHc & IHcl & IHl & IHll)]; [by split_and!; intros; lia|].
  assert (Hseq : forall (sub : Scanner -> parse_result) (loop : expr -> Scanner -> parse_result) s,
    parse_post 1 s True (sub s) ->
    (forall l s', 5 * length s' + 1 <= fuel -> parse_post 0 s' (expr_wf l) (loop l s')) ->
    5 * length s <= S fuel ->
    parse_post 1 s True (r ← sub s;
      match r with None => Ok None | Some (lhs, scan) => loop lhs scan end)).
  { intros sub loop s Hs Hloop Hf. eapply parse_post_bind; [exact Hs|done|].
    intros e rest Hl Hw. simpl. specialize (Hloop e rest).
    destruct (loop e rest) as [[[e' s']|]|e'|]; simpl in *; try (apply Hloop; lia).
    destruct Hloop as [? Hw']; [lia|]. split; [lia|]. intros; apply Hw'; naive_solver. }
  split_and!; simpl.
  - intros [|t s]; simpl; [done|]. intros Hf.
    destruct (String.eqb t "true"); [simpl; split; [lia|]; by inversion 1|].
    destruct (String.eqb t "false"); [simpl; split; [lia|]; by inversion 1|].
    destruct (IsAlpha t) eqn:Ha.
    { simpl. split; [lia|]. inversion 1; subst. split; [|done]. by apply token_name_ok. }
    destruct (String.eqb t "$").
    { destruct s as [|n s]; simpl; [done|]. destruct (IsAlpha n) eqn:Hn; simpl; [|done].
      split; [lia|]. intros (? & [? ?]%list.Forall_cons)%list.Forall_cons _. split; [|done].
      by apply token_name_ok. }
    destruct (String.eqb t "("); [|done].
    eapply parse_post_bind; [apply IHl; lia|done|]. intros e rest Hl Hw. simpl.
    destruct rest as [|c rest]; simpl; [done|]. destruct (String.eqb c ")"); simpl; [|done].
    simpl in Hl. split; [lia|]. intros [_ Hs]%list.Forall_cons _.
    destruct (Hw Hs I) as [? [_ ?]%list.Forall_cons]. done.
  - intros s Hf. apply Hseq; [apply IHa; lia|done|lia].
  - intros l s Hf. apply (loop_post fuel BINARIES (ParseOperatorExpression fuel)
      (operator_loop fuel) id); [unfold BINARIES; set_solver|lia|intros; apply IHo; lia|done].
  - intros s Hf. apply Hseq; [apply IHo; lia|done|lia].
  - intros l s Hf. apply (loop_post fuel ["if"] (ParseOperatorExpression fuel)
      (conditional_loop fuel) (fun _ => "if")); [set_solver|lia|intros; apply IHo; lia|done].
  - intros s Hf. apply Hseq; [apply IHc; lia|done|lia].
  - intros l s Hf. apply (loop_post fuel LOGICALS (ParseConditionalExpression fuel)
      (logical_loop fuel) id); [unfold LOGICALS; set_solver|lia|intros; apply IHc; lia|done].
Qed.

(** ** Round trip *)
Lemma expr_tokens_ok e : expr_wf e -> Forall token_ok (expr_tokens e).
Proof.
  assert (forall t, t ∈ punct -> token_ok t) as Hp by by left.
  unfold punct in Hp.
  induction e as [[]|n|n|l IHl op r IHr]; simpl;
    do 3 rewrite ?Forall_app, ?list.Forall_cons.
  - intros _. split; [by right|done].
  - intros _. split; [by right|done].
  - intros (? & ? & _). split_and!; [apply Hp; set_solver|by right|done].
  - intros (Hn & Ha & _). split; [|done]. right. split; [|by rewrite IsAlpha_upper].
    by destruct n.
  - intros (Hop & Hl & Hr). split_and!; auto; try (apply Hp; set_solver).
    all: by split_ops; first [apply Hp; set_solver|by right].
Qed.

Lemma expr_tokens_nonempty e : expr_tokens e <> [].
Proof. by destruct e as [[]| | |]. Qed.

Ltac burn f := destruct f as [|f]; [simpl in *; lia|].

(** One unfolding of each parse function, for the tokens that [render] emits. *)
Section ParserEquations.
Context (f : nat) (s : Scanner) (e : expr).

Lemma atomic_paren : ParseAtomicExpression (S f) ("(" :: s) =
  (r ← ParseLogicalExpression f s;
   match r with
   | None => Ok None
   | Some (result, scan) =>
       close ← Scan_Current scan;
       if negb (String.eqb close ")") then Ok None
       else Ok (Some (result, Scan_Advance scan))
   end).
Proof. done. Qed.
Lemma operator_S : ParseOperatorExpression (S f) s =
  (r ← ParseAtomicExpression f s;
   match r with None => Ok None | Some (l, scan) => operator_loop f l scan end).
Proof. done. Qed.
Lemma conditional_S : ParseConditionalExpression (S f) s =
  (r ← ParseOperatorExpression f s;
   match r with None => Ok None | Some (l, scan) => conditional_loop f l scan end).
Proof. done. Qed.
Lemma logical_S : ParseLogicalExpression (S f) s =
  (r ← ParseConditionalExpression f s;
   match r with None => Ok None | Some (l, scan) => logical_loop f l scan end).
Proof. done. Qed.

Lemma at_op_not t ops : t ∉ ops -> at_op (t :: s) ops = None.
Proof. intros H; simpl. by rewrite bool_decide_eq_false_2. Qed.
Lemma at_op_in t ops : t ∈ ops -> at_op (t :: s) ops = Some t.
Proof. intros H; simpl. by rewrite bool_decide_eq_true_2. Qed.

Lemma operator_stop t : t ∉ BINARIES ->
  operator_loop (S f) e (t :: s) = Ok (Some (e, t :: s)).
Proof. intros H. cbn [operator_loop]. by rewrite at_op_not. Qed.
Lemma conditional_stop t : t ∉ ["if"] ->
  conditional_loop (S f) e (t :: s) = Ok (Some (e, t :: s)).
Proof. intros H. cbn [conditional_loop]. by rewrite at_op_not. Qed.
Lemma logical_stop t : t ∉ LOGICALS ->
  logical_loop (S f) e (t :: s) = Ok (Some (e, t :: s)).
Proof. intros H. cbn [logical_loop]. by rewrite at_op_not. Qed.

Lemma operator_go t : t ∈ BINARIES -> operator_loop (S f) e (t :: s) =
  (r ← ParseOperatorExpression f s;
   match r with None => Ok None
   | Some (r', scan) => operator_loop f (Operation e t r') scan end).
Proof. intros H. cbn [operator_loop]. by rewrite at_op_in. Qed.
Lemma conditional_go : conditional_loop (S f) e ("if" :: s) =
  (r ← ParseOperatorExpression f s;
   match r with None => Ok None
   | Some (r', scan) => conditional_loop f (Operation e "if" r') scan end).
Proof. done. Qed.
Lemma logical_go t : t ∈ LOGICALS -> logical_loop (S f) e (t :: s) =
  (r ← ParseConditionalExpression f s;
   match r with None => Ok None
   | Some (r', scan) => logical_loop f (Operation e t r') scan end).
Proof. intros H. cbn [logical_loop]. by rewrite at_op_in. Qed.
End ParserEquations.

Ltac ops := unfold BINARIES, LOGICALS; set_solver.

(** A rendered expression is read back by [ParseAtomicExpression], and by each
    higher level up to an operator of that level. *)
Lemma parse_tokens e rest fuel :
  expr_wf e -> 5 * length (expr_tokens e) + 1 <= fuel ->
  ParseAtomicExpression fuel (expr_tokens e ++ rest) = Ok (Some (e, rest)).
Proof.
  revert rest fuel; induction e as [[]|n|n|l IHl op r IHr]; intros rest fuel Hwf Hf; burn fuel.
  - done.
  - done.
  - simpl. destruct Hwf as (_ & Ha & Hn). simpl. by rewrite Ha, Hn.
  - destruct Hwf as (_ & Ha & Hn). simpl.
    rewrite (upper_not_lower n "true"), (upper_not_lower n "false") by (by vm_compute).
    by rewrite IsAlpha_upper, Ha, lower_upper, Hn.
  - destruct Hwf as (Hop & Hl & Hr).
    cbn [expr_tokens] in *. rewrite !length_app in Hf. simpl in Hf.
    rewrite <- !app_assoc. do 7 burn fuel. cbn [app].
    rewrite atomic_paren, logical_S, conditional_S, operator_S, IHl by (done || lia).
    cbn [mbind res_bind]. split_ops;
      repeat first
        [ rewrite operator_stop by ops | rewrite conditional_stop by ops
        | rewrite logical_stop by ops | rewrite operator_go by ops
        | rewrite conditional_go | rewrite logical_go by ops
        | rewrite operator_S | rewrite conditional_S
        | rewrite IHr by (done || lia) | progress cbn [mbind res_bind app] ]; done.
Qed.

Lemma parse_fuel_enough s : 5 * length s + 4 <= parse_fuel s.
Proof. unfold parse_fuel. lia. Qed.

Lemma parse_logical_post ts : parse_post 1 ts True (ParseLogicalExpression (parse_fuel ts) ts).
Proof.
  destruct (parse_posts (parse_fuel ts)) as (_ & _ & _ & _ & _ & Hp & _).
  apply Hp, parse_fuel_enough.
Qed.

Lemma Tokenize_ok s : exists o, Tokenize s = Ok o /\
  forall ts, o = Some ts -> Forall token_ok ts /\ join "" ts = despace s.
Proof.
  unfold Tokenize. destruct (Tokenize_from_sound (S (String.length s)) s []) as (o & -> & Ho); [lia|constructor|].
  exists o. split; [done|]. intros ts ->. by apply Ho.
Qed.

Lemma ParseCondition_wf s e : ParseCondition s = Ok (Some e) -> expr_wf e.
Proof.
  unfold ParseCondition. destruct (Tokenize_ok s) as (o & -> & Ho). cbn [mbind res_bind].
  destruct o as [[|t ts]|]; [done| |done]. destruct (Ho _ eq_refl) as [Hts _].
  pose proof (parse_logical_post (t :: ts)) as Hp.
  destruct (ParseLogicalExpression _ _) as [[[e' rest]|]|e'|]; simpl in *; try done.
  destruct Hp as [_ Hw]. destruct (Scan_HasMore rest); [done|]. intros [= <-].
  by apply Hw.
Qed.

Lemma Forall_nonempty_join ts : Forall token_ok ts ->
  length ts <= String.length (join " " ts).
Proof.
  induction 1 as [|t ts Ht _ IH]; simpl; [lia|]. apply token_ok_nonempty in Ht.
  destruct ts; simpl in *; [lia|]. rewrite !length_append. simpl in *. lia.
Qed.


Lemma ParseCondition_render e : expr_wf e -> ParseCondition (render e) = Ok (Some e).
Proof.
  intros Hwf. pose proof (expr_tokens_ok e Hwf) as Hts. unfold ParseCondition, Tokenize, render.
  destruct (Tokenize_join (S (String.length (join " " (expr_tokens e)))) (expr_tokens e) [])
    as [-> _]; [pose proof (Forall_nonempty_join _ Hts); lia|done|]. cbn [mbind res_bind app].
  pose proof (expr_tokens_nonempty e). destruct (expr_tokens e) as [|t ts] eqn:E; [done|].
  rewrite <- E. unfold parse_fuel. replace (5 * _ + 5) with (4 + (5 * length (expr_tokens e) + 1)) by lia.
  rewrite <- (app_nil_r (expr_tokens e)) at 2.
  simpl plus. rewrite logical_S, conditional_S, operator_S, parse_tokens by (done || lia).
  done.
Qed.

(** ** The properties *)

(** [ParseCondition] ends on every text: it answers a tree, answers [None]
    (malformed), or lets [IndexError] escape from the scanner; no other
    exception is possible and the budget is always enough. *)
Theorem ParseCondition_outcomes s :
  (exists o, ParseCondition s = Ok o) \/ ParseCondition s = Err IndexError.
Proof.
  unfold ParseCondition. destruct (Tokenize_ok s) as (o & -> & _). cbn [mbind res_bind].
  destruct o as [[|t ts]|]; [by eauto| |by eauto].
  pose proof (parse_logical_post (t :: ts)) as Hp.
  destruct (ParseLogicalExpression _ _) as [[[e' rest]|]|e'|]; simpl in *; subst;
    [|by eauto..|done].
  destruct (Scan_HasMore rest); eauto.
Qed.

(** The tokenizer ends on every text, and the tokens it returns are a
    punctuation mark or a non-empty word each and spell the text without its
    white space. *)
Theorem Tokenize_sound s : exists o, Tokenize s = Ok o /\
  forall ts, o = Some ts -> Forall token_ok ts /\ join "" ts = despace s.
Proof. apply Tokenize_ok. Qed.

(** Outcome-set operations are intersection and union of the sets they
    stand for, and [IsEmpty] decides emptiness. *)
Theorem outcome_set_algebra x s t :
  (in_set x (Intersect s t) <-> in_set x s /\ in_set x t) /\
  (in_set x (Union_ s t) <-> in_set x s \/ in_set x t) /\
  (IsEmpty s = true <-> forall y, ~ in_set y s).
Proof. split_and!; [apply in_set_Intersect|apply in_set_Union|apply IsEmpty_spec]. Qed.

(** C2. On a well-typed condition over non-circular definitions [Evaluate]
    returns, never raises, and answers whether the condition holds; on a
    well-typed outcome expression [GetOutcomes] returns exactly the outcomes
    the expression yields. *)
Theorem Evaluate_meaning env defs c e :
  cond_ok defs c -> out_ok defs e ->
  (exists b, settles (fun n => Evaluate env defs n c) b /\ (b = true <-> holds env defs c)) /\
  (exists s, settles (fun n => GetOutcomes env defs n e) s /\
             forall x, in_set x s <-> yields env defs e x).
Proof. intros. by split; apply Evaluate_GetOutcomes_meaning. Qed.

Lemma Evaluate_meaning_witness :
  let env := {[ "mode" := Some "debug" ]} in
  let defs := {[ "slow_ok" := Operation (Outcome "pass") "," (Outcome "slow") ]} in
  (exists b, settles (fun n => Evaluate env defs n
                (Operation (Variable_ "mode") "==" (Outcome "debug"))) b /\
             (b = true <-> holds env defs (Operation (Variable_ "mode") "==" (Outcome "debug")))) /\
  (exists s, settles (fun n => GetOutcomes env defs n (Outcome "slow_ok")) s /\
             forall x, in_set x s <-> yields env defs (Outcome "slow_ok") x).
Proof.
  apply Evaluate_meaning.
  - apply cond_eq; [constructor|by apply out_name].
  - eapply out_def; [reflexivity|]. apply out_set; [set_solver|by apply out_name..].
Defined.

(** A malformed expression whose text ends where an operand is required is
    not reported as malformed: the scanner's [IndexError] escapes. *)
Theorem truncated_expression_raises e op :
  expr_wf e -> op ∈ ["=="; "if"; "&&"; "||"; ","] ->
  ParseCondition (render e +:+ " " +:+ op) = Err IndexError.
Proof.
  intros Hwf Hop. unfold render. rewrite <- join_snoc by apply expr_tokens_nonempty.
  assert (Hts : Forall token_ok (expr_tokens e ++ [op])).
  { apply Forall_app. split; [by apply expr_tokens_ok|].
    apply list.Forall_cons. split; [|done]. unfold token_ok, punct.
    split_ops; first [by right|left; set_solver]. }
  unfold ParseCondition, Tokenize.
  destruct (Tokenize_join (S (String.length (join " " (expr_tokens e ++ [op]))))
    (expr_tokens e ++ [op]) []) as [-> _];
    [pose proof (Forall_nonempty_join _ Hts); lia|done|]. cbn [mbind res_bind app].
  pose proof (expr_tokens_nonempty e). destruct (expr_tokens e) as [|t ts] eqn:E; [done|].
  cbn [app]. rewrite app_comm_cons, <- E. unfold parse_fuel. rewrite length_app.
  replace (5 * _ + 5) with (9 + (5 * length (expr_tokens e) + 1)) by (simpl; lia).
  simpl plus. rewrite logical_S, conditional_S, operator_S, parse_tokens by (done || lia).
  cbn [mbind res_bind].
  split_ops;
    repeat first
      [ rewrite operator_stop by ops | rewrite conditional_stop by ops
      | rewrite operator_go by ops | rewrite conditional_go | rewrite logical_go by ops ];
    reflexivity.
Qed.

Lemma truncated_expression_raises_witness :
  expr_wf (Outcome "fail") /\
  ParseCondition (render (Outcome "fail") +:+ " " +:+ "if") = Err IndexError.
Proof.
  split; [by vm_compute|]. apply truncated_expression_raises; [by vm_compute|set_solver].
Defined.
