(* ===== verification/TestGrammar.v ===== *)
(** * The grammar of the status-file expressions

    What texts [ParseCondition] of [tools/test.py] accepts and which tree it
    builds, said without a parser: [lexes] relates a text to its tokens and
    the four mutual relations [atomic_g] to [logical_g] are the grammar, one
    per precedence level.  The operators are written out here, not taken from
    [BINARIES] and [LOGICALS]. *)
From S2P Require Import Prelude PyStr TestExpr.
From stdpp Require Import options.

(** A text and its tokens: white space may come before every token, and a word
    ends where its letters end.  There is none after the last one. *)
Inductive lexes : list string -> string -> Prop :=
  | lexes_end : lexes [] ""
  | lexes_token sp t ts r :
      str_forallb isspace sp = true -> token_ok t ->
      (IsAlpha t = true -> starts_word r = false) ->
      lexes ts r -> lexes (t :: ts) (sp +:+ t +:+ r).

(** [==] binds tightest and groups to the right; [if] is next and groups to
    the left; the three logical operators share the lowest level and group to
    the left. *)
Inductive atomic_g : list string -> expr -> Prop :=
  | g_true : atomic_g ["true"] (Constant true)
  | g_false : atomic_g ["false"] (Constant false)
  | g_outcome t : t <> "true" -> t <> "false" -> IsAlpha t = true ->
      atomic_g [t] (Outcome (lower t))
  | g_variable n : IsAlpha n = true -> atomic_g ["$"; n] (Variable_ (lower n))
  | g_paren ts e : logical_g ts e -> atomic_g ("(" :: ts ++ [")"]) e
with operator_g : list string -> expr -> Prop :=
  | g_atomic ts e : atomic_g ts e -> operator_g ts e
  | g_equal ts l ts' r : atomic_g ts l -> operator_g ts' r ->
      operator_g (ts ++ "==" :: ts') (Operation l "==" r)
with conditional_g : list string -> expr -> Prop :=
  | g_operator ts e : operator_g ts e -> conditional_g ts e
  | g_if ts l ts' r : conditional_g ts l -> operator_g ts' r ->
      conditional_g (ts ++ "if" :: ts') (Operation l "if" r)
with logical_g : list string -> expr -> Prop :=
  | g_conditional ts e : conditional_g ts e -> logical_g ts e
  | g_logical ts l op ts' r : op ∈ ["&&"; "||"; ","] ->
      logical_g ts l -> conditional_g ts' r ->
      logical_g (ts ++ op :: ts') (Operation l op r).

Scheme atomic_g_min := Minimality for atomic_g Sort Prop
  with operator_g_min := Minimality for operator_g Sort Prop
  with conditional_g_min := Minimality for conditional_g Sort Prop
  with logical_g_min := Minimality for logical_g Sort Prop.
Combined Scheme grammar_ind
  from atomic_g_min, operator_g_min, conditional_g_min, logical_g_min.

(** ** The tokenizer reads [lexes] *)
Lemma lstrip_spaces sp s : str_forallb isspace sp = true ->
  lstrip_of isspace (sp +:+ s) = lstrip_of isspace s.
Proof. induction sp as [|c sp IH]; simpl; [done|]. intros; reflect. rewrite H. auto. Qed.

Lemma lstrip_split s :
  exists sp, str_forallb isspace sp = true /\ s = sp +:+ lstrip_of isspace s.
Proof.
  induction s as [|c s (sp & Hsp & Hs)]; simpl; [by exists ""|].
  destruct (isspace c) eqn:E; [|by exists ""].
  exists (String c sp). simpl. rewrite E, <- Hs. done.
Qed.

Lemma lstrip_token t r : token_ok t -> lstrip_of isspace (t +:+ r) = t +:+ r.
Proof.
  intros [Ht|[Hne Ht]]; [unfold punct in Ht; split_ops; done|].
  destruct t as [|c t]; [done|]. unfold IsAlpha in Ht. simpl in *. reflect.
  by rewrite IsAlpha_not_space.
Qed.

(** Skipping the white space first changes nothing before a token. *)
Lemma Tokenize_spaces fuel sp t r acc : str_forallb isspace sp = true -> token_ok t ->
  Tokenize_from (S fuel) (sp +:+ t +:+ r) acc = Tokenize_from (S fuel) (t +:+ r) acc.
Proof.
  intros Hsp Ht. pose proof (token_ok_nonempty t Ht). cbn [Tokenize_from]. unfold SkipSpaces.
  rewrite lstrip_spaces, lstrip_token by done.
  assert (HasMore (sp +:+ t +:+ r) 1 = true) as ->.
  { unfold HasMore. rewrite !length_append. apply Nat.ltb_lt. lia. }
  assert (HasMore (t +:+ r) 1 = true) as ->; [|done].
  unfold HasMore. rewrite !length_append. apply Nat.ltb_lt. lia.
Qed.

Lemma lexes_Tokenize ts s : lexes ts s -> forall fuel acc,
  String.length s < fuel -> Tokenize_from fuel s acc = Ok (Some (acc ++ ts)%list).
Proof.
  induction 1 as [|sp t ts r Hsp Ht Hr _ IH]; intros [|fuel] acc Hf; try (simpl in Hf; lia).
  { simpl. by rewrite app_nil_r. }
  pose proof (token_ok_nonempty t Ht). rewrite !length_append in Hf.
  rewrite Tokenize_spaces, Tokenize_token, IH by (done || lia). by rewrite <- app_assoc.
Qed.

Lemma Tokenize_lexes fuel : forall s acc ts,
  Tokenize_from fuel s acc = Ok (Some ts) -> exists ts', ts = (acc ++ ts')%list /\ lexes ts' s.
Proof.
  induction fuel as [|fuel IH]; intros s acc ts; [done|].
  destruct (decide (s = "")) as [->|Hne].
  { intros [= <-]. exists []. split; [by rewrite app_nil_r|constructor]. }
  destruct (Tokenize_step fuel s acc Hne) as [->|(t & r & Ht & Hs & Hr & ->)]; [done|].
  intros (ts' & -> & Hl)%IH. exists (t :: ts'). split; [by rewrite <- app_assoc|].
  destruct (lstrip_split s) as (sp & Hsp & E). unfold SkipSpaces in Hs.
  rewrite E, Hs. by apply lexes_token.
Qed.

Lemma Tokenize_iff s ts : Tokenize s = Ok (Some ts) <-> lexes ts s.
Proof.
  unfold Tokenize. split.
  - intros (ts' & -> & H)%Tokenize_lexes. done.
  - intros H. by rewrite (lexes_Tokenize ts s H) by lia.
Qed.

(** ** The parser builds only trees of the grammar *)

(** A parse function takes tokens off the front that [G] derives the tree from. *)
Definition derives (p : Scanner -> parse_result) (G : list string -> expr -> Prop) : Prop :=
  forall s e r, p s = Ok (Some (e, r)) -> exists ts, s = (ts ++ r)%list /\ G ts e.

(** So does a loop, which extends the tree that it starts from. *)
Definition extends (loop : expr -> Scanner -> parse_result) (G : list string -> expr -> Prop) :
    Prop :=
  forall ts0 l s e r, loop l s = Ok (Some (e, r)) -> G ts0 l ->
    exists ts, s = (ts ++ r)%list /\ G (ts0 ++ ts)%list e.

Lemma bind_some (p : parse_result) (k : expr -> Scanner -> parse_result) x :
  (r ← p; match r with None => Ok None | Some (l, scan) => k l scan end) = Ok (Some x) ->
  exists l scan, p = Ok (Some (l, scan)) /\ k l scan = Ok (Some x).
Proof. destruct p as [[[l scan]|]|e|]; simpl; try done. eauto. Qed.

(** An operand followed by a loop. *)
Lemma derives_level p loop G G' :
  derives p G -> extends loop G' -> (forall ts e, G ts e -> G' ts e) ->
  derives (fun s => r ← p s; match r with None => Ok None | Some (l, scan) => loop l scan end) G'.
Proof.
  intros Hp Hl HG s e r (l & scan & (ts & -> & Hg)%Hp & (ts' & -> & Hg')%(Hl ts))%bind_some;
    [|by apply HG].
  exists (ts ++ ts')%list. by rewrite <- app_assoc.
Qed.

(** One iteration of a loop whose operators group to the left. *)
Lemma extends_step ops (mk : string -> string) p loop G G' :
  derives p G' -> extends loop G ->
  (forall op ts l ts' r, op ∈ ops -> G ts l -> G' ts' r ->
     G (ts ++ op :: ts')%list (Operation l (mk op) r)) ->
  extends (fun l s => match at_op s ops with
    | None => Ok (Some (l, s))
    | Some op => r ← p (Scan_Advance s);
        match r with
        | None => Ok None
        | Some (rhs, scan) => loop (Operation l (mk op) rhs) scan
        end
    end) G.
Proof.
  intros Hp Hl HG ts0 l s e r. destruct (at_op s ops) as [op|] eqn:Eop.
  - intros (r' & scan & (ts & Es & Hg)%Hp & H)%bind_some Hc.
    apply at_op_some in Eop as (s' & -> & Hin). simpl in Es. subst s'.
    destruct (Hl (ts0 ++ op :: ts)%list _ _ _ _ H) as (ts' & -> & Hg'); [by apply HG|].
    exists (op :: ts ++ ts')%list. rewrite <- app_assoc in Hg'.
    split; [by rewrite <- app_comm_cons, <- app_assoc|done].
  - intros [= <- <-] H. exists []. by rewrite app_nil_r.
Qed.

Lemma atomic_derives fuel :
  derives (ParseLogicalExpression fuel) logical_g ->
  derives (ParseAtomicExpression (S fuel)) atomic_g.
Proof.
  intros IH [|t s] e r; [done|].
  cbn [ParseAtomicExpression Scan_Current mbind res_bind Scan_Advance tail].
  destruct (String.eqb_spec t "true") as [->|];
    [intros [= <- <-]; exists ["true"]; (split; [done|by constructor])|].
  destruct (String.eqb_spec t "false") as [->|];
    [intros [= <- <-]; exists ["false"]; (split; [done|by constructor])|].
  destruct (IsAlpha t) eqn:Ha; [intros [= <- <-]; exists [t]; (split; [done|by constructor])|].
  destruct (String.eqb_spec t "$") as [->|].
  { destruct s as [|w s]; [done|]. simpl. destruct (IsAlpha w) eqn:Hw; [|done].
    intros [= <- <-]. exists ["$"; w]. (split; [done|by constructor]). }
  destruct (String.eqb_spec t "(") as [->|]; [|done].
  intros (l & scan & (ts & -> & Hg)%IH & H)%bind_some. destruct scan as [|c scan]; [done|].
  simpl in H. destruct (String.eqb_spec c ")") as [->|]; [|done]. injection H as <- <-.
  exists ("(" :: ts ++ [")"])%list. split; [by rewrite <- app_comm_cons, <- app_assoc|by constructor].
Qed.

(** [ParseOperatorExpression] takes every [==] there is, so the loop that
    called it for the right operand ends: [==] groups to the right. *)
Definition operator_done (ts : list string) (e : expr) (r : Scanner) : Prop :=
  operator_g ts e /\ at_op r BINARIES = None.

Definition operators_sound (fuel : nat) : Prop :=
  (forall s e r, ParseOperatorExpression fuel s = Ok (Some (e, r)) ->
     exists ts, s = (ts ++ r)%list /\ operator_done ts e r) /\
  (forall ts0 l s e r, operator_loop fuel l s = Ok (Some (e, r)) ->
     atomic_g ts0 l \/ operator_done ts0 l s ->
     exists ts, s = (ts ++ r)%list /\ operator_done (ts0 ++ ts)%list e r).

Lemma operators_sound_S fuel :
  derives (ParseAtomicExpression fuel) atomic_g -> operators_sound fuel ->
  operators_sound (S fuel).
Proof.
  intros IHa [IHo IHol]. split.
  - intros s e r (l & scan & (ts & -> & Hg)%IHa & (ts' & -> & Hg')%(IHol ts))%bind_some; [|by left].
    exists (ts ++ ts')%list. by rewrite <- app_assoc.
  - intros ts0 l s e r. cbn [operator_loop]. destruct (at_op s BINARIES) as [op|] eqn:Eop.
    + intros (r' & scan & (ts & Es & Hg & Hop)%IHo & Hl)%bind_some [Ha|[_ ?]]; [|congruence].
      apply at_op_some in Eop as (s' & -> & Hin). unfold BINARIES in Hin. split_ops.
      simpl in Es. subst s'.
      destruct (IHol (ts0 ++ "==" :: ts)%list _ _ _ _ Hl) as (ts' & -> & ?);
        [right; split; [by constructor|done]|].
      exists ("==" :: ts ++ ts')%list. rewrite <- app_assoc in *.
      split; [by rewrite <- app_comm_cons, <- app_assoc|done].
    + intros [= <- <-] H. exists []. rewrite app_nil_r. split; [done|].
      destruct H as [|?]; [by repeat constructor|done].
Qed.

Lemma parse_derives fuel :
  derives (ParseAtomicExpression fuel) atomic_g /\ operators_sound fuel /\
  derives (ParseConditionalExpression fuel) conditional_g /\
  extends (conditional_loop fuel) conditional_g /\
  derives (ParseLogicalExpression fuel) logical_g /\
  extends (logical_loop fuel) logical_g.
Proof.
  induction fuel as [|fuel (IHa & IHo & IHc & IHcl & IHl & IHll)]; [by split_and!|].
  assert (Hop : derives (ParseOperatorExpression fuel) operator_g).
  { intros s e r (ts & -> & ? & _)%(proj1 IHo). eauto. }
  split_and!.
  - by apply atomic_derives.
  - by apply operators_sound_S.
  - by apply (derives_level _ _ operator_g); [| |apply g_operator].
  - apply (extends_step ["if"] (fun _ => "if") _ _ _ operator_g); [done..|].
    intros op ts l ts' r Hin. split_ops. by apply g_if.
  - by apply (derives_level _ _ conditional_g); [| |apply g_conditional].
  - apply (extends_step LOGICALS id _ _ _ conditional_g); [done..|]. by constructor.
Qed.

(** ** The parser finds every tree of the grammar *)
Lemma grammar_nonempty :
  (forall ts e, atomic_g ts e -> ts <> []) /\ (forall ts e, operator_g ts e -> ts <> []) /\
  (forall ts e, conditional_g ts e -> ts <> []) /\ (forall ts e, logical_g ts e -> ts <> []).
Proof. apply grammar_ind; try done; by intros [|? ?]. Qed.

(** What a parse function does on the tokens of a tree, whatever follows them:
    the two lowest levels are left in their loop, with all of the budget but a
    unit per token. *)
Definition parses_atomic (ts : list string) (e : expr) : Prop :=
  forall rest fuel, 5 * length ts + 1 <= fuel ->
    ParseAtomicExpression fuel (ts ++ rest) = Ok (Some (e, rest)).
Definition parses_operator (ts : list string) (e : expr) : Prop :=
  forall rest fuel, 5 * length ts + 2 <= fuel -> at_op rest BINARIES = None ->
    ParseOperatorExpression fuel (ts ++ rest) = Ok (Some (e, rest)).
Definition parses_conditional (ts : list string) (e : expr) : Prop :=
  forall rest fuel, 5 * length ts + 3 <= fuel -> at_op rest BINARIES = None ->
    exists fuel', fuel <= fuel' + length ts + 1 /\
      ParseConditionalExpression fuel (ts ++ rest) = conditional_loop fuel' e rest.
Definition parses_logical (ts : list string) (e : expr) : Prop :=
  forall rest fuel, 5 * length ts + 4 <= fuel ->
    at_op rest BINARIES = None -> at_op rest ["if"] = None ->
    exists fuel', fuel <= fuel' + length ts + 1 /\
      ParseLogicalExpression fuel (ts ++ rest) = logical_loop fuel' e rest.

Lemma conditional_ends ts e rest fuel : parses_conditional ts e ->
  5 * length ts + 3 <= fuel -> at_op rest BINARIES = None -> at_op rest ["if"] = None ->
  ParseConditionalExpression fuel (ts ++ rest) = Ok (Some (e, rest)).
Proof.
  intros H Hf Hb Hi. destruct (H rest fuel Hf Hb) as ([|fuel'] & Hf' & ->); [lia|].
  cbn [conditional_loop]. by rewrite Hi.
Qed.
Lemma logical_ends ts e rest fuel : parses_logical ts e ->
  5 * length ts + 4 <= fuel ->
  at_op rest BINARIES = None -> at_op rest ["if"] = None -> at_op rest LOGICALS = None ->
  ParseLogicalExpression fuel (ts ++ rest) = Ok (Some (e, rest)).
Proof.
  intros H Hf Hb Hi Hl. destruct (H rest fuel Hf Hb Hi) as ([|fuel'] & Hf' & ->); [lia|].
  cbn [logical_loop]. by rewrite Hl.
Qed.

Lemma parses_paren ts e : parses_logical ts e -> parses_atomic ("(" :: ts ++ [")"]) e.
Proof.
  intros H rest fuel Hf. simpl in *. rewrite length_app in Hf. burn fuel.
  rewrite <- app_assoc, atomic_paren, (logical_ends ts e) by (done || (simpl in *; lia)). done.
Qed.

Lemma parses_equal ts l ts' r : parses_atomic ts l -> parses_operator ts' r ->
  parses_operator (ts ++ "==" :: ts') (Operation l "==" r).
Proof.
  intros Hl Hr rest fuel Hf Hb. rewrite length_app in Hf. simpl in Hf. do 3 burn fuel.
  rewrite <- app_assoc, operator_S, Hl by lia. cbn [mbind res_bind app].
  rewrite operator_go by ops. rewrite Hr by (done || lia). cbn [mbind res_bind].
  cbn [operator_loop]. by rewrite Hb.
Qed.

Lemma parses_if ts l ts' r : parses_conditional ts l -> parses_operator ts' r ->
  parses_conditional (ts ++ "if" :: ts') (Operation l "if" r).
Proof.
  intros Hl Hr rest fuel Hf Hb. rewrite length_app in *. simpl in *.
  rewrite <- app_assoc.
  destruct (Hl (("if" :: ts') ++ rest)%list fuel) as ([|fuel'] & Hf' & ->); [lia|done|lia|].
  exists fuel'. split; [lia|]. simpl app. rewrite conditional_go, Hr by (done || lia). done.
Qed.

Lemma parses_op ts l op ts' r : op ∈ ["&&"; "||"; ","] ->
  parses_logical ts l -> parses_conditional ts' r ->
  parses_logical (ts ++ op :: ts') (Operation l op r).
Proof.
  intros Hop Hl Hr rest fuel Hf Hb Hi. rewrite length_app in *. simpl in *.
  rewrite <- app_assoc.
  destruct (Hl ((op :: ts') ++ rest)%list fuel) as ([|fuel'] & Hf' & ->);
    [lia|by split_ops|by split_ops|lia|].
  exists fuel'. split; [lia|]. simpl app.
  rewrite logical_go, (conditional_ends ts' r) by (done || lia). done.
Qed.

Lemma grammar_parses :
  (forall ts e, atomic_g ts e -> parses_atomic ts e) /\
  (forall ts e, operator_g ts e -> parses_operator ts e) /\
  (forall ts e, conditional_g ts e -> parses_conditional ts e) /\
  (forall ts e, logical_g ts e -> parses_logical ts e).
Proof.
  pose proof grammar_nonempty as (Ha & Ho & Hc & _).
  apply grammar_ind; try (intros rest fuel Hf; burn fuel; done).
  - intros t Ht Hf Halpha rest fuel Hle. burn fuel. simpl.
    apply String.eqb_neq in Ht as ->, Hf as ->. by rewrite Halpha.
  - intros n Hn rest fuel Hle. burn fuel. simpl. by rewrite Hn.
  - intros ts e _. apply parses_paren.
  - intros ts e Hg H rest fuel Hf Hb. do 2 burn fuel.
    rewrite operator_S, H by lia. cbn [mbind res_bind operator_loop]. by rewrite Hb.
  - intros ts l ts' r _ Hl _ Hr. by apply parses_equal.
  - intros ts e Hg H rest fuel Hf Hb. burn fuel. exists fuel. split; [lia|].
    by rewrite conditional_S, H by (done || lia).
  - intros ts l ts' r _ Hl _ Hr. by apply parses_if.
  - intros ts e Hg H rest fuel Hf Hb Hi. burn fuel. exists fuel. split; [lia|].
    by rewrite logical_S, (conditional_ends ts e) by (done || lia).
  - intros ts l op ts' r Hop _ Hl _ Hr. by apply parses_op.
Qed.

(** ** The properties *)

(** C1. The parser accepts exactly the texts of the grammar and builds their
    tree: [ParseCondition] answers [e] for a text just when its tokens derive
    [e], where [==] binds tighter than [if] and [if] tighter than the logical
    operators, [==] groups to the right, [if] and the logical operators, which
    share a level, to the left, and parentheses override all of it.  So it also
    answers one tree at most for a text. *)
Theorem ParseCondition_grammar s e :
  ParseCondition s = Ok (Some e) <-> exists ts, lexes ts s /\ logical_g ts e.
Proof.
  pose proof grammar_nonempty as (_ & _ & _ & Hne). unfold ParseCondition.
  destruct (Tokenize_ok s) as (o & Ho & _). split.
  - rewrite Ho. cbn [mbind res_bind]. destruct o as [[|t ts]|]; [done| |done].
    apply Tokenize_iff in Ho.
    destruct (ParseLogicalExpression _ _) as [[[e' rest]|]|err|] eqn:E; simpl; try done.
    apply parse_derives in E as (ts' & Ets & Hg). destruct rest; simpl; [|done].
    intros [= <-]. rewrite app_nil_r in Ets. subst ts'. eauto.
  - intros (ts & Hs%Tokenize_iff & Hg). rewrite Hs. cbn [mbind res_bind].
    destruct ts as [|t ts]; [by apply Hne in Hg|].
    apply grammar_parses in Hg. rewrite <- (app_nil_r (t :: ts)) at 2.
    rewrite (logical_ends _ e) by (done || apply parse_fuel_enough). done.
Qed.

(** Whatever text [ParseCondition] accepts, printing the tree it built with
    every operation in parentheses and parsing it again gives that tree. *)
Theorem parse_print_parse s e :
  ParseCondition s = Ok (Some e) -> ParseCondition (render e) = Ok (Some e).
Proof. intros H. apply ParseCondition_render. by eapply ParseCondition_wf. Qed.

Example precedence :
  ParseCondition "a == b == c if d && e if f, g" =
  Ok (Some (Operation (Operation
    (Operation (Operation (Outcome "a") "==" (Operation (Outcome "b") "==" (Outcome "c")))
       "if" (Outcome "d")) "&&" (Operation (Outcome "e") "if" (Outcome "f"))) "," (Outcome "g"))).
Proof. reflexivity. Qed.
