(* ===== verification/TestConfig.v ===== *)
(** * Test selection in [tools/test.py]

    Path patterns, status-file rules and sections, the reader of status files
    ([ReadConfigurationInto] with [utils.ReadLinesFrom]), the classification of
    the listed tests, and the selection and report that [Main] derives from it. *)
From S2P Require Import Prelude PyStr TestExpr.
From stdpp Require Import options.

(** ** Outcome names *)
Definition SKIP : string := "skip".
Definition FAIL : string := "fail".
Definition PASS : string := "pass".
Definition OKAY : string := "okay".
Definition TIMEOUT : string := "timeout".
Definition CRASH : string := "crash".
Definition SLOW : string := "slow".

(** ** Patterns

    [Pattern.match] compiles ["^" + pattern.replace('*', '.*') + "$"].  The
    matcher below is that regular expression for patterns whose only active
    characters are ['*'] and ['.'] (see [plain_pattern]): ['.'] is any character
    but a newline, and ["$"] also accepts one trailing newline. *)
Fixpoint Pattern_match (pattern s : string) : bool :=
  match pattern with
  | "" => String.eqb s "" || String.eqb s (String newline "")
  | String c p =>
      if Ascii.eqb c "*" then
        (fix star (s : string) : bool :=
           Pattern_match p s ||
           match s with "" => false | String d s' => any_char d && star s' end) s
      else
        match s with
        | "" => false
        | String d s' =>
            (if Ascii.eqb c "." then any_char d else Ascii.eqb c d) && Pattern_match p s'
        end
  end.

(** The characters that are active in a Python regular expression. *)
Definition regex_active (c : ascii) : bool :=
  str_mem c "\[](){}+?|^$".
Definition plain_pattern (p : string) : bool :=
  str_forallb (fun c => negb (regex_active c)) p.

(** [SplitPath]: the patterns of the non-empty components. *)
Definition SplitPath (s : string) : list string :=
  let stripped := map strip (split_char "/" s) in
  filter (fun s => s <> "") stripped.

(** [Contains] of [Rule] and of [TestConfiguration] *)
Fixpoint match_prefix (patterns path : list string) : bool :=
  match patterns, path with
  | [], _ => true
  | p :: patterns, c :: path => Pattern_match p c && match_prefix patterns path
  | _ :: _, [] => false
  end.
Definition Contains (patterns path : list string) : bool :=
  if length path <? length patterns then false else match_prefix patterns path.

(** ** Rules and sections *)
Record Rule := { raw_path : string; rule_path : list string; rule_value : expr }.
(** [condition] is [None] when the header could not be parsed. *)
Record Section_ := { condition : option expr; rules : list Rule }.

Definition AddRule (s : Section_) (r : Rule) : Section_ :=
  {| condition := condition s; rules := rules s ++ [r] |}.

(** ** [ClassifyTests] *)
Section Classify.
Context (fuel : nat) (env : gmap string pyelm).

Definition Rule_GetOutcomes (defs : gmap string expr) (r : Rule) : res (list pyelm) :=
  set ← GetOutcomes env defs fuel (rule_value r);
  match set with ListSet elms => Ok elms | _ => Err AssertionError end.

Definition Section_enabled (defs : gmap string expr) (s : Section_) : res bool :=
  match condition s with
  | None => Err (AttributeError "Evaluate")
  | Some c => Evaluate env defs fuel c
  end.

(** [[s for s in self.sections if s.condition.Evaluate(env, self.defs)]] *)
Fixpoint enabled_sections (defs : gmap string expr) (sections : list Section_)
    : res (list Section_) :=
  match sections with
  | [] => Ok []
  | s :: sections =>
      b ← Section_enabled defs s;
      rest ← enabled_sections defs sections;
      Ok (if b : bool then s :: rest else rest)
  end.

(** The loop over the rules that match one case.  A rule object is identified
    by its position in [all_rules]. *)
Definition case_outcomes (defs : gmap string expr) (matches : list (nat * Rule))
    (unused : gset nat) : res (gset pyelm * gset nat) :=
  foldM (fun '(outcomes, unused) '(i, rule) =>
           elms ← Rule_GetOutcomes defs rule;
           Ok (outcomes ∪ list_to_set elms, unused ∖ {[i]}))
        (∅, unused) matches.

Definition classify_case (defs : gmap string expr) (all_rules : list (nat * Rule))
    (st : list (list string * gset pyelm) * gset nat * gset pyelm) (path : list string)
    : res (list (list string * gset pyelm) * gset nat * gset pyelm) :=
  let '(result, unused, all_outcomes) := st in
  let matches := filter (fun r => Contains (rule_path r.2) path = true) all_rules in
  '(outcomes, unused) ← case_outcomes defs matches unused;
  let outcomes : gset pyelm := if decide (outcomes = ∅) then {[Some PASS]} else outcomes in
  Ok (result ++ [(path, outcomes)], unused, all_outcomes ∪ outcomes).

Definition number_rules (rs : list Rule) : list (nat * Rule) := imap pair rs.

Definition ClassifyTests (sections : list Section_) (defs : gmap string expr)
    (cases : list (list string))
    : res (list (list string * gset pyelm) * gset nat * gset pyelm) :=
  sections ← enabled_sections defs sections;
  let all_rules := number_rules (concat (map rules sections)) in
  foldM (classify_case defs all_rules) ([], list_to_set (map fst all_rules), ∅) cases.
End Classify.

(** ** Selection and report in [Main] *)
Definition DoSkip (outcomes : gset pyelm) : bool :=
  bool_decide (Some SKIP ∈ outcomes) || bool_decide (Some SLOW ∈ outcomes).
Definition cases_to_run (all_cases : list (list string * gset pyelm)) :=
  filter (fun c => DoSkip c.2 = false) all_cases.

Definition IsFailOk (o : gset pyelm) : bool :=
  bool_decide (size o = 2) && bool_decide (Some FAIL ∈ o) && bool_decide (Some OKAY ∈ o).

Record Report := { total : nat; skipped : nat; pass : nat; fail_ok : nat; fail : nat }.
Definition PrintReport (cases : list (list string * gset pyelm)) : Report :=
  let unskipped := filter (fun c : list string * gset pyelm => Some SKIP ∉ c.2) cases in
  {| total := length cases;
     skipped := length cases - length unskipped;
     pass := length (filter (fun c : list string * gset pyelm => c.2 = {[Some PASS]}) unskipped);
     fail_ok := length (filter (fun c => IsFailOk c.2 = true) unskipped);
     fail := length (filter (fun c : list string * gset pyelm => c.2 = {[Some FAIL]}) unskipped) |}.

(** ** Reading status files *)

(** [utils.ReadLinesFrom]: comments cut, blank lines dropped. *)
Definition cut_comment (line : string) : string :=
  match split1 "#" line with Some (before, _) => before | None => line end.
Definition ReadLinesFrom (lines : list string) : list string :=
  filter (fun l => l <> "") (map (fun line => strip (cut_comment line)) lines).

Definition is_word (c : ascii) : bool := isalpha c || isdigit c || Ascii.eqb c "_".

(** [HEADER_PATTERN]: a bracket, one or more other characters, the closing bracket. *)
Definition HEADER_PATTERN (line : string) : option string :=
  match line with
  | String "["%char s =>
      match span (fun c => negb (Ascii.eqb c "]")) s with
      | ("", _) | (_, "") => None
      | (group1, _) => Some group1
      end
  | _ => None
  end.
(** [RULE_PATTERN]: a run without colon or space, optional white space, a colon, the
    rest. *)
Definition RULE_PATTERN (line : string) : option (string * string) :=
  let (group1, rest) :=
    span (fun c => negb (Ascii.eqb c ":") && negb (Ascii.eqb c " ")) (lstrip_of isspace line) in
  match lstrip_of isspace rest with
  | String ":"%char group2 => Some (group1, group2)
  | _ => None
  end.
(** [DEF_PATTERN]: [def], a word, an equals sign, the rest. *)
Definition DEF_PATTERN (line : string) : option (string * string) :=
  if startswith "def" line then
    match span is_word (lstrip_of isspace (str_drop 3 line)) with
    | ("", _) => None
    | (group1, rest) =>
        match lstrip_of isspace rest with
        | String "="%char group2 => Some (group1, group2)
        | _ => None
        end
    end
  else None.
(** [PREFIX_PATTERN]: [prefix], white space, a run of path characters to the end. *)
Definition prefix_char (c : ascii) : bool := is_word c || str_mem c ".-/".
Definition PREFIX_PATTERN (line : string) : option string :=
  let line := lstrip_of isspace line in
  if startswith "prefix" line then
    let rest := str_drop 6 line in
    let group1 := lstrip_of isspace rest in
    if (String.length group1 <? String.length rest) && negb (String.eqb group1 "") &&
       str_forallb prefix_char group1
    then Some group1 else None
  else None.

(** The loop state: the sections read (the current one is the last), the
    definitions, the current prefix. *)
Record reader := {
  r_sections : list Section_;
  r_defs : gmap string expr;
  r_prefix : list string }.

Definition update_last (f : Section_ -> Section_) (l : list Section_) : list Section_ :=
  alter f (length l - 1) l.

(** One line; [Ok None] is [return False]. *)
Definition read_line (st : reader) (line : string) : res (option reader) :=
  match HEADER_PATTERN line with
  | Some header =>
      condition ← ParseCondition (strip header);
      Ok (Some {| r_sections := r_sections st ++ [{| condition := condition; rules := [] |}];
                  r_defs := r_defs st; r_prefix := r_prefix st |})
  | None =>
      match RULE_PATTERN line with
      | Some (group1, group2) =>
          let path := r_prefix st ++ SplitPath (strip group1) in
          value ← ParseCondition (strip group2);
          match value with
          | None => Ok None
          | Some value =>
              let rule := {| raw_path := group1; rule_path := path; rule_value := value |} in
              Ok (Some {| r_sections := update_last (fun s => AddRule s rule) (r_sections st);
                          r_defs := r_defs st; r_prefix := r_prefix st |})
          end
      | None =>
          match DEF_PATTERN line with
          | Some (group1, group2) =>
              value ← ParseCondition (strip group2);
              match value with
              | None => Ok None
              | Some value =>
                  Ok (Some {| r_sections := r_sections st;
                              r_defs := <[lower group1 := value]> (r_defs st);
                              r_prefix := r_prefix st |})
              end
          | None =>
              match PREFIX_PATTERN line with
              | Some group1 =>
                  Ok (Some {| r_sections := r_sections st; r_defs := r_defs st;
                              r_prefix := SplitPath (strip group1) |})
              | None => Ok None
              end
          end
      end
  end.

Fixpoint read_lines (st : reader) (lines : list string) : res (bool * reader) :=
  match lines with
  | [] => Ok (true, st)
  | line :: lines =>
      r ← read_line st line;
      match r with
      | None => Ok (false, st)
      | Some st => read_lines st lines
      end
  end.

(** The boolean is the value returned; [sections] and [defs] are mutated in
    place, so the final state is part of the result whatever is returned. *)
Definition ReadConfigurationInto (file : list string) (sections : list Section_)
    (defs : gmap string expr) : res (bool * list Section_ * gmap string expr) :=
  let start := {| r_sections := sections ++ [{| condition := Some (Constant true); rules := [] |}];
                  r_defs := defs; r_prefix := [] |} in
  '(ok, st) ← read_lines start (ReadLinesFrom file);
  Ok (ok : bool, r_sections st, r_defs st).

(** ** Printing a status file *)
Definition render_rule (r : Rule) : string :=
  raw_path r +:+ ": " +:+ render (rule_value r).
Definition render_section (s : Section_) : list string :=
  match condition s with
  | Some c => ["[" +:+ render c +:+ "]"]
  | None => []
  end ++ map render_rule (rules s).

Definition path_char (c : ascii) : bool :=
  negb (isspace c) && negb (Ascii.eqb c ":") && negb (Ascii.eqb c "#") && negb (Ascii.eqb c "[").
Definition rule_wf (r : Rule) : Prop :=
  raw_path r <> "" /\ str_forallb path_char (raw_path r) = true /\
  rule_path r = SplitPath (raw_path r) /\ expr_wf (rule_value r).
Definition section_wf (s : Section_) : Prop :=
  (exists c, condition s = Some c /\ expr_wf c) /\ Forall rule_wf (rules s).

(** ** Patterns: what a match means *)
Inductive glob : string -> string -> Prop :=
  | glob_end s : s = "" \/ s = String newline "" -> glob "" s
  | glob_star p u s : str_forallb any_char u = true -> glob p s ->
      glob (String "*" p) (u +:+ s)
  | glob_dot p c s : any_char c = true -> glob p s -> glob (String "." p) (String c s)
  | glob_char p c s : c <> "*"%char -> c <> "."%char -> glob p s ->
      glob (String c p) (String c s).

Lemma Pattern_match_star p s :
  Pattern_match (String "*" p) s = true <->
  exists u s', s = u +:+ s' /\ str_forallb any_char u = true /\ Pattern_match p s' = true.
Proof.
  simpl. induction s as [|d s IH].
  - rewrite orb_false_r. split.
    + intros H. by exists "", "".
    + by intros ([|] & [|] & ? & ? & ?).
  - rewrite orb_true_iff, andb_true_iff, IH. split.
    + intros [H|(Hd & u & s' & -> & Hu & H)]; [by exists "", (String d s)|].
      exists (String d u), s'. simpl. by rewrite Hd, Hu.
    + intros ([|d' u] & s' & Heq & Hu & H); simpl in *.
      * left. by rewrite Heq.
      * injection Heq as -> ->. reflect. right. eauto 6.
Qed.

Lemma Pattern_match_glob p s : Pattern_match p s = true <-> glob p s.
Proof.
  revert s; induction p as [|c p IH]; intros s.
  - simpl. rewrite orb_true_iff, !String.eqb_eq.
    split; [by constructor|by inversion 1].
  - destruct (Ascii.eqb_spec c "*") as [->|Hstar].
    + rewrite Pattern_match_star. setoid_rewrite IH. split.
      * intros (u & s' & -> & ? & ?). by constructor.
      * inversion 1; subst; [eauto|done].
    + simpl. apply Ascii.eqb_neq in Hstar as Hs. rewrite Hs.
      destruct s as [|d s]; [split; [done|inversion 1]; by subst|].
      rewrite andb_true_iff, IH. destruct (Ascii.eqb_spec c ".") as [->|Hdot].
      * split; [intros []; by constructor|]. by inversion 1; subst.
      * rewrite Ascii.eqb_eq. split; [intros [-> ?]; by constructor|]. by inversion 1; subst.
Qed.

Lemma match_prefix_spec patterns path :
  match_prefix patterns path = true <->
  exists here below, path = here ++ below /\ Forall2 glob patterns here.
Proof.
  revert path; induction patterns as [|p patterns IH]; intros path; simpl.
  - split; [by exists [], path|done].
  - destruct path as [|c path].
    + split; [done|]. intros (here & below & Heq & HF). destruct here; [inversion HF|done].
    + rewrite andb_true_iff, Pattern_match_glob, IH. split.
      * intros (Hp & here & below & -> & HF). exists (c :: here), below. eauto.
      * intros (here & below & Heq & HF). inversion HF; subst.
        injection Heq as -> ->. eauto.
Qed.

(** ** Classification: lemmas *)
Section ClassifyLemmas.
Context (fuel : nat) (env : gmap string pyelm) (defs : gmap string expr).

Definition rule_yields (r : Rule) (x : pyelm) : Prop :=
  exists l, Rule_GetOutcomes fuel env defs r = Ok l /\ x ∈ l.

Lemma enabled_sections_spec ss en :
  enabled_sections fuel env defs ss = Ok en ->
  forall s, s ∈ en <-> s ∈ ss /\ Section_enabled fuel env defs s = Ok true.
Proof.
  revert en; induction ss as [|s ss IH]; intros en; simpl.
  - intros [= <-] s. set_solver.
  - intros (b & Hb & (rest & Hrest & [= <-])%bind_ok)%bind_ok s'.
    specialize (IH _ Hrest s'). destruct b; rewrite !elem_of_cons, ?IH.
    + split; [intros [->|[? ?]]|intros [[->|?] ?]]; auto.
    + split; [intros [? ?]; auto|]. intros [[->|?] ?]; [congruence|auto].
Qed.

Lemma case_outcomes_spec matches o0 u0 o u :
  foldM (fun '(outcomes, unused) '(i, rule) =>
           elms ← Rule_GetOutcomes fuel env defs rule;
           Ok (outcomes ∪ list_to_set elms : gset pyelm, unused ∖ {[i]} : gset nat))
        (o0, u0) matches = Ok (o, u) ->
  (forall x, x ∈ o <-> x ∈ o0 \/ exists r, r ∈ map snd matches /\ rule_yields r x) /\
  (forall i, i ∈ u <-> i ∈ u0 /\ i ∉ map fst matches).
Proof.
  revert o0 u0; induction matches as [|[i r] ms IH]; intros o0 u0; simpl.
  - intros [= <- <-]. split; set_solver.
  - intros ([o1 u1] & (l & Hl & [= <- <-])%bind_ok & Hrest)%bind_ok.
    destruct (IH _ _ Hrest) as [Ho Hu]. split.
    + intros x. rewrite Ho, elem_of_union, elem_of_list_to_set.
      split; [intros [[?|?]|(r' & ? & ?)]; [by left|right|right]|].
      * exists r. split; [left|]. by exists l.
      * exists r'. split; [by right|done].
      * intros [?|(r' & [->|?]%elem_of_cons & Hy)]; [by auto| |by eauto].
        destruct Hy as (l' & Hl' & ?). assert (l' = l) by congruence. subst. auto.
    + intros j. rewrite Hu. set_solver.
Qed.

Definition good_outcomes (rs : list Rule) (path : list string) (o : gset pyelm) : Prop :=
  o <> ∅ /\
  forall x, x ∈ o <->
    (exists r, r ∈ rs /\ Contains (rule_path r) path = true /\ rule_yields r x) \/
    (x = Some PASS /\
     ~ exists r y, r ∈ rs /\ Contains (rule_path r) path = true /\ rule_yields r y).

Lemma classify_case_spec (all_rules : list (nat * Rule)) result u al path result' u' al' :
  classify_case fuel env defs all_rules (result, u, al) path = Ok (result', u', al') ->
  exists o, result' = result ++ [(path, o)] /\ al' = al ∪ o /\
    good_outcomes (map snd all_rules) path o /\
    (forall i, i ∈ u' <-> i ∈ u /\
       ~ exists r, (i, r) ∈ all_rules /\ Contains (rule_path r) path = true).
Proof.
  unfold classify_case. intros ([o1 u1] & Hc & [= <- <- <-])%bind_ok.
  apply case_outcomes_spec in Hc as [Ho Hu]. eexists. split_and!; [done..| |].
  - assert (Hex : forall x, x ∈ o1 <->
      exists r, r ∈ map snd all_rules /\ Contains (rule_path r) path = true /\ rule_yields r x).
    { intros x. rewrite Ho. setoid_rewrite list_elem_of_fmap.
      split.
      - intros [[]%not_elem_of_empty|(r & (p & -> & [? ?]%list_elem_of_filter) & ?)].
        eauto 6.
      - intros (r & (p & -> & ?) & ? & ?). right. exists p.2.
        split; [|done]. exists p. by rewrite list_elem_of_filter. }
    clear Ho Hu. case_decide as Hempty.
    + split; [set_solver|]. intros x. rewrite elem_of_singleton. split.
      * intros ->. right. split; [done|]. intros (r & y & Hr).
        apply (not_elem_of_empty (C := gset pyelm) y). rewrite <- Hempty. apply Hex. eauto.
      * intros [Hr|[-> _]]; [|done]. apply Hex in Hr. set_solver.
    + split; [done|]. intros x. rewrite <- Hex. split; [auto|].
      intros [?|[-> Hno]]; [done|]. exfalso. apply Hempty. apply set_eq. intros y.
      split; [|set_solver]. intros Hy. destruct Hno. apply Hex in Hy as (r & ?). eauto.
  - intros i. rewrite Hu. setoid_rewrite list_elem_of_fmap.
    split; intros [? Hno]; (split; [done|]); contradict Hno.
    + destruct Hno as (r & ? & ?). exists (i, r). by rewrite list_elem_of_filter.
    + destruct Hno as ([i' r] & -> & [? ?]%list_elem_of_filter). eauto.
Qed.

Lemma classify_cases_spec (all_rules : list (nat * Rule)) cases result u al result' u' al' :
  foldM (classify_case fuel env defs all_rules) (result, u, al) cases = Ok (result', u', al') ->
  exists more, result' = result ++ more /\ map fst more = cases /\
    Forall (fun '(path, o) => good_outcomes (map snd all_rules) path o) more /\
    al' = al ∪ ⋃ (map snd more) /\
    (forall i, i ∈ u' <-> i ∈ u /\
       ~ exists c r, c ∈ cases /\ (i, r) ∈ all_rules /\ Contains (rule_path r) c = true).
Proof.
  revert result u al; induction cases as [|c cases IH]; intros result u al; simpl.
  - intros [= <- <- <-]. exists []. split_and!;
      [by rewrite app_nil_r|done|by apply list.Forall_nil|simpl; set_solver|].
    set_solver.
  - intros ([[r1 u1] al1] & Hc & Hrest)%bind_ok.
    apply classify_case_spec in Hc as (o & -> & -> & Hgood & Hu).
    apply IH in Hrest as (more & -> & <- & HF & -> & Hu').
    exists ((c, o) :: more). split_and!.
    + by rewrite <- app_assoc.
    + done.
    + by apply list.Forall_cons.
    + simpl. set_solver.
    + intros i. rewrite Hu', Hu. setoid_rewrite elem_of_cons. naive_solver.
Qed.
End ClassifyLemmas.

Lemma number_rules_snd rs : map snd (number_rules rs) = rs.
Proof.
  unfold number_rules. apply list_eq. intros i.
  change (map snd ?l) with (snd <$> l). rewrite list_lookup_fmap, list_lookup_imap.
  by destruct (rs !! i).
Qed.
Lemma elem_of_number_rules rs i r : (i, r) ∈ number_rules rs <-> rs !! i = Some r.
Proof.
  unfold number_rules. rewrite elem_of_lookup_imap. split.
  - by intros (? & ? & [= <- <-] & ?).
  - eauto.
Qed.

Lemma ClassifyTests_outcomes fuel env defs sections cases result unused all_outcomes :
  ClassifyTests fuel env sections defs cases = Ok (result, unused, all_outcomes) ->
  exists en, (forall s, s ∈ en <-> s ∈ sections /\ Section_enabled fuel env defs s = Ok true) /\
    map fst result = cases /\
    Forall (fun '(path, o) => good_outcomes fuel env defs (concat (map rules en)) path o) result.
Proof.
  unfold ClassifyTests. intros (en & Hen & Hc)%bind_ok.
  apply classify_cases_spec in Hc as (more & -> & Hfst & HF & _ & _). rewrite number_rules_snd in HF.
  exists en. split_and!; [by apply enabled_sections_spec|done|done].
Qed.

(** ** Stripping and the line patterns *)
Lemma rstrip_of_app p a b : b <> "" -> rstrip_of p b = b -> rstrip_of p (a +:+ b) = a +:+ b.
Proof.
  intros Hne Hb. induction a as [|c a IH]; [done|].
  change (rstrip_of p (String c (a +:+ b)) = String c (a +:+ b)). simpl. rewrite IH.
  by destruct a, b.
Qed.
(** A text with no white space at either end *)
Definition tight (s : string) : Prop :=
  s <> "" /\ lstrip_of isspace s = s /\ rstrip_of isspace s = s.
Lemma strip_tight s : tight s -> strip s = s.
Proof. intros (_ & H1 & H2). unfold strip. by rewrite H1. Qed.
Lemma tight_app a b : tight a -> tight b -> tight (a +:+ b).
Proof.
  intros (Ha & Hl & _) (Hb & _ & Hr). split_and!.
  - by destruct a.
  - destruct a as [|c a]; [done|]. apply lstrip_of_head in Hl. by apply lstrip_of_cons.
  - by apply rstrip_of_app.
Qed.
Lemma tight_mid a m b : tight a -> tight b -> tight (a +:+ m +:+ b).
Proof.
  intros (Ha & Hl & _) (Hb & _ & Hr). split_and!.
  - by destruct a.
  - destruct a as [|c a]; [done|]. apply lstrip_of_head in Hl. by apply lstrip_of_cons.
  - rewrite <- append_assoc. by apply rstrip_of_app.
Qed.
Lemma tight_none s : s <> "" -> str_forallb (fun c => negb (isspace c)) s = true -> tight s.
Proof.
  intros Hne Hs. split_and!; [done| |by apply rstrip_of_none].
  destruct s as [|c s]; [done|]. simpl in *. reflect. by apply lstrip_of_cons.
Qed.

Lemma str_forallb_impl (p q : ascii -> bool) s :
  (forall c, p c = true -> q c = true) -> str_forallb p s = true -> str_forallb q s = true.
Proof.
  intros Hpq. induction s as [|c s IH]; simpl; [done|]. rewrite !andb_true_iff.
  intros []; auto.
Qed.
Lemma str_forallb_mem p s c : str_forallb p s = true -> p c = false -> str_mem c s = false.
Proof.
  unfold str_mem. induction s as [|d s IH]; simpl; [done|]. rewrite andb_true_iff.
  intros [Hd Hs] Hc. apply orb_false_iff. split; [|auto].
  destruct (Ascii.eqb_spec c d); congruence.
Qed.

(** *** Characters of a printed expression *)
Definition render_char (c : ascii) : bool := IsAlpha_char c || str_mem c " ()$,&|=".

Lemma IsAlpha_char_not c d : IsAlpha_char c = true -> IsAlpha_char d = false -> c <> d.
Proof. congruence. Qed.
Lemma token_tight t : token_ok t -> tight t.
Proof.
  intros [Ht|[Hne Ha]].
  - unfold punct in Ht. repeat (apply elem_of_cons in Ht as [->|Ht]; [by split_and!|]).
    by apply not_elem_of_nil in Ht.
  - apply tight_none; [done|]. revert Ha. apply str_forallb_impl.
    intros c ->%IsAlpha_not_space. done.
Qed.
Lemma token_chars t : token_ok t -> str_forallb render_char t = true.
Proof.
  intros [Ht|[Hne Ha]].
  - unfold punct in Ht. repeat (apply elem_of_cons in Ht as [->|Ht]; [done|]).
    by apply not_elem_of_nil in Ht.
  - revert Ha. apply str_forallb_impl. intros c Hc. unfold render_char. by rewrite Hc.
Qed.
Lemma join_tokens ts : ts <> [] -> Forall token_ok ts ->
  tight (join " " ts) /\ str_forallb render_char (join " " ts) = true.
Proof.
  intros Hne. induction 1 as [|t ts Ht Hts IH]; [done|]. destruct ts as [|u ts].
  - simpl. split; [by apply token_tight|by apply token_chars].
  - change (join " " (t :: u :: ts)) with (t +:+ " " +:+ join " " (u :: ts)).
    destruct IH as [H1 H2]; [done|]. split.
    + apply tight_mid; [by apply token_tight|done].
    + rewrite !str_forallb_app, H2, token_chars by done. done.
Qed.
Lemma render_tight e : expr_wf e ->
  tight (render e) /\ str_forallb render_char (render e) = true.
Proof.
  intros H. apply join_tokens; [apply expr_tokens_nonempty|by apply expr_tokens_ok].
Qed.

Lemma path_char_spec c : path_char c = true ->
  isspace c = false /\ c <> ":"%char /\ c <> "#"%char /\ c <> "["%char.
Proof. unfold path_char. intros. by reflect. Qed.
Lemma path_tight p : p <> "" -> str_forallb path_char p = true -> tight p.
Proof.
  intros Hne Hp. apply tight_none; [done|]. revert Hp; apply str_forallb_impl.
  by intros c [-> _]%path_char_spec.
Qed.

(** *** Reading a printed line *)
Lemma HEADER_PATTERN_render c : expr_wf c ->
  HEADER_PATTERN ("[" +:+ render c +:+ "]") = Some (render c).
Proof.
  intros [Ht Hc]%render_tight. simpl. rewrite span_app; [| |done].
  - by destruct (render c); [destruct Ht|].
  - revert Hc. apply str_forallb_impl. intros a. unfold render_char.
    by destruct (Ascii.eqb_spec a "]") as [->|].
Qed.

Lemma RULE_PATTERN_render r : rule_wf r ->
  HEADER_PATTERN (render_rule r) = None /\
  RULE_PATTERN (render_rule r) = Some (raw_path r, " " +:+ render (rule_value r)).
Proof.
  intros (Hne & Hp & _ & _). unfold render_rule. split.
  - destruct (raw_path r) as [|c p]; [done|]. simpl in *. reflect. apply path_char_spec in H as (_ & _ & _ & ?). by destruct c as [[] [] [] [] [] [] [] []].
  - unfold RULE_PATTERN. destruct (path_tight (raw_path r)) as (_ & Hl & _); [done..|].
    destruct (raw_path r) as [|c p]; [done|]. apply lstrip_of_head in Hl.
    rewrite append_cons, (lstrip_of_cons _ c) by done.
    change (String c (p +:+ ": " +:+ ?v)) with (String c p +:+ String ":" (" " +:+ v)).
    rewrite span_app; [done| |done]. revert Hp; apply str_forallb_impl. intros a Ha.
    apply path_char_spec in Ha as (Hs & Ha & _). apply Ascii.eqb_neq in Ha. rewrite Ha.
    by destruct (Ascii.eqb_spec a " ") as [->|].
Qed.

Lemma line_kept l : tight l -> str_mem "#" l = false -> strip (cut_comment l) = l.
Proof. intros Ht Hf. unfold cut_comment. rewrite split1_free by done. by apply strip_tight. Qed.

Lemma render_no_hash e : expr_wf e -> str_mem "#" (render e) = false.
Proof. intros [_ H]%render_tight. by eapply str_forallb_mem. Qed.

Lemma header_kept c : expr_wf c ->
  strip (cut_comment ("[" +:+ render c +:+ "]")) = "[" +:+ render c +:+ "]".
Proof.
  intros H. apply line_kept; [by apply tight_mid; split_and!|].
  rewrite !str_mem_app, render_no_hash by done. done.
Qed.
Lemma rule_kept r : rule_wf r -> strip (cut_comment (render_rule r)) = render_rule r.
Proof.
  intros (Hne & Hp & _ & Hv). apply line_kept.
  - apply tight_mid; [by apply path_tight|by apply render_tight].
  - unfold render_rule. rewrite !str_mem_app, render_no_hash by done.
    rewrite (str_forallb_mem path_char) by done. done.
Qed.

Lemma ReadLinesFrom_fix ls :
  Forall (fun l => strip (cut_comment l) = l /\ l <> "") ls -> ReadLinesFrom ls = ls.
Proof.
  unfold ReadLinesFrom. induction 1 as [|l ls [Hl Hne] _ IH]; [done|]. simpl.
  rewrite Hl, filter_cons_True by done. by rewrite IH.
Qed.
Lemma section_kept s : section_wf s ->
  Forall (fun l => strip (cut_comment l) = l /\ l <> "") (render_section s).
Proof.
  intros [(c & Hc & Hw) Hr]. unfold render_section. rewrite Hc. apply list.Forall_cons.
  split; [split; [by apply header_kept|done]|]. apply Forall_fmap. eapply list.Forall_impl; [exact Hr|].
  intros r Hwr. simpl. split; [by apply rule_kept|]. unfold render_rule.
  by destruct Hwr as (Hne & _), (raw_path r).
Qed.


Lemma read_lines_app st l1 l2 :
  read_lines st (l1 ++ l2) =
  '(ok, st') ← read_lines st l1;
  if ok : bool then read_lines st' l2 else Ok (false, st').
Proof.
  revert st; induction l1 as [|l l1 IH]; intros st; [by destruct (read_lines st l2)|].
  simpl. destruct (read_line st l) as [[st'|]| |]; simpl; auto.
Qed.

Lemma update_last_snoc f (l : list Section_) x : update_last f (l ++ [x]) = l ++ [f x].
Proof.
  unfold update_last. rewrite length_app, Nat.add_sub. rewrite list.alter_app_r_alt by done. by rewrite Nat.sub_diag.
Qed.

Lemma read_rules pre c rs0 defs rs : Forall rule_wf rs ->
  read_lines {| r_sections := pre ++ [{| condition := c; rules := rs0 |}];
                r_defs := defs; r_prefix := [] |} (map render_rule rs) =
  Ok (true, {| r_sections := pre ++ [{| condition := c; rules := rs0 ++ rs |}];
               r_defs := defs; r_prefix := [] |}).
Proof.
  intros Hrs. revert rs0. induction Hrs as [|r rs Hr _ IH]; intros rs0; [by rewrite app_nil_r|].
  destruct (RULE_PATTERN_render r Hr) as [Hh Hp]. destruct Hr as (Hne & Hpc & Hpath & Hv).
  cbn [map read_lines]. unfold read_line. rewrite Hh, Hp.
  change (strip (" " +:+ render (rule_value r))) with (strip (render (rule_value r))).
  rewrite (strip_tight (render (rule_value r))) by by apply render_tight.
  rewrite ParseCondition_render by done. cbn [mbind res_bind].
  cbn [r_sections r_defs r_prefix]. rewrite update_last_snoc. unfold AddRule. simpl.
  rewrite (strip_tight (raw_path r)), <- Hpath.
  - destruct r; simpl. rewrite IH. by rewrite <- app_assoc.
  - by apply path_tight.
Qed.

Lemma read_section pre defs s : section_wf s ->
  read_lines {| r_sections := pre; r_defs := defs; r_prefix := [] |} (render_section s) =
  Ok (true, {| r_sections := pre ++ [s]; r_defs := defs; r_prefix := [] |}).
Proof.
  intros [(c & Hc & Hw) Hr]. unfold render_section. rewrite Hc. cbn [app read_lines].
  unfold read_line. rewrite HEADER_PATTERN_render by done.
  rewrite strip_tight by by apply render_tight. rewrite ParseCondition_render by done.
  cbn [mbind res_bind r_sections r_defs r_prefix]. rewrite read_rules by done.
  destruct s; simpl in *. by subst.
Qed.

Lemma read_sections pre defs ss : Forall section_wf ss ->
  read_lines {| r_sections := pre; r_defs := defs; r_prefix := [] |}
    (concat (map render_section ss)) =
  Ok (true, {| r_sections := pre ++ ss; r_defs := defs; r_prefix := [] |}).
Proof.
  intros H. revert pre. induction H as [|s ss Hs _ IH]; intros pre; simpl; [by rewrite app_nil_r|].
  rewrite read_lines_app, read_section by done. cbn [mbind res_bind].
  rewrite IH. by rewrite <- app_assoc.
Qed.

(** C3. [ClassifyTests] keeps the listed tests in order and gives each the
    union of the outcomes of the enabled rules that contain it, or [{pass}] when
    they give none; it reports as unused exactly the enabled rules that contain
    no test, and as [all_outcomes] the union of what it assigned. *)
Theorem ClassifyTests_spec fuel env defs sections cases result unused all_outcomes :
  ClassifyTests fuel env sections defs cases = Ok (result, unused, all_outcomes) ->
  exists en, let rs := concat (map rules en) in
    (forall s, s ∈ en <-> s ∈ sections /\ Section_enabled fuel env defs s = Ok true) /\
    map fst result = cases /\
    Forall (fun '(path, o) => good_outcomes fuel env defs rs path o) result /\
    (forall i, i ∈ unused <->
       exists r, rs !! i = Some r /\ forall c, c ∈ cases -> Contains (rule_path r) c = false) /\
    all_outcomes = ⋃ (map snd result).
Proof.
  unfold ClassifyTests. intros (en & Hen & Hc)%bind_ok.
  apply classify_cases_spec in Hc as (more & Hm & Hfst & HF & Hal & Hu). simpl in Hm. subst more.
  rewrite number_rules_snd in HF. exists en. split_and!.
  - by apply enabled_sections_spec.
  - done.
  - done.
  - intros i. rewrite Hu, elem_of_list_to_set. setoid_rewrite list_elem_of_fmap.
    setoid_rewrite elem_of_number_rules. split.
    + intros [([i' r] & -> & Hr%elem_of_number_rules) Hno]. exists r. split; [done|].
      intros c Hcin. apply not_true_iff_false. contradict Hno. eauto.
    + intros (r & Hr & Hno). split.
      * exists (i, r). by rewrite elem_of_number_rules.
      * intros (c & r' & Hcin & Hr' & Ht). assert (r' = r) by congruence. subst.
        rewrite Hno in Ht; done.
  - rewrite Hal. set_solver.
Qed.

Lemma ClassifyTests_spec_witness :
  let r := {| raw_path := "test-a*"; rule_path := ["test-a*"]; rule_value := Outcome "fail" |} in
  let ss := [{| condition := Some (Constant true); rules := [r] |}] in
  exists en, let rs := concat (map rules en) in
    (forall s, s ∈ en <-> s ∈ ss /\ Section_enabled 5 ∅ ∅ s = Ok true) /\
    map fst [(["test-ab"], {[Some FAIL]} : gset pyelm); (["test-c"], {[Some PASS]})]
      = [["test-ab"]; ["test-c"]] /\
    Forall (fun '(path, o) => good_outcomes 5 ∅ ∅ rs path o)
      [(["test-ab"], {[Some FAIL]} : gset pyelm); (["test-c"], {[Some PASS]})] /\
    (forall i, i ∈ (∅ : gset nat) <->
       exists r, rs !! i = Some r /\
         forall c, c ∈ [["test-ab"]; ["test-c"]] -> Contains (rule_path r) c = false) /\
    ({[Some FAIL; Some PASS]} : gset pyelm) =
      ⋃ (map snd [(["test-ab"], {[Some FAIL]} : gset pyelm); (["test-c"], {[Some PASS]})]).
Proof.
  intros r ss.
  assert (H : ClassifyTests 5 ∅ ss ∅ [["test-ab"]; ["test-c"]] =
    Ok ([(["test-ab"], {[Some FAIL]}); (["test-c"], {[Some PASS]})], ∅, {[Some FAIL; Some PASS]}))
    by (vm_compute; reflexivity).
  exact (ClassifyTests_spec _ _ _ _ _ _ _ _ H).
Defined.

(** C4. Reading a printed status file back gives its sections, in order, behind
    the unconditional one that every file starts with: [ReadConfigurationInto]
    with [ReadLinesFrom] and [ParseCondition] inverts printing. *)
Theorem ReadConfigurationInto_roundtrip ss sections defs :
  Forall section_wf ss ->
  ReadConfigurationInto (concat (map render_section ss)) sections defs =
  Ok (true, sections ++ {| condition := Some (Constant true); rules := [] |} :: ss, defs).
Proof.
  intros H. unfold ReadConfigurationInto. rewrite ReadLinesFrom_fix.
  - rewrite read_sections by done. cbn [mbind res_bind]. by rewrite <- app_assoc.
  - apply Forall_concat, Forall_fmap. eapply list.Forall_impl; [exact H|]. apply section_kept.
Qed.

Lemma ReadConfigurationInto_roundtrip_witness :
  let s := {| condition := Some (Operation (Variable_ "system") "==" (Outcome "win32"));
              rules := [{| raw_path := "simple/test-*"; rule_path := ["simple"; "test-*"];
                           rule_value := Operation (Outcome "pass") "," (Outcome "flaky") |}] |} in
  Forall section_wf [s] /\
  ReadConfigurationInto (concat (map render_section [s])) [] ∅ =
  Ok (true, [{| condition := Some (Constant true); rules := [] |}; s], ∅).
Proof.
  intros s. assert (H : Forall section_wf [s]).
  { apply list.Forall_cons. split; [|done]. split.
    - exists (Operation (Variable_ "system") "==" (Outcome "win32")). split; [done|].
      by vm_compute; set_solver.
    - apply list.Forall_cons. split; [|done]. split_and!; try done. vm_compute. set_solver. }
  split; [exact H|exact (ReadConfigurationInto_roundtrip [s] [] ∅ H)].
Defined.

(** A path is contained in a pattern list exactly when the list is no longer
    than the path and each pattern, read as a wildcard, covers the component at
    its place. *)
Theorem Contains_spec patterns path :
  Contains patterns path = true <->
  exists here below, path = here ++ below /\ Forall2 glob patterns here.
Proof.
  unfold Contains. rewrite <- match_prefix_spec. destruct (Nat.ltb_spec (length path) (length patterns));
    [|done]. split; [done|]. rewrite match_prefix_spec. intros (here & below & -> & HF).
  apply Forall2_length in HF. rewrite length_app in *. lia.
Qed.
