(* ===== verification/TestRun.v ===== *)
(** * Running the tests in [tools/test.py]

    The verdict on one test's output, the loop that waits for a child process,
    and the thread pool of [ProgressIndicator]: [Run] and [RunSingle] as a step
    relation over the shared queues, counters, lock and shutdown event, one step
    per action of a thread that another thread can observe. *)
From Stdlib Require Import QArith.
From S2P Require Import Prelude PyStr TestExpr TestConfig.
From stdpp Require Import options.
#[local] Open Scope nat_scope.

(** ** The verdict on an output *)
Record CommandOutput := {
  exit_code : Z;
  timed_out : bool;
  failed_memo : option bool;      (* [self.failed] *)
  stdout : string;
  stderr : string }.

(** [signal.SIGABRT] *)
Definition SIGABRT : Z := 6.

Definition HasCrashed (windows : bool) (output : CommandOutput) : bool :=
  if windows then
    negb (Z.land 0x80000000 (exit_code output) =? 0)%Z &&
    (Z.land 0x3FFFFF00 (exit_code output) =? 0)%Z
  else if timed_out output then false
  else (exit_code output <? 0)%Z && negb (exit_code output =? - SIGABRT)%Z.
Definition HasTimedOut (output : CommandOutput) : bool := timed_out output.

(** The base class: a test fails when its exit code is not zero. *)
Definition IsFailureOutput (output : CommandOutput) : bool := negb (exit_code output =? 0)%Z.

Section Verdict.
(** [utils.IsWindows()], and the two methods a test configuration overrides *)
Context (windows : bool) (IsFailure : CommandOutput -> bool) (negative : bool).

Definition DidFail (output : CommandOutput) : bool * CommandOutput :=
  match failed_memo output with
  | Some b => (b, output)
  | None =>
      let b := IsFailure output in
      (b, {| exit_code := exit_code output; timed_out := timed_out output;
             failed_memo := Some b; stdout := stdout output; stderr := stderr output |})
  end.

Definition HasFailed (output : CommandOutput) : bool * CommandOutput :=
  let '(execution_failed, output) := DidFail output in
  (if negative then negb execution_failed else execution_failed, output).

(** The outcome is looked up in the test's declared outcomes. *)
Definition UnexpectedOutput (outcomes : gset pyelm) (output : CommandOutput)
    : bool * CommandOutput :=
  let '(outcome, output) :=
    if HasCrashed windows output then (CRASH, output)
    else if HasTimedOut output then (TIMEOUT, output)
    else let '(b, output) := HasFailed output in ((if b then FAIL else PASS), output) in
  (bool_decide (Some outcome ∉ outcomes), output).
End Verdict.

(** ** Waiting for a child process

    Python floats are rationals here; [clock i] is the value [time.time()]
    returns at its [i]-th call in the loop, [poll i] the child's exit code if it
    has ended by the [i]-th poll, [wait] its exit code once it was killed. *)
Definition MAX_SLEEP_TIME : Q := 1 # 10.
Definition INITIAL_SLEEP_TIME : Q := 1 # 10000.
Definition SLEEP_TIME_FACTOR : Q := 5 # 4.

Definition next_sleep (sleep_time : Q) : Q :=
  let sleep_time := (sleep_time * SLEEP_TIME_FACTOR)%Q in
  if Qle_bool sleep_time MAX_SLEEP_TIME then sleep_time else MAX_SLEEP_TIME.

Section Wait.
Context (clock : nat -> Q) (poll : nat -> option Z) (wait : Z).

(** The result with the sleeps taken, the last one first. *)
Fixpoint wait_loop (fuel i : nat) (end_time : option Q) (sleep_time : Q) (slept : list Q)
    : res (Z * bool * list Q) :=
  match fuel with
  | 0 => NoFuel
  | S fuel =>
      if match end_time with Some t => Qle_bool t (clock i) | None => false end
      then Ok (wait, true, slept)
      else
        let exit_code := poll i in
        let slept := sleep_time :: slept in
        let sleep_time := next_sleep sleep_time in
        match exit_code with
        | Some code => Ok (code, false, slept)
        | None => wait_loop fuel (S i) end_time sleep_time slept
        end
  end.

Definition RunProcess (fuel : nat) (now : Q) (timeout : option Q) : res (Z * bool * list Q) :=
  let end_time := match timeout with Some t => Some (now + t)%Q | None => None end in
  wait_loop fuel 0 end_time INITIAL_SLEEP_TIME [].
End Wait.

(** ** The progress indicator *)
Record case_ := {
  case_path : list string;
  parallel : bool;
  outcomes : gset pyelm;
  case_id : nat }.
#[global] Instance case_eq_dec : EqDecision case_.
Proof. solve_decision. Defined.

(** What [case.Run()] does: returns, raises [IOError], raises something else. *)
Inductive run_result :=
  | Output (o : CommandOutput)
  | RaisesIOError
  | RaisesOther.
(** The calls made with the lock held, [AboutToRun], [UnexpectedOutput] (which
    asks the test configuration) and [HasRun], return or raise as well. *)
Definition raises (r : run_result) : bool :=
  match r with Output _ => false | RaisesIOError | RaisesOther => true end.

Record counters := { succeeded : Z; crashed : Z; remaining : Z }.

(** Where a thread is in [RunSingle]. *)
Inductive pc :=
  | Loop                                              (* the [while] test *)
  | Fetch                                             (* [parallel_queue.get_nowait()] *)
  | FetchSequential                                   (* [sequential_queue.get_nowait()] *)
  | Got (c : case_)                                   (* first [lock.acquire()] *)
  | About (c : case_)                                 (* in [AboutToRun], lock held *)
  | Running (c : case_)                               (* [case.Run()] *)
  | Ran (c : case_) (o : CommandOutput)               (* second shutdown test *)
  | Waiting (c : case_) (o : CommandOutput)           (* second [lock.acquire()] *)
  | Tally (c : case_) (o : CommandOutput)             (* in [UnexpectedOutput], lock held *)
  | Store (c : case_) (o : CommandOutput) (read : counters)  (* counters read, not stored *)
  | Reporting (c : case_) (o : CommandOutput)         (* in [HasRun], lock held *)
  | Returned.

(** Where [Run] is: in [RunSingle] or [join], past the [try], back, raising. *)
Inductive main_phase :=
  | InTry
  | PastTry
  | RunReturned (result : bool)
  | RunRaised.

Record state := {
  parallel_queue : list case_;
  sequential_queue : list case_;
  counts : counters;
  failed : list (case_ * CommandOutput);
  total_cases : Z;
  lock : option nat;
  shutdown_event : bool;
  threads : list pc;
  main : main_phase }.

(** What an observer sees of a step.  [Abandoned]: an exception left the thread
    between [acquire] and [release], with the test it had not recorded yet. *)
Inductive event :=
  | Silent
  | Started (tid : nat) (c : case_)
  | Recorded (tid : nat) (c : case_) (o : CommandOutput)
  | Lost (tid : nat) (c : case_)
  | Abandoned (tid : nat) (c : option case_).

Section Runner.
(** The verdict that the second critical section asks for. *)
Context (unexpected : case_ -> CommandOutput -> bool) (has_crashed : CommandOutput -> bool).

Definition init (cases : list case_) (tasks : nat) : state := {|
  parallel_queue := filter (fun c => parallel c = true) cases;
  sequential_queue := filter (fun c => parallel c = false) cases;
  counts := {| succeeded := 0; crashed := 0; remaining := Z.of_nat (length cases) |};
  failed := [];
  total_cases := Z.of_nat (length cases);
  lock := None;
  shutdown_event := false;
  threads := Loop :: replicate (tasks - 1) Loop;
  main := InTry |}.

Definition goto (tid : nat) (p : pc) (s : state) : state := {|
  parallel_queue := parallel_queue s; sequential_queue := sequential_queue s;
  counts := counts s; failed := failed s; total_cases := total_cases s; lock := lock s;
  shutdown_event := shutdown_event s; threads := <[tid := p]> (threads s); main := main s |}.
Definition set_lock (l : option nat) (s : state) : state := {|
  parallel_queue := parallel_queue s; sequential_queue := sequential_queue s;
  counts := counts s; failed := failed s; total_cases := total_cases s; lock := l;
  shutdown_event := shutdown_event s; threads := threads s; main := main s |}.
Definition set_queues (p q : list case_) (s : state) : state := {|
  parallel_queue := p; sequential_queue := q;
  counts := counts s; failed := failed s; total_cases := total_cases s; lock := lock s;
  shutdown_event := shutdown_event s; threads := threads s; main := main s |}.
Definition set_main (m : main_phase) (shutdown : bool) (s : state) : state := {|
  parallel_queue := parallel_queue s; sequential_queue := sequential_queue s;
  counts := counts s; failed := failed s; total_cases := total_cases s; lock := lock s;
  shutdown_event := shutdown || shutdown_event s; threads := threads s; main := m |}.
(** [self.failed.append(output)] or not, and the counters stored from the
    values read before. *)
Definition tally (c : case_) (o : CommandOutput) (read : counters) (s : state) : state := {|
  parallel_queue := parallel_queue s; sequential_queue := sequential_queue s;
  counts :=
    if unexpected c o
    then {| succeeded := succeeded (counts s);
            crashed := if has_crashed o then crashed read + 1 else crashed (counts s);
            remaining := remaining read - 1 |}
    else {| succeeded := succeeded read + 1; crashed := crashed (counts s);
            remaining := remaining read - 1 |};
  failed := if unexpected c o then failed s ++ [(c, o)] else failed s;
  total_cases := total_cases s; lock := lock s;
  shutdown_event := shutdown_event s; threads := threads s; main := main s |}.

(** An exception leaves [RunSingle]: a worker thread is gone, the main thread
    is in the handler of [Run], which sets the event and raises it again.
    Nothing releases the lock. *)
Definition die (tid : nat) (s : state) : state :=
  if tid =? 0 then set_main RunRaised true (goto tid Returned s) else goto tid Returned s.

(** One step of thread [tid] of [RunSingle(tid <> 0, tid)]; [r] is what the
    call does that the thread is at, if it is at one.  [None]: the thread is
    blocked on the lock, has returned or does not exist. *)
Definition thread_step (s : state) (tid : nat) (r : run_result) : option (event * state) :=
  match threads s !! tid with
  | None | Some Returned => None
  | Some Loop =>
      Some (Silent, goto tid (if shutdown_event s then Returned else Fetch) s)
  | Some Fetch =>
      match parallel_queue s with
      | c :: q => Some (Started tid c, goto tid (Got c) (set_queues q (sequential_queue s) s))
      | [] => Some (Silent, goto tid (if tid =? 0 then FetchSequential else Returned) s)
      end
  | Some FetchSequential =>
      match sequential_queue s with
      | c :: q => Some (Started tid c, goto tid (Got c) (set_queues (parallel_queue s) q s))
      | [] => Some (Silent, goto tid Returned s)
      end
  | Some (Got c) =>
      match lock s with
      | None => Some (Silent, goto tid (About c) (set_lock (Some tid) s))
      | Some _ => None
      end
  | Some (About c) =>
      if raises r then Some (Abandoned tid (Some c), die tid s)
      else Some (Silent, goto tid (Running c) (set_lock None s))
  | Some (Running c) =>
      match r with
      | Output o => Some (Silent, goto tid (Ran c o) s)
      | RaisesIOError => Some (Lost tid c, goto tid Returned s)
      | RaisesOther => Some (Lost tid c, die tid s)
      end
  | Some (Ran c o) =>
      if shutdown_event s then Some (Lost tid c, goto tid Returned s)
      else Some (Silent, goto tid (Waiting c o) s)
  | Some (Waiting c o) =>
      match lock s with
      | None => Some (Silent, goto tid (Tally c o) (set_lock (Some tid) s))
      | Some _ => None
      end
  | Some (Tally c o) =>
      if raises r then Some (Abandoned tid (Some c), die tid s)
      else Some (Silent, goto tid (Store c o (counts s)) s)
  | Some (Store c o read) =>
      Some (Recorded tid c o, goto tid (Reporting c o) (tally c o read s))
  | Some (Reporting c o) =>
      if raises r then Some (Abandoned tid None, die tid s)
      else Some (Silent, goto tid Loop (set_lock None s))
  end.

(** The cases a thread has taken and not accounted for. *)
Definition pc_cases (p : pc) : list case_ :=
  match p with
  | Loop | Fetch | FetchSequential | Reporting _ _ | Returned => []
  | Got c | About c | Running c => [c]
  | Ran c _ | Waiting c _ | Tally c _ | Store c _ _ => [c]
  end.

Inductive step : state -> list event -> state -> Prop :=
  | step_thread s tid r e s' :
      thread_step s tid r = Some (e, s') -> step s [e] s'
  | step_join s :            (* every [thread.join] returns *)
      main s = InTry -> Forall (eq Returned) (threads s) ->
      step s [] (set_main PastTry false s)
  | step_interrupt s p :     (* [KeyboardInterrupt] or [SystemExit] in the main thread *)
      main s = InTry -> threads s !! 0 = Some p ->
      step s (Lost 0 <$> pc_cases p) (set_main PastTry true (goto 0 Returned s))
  | step_return s :          (* [return not self.failed] *)
      main s = PastTry ->
      step s [] (set_main (RunReturned (bool_decide (failed s = []))) false s).

Inductive run : state -> list event -> state -> Prop :=
  | run_refl s : run s [] s
  | run_step s tr s1 es s2 : run s tr s1 -> step s1 es s2 -> run s (tr ++ es) s2.
End Runner.

(** A schedule: which thread moves, and what the call it is at does. *)
Fixpoint exec (unexpected : case_ -> CommandOutput -> bool) (has_crashed : CommandOutput -> bool)
    (s : state) (schedule : list (nat * run_result)) : option (list event * state) :=
  match schedule with
  | [] => Some ([], s)
  | (tid, r) :: schedule =>
      match thread_step unexpected has_crashed s tid r with
      | Some (e, s) =>
          match exec unexpected has_crashed s schedule with
          | Some (tr, s) => Some (e :: tr, s)
          | None => None
          end
      | None => None
      end
  end.

Definition exits (code : Z) : run_result :=
  Output {| exit_code := code; timed_out := false; failed_memo := None;
            stdout := ""; stderr := "" |}.

(** ** Accounting *)
Definition inflight (ts : list pc) : list case_ := concat (map pc_cases ts).
Definition started (tr : list event) : list case_ :=
  omap (fun e => match e with Started _ c => Some c | _ => None end) tr.
Definition recorded (tr : list event) : list (case_ * CommandOutput) :=
  omap (fun e => match e with Recorded _ c o => Some (c, o) | _ => None end) tr.
Definition lost (tr : list event) : list case_ :=
  omap (fun e => match e with Lost _ c => Some c | Abandoned _ c => c | _ => None end) tr.
(** The threads that an exception took while they held the lock. *)
Definition abandoned (tr : list event) : list nat :=
  omap (fun e => match e with Abandoned tid _ => Some tid | _ => None end) tr.

Definition cnt (c : case_) (l : list case_) : nat := length (filter (eq c) l).

(** The lock is held from [acquire] to [release]. *)
Definition holds_lock (p : pc) : bool :=
  match p with About _ | Tally _ _ | Store _ _ _ | Reporting _ _ => true | _ => false end.
(** The thread is at one of the two [lock.acquire()]. *)
Definition at_acquire (p : pc) : bool :=
  match p with Got _ | Waiting _ _ => true | _ => false end.

(** Upper bound on the steps still possible. *)
Definition pc_weight (p : pc) : nat :=
  match p with
  | Returned => 0 | FetchSequential => 1 | Fetch => 2 | Loop => 3
  | Reporting _ _ => 4 | Store _ _ _ => 5 | Tally _ _ => 6 | Waiting _ _ => 7
  | Ran _ _ => 8 | Running _ => 9 | About _ => 10 | Got _ => 11
  end.
#[global] Instance pc_returned_dec (p : pc) : Decision (p = Returned).
Proof. destruct p; first [by left|by right]. Defined.
Definition main_weight (m : main_phase) : nat :=
  match m with InTry => 2 | PastTry => 1 | _ => 0 end.
Definition weight (s : state) : nat :=
  11 * length (parallel_queue s) + 11 * length (sequential_queue s) +
  sum_list_with pc_weight (threads s) + main_weight (main s).

(** ** Lemmas *)
Lemma cnt_app c l1 l2 : cnt c (l1 ++ l2) = cnt c l1 + cnt c l2.
Proof. unfold cnt. by rewrite list.filter_app, length_app. Qed.
Lemma cnt_cons c d l : cnt c (d :: l) = cnt c [d] + cnt c l.
Proof. apply (cnt_app c [d] l). Qed.
Lemma cnt_nil c : cnt c [] = 0.
Proof. done. Qed.
Lemma cnt_elem c l : 0 < cnt c l <-> c ∈ l.
Proof.
  unfold cnt. induction l as [|d l IH]; [rewrite list.filter_nil; simpl; split; [lia|set_solver]|].
  rewrite list.filter_cons, elem_of_cons, <- IH. case_decide; simpl.
  - split; [by left|lia].
  - split; [by right|by intros [->|?]].
Qed.
Lemma cnt_NoDup l : NoDup l <-> forall c, cnt c l <= 1.
Proof.
  induction l as [|d l IH]; [split; [intros; by rewrite cnt_nil; lia|constructor]|].
  rewrite list.NoDup_cons, IH. split.
  - intros [Hd Hl] c. rewrite cnt_cons. specialize (Hl c). unfold cnt at 1.
    rewrite list.filter_cons, list.filter_nil. case_decide; simpl; [subst|lia].
    rewrite <- cnt_elem in Hd. lia.
  - intros H. split; [|intros c; specialize (H c); rewrite cnt_cons in H; lia].
    rewrite <- cnt_elem. specialize (H d). rewrite cnt_cons in H. unfold cnt in H at 1.
    rewrite list.filter_cons, list.filter_nil, decide_True in H by done. simpl in H. lia.
Qed.
Lemma cnt_split c (l : list case_) :
  cnt c l = cnt c (filter (fun c => parallel c = true) l) +
            cnt c (filter (fun c => parallel c = false) l).
Proof.
  induction l as [|d l IH]; [done|]. rewrite cnt_cons, IH, !list.filter_cons.
  repeat case_decide; rewrite ?(cnt_cons c d (filter _ _)); [congruence|lia|lia|].
  destruct (parallel d); congruence.
Qed.

Lemma pc_insert_split (ts : list pc) i p q : ts !! i = Some p ->
  exists l1 l2, ts = l1 ++ p :: l2 /\ <[i := q]> ts = l1 ++ q :: l2 /\ i = length l1.
Proof.
  intros (l1 & l2 & -> & ->)%list_elem_of_split_length. exists l1, l2. split_and!; [done| |done].
  by rewrite list.insert_app_r_alt, Nat.sub_diag by done.
Qed.
Lemma inflight_insert c ts i p q : ts !! i = Some p ->
  cnt c (inflight (<[i := q]> ts)) + cnt c (pc_cases p) =
  cnt c (inflight ts) + cnt c (pc_cases q).
Proof.
  intros (l1 & l2 & -> & -> & _)%(pc_insert_split _ _ _ q). unfold inflight.
  rewrite !map_app, !concat_app. simpl. rewrite !cnt_app. lia.
Qed.
Lemma weight_insert ts i p q : ts !! i = Some p ->
  sum_list_with pc_weight (<[i := q]> ts) + pc_weight p =
  sum_list_with pc_weight ts + pc_weight q.
Proof.
  intros (l1 & l2 & -> & -> & _)%(pc_insert_split _ _ _ q).
  rewrite !sum_list_with_app. simpl. lia.
Qed.

(** Case analysis on a step of a thread: its program counter, the queues, the
    lock, the event. *)
Ltac thread_cases H :=
  unfold thread_step, die in H;
  match type of H with context [threads ?s !! ?tid] =>
    let Hpc := fresh "Hpc" in
    destruct (threads s !! tid) as [[]|] eqn:Hpc; simpl in H; try discriminate H
  end;
  repeat (match type of H with
          | context [match ?x with _ => _ end] =>
              lazymatch x with context [match _ with _ => _ end] => fail | _ => destruct x eqn:? end
          end; simpl in H; try discriminate H);
  injection H as <- <-.

Section Invariants.
Context (unexpected : case_ -> CommandOutput -> bool) (has_crashed : CommandOutput -> bool).
Abbreviation thread_step := (thread_step unexpected has_crashed).
Abbreviation step := (step unexpected has_crashed).
Abbreviation run := (run unexpected has_crashed).

Lemma run_ind_inv (Inv : state -> list event -> Prop) s0 :
  Inv s0 [] ->
  (forall s tr es s', Inv s tr -> step s es s' -> Inv s' (tr ++ es)) ->
  forall tr s, run s0 tr s -> Inv s tr.
Proof. intros H0 Hs tr s. induction 1; eauto. Qed.

(** *** Every case is queued, in flight, recorded or lost *)
Definition conserved (cases : list case_) (s : state) (tr : list event) : Prop :=
  forall c,
    cnt c cases = cnt c (parallel_queue s) + cnt c (sequential_queue s) + cnt c (started tr) /\
    cnt c (started tr) = cnt c (inflight (threads s)) + cnt c (recorded tr).*1 + cnt c (lost tr).

Lemma events_app tr e :
  started (tr ++ e) = started tr ++ started e /\
  recorded (tr ++ e) = recorded tr ++ recorded e /\
  lost (tr ++ e) = lost tr ++ lost e.
Proof. unfold started, recorded, lost. by rewrite !omap_app. Qed.

Lemma lost_only l : started (Lost 0 <$> l) = [] /\ recorded (Lost 0 <$> l) = [] /\
  lost (Lost 0 <$> l) = l.
Proof. induction l as [|c l (?&?&IH)]; [done|]. split_and!; [done..|]. by apply (f_equal (cons c)). Qed.

Lemma conserved_init cases tasks : conserved cases (init cases tasks) [].
Proof.
  intros c. unfold started, recorded, lost. simpl. rewrite (cnt_split c cases), cnt_nil.
  split; [lia|]. unfold inflight. induction (tasks - 1) as [|n IH]; [done|]. by simpl in *.
Qed.

Lemma conserved_step cases s tr es s' :
  conserved cases s tr -> step s es s' -> conserved cases s' (tr ++ es).
Proof.
  intros HI Hs c. destruct (events_app tr es) as (-> & -> & ->).
  specialize (HI c) as [H1 H2]. rewrite fmap_app, !cnt_app.
  generalize dependent (started tr). generalize dependent (recorded tr).
  generalize dependent (lost tr). intros lo re st H1 H2.
  destruct Hs as [s tid r e s' Hs|s Hm Hj|s p Hm Hp|s Hm]; simpl; rewrite ?cnt_nil; [|lia| |lia].
  - thread_cases Hs; unfold started, recorded, lost; simpl;
      match goal with |- context [<[?i := ?q]> ?ts] =>
        pose proof (inflight_insert c ts i _ q Hpc) as Hi; simpl in Hi end;
      repeat match goal with
      | H : _ s = ?d :: ?q |- _ => rewrite ?H, ?(cnt_cons c d q) in *; clear H
      | H : _ s = [] |- _ => rewrite H; clear H
      end;
      rewrite ?cnt_nil in *; lia.
  - destruct (lost_only (pc_cases p)) as (-> & -> & ->).
    pose proof (inflight_insert c _ _ _ Returned Hp) as Hi. simpl in *. rewrite ?cnt_nil in *. lia.
Qed.

Lemma run_conserved cases tasks tr s :
  run (init cases tasks) tr s -> conserved cases s tr.
Proof. apply run_ind_inv; [apply conserved_init|intros; eapply conserved_step; eauto]. Qed.
(** *** The lock makes the counters the tallies of the recorded outputs *)
Definition is_unexpected (p : case_ * CommandOutput) : bool := unexpected p.1 p.2.
Definition tallies (n : nat) (rec : list (case_ * CommandOutput)) : counters := {|
  succeeded := Z.of_nat (length (filter (fun p => is_unexpected p = false) rec));
  crashed := Z.of_nat (length (filter (fun p => has_crashed p.2 = true)
                        (filter (fun p => is_unexpected p = true) rec)));
  remaining := Z.of_nat n - Z.of_nat (length rec) |}.

Record consistent (n : nat) (s : state) (tr : list event) : Prop := {
  lock_held : forall tid p, threads s !! tid = Some p -> holds_lock p = true ->
    lock s = Some tid;
  read_current : forall tid c o read, threads s !! tid = Some (Store c o read) ->
    read = counts s;
  failed_recorded : failed s = filter (fun p => is_unexpected p = true) (recorded tr);
  counts_recorded : counts s = tallies n (recorded tr) }.

Lemma tallies_snoc n rec c o :
  let t := tallies n rec in
  tallies n (rec ++ [(c, o)]) =
  if unexpected c o
  then {| succeeded := succeeded t;
          crashed := if has_crashed o then crashed t + 1 else crashed t;
          remaining := remaining t - 1 |}
  else {| succeeded := succeeded t + 1; crashed := crashed t; remaining := remaining t - 1 |}.
Proof.
  unfold tallies, is_unexpected. simpl. rewrite !list.filter_app, !list.filter_cons, !list.filter_nil. simpl.
  rewrite !length_app.
  destruct (unexpected c o); simpl; rewrite ?list.filter_cons, ?list.filter_nil; simpl;
    [destruct (has_crashed o)|]; simpl; f_equal; lia.
Qed.

Lemma init_threads cases tasks tid p : threads (init cases tasks) !! tid = Some p -> p = Loop.
Proof.
  simpl. destruct tid; simpl; [congruence|]. by intros [-> _]%lookup_replicate.
Qed.

Lemma consistent_init cases tasks : consistent (length cases) (init cases tasks) [].
Proof.
  split; [|intros ? ? ? ? H; by apply init_threads in H|done|].
  - intros tid p ->%init_threads. done.
  - unfold tallies. simpl. f_equal. lia.
Qed.

(** A thread whose program counter moves while the lock stays put. *)
Lemma lookup_goto (ts : list pc) tid q tid' p :
  <[tid := q]> ts !! tid' = Some p -> (tid' = tid /\ p = q) \/ (tid' <> tid /\ ts !! tid' = Some p).
Proof.
  intros [(-> & -> & _)|[? ?]]%list_lookup_insert_Some; [by left|by right].
Qed.

Lemma consistent_thread n s tr tid r e s' :
  consistent n s tr -> thread_step s tid r = Some (e, s') -> consistent n s' (tr ++ [e]).
Proof.
  intros [HL HR HF HC] Hs. destruct (events_app tr [e]) as (_ & Hrec & _).
  assert (Hlock : forall p, threads s !! tid = Some p -> holds_lock p = true ->
    forall tid' q, threads s !! tid' = Some q -> holds_lock q = true -> tid' = tid).
  { intros p Hp Hh tid' q Hq Hh'. apply HL in Hp, Hq; [congruence|done..]. }
  assert (Hfree : lock s = None -> forall tid' q, threads s !! tid' = Some q ->
    holds_lock q = false).
  { intros Hn tid' q Hq. apply not_true_iff_false. intros Hh. apply HL in Hq; congruence. }
  thread_cases Hs; (split;
    [ intros tid' p [[-> ->]|[Hne Hp]]%lookup_goto Hh; try done; simpl in *
    | intros tid' c' o' read' [[-> Heq]|[Hne Hp]]%lookup_goto; try done; simpl in *
    | rewrite Hrec; simpl; rewrite ?app_nil_r; try done
    | rewrite Hrec; simpl; rewrite ?app_nil_r; try done ]).
  all: try (by eapply HL); try (by eapply HR); try congruence.
  all: try (by specialize (Hfree eq_refl _ _ Hp); congruence).
  all: try (by destruct (Hne (Hlock _ eq_refl eq_refl _ _ Hp eq_refl))).
  all: try (by destruct (Hne (Hlock _ eq_refl eq_refl _ _ Hp Hh))).
  - rewrite list.filter_app, list.filter_cons, list.filter_nil, HF.
    change (is_unexpected (c, o)) with (unexpected c o).
    destruct (unexpected c o); simpl; by rewrite ?app_nil_r.
  - rewrite tallies_snoc, (HR _ _ _ _ Hpc), HC. by destruct (unexpected c o).
Qed.

Lemma consistent_step n s tr es s' :
  consistent n s tr -> step s es s' -> consistent n s' (tr ++ es).
Proof.
  intros HI Hs. destruct Hs as [s tid r e s' Hs|s Hm Hj|s p Hm Hp|s Hm];
    [by eapply consistent_thread| | |];
    destruct HI as [HL HR HF HC]; rewrite ?app_nil_r; [by split| |by split].
  destruct (events_app tr (Lost 0 <$> pc_cases p)) as (_ & Hrec & _).
  destruct (lost_only (pc_cases p)) as (_ & Hnone & _). rewrite Hnone, app_nil_r in Hrec.
  split; rewrite ?Hrec; simpl; try done.
  - intros tid q [[-> ->]|[_ Hq]]%lookup_goto Hh; [done|by eapply HL].
  - intros tid c o read [[_ Heq]|[_ Hq]]%lookup_goto; [done|by eapply HR].
Qed.

Lemma run_consistent cases tasks tr s :
  run (init cases tasks) tr s -> consistent (length cases) s tr.
Proof.
  apply run_ind_inv; [apply consistent_init|intros; eapply consistent_step; eauto].
Qed.

(** *** Until an interrupt the lock is with a live thread or abandoned *)
Lemma abandoned_app tr e : abandoned (tr ++ e) = abandoned tr ++ abandoned e.
Proof. unfold abandoned. by rewrite omap_app. Qed.
Lemma abandoned_lost l : abandoned (Lost 0 <$> l) = [].
Proof. by induction l. Qed.

Definition owner_alive (s : state) (tr : list event) : Prop :=
  main s = InTry -> forall t, lock s = Some t ->
  (exists p, threads s !! t = Some p /\ holds_lock p = true) \/ t ∈ abandoned tr.

Lemma owner_alive_step s tr es s' :
  owner_alive s tr -> step s es s' -> owner_alive s' (tr ++ es).
Proof.
  unfold owner_alive. rewrite abandoned_app.
  intros HI Hs Hm t Hl. destruct Hs as [s tid r e s' Hs|s Hm' Hj|s p Hm' Hp|s Hm']; try done.
  thread_cases Hs; pose proof (lookup_lt_Some _ _ _ Hpc) as Hlt; simpl in *; simplify_eq/=;
    try discriminate; try (rewrite list_lookup_insert_eq by done; by eauto);
    destruct (decide (t = tid)) as [->|Hne];
    try (by right; apply elem_of_app; right; left);
    try (rewrite list_lookup_insert_eq by done; by eauto);
    try (rewrite list_lookup_insert_ne by done;
         destruct (HI Hm _ Hl); [by left|right; rewrite ?elem_of_app; by auto]);
    destruct (HI Hm _ Hl) as [(p & Hp & Hh)|]; simplify_eq/=; try discriminate;
    by right; apply elem_of_app; left.
Qed.
Lemma run_owner_alive cases tasks tr s : run (init cases tasks) tr s -> owner_alive s tr.
Proof. apply run_ind_inv; [by intros ? ?|intros; eapply owner_alive_step; eauto]. Qed.

(** *** An abandoned lock stays held *)
Definition abandoned_held (s : state) (tr : list event) : Prop :=
  forall t, t ∈ abandoned tr -> lock s = Some t /\ threads s !! t = Some Returned.

Lemma abandoned_held_step n s tr es s' :
  consistent n s tr -> abandoned_held s tr -> step s es s' -> abandoned_held s' (tr ++ es).
Proof.
  unfold abandoned_held. intros HC HI Hs t. rewrite abandoned_app, elem_of_app.
  destruct Hs as [s tid r e s' Hs|s Hm' Hj|s p Hm' Hp|s Hm'];
    try (intros [Ht%HI|?%not_elem_of_nil]; done).
  - assert (Hsame : t ∈ abandoned tr -> exists p, threads s !! tid = Some p /\
      holds_lock p = false /\ p <> Returned /\ lock s = Some t /\ t <> tid /\
      threads s !! t = Some Returned).
    { intros [Hl Ht]%HI. destruct (threads s !! tid) as [p|] eqn:Hp;
        [|by unfold TestRun.thread_step in Hs; rewrite Hp in Hs].
      assert (p <> Returned).
      { intros ->. unfold TestRun.thread_step in Hs. by rewrite Hp in Hs. }
      assert (t <> tid) by congruence.
      exists p. split_and!; try done. apply not_true_iff_false. intros Hh.
      apply (lock_held _ _ _ HC) in Hp; congruence. }
    intros [Hin|Hin].
    + destruct (Hsame Hin) as (p & Hp & Hh & _ & Hl & Hne & Ht).
      thread_cases Hs; simplify_eq/=; try discriminate; (split; [done|]);
        by rewrite list_lookup_insert_ne.
    + thread_cases Hs; pose proof (lookup_lt_Some _ _ _ Hpc) as Hlt; simpl in Hin;
        try (by apply not_elem_of_nil in Hin);
        apply list_elem_of_singleton in Hin as ->; simpl;
        (split; [by eapply lock_held|by apply list_lookup_insert_eq]).
  - rewrite abandoned_lost. intros [[Hl Ht]%HI|?%not_elem_of_nil]; [|done].
    split; [done|]. simpl. destruct (decide (t = 0)) as [->|].
    + apply list_lookup_insert_eq. by eapply lookup_lt_Some.
    + by rewrite list_lookup_insert_ne.
Qed.
Lemma run_abandoned_held cases tasks tr s :
  run (init cases tasks) tr s -> abandoned_held s tr.
Proof.
  intros Hr. assert (consistent (length cases) s tr /\ abandoned_held s tr) as [_ ?]; [|done].
  revert tr s Hr. apply run_ind_inv.
  - split; [apply consistent_init|by intros t ?%not_elem_of_nil].
  - intros s tr es s' [HC HI] Hs.
    split; [by eapply consistent_step|by eapply abandoned_held_step].
Qed.

(** *** Sequential tests stay on the main thread *)
Record sequential_ok (s : state) (tr : list event) : Prop := {
  seq_fetch : forall tid, threads s !! tid = Some FetchSequential -> tid = 0;
  seq_queue : Forall (fun c => parallel c = true) (parallel_queue s);
  seq_started : forall tid c, Started tid c ∈ tr -> parallel c = true \/ tid = 0 }.

Lemma sequential_init cases tasks : sequential_ok (init cases tasks) [].
Proof.
  split; [intros tid ?%init_threads; done| |intros ? ? []%not_elem_of_nil].
  apply list.Forall_forall. intros c [? _]%list_elem_of_filter. done.
Qed.
Lemma sequential_step s tr es s' :
  sequential_ok s tr -> step s es s' -> sequential_ok s' (tr ++ es).
Proof.
  intros [HF HQ HS] Hs.
  destruct Hs as [s tid r e s' Hs|s Hm Hj|s p Hm Hp|s Hm].
  - thread_cases Hs; (split; simpl;
      [ intros tid' [[-> Heq]|[Hne Hp]]%lookup_goto; try done; try (by apply HF); try (by reflect)
      | try done; try (by inversion HQ); try (by rewrite Heql)
      | intros tid' c' [Hin|Hin%list_elem_of_singleton]%elem_of_app; [by eapply HS|];
        simplify_eq/=; try (by left; inversion HQ); try (by right; apply HF) ]).
  - rewrite app_nil_r. by split.
  - split; simpl; [|done|].
    + intros tid [[-> Heq]|[Hne Hq]]%lookup_goto; [done|by apply HF].
    + intros tid c [Hin|(? & ? & ?)%list_elem_of_fmap]%elem_of_app; [by eapply HS|done].
  - rewrite app_nil_r. by split.
Qed.
Lemma run_sequential cases tasks tr s : run (init cases tasks) tr s -> sequential_ok s tr.
Proof. apply run_ind_inv; [apply sequential_init|intros; eapply sequential_step; eauto]. Qed.

(** *** Every step uses up some weight *)
Lemma step_weight s es s' : step s es s' -> weight s' < weight s.
Proof.
  unfold weight. intros Hs. destruct Hs as [s tid r e s' Hs|s Hm Hj|s p Hm Hp|s Hm]; simpl.
  - thread_cases Hs; simpl;
      match goal with |- context [<[?i := ?q]> ?ts] =>
        pose proof (weight_insert ts i _ q Hpc) as Hi; simpl in Hi end;
      repeat match goal with H : _ s = _ |- _ => rewrite H; clear H end; simpl; try lia.
    all: destruct (shutdown_event s); simpl in *; lia.
  - rewrite Hm. simpl. lia.
  - rewrite Hm. pose proof (weight_insert _ _ _ Returned Hp). simpl in *. lia.
  - rewrite Hm. simpl. lia.
Qed.

(** *** When [Run] comes back *)
Record finished_ok (s : state) (tr : list event) : Prop := {
  fin_seq : threads s !! 0 = Some FetchSequential -> parallel_queue s = [];
  fin_main : threads s !! 0 = Some Returned -> shutdown_event s = false -> lost tr = [] ->
    parallel_queue s = [] /\ sequential_queue s = [];
  fin_join : main s = PastTry \/ (exists b, main s = RunReturned b) ->
    shutdown_event s = false -> Forall (eq Returned) (threads s);
  fin_result : forall b, main s = RunReturned b -> shutdown_event s = false ->
    b = bool_decide (failed s = []) }.

Lemma finished_init cases tasks : finished_ok (init cases tasks) [].
Proof. split; simpl; try done. by intros [|[]]. Qed.

Lemma finished_thread s tr tid r e s' :
  finished_ok s tr -> thread_step s tid r = Some (e, s') -> finished_ok s' (tr ++ [e]).
Proof.
  intros [H1 H2 H3 H4] Hs. destruct (events_app tr [e]) as (_ & _ & Hlost).
  assert (Hlive : shutdown_event s = false ->
    main s = PastTry \/ (exists b, main s = RunReturned b) -> False).
  { intros Hsh Hm. specialize (H3 Hm Hsh). unfold TestRun.thread_step in Hs.
    destruct (threads s !! tid) as [p|] eqn:Hp; [|done].
    eapply Forall_lookup_1 in H3; [|exact Hp]. by subst. }
  thread_cases Hs; (split; simpl in *;
    [ intros [[Ht Heq]|[Hne Hp]]%lookup_goto; try done; try (subst; by auto)
    | rewrite Hlost;
      intros [[Ht Heq]|[Hne Hp]]%lookup_goto Hsh Hno; try done;
      try (apply app_eq_nil in Hno as [Hno ?]); try done; try (subst; by auto)
    | intros Hm Hsh; exfalso; first [by destruct Hm as [|[]] | apply Hlive; congruence]
    | intros b Hm Hsh; exfalso; apply Hlive; [congruence|eauto] ]).
  all: try congruence.
  all: try (destruct (H2 Hp Hsh Hno); split; congruence).
  all: specialize (H1 Hp); congruence.
Qed.

Lemma finished_step s tr es s' :
  finished_ok s tr -> step s es s' -> finished_ok s' (tr ++ es).
Proof.
  intros HI Hs. destruct Hs as [s tid r e s' Hs|s Hm Hj|s p Hm Hp|s Hm];
    [by eapply finished_thread| | |]; destruct HI as [H1 H2 H3 H4]; rewrite ?app_nil_r.
  - split; simpl; try done; by intros ? ?.
  - split; simpl; try done; intros [[_ ?]|[? _]]%lookup_goto; done.
  - split; simpl; try done; [intros _ Hs; by apply H3; [left|]|]. by intros b [= <-].
Qed.
Lemma run_finished cases tasks tr s : run (init cases tasks) tr s -> finished_ok s tr.
Proof. apply run_ind_inv; [apply finished_init|intros; eapply finished_step; eauto]. Qed.

Lemma run_threads cases tasks tr s :
  run (init cases tasks) tr s -> length (threads s) = S (tasks - 1).
Proof.
  revert tr s. apply run_ind_inv; [simpl; f_equal; apply length_replicate|].
  intros s tr es s' <- Hs.
  destruct Hs as [s tid r e s' Hs|s ? ?|s p ? ?|s ?]; simpl; try done;
    [thread_cases Hs; simpl|]; apply list.length_insert.
Qed.

Lemma inflight_returned ts : Forall (eq Returned) ts -> inflight ts = [].
Proof. unfold inflight. by induction 1 as [|p ts <- _ IH]. Qed.

Lemma NoDup_cnt_Permutation l k : (forall c, cnt c l = cnt c k) -> NoDup l -> l ≡ₚ k.
Proof.
  intros H Hl. apply NoDup_Permutation; [done| |].
  - apply cnt_NoDup. intros c. rewrite <- H. by apply cnt_NoDup.
  - intros c. by rewrite <- !cnt_elem, H.
Qed.

Lemma exec_run s schedule tr s' :
  exec unexpected has_crashed s schedule = Some (tr, s') -> run s tr s'.
Proof.
  assert (Happ : forall s0 tr0 s tr s', run s0 tr0 s -> run s tr s' -> run s0 (tr0 ++ tr) s').
  { intros s0 tr0 s1 tr1 s2 H0. induction 1 as [|s1 tr1 s2 es s3 ? ? IH]; [by rewrite app_nil_r|].
    rewrite app_assoc. econstructor; eauto. }
  revert s tr; induction schedule as [|[tid r] sched IH]; intros s tr; simpl.
  - intros [= <- <-]. constructor.
  - destruct (thread_step s tid r) as [[e s1]|] eqn:E; [|done].
    destruct (exec _ _ s1 sched) as [[tr1 s2]|] eqn:E1; [|done]. intros [= <- <-].
    apply (Happ _ [e] s1); [|by apply IH].
    apply (run_step _ _ s [] s [e] s1); [constructor|by econstructor].
Qed.

(** C5. Whatever the interleaving and whatever the calls raise, every listed
    test is, at every moment, exactly once in a queue, with a thread, recorded
    or lost; no test is started twice or recorded twice, only listed tests are,
    the counters are always the tallies of the recorded outputs, so that passed,
    failed and remaining tests add up to the total, and a test that is not marked
    parallel only runs on the main thread. *)
Theorem RunSingle_accounting cases tasks tr s :
  NoDup cases -> run (init cases tasks) tr s ->
  cases ≡ₚ parallel_queue s ++ sequential_queue s ++ inflight (threads s) ++
           (recorded tr).*1 ++ lost tr /\
  NoDup (started tr) /\ started tr ⊆ cases /\
  NoDup (recorded tr).*1 /\ (recorded tr).*1 ⊆ started tr /\
  failed s = filter (fun p => is_unexpected p = true) (recorded tr) /\
  counts s = tallies (length cases) (recorded tr) /\
  (succeeded (counts s) + Z.of_nat (length (failed s)) + remaining (counts s)
     = Z.of_nat (length cases))%Z /\
  (forall tid c, Started tid c ∈ tr -> parallel c = true \/ tid = 0).
Proof.
  intros Hnd Hrun. pose proof (run_conserved _ _ _ _ Hrun) as Hc.
  destruct (run_consistent _ _ _ _ Hrun) as [_ _ HF HC].
  destruct (run_sequential _ _ _ _ Hrun) as [_ _ HS].
  split; [apply NoDup_cnt_Permutation; [|done]; intros c; specialize (Hc c);
    rewrite !cnt_app; lia|].
  rewrite cnt_NoDup in Hnd.
  split_and!; [apply cnt_NoDup| |apply cnt_NoDup| |done|done| |done].
  - intros c. specialize (Hc c). specialize (Hnd c). lia.
  - intros c. rewrite <- !cnt_elem. specialize (Hc c). lia.
  - intros c. specialize (Hc c). specialize (Hnd c). lia.
  - intros c. rewrite <- !cnt_elem. specialize (Hc c). lia.
  - rewrite HC, HF. unfold tallies. simpl. clear.
    induction (recorded tr) as [|p l IH]; simpl; [lia|].
    rewrite !list.filter_cons. destruct (is_unexpected p); simpl in *; lia.
Qed.

(** A thread that is not waiting for the lock can move, and so can one that is
    when the lock is free. *)
Lemma thread_moves s tid p : threads s !! tid = Some p -> p <> Returned ->
  at_acquire p = false \/ lock s = None ->
  forall r, exists e s', thread_step s tid r = Some (e, s').
Proof.
  intros Hp Hne Hl r. unfold TestRun.thread_step. rewrite Hp.
  destruct p; try done; repeat case_match; eauto; by destruct Hl.
Qed.

(** C6. No schedule goes on for ever: every step comes down a well-founded
    order.  As long as [Run] waits in its [try] and no exception has left a
    thread between [acquire] and [release], some thread can move or every thread
    has returned, and the joins succeed.  The code does not release the lock
    when a call made under it raises, and then the pool is stuck: the lock is
    held by the thread that is gone, for good, and every thread that comes to
    an [acquire] stays there. *)
Theorem Run_terminates cases tasks :
  well_founded (fun s' s => exists es, step s es s') /\
  forall tr s, run (init cases tasks) tr s ->
    (main s = InTry -> abandoned tr = [] ->
       Forall (eq Returned) (threads s) \/
       exists tid, forall r, exists e s', thread_step s tid r = Some (e, s')) /\
    (forall t, t ∈ abandoned tr ->
       threads s !! t = Some Returned /\ lock s = Some t /\
       forall tid p r, threads s !! tid = Some p -> at_acquire p = true ->
         thread_step s tid r = None).
Proof.
  split; [apply (wf_projected lt weight); [intros s' s [es H]; by eapply step_weight|
    apply Nat.lt_wf_0]|].
  intros tr s Hrun. split.
  - intros Hm Hab. pose proof (run_owner_alive _ _ _ _ Hrun Hm) as Ho. rewrite Hab in Ho.
    destruct (decide (Exists (fun p => p <> Returned) (threads s))) as [He|Hn].
    + right. destruct (lock s) as [t|] eqn:Hl.
      * destruct (Ho t eq_refl) as [(p & Hp & Hh)|?%not_elem_of_nil]; [|done]. exists t.
        apply (thread_moves s t p); [done|by intros ->|left]. by destruct p.
      * apply list.Exists_exists in He as (p & Hin & Hne).
        apply list_elem_of_lookup in Hin as [tid Hp]. exists tid.
        apply (thread_moves s tid p); auto.
    + left. apply not_Exists_Forall in Hn; [|apply _]. eapply list.Forall_impl; [exact Hn|].
      intros p Hp. destruct (decide (p = Returned)); [done|]. by destruct Hp.
  - intros t Ht. destruct (run_abandoned_held _ _ _ _ Hrun t Ht) as [Hl Hret].
    split_and!; [done..|]. intros tid p r Hp Ha. unfold TestRun.thread_step.
    rewrite Hp, Hl. by destruct p.
Qed.

(** C7. When [Run] returns after no shutdown and with no test lost, every
    listed test has been recorded exactly once, and the result is true exactly
    when no recorded output was unexpected. *)
Theorem Run_verdict cases tasks tr s b :
  NoDup cases -> run (init cases tasks) tr s ->
  main s = RunReturned b -> shutdown_event s = false -> lost tr = [] ->
  (recorded tr).*1 ≡ₚ cases /\
  (b = true <-> forall c o, (c, o) ∈ recorded tr -> unexpected c o = false).
Proof.
  intros Hnd Hrun Hm Hsh Hlost. pose proof (run_conserved _ _ _ _ Hrun) as Hc.
  destruct (run_consistent _ _ _ _ Hrun) as [_ _ HF _].
  destruct (run_finished _ _ _ _ Hrun) as [_ H2 H3 H4].
  assert (Hall : Forall (eq Returned) (threads s)) by (apply H3; [right; by exists b|done]).
  assert (H0 : threads s !! 0 = Some Returned).
  { pose proof (run_threads _ _ _ _ Hrun).
    destruct (threads s) as [|p ts]; [done|]. by inversion Hall; subst. }
  destruct (H2 H0 Hsh Hlost) as [Hq1 Hq2]. split.
  - symmetry. apply NoDup_cnt_Permutation; [|done]. intros c. specialize (Hc c).
    rewrite Hq1, Hq2, Hlost, inflight_returned in Hc by done. rewrite ?cnt_nil in Hc. lia.
  - rewrite (H4 b Hm Hsh), HF, bool_decide_eq_true. split.
    + intros Hnil c o Hin. apply not_true_iff_false. intros Hu.
      apply (not_elem_of_nil (c, o)). rewrite <- Hnil. by apply list_elem_of_filter.
    + intros Hok. destruct (filter _ _) as [|[c o] l] eqn:E; [done|].
      assert (Hin : (c, o) ∈ (c, o) :: l) by left. rewrite <- E in Hin.
      apply list_elem_of_filter in Hin as [Hu Hin]. unfold is_unexpected in Hu. simpl in Hu.
      by rewrite (Hok c o Hin) in Hu.
Qed.

(** Success does not mean that the tests ran: a test whose run raises
    [IOError] is dropped without a record, and so are the queued tests when the
    user interrupts, and [Run] still returns true. *)
Theorem Run_success_without_running c :
  parallel c = true ->
  (exists tr s, run (init [c] 1) tr s /\
     main s = RunReturned true /\ recorded tr = [] /\ lost tr = [c]) /\
  (exists tr s, run (init [c] 1) tr s /\
     main s = RunReturned true /\ recorded tr = [] /\ parallel_queue s = [c]).
Proof.
  intros Hp. destruct c as [path par outs i]. simpl in Hp. subst par.
  set (c := Build_case_ path true outs i). split.
  - set (sched := replicate 4 (0, exits 0) ++ [(0, RaisesIOError)]).
    destruct (exec unexpected has_crashed (init [c] 1) sched) as [[tr s]|] eqn:E; [|done].
    pose proof (exec_run _ _ _ _ E) as Hr. vm_compute in E. injection E as <- <-.
    do 2 eexists. split; [eapply run_step; [eapply run_step; [exact Hr|]|]|].
    + apply step_join; [done|]. by repeat constructor.
    + by apply step_return.
    + done.
  - do 2 eexists. split; [eapply run_step; [eapply run_step; [apply run_refl|]|]|].
    + by eapply step_interrupt.
    + by apply step_return.
    + done.
Qed.
End Invariants.

(** ** Witnesses on a pool of two threads *)
Definition base_unexpected (c : case_) (o : CommandOutput) : bool :=
  (UnexpectedOutput false IsFailureOutput false (outcomes c) o).1.

Definition pool_cases : list case_ :=
  [{| case_path := ["parallel"; "test-a"]; parallel := true;
      outcomes := {[Some PASS]}; case_id := 0 |};
   {| case_path := ["sequential"; "test-b"]; parallel := false;
      outcomes := {[Some PASS]}; case_id := 1 |}].
(** Thread 1 takes the parallel test, the main thread the sequential one. *)
Definition pool_schedule : list (nat * run_result) :=
  map (fun tid => (tid, exits (Z.of_nat tid)))
    [0; 1; 1; 0; 0; 1; 1; 1; 0; 0; 0; 0; 1; 0; 0; 0; 0; 1; 1; 1; 1; 1; 1; 0; 0; 0].

Definition pool_example : option (list event * state) :=
  exec base_unexpected (HasCrashed false) (init pool_cases 2) pool_schedule.
Definition pool_trace : list event :=
  match pool_example with Some (tr, _) => tr | None => [] end.
Definition pool_end : state :=
  match pool_example with Some (_, s) => s | None => init [] 1 end.
Definition pool_last : state :=
  set_main (RunReturned false) false (set_main PastTry false pool_end).

Lemma pool_run : run base_unexpected (HasCrashed false) (init pool_cases 2) pool_trace pool_end.
Proof. apply (exec_run _ _ _ pool_schedule). by vm_compute. Qed.
Lemma pool_run_last :
  run base_unexpected (HasCrashed false) (init pool_cases 2) pool_trace pool_last.
Proof.
  replace pool_trace with ((pool_trace ++ []) ++ []) by by rewrite !app_nil_r.
  eapply run_step; [eapply run_step; [apply pool_run|]|].
  - apply step_join; [by vm_compute|]. vm_compute. by repeat constructor.
  - apply (step_return _ _ (set_main PastTry false pool_end)). done.
Qed.
Lemma pool_cases_NoDup : NoDup pool_cases.
Proof. apply (bool_decide_unpack _). by vm_compute. Qed.

Lemma RunSingle_accounting_witness :
  pool_cases ≡ₚ parallel_queue pool_end ++ sequential_queue pool_end ++
    inflight (threads pool_end) ++ (recorded pool_trace).*1 ++ lost pool_trace /\
  NoDup (started pool_trace) /\ started pool_trace ⊆ pool_cases /\
  NoDup (recorded pool_trace).*1 /\ (recorded pool_trace).*1 ⊆ started pool_trace /\
  failed pool_end = filter (fun p => is_unexpected base_unexpected p = true) (recorded pool_trace) /\
  counts pool_end = tallies base_unexpected (HasCrashed false) 2 (recorded pool_trace) /\
  (succeeded (counts pool_end) + Z.of_nat (length (failed pool_end)) + remaining (counts pool_end)
     = 2)%Z /\
  (forall tid c, Started tid c ∈ pool_trace -> parallel c = true \/ tid = 0).
Proof.
  exact (RunSingle_accounting base_unexpected (HasCrashed false) pool_cases 2 pool_trace pool_end
           pool_cases_NoDup pool_run).
Defined.

(** A pool of two workers in which the configuration of the first test raises:
    thread 1 asks [UnexpectedOutput] under the lock, and the main thread is left
    at [lock.acquire()] with the other test. *)
Definition stuck_cases : list case_ :=
  map (fun i => {| case_path := ["parallel"; "test"]; parallel := true;
                   outcomes := {[Some PASS]}; case_id := i |}) [0; 1].
Definition stuck_schedule : list (nat * run_result) :=
  map (fun tid => (tid, exits 0)) [1; 1; 1; 1; 1; 1; 1; 0; 0] ++ [(1, RaisesIOError)].
Definition stuck_example : option (list event * state) :=
  exec base_unexpected (HasCrashed false) (init stuck_cases 2) stuck_schedule.
Definition stuck_trace : list event :=
  match stuck_example with Some (tr, _) => tr | None => [] end.
Definition stuck_end : state :=
  match stuck_example with Some (_, s) => s | None => init [] 1 end.
Lemma stuck_run :
  run base_unexpected (HasCrashed false) (init stuck_cases 2) stuck_trace stuck_end.
Proof. apply (exec_run _ _ _ stuck_schedule). by vm_compute. Qed.

(** The pool can get stuck: with an exception under the lock [Run] is left in
    its [try] with a test in no one's record, and no thread can ever move. *)
Theorem Run_gets_stuck : exists tr s,
  run base_unexpected (HasCrashed false) (init stuck_cases 2) tr s /\
  main s = InTry /\ abandoned tr = [1] /\ recorded tr = [] /\
  threads s !! 0 = (Got <$> (stuck_cases !! 1)) /\
  forall tid r, thread_step base_unexpected (HasCrashed false) s tid r = None.
Proof.
  exists stuck_trace, stuck_end. split; [apply stuck_run|]. split_and!; [by vm_compute..|].
  intros [|[|tid]] r; reflexivity.
Qed.

Lemma Run_terminates_witness :
  (Forall (eq Returned) (threads (init pool_cases 2)) \/
   exists tid, forall r, exists e s',
     thread_step base_unexpected (HasCrashed false) (init pool_cases 2) tid r = Some (e, s')) /\
  (threads stuck_end !! 1 = Some Returned /\ lock stuck_end = Some 1 /\
   forall tid p r, threads stuck_end !! tid = Some p -> at_acquire p = true ->
     thread_step base_unexpected (HasCrashed false) stuck_end tid r = None).
Proof.
  split.
  - exact (proj1 (proj2 (Run_terminates base_unexpected (HasCrashed false) pool_cases 2) []
             (init pool_cases 2) (run_refl _ _ _)) eq_refl eq_refl).
  - refine (proj2 (proj2 (Run_terminates base_unexpected (HasCrashed false) stuck_cases 2)
              stuck_trace stuck_end stuck_run) 1 _).
    replace (abandoned stuck_trace) with [1] by (vm_compute; reflexivity). left.
Defined.

Lemma Run_verdict_witness :
  length (recorded pool_trace) = 2 /\
  (recorded pool_trace).*1 ≡ₚ pool_cases /\
  (false = true <-> forall c o, (c, o) ∈ recorded pool_trace -> base_unexpected c o = false).
Proof.
  split; [by vm_compute|].
  exact (Run_verdict base_unexpected (HasCrashed false) pool_cases 2 pool_trace pool_last false
           pool_cases_NoDup pool_run_last eq_refl
           ltac:(vm_compute; reflexivity) ltac:(vm_compute; reflexivity)).
Defined.

Lemma Run_success_without_running_witness :
  let c := {| case_path := ["gc"; "test-a"]; parallel := true; outcomes := {[Some PASS]};
              case_id := 7 |} in
  (exists tr s, run base_unexpected (HasCrashed false) (init [c] 1) tr s /\
     main s = RunReturned true /\ recorded tr = [] /\ lost tr = [c]) /\
  (exists tr s, run base_unexpected (HasCrashed false) (init [c] 1) tr s /\
     main s = RunReturned true /\ recorded tr = [] /\ parallel_queue s = [c]).
Proof.
  intros c. exact (Run_success_without_running base_unexpected (HasCrashed false) c eq_refl).
Defined.

(** ** The verdict and the wait loop *)

Lemma land_pow2_nonzero x n : (0 <= n)%Z ->
  Z.land (2 ^ n) x <> 0%Z <-> Z.testbit x n = true.
Proof.
  intros Hn. rewrite <- (not_false_iff_true (Z.testbit x n)). apply not_iff_compat. split.
  - intros H. apply (f_equal (fun y => Z.testbit y n)) in H.
    by rewrite Z.land_spec, Z.pow2_bits_true, Z.bits_0 in H.
  - intros H. apply Z.bits_inj'. intros i Hi. rewrite Z.land_spec, Z.bits_0, Z.pow2_bits_eqb by done.
    destruct (Z.eqb_spec n i) as [->|]; [by rewrite H|done].
Qed.
Lemma mask_bits i : (0 <= i)%Z ->
  Z.testbit 0x3FFFFF00 i = (8 <=? i)%Z && (i <? 30)%Z.
Proof.
  intros Hi. change 0x3FFFFF00%Z with (Z.shiftl (Z.ones 22) 8).
  rewrite Z.shiftl_spec by done. destruct (Z.leb_spec 8 i); simpl.
  - destruct (Z.ltb_spec i 30); [apply Z.ones_spec_low|apply Z.ones_spec_high]; lia.
  - apply Z.testbit_neg_r. lia.
Qed.
Lemma land_mask_zero x :
  Z.land 0x3FFFFF00 x = 0%Z <-> forall i, (8 <= i < 30)%Z -> Z.testbit x i = false.
Proof.
  split.
  - intros H i Hi. apply (f_equal (fun y => Z.testbit y i)) in H.
    rewrite Z.land_spec, mask_bits, Z.bits_0 in H by lia.
    rewrite (proj2 (Z.leb_le 8 i)), (proj2 (Z.ltb_lt i 30)) in H by lia. done.
  - intros H. apply Z.bits_inj'. intros i Hi. rewrite Z.land_spec, Z.bits_0, mask_bits by done.
    destruct (Z.leb_spec 8 i); [|done]. destruct (Z.ltb_spec i 30); [|done].
    simpl. apply H. lia.
Qed.

(** What a posix test run amounts to. *)
Definition outcome_of (negative : bool) (o : CommandOutput) : string :=
  if timed_out o then TIMEOUT
  else if decide (exit_code o < 0 /\ exit_code o <> - SIGABRT)%Z then CRASH
  else if decide (exit_code o = 0%Z) then (if negative then FAIL else PASS)
  else (if negative then PASS else FAIL).

(** On posix an output is classified by its time-out, its signal and its
    exit code, and is unexpected exactly when that outcome is not declared; the
    memo makes a second question get the same answer.  On Windows a crash is an
    exit code with bit 31 set and bits 8 to 29 clear. *)
Theorem UnexpectedOutput_spec negative declared o :
  failed_memo o = None ->
  (let '(b, o') := UnexpectedOutput false IsFailureOutput negative declared o in
   b = bool_decide (Some (outcome_of negative o) ∉ declared) /\
   UnexpectedOutput false IsFailureOutput negative declared o' = (b, o')) /\
  (HasCrashed true o = true <->
     Z.testbit (exit_code o) 31 = true /\
     forall i, (8 <= i < 30)%Z -> Z.testbit (exit_code o) i = false).
Proof.
  intros Hmemo. split.
  - unfold UnexpectedOutput, outcome_of, HasFailed, DidFail, HasCrashed, HasTimedOut,
      IsFailureOutput. rewrite Hmemo.
    destruct o as [code [] memo out err]; simpl in *; subst; [done|].
    destruct (code <? 0)%Z eqn:E1, (code =? - SIGABRT)%Z eqn:E2, (code =? 0)%Z eqn:E3, negative;
      simpl; rewrite ?E1, ?E2, ?E3; simpl; reflect;
      repeat (case_decide; try (unfold SIGABRT in *; lia)); done.
  - unfold HasCrashed. rewrite andb_true_iff, negb_true_iff, Z.eqb_neq, Z.eqb_eq.
    rewrite land_mask_zero.
    change 0x80000000%Z with (2 ^ 31)%Z. by rewrite land_pow2_nonzero.
Qed.

Lemma UnexpectedOutput_spec_witness :
  let o := {| exit_code := -11; timed_out := false; failed_memo := None;
              stdout := ""; stderr := "" |} in
  (let '(b, o') := UnexpectedOutput false IsFailureOutput false {[Some PASS]} o in
   b = bool_decide (Some (outcome_of false o) ∉ ({[Some PASS]} : gset pyelm)) /\
   UnexpectedOutput false IsFailureOutput false {[Some PASS]} o' = (b, o')) /\
  (HasCrashed true o = true <->
     Z.testbit (exit_code o) 31 = true /\
     forall i, (8 <= i < 30)%Z -> Z.testbit (exit_code o) i = false).
Proof. intros o. exact (UnexpectedOutput_spec false {[Some PASS]} o eq_refl). Defined.

(** *** The wait loop *)
Lemma next_sleep_bounds q : (0 < q)%Q -> (0 < next_sleep q /\ next_sleep q <= MAX_SLEEP_TIME)%Q.
Proof.
  intros Hq. unfold next_sleep. destruct (Qle_bool _ _) eqn:E.
  - apply Qle_bool_iff in E. split; [|done]. unfold SLEEP_TIME_FACTOR.
    by apply Qmult_lt_0_compat.
  - by split.
Qed.

Section WaitLemmas.
Context (clock : nat -> Q) (poll : nat -> option Z) (wait : Z) (end_time : option Q).
Definition past_end (i : nat) : bool :=
  match end_time with Some t => Qle_bool t (clock i) | None => false end.
Definition good_sleep (q : Q) : Prop := (0 < q /\ q <= MAX_SLEEP_TIME)%Q.

Lemma wait_loop_steps k fuel i q slept :
  good_sleep q -> Forall good_sleep slept ->
  (forall j, i <= j < i + k -> past_end j = false /\ poll j = None) ->
  exists q' slept', good_sleep q' /\ Forall good_sleep slept' /\
    length slept' = k + length slept /\
    wait_loop clock poll wait (k + fuel) i end_time q slept =
    wait_loop clock poll wait fuel (k + i) end_time q' slept'.
Proof.
  revert i q slept; induction k as [|k IH]; intros i q slept Hq Hs Hrun; [by exists q, slept|].
  destruct (Hrun i) as [Hp Hn]; [lia|]. simpl. unfold past_end in Hp. rewrite Hp, Hn.
  destruct (IH (S i) (next_sleep q) (q :: slept)) as (q' & slept' & ? & ? & Hl & ->).
  - destruct Hq. by apply next_sleep_bounds.
  - by apply list.Forall_cons.
  - intros j Hj. apply Hrun. lia.
  - exists q', slept'. split_and!; [done..|simpl in Hl; lia|by rewrite Nat.add_succ_r].
Qed.
End WaitLemmas.

(** C8. Waiting for a child ends at the first iteration whose clock reading
    reaches the deadline, with the code of the killed child and the time-out
    mark, or whose poll finds the child ended, with its code; it sleeps once per
    poll, each time for more than zero and at most the maximal interval. *)
Theorem RunProcess_spec clock poll wait now timeout n fuel :
  let end_time := match timeout with Some t => Some (now + t)%Q | None => None end in
  (forall i, i < n -> past_end clock end_time i = false /\ poll i = None) -> n < fuel ->
  (past_end clock end_time n = true -> exists slept,
     RunProcess clock poll wait fuel now timeout = Ok (wait, true, slept) /\
     length slept = n /\ Forall good_sleep slept) /\
  (forall code, past_end clock end_time n = false -> poll n = Some code -> exists slept,
     RunProcess clock poll wait fuel now timeout = Ok (code, false, slept) /\
     length slept = S n /\ Forall good_sleep slept).
Proof.
  intros end_time Hrun Hfuel. unfold RunProcess. fold end_time.
  destruct (wait_loop_steps clock poll wait end_time n (S (fuel - n - 1)) 0 INITIAL_SLEEP_TIME [])
    as (q & slept & Hq & Hs & Hl & Heq); [by split|done|intros j Hj; apply Hrun; lia|].
  replace (n + S (fuel - n - 1)) with fuel in Heq by lia. rewrite Heq, Nat.add_0_r in *.
  simpl. fold (past_end clock end_time n). split.
  - intros ->. by exists slept.
  - intros code -> ->. exists (q :: slept). simpl. rewrite Hl. split_and!; [done..|].
    by apply list.Forall_cons.
Qed.

Lemma RunProcess_spec_witness :
  let clock i := inject_Z (Z.of_nat i) in
  (past_end clock (Some (5 + 2)%Q) 7 = true -> exists slept,
     RunProcess clock (fun _ => None) (-15) 8 5 (Some 2%Q) = Ok ((-15)%Z, true, slept) /\
     length slept = 7 /\ Forall good_sleep slept) /\
  (forall code, past_end clock (Some (5 + 2)%Q) 7 = false -> None = Some code -> exists slept,
     RunProcess clock (fun _ => None) (-15) 8 5 (Some 2%Q) = Ok (code, false, slept) /\
     length slept = 8 /\ Forall good_sleep slept).
Proof.
  intros clock. refine (RunProcess_spec clock (fun _ => None) (-15) 5 (Some 2%Q) 7 8 _ _); [|lia].
  intros i Hi. split; [|reflexivity]. do 7 (destruct i as [|i]; [reflexivity|]). lia.
Defined.
