(* ===== verification/PyPath.v ===== *)
(** * Posix paths as the Python 2 standard library handles them

    [os.path] on strings: [isabs], [join], [split] and its halves, [normpath],
    [splitext], [commonprefix]; [abspath] and, on a file system without symbolic
    links, [realpath].  The lemmas reduce a path to its list of components. *)
From S2P Require Import Prelude PyStr.
From stdpp Require Import options.

(** ** [os.path] *)
Definition isabs (p : string) : bool := startswith "/" p.

Definition path_join2 (a b : string) : string :=
  if startswith "/" b then b
  else if String.eqb a "" || endswith "/" a then a +:+ b
  else a +:+ "/" +:+ b.
Definition path_join (a : string) (ps : list string) : string := foldl path_join2 a ps.

(** [os.path.split]: the head loses its trailing slashes unless it is only slashes. *)
Definition path_split (p : string) : string * string :=
  match rsplit1 "/" p with
  | None => ("", p)
  | Some (head, tail) =>
      let head := head +:+ "/" in
      (if str_forallb (Ascii.eqb "/") head then head else rstrip_of (Ascii.eqb "/") head, tail)
  end.
Definition dirname (p : string) : string := (path_split p).1.
Definition basename (p : string) : string := (path_split p).2.

(** [os.path.splitext]: leading dots of the last component start no extension. *)
Definition splitext (p : string) : string * string :=
  let (head, tail) :=
    match rsplit1 "/" p with
    | Some (h, t) => (h +:+ "/", t)
    | None => ("", p)
    end in
  match rsplit1 "." tail with
  | None => (p, "")
  | Some (stem, ext) =>
      if str_forallb (Ascii.eqb ".") stem then (p, "")
      else (head +:+ stem, "." +:+ ext)
  end.

(** The loop of [normpath]; the stack's top is the last component kept. *)
Definition norm_step (rooted : bool) (stack : list string) (comp : string) : list string :=
  if decide (comp = "" \/ comp = ".") then stack
  else if decide (comp <> "..") then comp :: stack
  else match stack with
       | [] => if rooted then [] else [".."]
       | top :: stack' => if decide (top = "..") then ".." :: stack else stack'
       end.
Definition initial_slashes (p : string) : string :=
  if startswith "/" p then
    if startswith "//" p && negb (startswith "///" p) then "//" else "/"
  else "".
Definition normpath (p : string) : string :=
  if String.eqb p "" then "."
  else
    let slashes := initial_slashes p in
    let comps := foldl (norm_step (negb (String.eqb slashes ""))) [] (split_char "/" p) in
    let path := slashes +:+ join "/" (rev comps) in
    if String.eqb path "" then "." else path.

Definition abspath (cwd p : string) : string :=
  normpath (if isabs p then p else path_join2 cwd p).
(** No symbolic links: [realpath] is [abspath]. *)
Definition realpath (cwd p : string) : string := abspath cwd p.

(** [os.path.commonprefix] of two lists *)
Fixpoint commonprefix (l k : list string) : list string :=
  match l, k with
  | x :: l', y :: k' => if String.eqb x y then x :: commonprefix l' k' else []
  | _, _ => []
  end.

(** ** Components *)

(** A component that [normpath] keeps. *)
Definition comp_ok (c : string) : Prop :=
  c <> "" /\ c <> "." /\ c <> ".." /\ str_mem "/" c = false.
(** The absolute path with the given components. *)
Definition abs (cs : list string) : string := "/" +:+ join "/" cs.
Definition abs_path (p : string) : Prop := exists cs, Forall comp_ok cs /\ p = abs cs.
(** Where a component list leads from the directory [stack] (innermost first). *)
Definition walk (stack comps : list string) : list string := foldl (norm_step true) stack comps.

Lemma walk_app s l k : walk s (l ++ k) = walk (walk s l) k.
Proof. apply foldl_app. Qed.
Lemma walk_ok s cs : Forall comp_ok cs -> walk s cs = rev cs ++ s.
Proof.
  intros H. revert s. induction H as [|c cs (H1 & H2 & H3 & _) _ IH]; intros s; [done|].
  unfold walk in *. simpl. unfold norm_step at 2. rewrite decide_False by tauto.
  rewrite decide_True by done. rewrite IH. by rewrite <- app_assoc.
Qed.
Lemma walk_up s n : Forall comp_ok s -> walk s (replicate n "..") = drop n s.
Proof.
  revert s; induction n as [|n IH]; intros s Hs; [done|]. unfold walk in *. simpl.
  unfold norm_step at 2. rewrite decide_False by (intros [?|?]; done).
  rewrite decide_False by (by intros H; apply H).
  destruct s as [|c s]; [rewrite IH by done; by rewrite drop_nil|].
  inversion Hs as [|? ? (_ & _ & Hc & _)]; subst. rewrite decide_False by done. by apply IH.
Qed.
Lemma walk_comp_ok s cs :
  Forall comp_ok s -> Forall (fun c => str_mem "/" c = false) cs -> Forall comp_ok (walk s cs).
Proof.
  intros Hs Hc. revert s Hs. induction Hc as [|c cs Hc _ IH]; intros s Hs; [done|].
  apply IH. unfold norm_step. repeat case_decide; try done.
  - apply list.Forall_cons. split; [|done]. unfold comp_ok. tauto.
  - destruct Hs as [|d s' (? & ? & ? & ?) Hs]; [done|]. by case_decide.
Qed.

Lemma split_char_free_all c s : Forall (fun x => str_mem c x = false) (split_char c s).
Proof.
  unfold split_char. induction s as [|a s IH]; simpl; [by apply list.Forall_singleton|].
  destruct (Ascii.eqb_spec c a) as [->|Hne]; [by apply list.Forall_cons|].
  destruct (split_on _ s) as [|x l]; simpl;
    [by apply list.Forall_singleton; unfold str_mem; simpl; apply Ascii.eqb_neq in Hne as ->|].
  apply list.Forall_cons in IH as [Hx Hl]. apply list.Forall_cons. split; [|done].
  unfold str_mem in *. simpl. rewrite Hx. by apply Ascii.eqb_neq in Hne as ->.
Qed.

Lemma split_char_sep c a b : split_char c (a +:+ String c b) = split_char c a ++ split_char c b.
Proof.
  unfold split_char. induction a as [|d a IH].
  - simpl. by rewrite Ascii.eqb_refl.
  - rewrite append_cons. simpl. rewrite IH. destruct (Ascii.eqb c d); [done|].
    pose proof (split_on_nonempty (Ascii.eqb c) a). by destruct (split_on _ a).
Qed.

Lemma walk_empty s : walk s [""] = s.
Proof. done. Qed.

Lemma endswith_slash a : endswith "/" a = true -> exists a', a = a' +:+ "/".
Proof.
  induction a as [|c a IH]; [done|]. cbn [endswith]. intros [H|H]%orb_true_iff.
  - apply String.eqb_eq in H. exists "". by rewrite <- H.
  - destruct (IH H) as [a' ->]. by exists (String c a').
Qed.

(** Joining a relative path walks on from where the first path leads. *)
Lemma walk_join s a b : isabs b = false ->
  walk s (split_char "/" (path_join2 a b)) = walk (walk s (split_char "/" a)) (split_char "/" b).
Proof.
  intros Hb. unfold path_join2. change (startswith "/" b) with (isabs b). rewrite Hb.
  destruct (String.eqb_spec a "") as [->|Ha]; [done|].
  destruct (endswith "/" a) eqn:E; cbn [orb].
  - apply endswith_slash in E as [a' ->]. rewrite append_assoc.
    change (("/" : string) +:+ b) with (String "/" b). rewrite split_char_sep, walk_app.
    rewrite (split_char_sep "/" a' ""), walk_app. change (split_char "/" "") with [""].
    by rewrite walk_empty.
  - change (("/" : string) +:+ b) with (String "/" b). by rewrite split_char_sep, walk_app.
Qed.
Lemma isabs_cons c s : isabs (String c s) = Ascii.eqb "/" c.
Proof. unfold isabs. by rewrite startswith_cons, startswith_nil, andb_true_r. Qed.

(** What [path_join2] puts between the two parts. *)
Lemma path_join2_cases a b : isabs b = false ->
  path_join2 a b = a +:+ b \/ (a <> "" /\ path_join2 a b = a +:+ "/" +:+ b).
Proof.
  intros Hb. unfold path_join2. change (startswith "/" b) with (isabs b). rewrite Hb.
  destruct (String.eqb_spec a ""); [by left|]. destruct (endswith "/" a); auto.
Qed.
Lemma isabs_join a b : isabs a = false -> isabs b = false -> isabs (path_join2 a b) = false.
Proof.
  intros Ha Hb. destruct (path_join2_cases a b Hb) as [->|[Hne ->]];
    destruct a as [|c a]; try done; by rewrite append_cons, isabs_cons in *.
Qed.

(** A path that starts at the one root: not with exactly two slashes. *)
Definition rooted (p : string) : Prop := initial_slashes p = "/".
Lemma rooted_spec c s : rooted (String c s) <->
  c = "/"%char /\ (isabs s = true -> startswith "//" s = true).
Proof.
  unfold rooted, initial_slashes. rewrite !startswith_cons, startswith_nil, andb_true_r.
  destruct (Ascii.eqb_spec "/" c) as [<-|Hne]; simpl; [|by split; [|intros [-> _]]].
  change (startswith "/" s) with (isabs s).
  destruct (isabs s), (startswith "//" s); simpl; split; try done;
    intros [_ H]; by specialize (H eq_refl).
Qed.
Lemma rooted_isabs a : rooted a -> isabs a = true.
Proof. destruct a as [|c a]; [done|]. intros [-> _]%rooted_spec. by rewrite isabs_cons. Qed.
Lemma rooted_abs cs : Forall comp_ok cs -> rooted (abs cs).
Proof.
  intros H. apply rooted_spec. split; [done|].
  destruct H as [|c cs (Hne & _ & _ & Hc) _]; [done|].
  destruct c as [|d c]; [done|]. rewrite str_mem_cons in Hc.
  apply orb_false_iff in Hc as [Hd _].
  assert (Hj : exists r, join "/" (String d c :: cs) = String d r).
  { simpl. destruct cs; eauto. }
  destruct Hj as [r ->]. by rewrite isabs_cons, Hd.
Qed.
Lemma rooted_join a b : rooted a -> isabs b = false -> rooted (path_join2 a b).
Proof.
  intros Ha Hb. pose proof (rooted_isabs a Ha) as Habs. destruct a as [|c a]; [done|].
  apply rooted_spec in Ha as [-> Ha]. unfold path_join2. change (startswith "/" b) with (isabs b).
  rewrite Hb. destruct a as [|d a]; [by apply rooted_spec; split; [|rewrite Hb]|].
  rewrite isabs_cons, startswith_cons in Ha.
  destruct (_ || _); rewrite append_cons; apply rooted_spec; (split; [done|]);
    rewrite append_cons, isabs_cons, startswith_cons; intros Hd; specialize (Ha Hd);
    destruct a as [|e a]; try (by rewrite andb_comm in Ha);
    rewrite append_cons, startswith_cons in *; by rewrite startswith_nil in *.
Qed.

Lemma normpath_rooted p : rooted p -> normpath p = abs (rev (walk [] (split_char "/" p))).
Proof.
  intros Hr. pose proof (rooted_isabs p Hr). unfold rooted in Hr. unfold normpath. rewrite Hr.
  destruct (String.eqb_spec p "") as [->|]; done.
Qed.

Lemma split_abs cs : Forall comp_ok cs ->
  split_char "/" (abs cs) = "" :: (if decide (cs = []) then [""] else cs).
Proof.
  intros H. unfold abs. change (("/" : string) +:+ ?x) with ("" +:+ String "/" x).
  rewrite (split_char_sep "/" ""). change (split_char "/" "") with [""]. cbn [app]. f_equal. case_decide; [by subst|].
  apply split_char_join; [done|]. eapply list.Forall_impl; [exact H|]. by intros c (_ & _ & _ & ?).
Qed.
Lemma walk_abs cs : Forall comp_ok cs -> walk [] (split_char "/" (abs cs)) = rev cs.
Proof.
  intros H. rewrite split_abs by done. change ("" :: ?l) with ([""] ++ l).
  rewrite walk_app, walk_empty. case_decide; [subst; by rewrite walk_empty|].
  by rewrite walk_ok, app_nil_r.
Qed.

Lemma normpath_abs p : rooted p -> abs_path (normpath p).
Proof.
  intros Hr. rewrite normpath_rooted by done. eexists. split; [|done].
  apply Forall_rev. apply walk_comp_ok; [done|apply split_char_free_all].
Qed.
Lemma abs_inj cs ds : Forall comp_ok cs -> Forall comp_ok ds -> abs cs = abs ds -> cs = ds.
Proof.
  intros Hc Hd H. apply (f_equal (fun s => walk [] (split_char "/" s))) in H.
  rewrite !walk_abs in H by done. apply (f_equal (@rev _)) in H. by rewrite !rev_involutive in H.
Qed.
Lemma normpath_id p : abs_path p -> normpath p = p.
Proof.
  intros (cs & Hcs & ->). rewrite normpath_rooted by by apply rooted_abs.
  by rewrite walk_abs, rev_involutive.
Qed.

(** Paths that [abspath] takes to a single-rooted path. *)
Definition plain_path (p : string) : Prop := isabs p = true -> rooted p.
Lemma abspath_abs cwd p : abs_path cwd -> plain_path p -> abs_path (abspath cwd p).
Proof.
  intros (cs & Hcs & ->) Hp. unfold abspath. destruct (isabs p) eqn:E.
  - apply normpath_abs. by apply Hp.
  - apply normpath_abs, rooted_join; [by apply rooted_abs|done].
Qed.

(** Joining a list of slash-free names *)
Lemma walk_path_join s a ps :
  Forall (fun x => str_mem "/" x = false) (a :: ps) ->
  walk s (split_char "/" (path_join a ps)) = walk s (a :: ps) /\ isabs (path_join a ps) = false.
Proof.
  assert (Hfree : forall x, str_mem "/" x = false -> isabs x = false).
  { intros [|d x]; [done|]. rewrite str_mem_cons, isabs_cons. by intros [? _]%orb_false_iff. }
  intros [Ha Hps]%list.Forall_cons. unfold path_join.
  assert (Hg : forall a, isabs a = false ->
    walk s (split_char "/" (foldl path_join2 a ps)) = walk (walk s (split_char "/" a)) ps /\
    isabs (foldl path_join2 a ps) = false).
  { clear a Ha. induction Hps as [|b ps Hb _ IH]; intros a Ha; [done|]. simpl.
    destruct (IH (path_join2 a b)) as [-> ->]; [by apply isabs_join; auto|].
    split; [|done]. rewrite walk_join by auto. by rewrite (split_char_free _ b). }
  destruct (Hg a) as [-> ->]; [by auto|]. split; [|done]. by rewrite split_char_free.
Qed.
