(* ===== verification/TestSuite.v ===== *)
(** * Which tests there are, and what [Main] does with them

    [tools/test.py]: [TestRepository], [LiteralTestSuite], [Context] and [Main];
    [test/testpy/__init__.py], [test/message/testcfg.py], [test/timers/testcfg.py]: the
    kinds of tests with their commands and their listing; [tools/utils.py]: the guesses
    about the machine.  The file system is a parameter. *)
From Stdlib Require Import Sorted.
From S2P Require Import Prelude PyStr PyPath TestExpr TestConfig TestRun.
From stdpp Require Import options.
#[local] Open Scope nat_scope.

(** ** [utils]: [platform.system()] and [platform.machine()] are the arguments. *)
Definition GuessOS (id : string) : option string :=
  if String.eqb id "Linux" then Some "linux"
  else if String.eqb id "Darwin" then Some "macos"
  else if contains "CYGWIN" id then Some "cygwin"
  else if String.eqb id "Windows" || String.eqb id "Microsoft" then Some "win32"
  else if String.eqb id "FreeBSD" then Some "freebsd"
  else if String.eqb id "OpenBSD" then Some "openbsd"
  else if String.eqb id "SunOS" then Some "solaris"
  else if String.eqb id "NetBSD" then Some "netbsd"
  else None.
Definition IsWindows (id : string) : bool := bool_decide (GuessOS id = Some "win32").
(** [x86] or [i386] to [i686] to the end, which may be before a last newline *)
Definition is_x86 (id : string) : bool :=
  existsb (fun x => String.eqb id x || String.eqb id (x +:+ nl)) ["x86"; "i386"; "i486"; "i586"; "i686"].
Definition GuessArchitecture (machine : string) : option string :=
  let id := lower machine in
  if startswith "arm" id || String.eqb id "aarch64" then Some "arm"
  else if String.eqb id "" || is_x86 id then Some "ia32"
  else if existsb (String.eqb id) ["i86pc"; "x86_64"; "amd64"] then Some "ia32"
  else None.
Definition GuessWordsize (machine : string) : string := if contains "64" machine then "64" else "32".

(** ** [GetSpecialCommandProcessor]: what is put around a command

    [urllib.unquote]: two hexadecimal digits after a percent sign are a character. *)
Definition hex_value (c : ascii) : option nat :=
  if isdigit c then Some (ord c - 48)
  else if in_range 65 70 c then Some (ord c - 55)
  else if in_range 97 102 c then Some (ord c - 87)
  else None.
Fixpoint unquote (s : string) : string :=
  match s with
  | "" => ""
  | String c rest =>
      match rest with
      | String a (String b rest') =>
          match (if Ascii.eqb c "%" then hex_value a else None), hex_value b with
          | Some x, Some y => String (ascii_of_nat (16 * x + y)) (unquote rest')
          | _, _ => String c (unquote rest)
          end
      | _ => String c (unquote rest)
      end
  end.
Definition GetSpecialCommandProcessor (value : option string) (args : list string) : list string :=
  match value ≫= split1 "@" with
  | Some (before, after) => (split_ws (unquote before) ++ args ++ split_ws (unquote after))%list
  | None => args
  end.

(** ** [Context] *)
Record Context_ := {
  workspace : string;
  vm_root : string;
  timeout : Z;
  special_command : option string;
}.
(** [out_exists] is whether the directory [out] beside the tools exists, which is
    asked on Windows only. *)
Definition GetVm (cwd : string) (windows out_exists : bool) (arch mode : string) : string :=
  let debug := String.eqb mode "debug" in
  let name := if String.eqb arch "none" then (if debug then "out/Debug/iojs" else "out/Release/iojs")
              else "out/" +:+ arch +:+ "." +:+ mode +:+ "/iojs" in
  if windows then
    if out_exists then abspath cwd (name +:+ ".exe")
    else abspath cwd (if debug then "Debug/iojs.exe" else "Release/iojs.exe")
  else name.
Definition FLAGS (mode : string) : option (list string) :=
  if String.eqb mode "debug" then Some ["--enable-slow-asserts"; "--debug-code"; "--verify-heap"]
  else if String.eqb mode "release" then Some [] else None.
Definition TIMEOUT_SCALEFACTOR (arch mode : string) : option Z :=
  if String.eqb arch "arm" then
    (if String.eqb mode "debug" then Some 8%Z else if String.eqb mode "release" then Some 2%Z else None)
  else if String.eqb arch "ia32" then
    (if String.eqb mode "debug" then Some 4%Z else if String.eqb mode "release" then Some 1%Z else None)
  else None.
Definition GetVmFlags (variant_flags : list string) (mode : string) : res (list string) :=
  flags ← of_option (KeyError mode) (FLAGS mode); Ok (variant_flags ++ flags)%list.
Definition GetTimeout (c : Context_) (ARCH_GUESS : option string) (mode : string) : res Z :=
  factor ← of_option (KeyError mode) (TIMEOUT_SCALEFACTOR (default "ia32" ARCH_GUESS) mode);
  Ok (timeout c * factor)%Z.

(** ** Test cases *)
Inductive test_kind :=
  | Simple (additional_flags : list string)
  | Message (expected : string)
  | Timers.
#[global] Instance test_kind_eq_dec : EqDecision test_kind.
Proof. solve_decision. Defined.
Record TestCase := {
  path : list string;
  file : string;
  arch : string;
  mode : string;
  kind : test_kind;
  parallel : bool;
  variant_flags : list string;
  root : string;                       (* of its configuration *)
}.
Definition GetName (t : TestCase) : string := default "" (list.last (path t)).
Definition GetLabel (t : TestCase) : string := mode t +:+ " " +:+ GetName t.
(** The directory a test may use, of the thread that runs it *)
Definition GetTmpDir (t : TestCase) (thread_id : nat) : string :=
  path_join2 (dirname (root t)) "tmp" +:+ "." +:+ string_of_int (Z.of_nat thread_id).

(** Two slashes, white space, the word and a colon, searched for: the rest of the line *)
Fixpoint search_comment (word s : string) : option string :=
  match s with
  | "" => None
  | String _ rest =>
      let '(spaces, after) := span isspace (str_drop 2 s) in
      if startswith "//" s && negb (String.eqb spaces "") && startswith (word +:+ ":") after then
        Some (span any_char (str_drop (String.length word + 1) after)).1
      else search_comment word rest
  end.
Definition comment_words (word source : string) : list string :=
  match search_comment word source with Some g => split_ws (strip g) | None => [] end.
Definition FAKETIME_BIN_PATH : string := "tools/faketime/src/faketime".
Definition GetCommand (vm source : string) (t : TestCase) : res (list string) :=
  match kind t with
  | Simple additional_flags =>
      let additional_files := comment_words "Files" source in
      Ok ([vm] ++ comment_words "Flags" source ++
          map (fun a_file => path_join (dirname (root t)) [".."; a_file]) additional_files ++
          additional_flags ++ [file t])%list
  | Message _ => Ok ([vm] ++ comment_words "Flags" source ++ [file t])%list
  | Timers =>
      flags ← match search_comment "FaketimeFlags" source with
              | Some g => shlex_split (strip g)
              | None => Ok []
              end;
      Ok ([FAKETIME_BIN_PATH] ++ flags ++ [vm] ++ [file t])%list
  end.
Definition GetSource (source expected_source : string) (t : TestCase) : string :=
  match kind t with
  | Message _ => source +:+ nl +:+ "--- expected output ---" +:+ nl +:+ expected_source
  | _ => source
  end.

(** ** Listing tests *)
Section Listing.
Context (listdir : string -> list string) (isdir exists_ : string -> bool).

(** The configurations that the files [testcfg.py] make *)
Inductive config_kind :=
  | SimpleConfiguration (section : string) (additional_flags : list string)
  | ParallelConfiguration (section : string) (additional_flags : list string)
  | AddonConfiguration (section : string)
  | MessageConfiguration
  | TimersConfiguration.
Record TestConfiguration := { config_root : string; config : config_kind }.
Definition GetConfiguration (suite : string) : option config_kind :=
  if String.eqb suite "addons" then Some (AddonConfiguration "addon")
  else if String.eqb suite "gc" then Some (SimpleConfiguration "gc" ["--expose-gc"])
  else if String.eqb suite "parallel" then Some (ParallelConfiguration "parallel" [])
  else if existsb (String.eqb suite) ["debugger"; "internet"; "pummel"; "sequential"] then
    Some (SimpleConfiguration suite [])
  else if String.eqb suite "message" then Some MessageConfiguration
  else if String.eqb suite "timers" then Some TimersConfiguration
  else None.

Definition SelectTest (c : config_kind) (name : string) : bool :=
  match c with
  | SimpleConfiguration _ _ | ParallelConfiguration _ _ | TimersConfiguration =>
      startswith "test-" name && endswith ".js" name
  | AddonConfiguration _ | MessageConfiguration => endswith ".js" name
  end.
(** What [Ls] finds, as the paths below the suite *)
Definition Ls (c : config_kind) (dir : string) : list (list string) :=
  let names d := map (str_init 3) (filter (fun f => SelectTest c f = true) (listdir d)) in
  match c with
  | AddonConfiguration _ =>
      concat (map (fun subpath =>
        if isdir (path_join2 dir subpath) then map (fun f => [subpath; f]) (names (path_join2 dir subpath))
        else []) (listdir dir))
  | MessageConfiguration => if isdir dir then map (fun f => [f]) (names dir) else []
  | _ => map (fun f => [f]) (names dir)
  end.

Section Config.
Context (c : TestConfiguration) (on_arch in_mode : string).

(** [reduce(join, test[1:], "")], below the root *)
Definition file_prefix (test : list string) : string :=
  path_join2 (config_root c) (foldl path_join2 "" (tail test)).
(** The test case of a path; a message test without its expected output has none. *)
Definition make_case (test : list string) : option TestCase :=
  let case k p :=
    {| path := test; file := file_prefix test +:+ ".js"; arch := on_arch; mode := in_mode; kind := k;
       parallel := p; variant_flags := []; root := config_root c |} in
  match config c with
  | SimpleConfiguration _ additional_flags => Some (case (Simple additional_flags) false)
  | ParallelConfiguration _ additional_flags => Some (case (Simple additional_flags) true)
  | AddonConfiguration _ => Some (case (Simple []) false)
  | MessageConfiguration =>
      let output_path := file_prefix test +:+ ".out" in
      if exists_ output_path then Some (case (Message output_path) false) else None
  | TimersConfiguration => Some (case Timers false)
  end.
Definition Config_ListTests (current_path patterns : list string) : list TestCase :=
  let all_tests := map (fun t => current_path ++ t)%list (Ls (config c) (config_root c)) in
  omap (fun test => if Contains patterns test then make_case test else None) all_tests.
End Config.

(** The status file of a configuration *)
Definition status_file (c : TestConfiguration) : string :=
  path_join2 (config_root c)
    match config c with
    | SimpleConfiguration section _ | ParallelConfiguration section _ | AddonConfiguration section =>
        section +:+ ".status"
    | MessageConfiguration => "message.status"
    | TimersConfiguration => "simple.status"
    end.

(** ** Suites: the name of a repository, and its configuration once it is loaded *)
Record TestRepository := { repository_name : string; repository : TestConfiguration }.
Definition GetSuites (test_root : string) : list string :=
  filter (fun f => (isdir (path_join2 test_root f) &&
                    exists_ (path_join2 (path_join2 test_root f) "testcfg.py")) = true) (listdir test_root).

Definition VARIANT_FLAGS : list (list string) := [[]].
Definition with_flags (v : list string) (t : TestCase) : TestCase :=
  {| path := path t; file := file t; arch := arch t; mode := mode t; kind := kind t;
     parallel := parallel t; variant_flags := v; root := root t |}.
Definition AddTestsToList (result : list TestCase) (r : TestRepository)
    (current_path patterns : list string) (arch mode : string) : list TestCase :=
  foldl (fun result v =>
           result ++ map (with_flags v) (Config_ListTests (repository r) arch mode current_path patterns))%list
    result VARIANT_FLAGS.

Definition CarCdr (patterns : list string) : option string * list string :=
  match patterns with [] => (None, []) | p :: rest => (Some p, rest) end.
Definition name_matches (name : option string) (test_name : string) : bool :=
  match name with None => true | Some name => Pattern_match name test_name end.

(** [result.sort(cmp=...)] on the names: a stable sort *)
Fixpoint insert_test (t : TestCase) (l : list TestCase) : list TestCase :=
  match l with
  | [] => [t]
  | u :: l' => if String.leb (GetName t) (GetName u) then t :: l else u :: insert_test t l'
  end.
Definition sort_tests : list TestCase -> list TestCase := foldr insert_test [].

Definition ListTests (tests : list TestRepository) (current_path patterns : list string)
    (arch mode : string) : list TestCase :=
  let '(name, rest) := CarCdr patterns in
  sort_tests (foldl (fun result test =>
    if name_matches name (repository_name test) then
      AddTestsToList result test (current_path ++ [repository_name test])%list patterns arch mode
    else result) [] tests).
(** The status files of all suites; what [ReadConfigurationInto] answers is dropped. *)
Definition GetTestStatus (read_lines : string -> list string) (tests : list TestRepository)
    (sections : list Section_) (defs : gmap string expr) : res (list Section_ * gmap string expr) :=
  foldM (fun '(sections, defs) test =>
           let f := status_file (repository test) in
           if exists_ f then
             '(_, sections, defs) ← ReadConfigurationInto (read_lines f) sections defs;
             Ok (sections, defs)
           else Ok (sections, defs)) (sections, defs) tests.
End Listing.

(** ** [Main] *)
Definition BUILT_IN_TESTS : list string :=
  ["sequential"; "parallel"; "pummel"; "message"; "internet"; "addons"; "gc"; "debugger"].

(** The parsed command line, the options that matter for what is run *)
Record options := {
  o_arch : string;
  o_mode : string;
  o_suite : list string;
  o_special_command : option string;
  o_valgrind : bool;
  o_shell : string;
  o_timeout : Z;
  o_progress : string;
  o_J : bool;
  o_j : nat;
  o_no_build : bool;
  o_build_only : bool;
  o_cat : bool;
  o_warn_unused : bool;
  o_time : bool;
  o_args : list string;
}.
(** [ProcessOptions]: the architectures, the modes, the number of tasks *)
Definition ProcessOptions (o : options) (cpu_count : nat) : list string * list string * nat :=
  (split_char "," (o_arch o), split_char "," (o_mode o), if o_J o then cpu_count else o_j o).

(** What running the tests comes to: the verdict and how many were timed, or an
    interrupt from the keyboard *)
Inductive run_end :=
  | Ran (verdict : bool) (timed : nat)
  | Interrupted.

Section Main.
Context (cwd : string) (system machine : string) (cpu_count fuel : nat).
Context (listdir : string -> list string) (isdir exists_ : string -> bool).
Context (configuration : string -> option config_kind) (read_lines : string -> list string).
Context (RunTestCases : list (TestCase * gset pyelm) -> string -> nat -> run_end).
Context (BuildRequirements : list string -> list string -> bool).
Context (script : string) (o : options).

Definition workspace_dir : string := abspath cwd (path_join2 (dirname script) "..").
Definition suite_name (dir : string) : string := basename (abspath cwd dir).
(** [GetConfiguration]: the module [testcfg] is looked for when it is first asked for. *)
Definition load_repository (dir : string) : res TestRepository :=
  config ← of_option (ImportError "No module named testcfg") (configuration (suite_name dir));
  Ok {| repository_name := suite_name dir;
        repository := {| config_root := abspath cwd dir; config := config |} |}.
Definition suites : list string :=
  let test_root := path_join2 workspace_dir "test" in
  (map (path_join2 test_root) (GetSuites listdir isdir exists_ test_root) ++ o_suite o)%list.
Definition repositories : res (list TestRepository) :=
  foldM (fun acc dir => r ← load_repository dir; Ok (acc ++ [r])%list) [] suites.
Definition GetBuildRequirements (patterns : list string) : res (list string) :=
  let '(name, rest) := CarCdr patterns in
  foldM (fun result dir =>
           if name_matches name (suite_name dir) then
             _ ← load_repository dir; Ok (result ++ ["sample"; "sample=shell"])%list
           else Ok result) [] suites.
Definition paths : list (list string) :=
  map SplitPath match o_args o with [] => BUILT_IN_TESTS | args => args end.
Definition processor : list string -> list string :=
  GetSpecialCommandProcessor
    (if o_valgrind o
     then Some ("python -u " +:+ path_join workspace_dir ["tools"; "run-valgrind.py"] +:+ " @")
     else o_special_command o).

Definition environment (on_arch in_mode : string) : gmap string pyelm :=
  <["mode" := Some in_mode]> (<["system" := GuessOS system]> {["arch" := Some on_arch]}).
Definition vm (on_arch in_mode : string) : string :=
  GetVm cwd (IsWindows system) (exists_ (path_join (dirname script) [".."; "out"])) on_arch in_mode.

(** One path, architecture and mode: the tests with their outcomes, if there is an
    executable; the boolean says whether anything was classified so far. *)
Definition classify_listed (tests : list TestRepository) (sections : list Section_)
    (defs : gmap string expr) (st : list (TestCase * gset pyelm) * bool)
    (what : list string * string * string) : res (list (TestCase * gset pyelm) * bool) :=
  let '(all_cases, classified) := st in
  let '(path, on_arch, in_mode) := what in
  if negb (exists_ (vm on_arch in_mode)) then Ok st
  else
    let test_list := ListTests listdir isdir exists_ tests [] path on_arch in_mode in
    '(cases, _, _) ← ClassifyTests fuel (environment on_arch in_mode) sections defs (map TestSuite.path test_list);
    Ok (all_cases ++ zip test_list (map snd cases), true)%list.
Definition combinations : list (list string * string * string) :=
  let '(archs, modes, _) := ProcessOptions o cpu_count in
  concat (map (fun path => concat (map (fun a => map (fun m => (path, a, m)) modes) archs)) paths).

Definition Main : res Z :=
  let '(archs, modes, tasks) := ProcessOptions o cpu_count in
  built ← (if o_no_build o then Ok true
           else
             reqs ← foldM (fun reqs path => r ← GetBuildRequirements path; Ok (reqs ++ r)%list) [] paths;
             Ok (bool_decide (reqs = []) || BuildRequirements (remove_dups reqs) modes));
  if negb built then Ok 1%Z
  else if o_build_only o then Ok 0%Z
  else
    root ← repositories;
    '(sections, defs) ← GetTestStatus exists_ read_lines root [] ∅;
    '(all_cases, classified) ← foldM (classify_listed root sections defs) ([], false) combinations;
    if o_cat o then Ok 0%Z
    else if o_warn_unused o && negb classified then Err (TypeError "'NoneType' object is not iterable")
    else
      let cases_to_run := filter (fun c : TestCase * gset pyelm => DoSkip c.2 = false) all_cases in
      match cases_to_run with
      | [] => Ok 1%Z
      | _ =>
          match RunTestCases cases_to_run (o_progress o) tasks with
          | Interrupted => Ok 1%Z
          | Ran verdict timed =>
              if o_time o && negb (timed =? 0) then Err (TypeError "a float is required")
              else Ok (if verdict then 0 else 1)%Z
          end
      end.
End Main.

(** ** Listing is filtering *)
Definition before (t u : TestCase) : Prop := String.leb (GetName t) (GetName u) = true.
Lemma insert_test_elem t l x : x ∈ insert_test t l <-> x = t \/ x ∈ l.
Proof.
  induction l as [|u l IH]; cbn; [by rewrite list_elem_of_singleton; set_solver|].
  case_match; rewrite !elem_of_cons, ?IH; naive_solver.
Qed.
Lemma insert_test_sorted t l : StronglySorted before l -> StronglySorted before (insert_test t l).
Proof.
  induction 1 as [|u l Hl IH Hu]; cbn; [repeat constructor|].
  destruct (String.leb (GetName t) (GetName u)) eqn:E.
  - constructor; [by constructor|]. constructor; [done|]. rewrite list.Forall_forall in Hu |- *.
    intros x Hx. eapply string_leb_trans; [exact E|by apply Hu].
  - constructor; [done|]. rewrite list.Forall_forall in Hu |- *.
    intros x [->|Hx]%insert_test_elem; [|by apply Hu].
    destruct (string_leb_total (GetName t) (GetName u)); [congruence|done].
Qed.
Lemma sort_tests_sorted l : StronglySorted before (sort_tests l).
Proof. induction l; cbn; [constructor|by apply insert_test_sorted]. Qed.

Section Filter.
Context (P : TestCase -> Prop) `{HP : forall t, Decision (P t)}.

Lemma insert_test_front t l : Forall (before t) l -> insert_test t l = t :: l.
Proof. destruct l as [|u l]; [done|]. intros H. cbn. inversion H as [|? ? Hu _]; subst. unfold before in Hu. by rewrite Hu. Qed.
Lemma filter_insert t l : StronglySorted before l ->
  filter P (insert_test t l) = if decide (P t) then insert_test t (filter P l) else filter P l.
Proof.
  induction 1 as [|u l Hl IH Hu]; cbn [insert_test].
  { rewrite filter_cons. by case_decide. }
  destruct (String.leb (GetName t) (GetName u)) eqn:E.
  - rewrite filter_cons. case_decide as Ht; [|done]. symmetry. apply insert_test_front.
    rewrite list.Forall_forall in Hu |- *. intros x [_ Hx]%list_elem_of_filter.
    apply elem_of_cons in Hx as [->|Hx]; [done|]. eapply string_leb_trans; [exact E|by apply Hu].
  - rewrite !filter_cons, IH. repeat case_decide; try done. cbn [insert_test]. by rewrite E.
Qed.
Lemma filter_sort l : filter P (sort_tests l) = sort_tests (filter P l).
Proof.
  induction l as [|t l IH]; cbn [sort_tests foldr]; [done|].
  fold (sort_tests l). rewrite filter_insert by apply sort_tests_sorted. rewrite filter_cons, IH. by case_decide.
Qed.
End Filter.

Section ListLemmas.
Context (listdir : string -> list string) (isdir exists_ : string -> bool).

Definition selected (patterns : list string) (t : TestCase) : Prop := Contains patterns (path t) = true.
#[global] Instance selected_dec patterns t : Decision (selected patterns t).
Proof. unfold selected. apply _. Defined.

Lemma make_case_path c on_arch in_mode test t :
  make_case exists_ c on_arch in_mode test = Some t -> path t = test.
Proof. unfold make_case. destruct (config c); try case_match; by intros [= <-]. Qed.
Lemma Contains_nil test : Contains [] test = true.
Proof. done. Qed.

Lemma Config_ListTests_filter c on_arch in_mode current_path patterns :
  Config_ListTests listdir isdir exists_ c on_arch in_mode current_path patterns =
  filter (selected patterns) (Config_ListTests listdir isdir exists_ c on_arch in_mode current_path []).
Proof.
  unfold Config_ListTests. induction (map _ _) as [|test l IH]; [done|]. cbn [omap list_omap].
  rewrite Contains_nil. destruct (make_case exists_ c on_arch in_mode test) as [t|] eqn:E.
  - rewrite filter_cons. case_decide as Hs; unfold selected in Hs; rewrite (make_case_path _ _ _ _ _ E) in Hs.
    + by rewrite Hs, IH.
    + apply not_true_is_false in Hs. by rewrite Hs, IH.
  - destruct (Contains patterns test); done.
Qed.

Definition suite_tests (r : TestRepository) (on_arch in_mode : string) (patterns : list string) : list TestCase :=
  map (with_flags []) (Config_ListTests listdir isdir exists_ (repository r) on_arch in_mode
                         [repository_name r] patterns).
Lemma suite_tests_filter r on_arch in_mode patterns :
  suite_tests r on_arch in_mode patterns = filter (selected patterns) (suite_tests r on_arch in_mode []).
Proof.
  unfold suite_tests. rewrite Config_ListTests_filter.
  induction (Config_ListTests _ _ _ _ _ _ _ _) as [|t l IH]; [done|]. cbn [map]. rewrite !filter_cons.
  repeat case_decide; try done; cbn [map]; by rewrite IH.
Qed.
(** The tests of a suite whose name does not match are not selected. *)
Lemma suite_tests_skipped r on_arch in_mode patterns :
  name_matches (CarCdr patterns).1 (repository_name r) = false ->
  suite_tests r on_arch in_mode patterns = [].
Proof.
  intros Hn. rewrite suite_tests_filter. apply elem_of_nil_inv. intros u [Hs Hu]%list_elem_of_filter.
  apply list_elem_of_fmap in Hu as (t & -> & Ht).
  unfold Config_ListTests in Ht. apply list_elem_of_omap in Ht as (test & Htest & Hc). rewrite Contains_nil in Hc.
  apply make_case_path in Hc. apply list_elem_of_fmap in Htest as (v & -> & _).
  unfold selected in Hs. cbn [with_flags path] in Hs. rewrite Hc in Hs. destruct patterns as [|p patterns]; [done|].
  cbn in Hn. unfold Contains in Hs. cbn [match_prefix app] in Hs. rewrite Hn in Hs. by case_match.
Qed.

Lemma ListTests_suites tests on_arch in_mode patterns :
  ListTests listdir isdir exists_ tests [] patterns on_arch in_mode =
  sort_tests (concat (map (fun r => suite_tests r on_arch in_mode patterns) tests)).
Proof.
  unfold ListTests. destruct (CarCdr patterns) as [name rest] eqn:E. f_equal.
  assert (H : forall acc, foldl (fun result test =>
      if name_matches name (repository_name test) then
        AddTestsToList listdir isdir exists_ result test ([] ++ [repository_name test])%list patterns on_arch in_mode
      else result) acc tests =
    (acc ++ concat (map (fun r => suite_tests r on_arch in_mode patterns) tests))%list); [|apply H].
  induction tests as [|r tests IH]; intros acc; cbn [foldl map concat]; [by rewrite app_nil_r|].
  rewrite IH, app_assoc. f_equal. destruct (name_matches name (repository_name r)) eqn:En; [done|].
  rewrite suite_tests_skipped; [by rewrite app_nil_r|]. by rewrite E.
Qed.
End ListLemmas.

Lemma ListTests_filter listdir isdir exists_ tests patterns on_arch in_mode :
  ListTests listdir isdir exists_ tests [] patterns on_arch in_mode =
  filter (selected patterns) (ListTests listdir isdir exists_ tests [] [] on_arch in_mode) /\
  StronglySorted before (ListTests listdir isdir exists_ tests [] patterns on_arch in_mode).
Proof.
  rewrite !ListTests_suites. split; [|apply sort_tests_sorted].
  rewrite (filter_sort (selected patterns)). f_equal.
  induction tests as [|r tests IH]; cbn [map concat]; [done|].
  by rewrite list.filter_app, <- IH, <- suite_tests_filter.
Qed.

(** C27. Listing the tests below a path is listing all tests and keeping those whose
    path the patterns match from its beginning, component by component, in the order
    of the names: that suites are skipped by their names first loses nothing and
    changes no order. *)
Theorem ListTests_selects listdir isdir exists_ tests patterns on_arch in_mode :
  ListTests listdir isdir exists_ tests [] patterns on_arch in_mode =
  filter (fun t => Contains patterns (path t) = true)
    (ListTests listdir isdir exists_ tests [] [] on_arch in_mode) /\
  StronglySorted (fun t u => String.leb (GetName t) (GetName u) = true)
    (ListTests listdir isdir exists_ tests [] patterns on_arch in_mode).
Proof. apply ListTests_filter. Qed.

(** ** [Main]: what an exit code of zero says *)
Section MainLemmas.
Context (cwd : string) (system : string) (cpu_count fuel : nat).
Context (listdir : string -> list string) (isdir exists_ : string -> bool).
Context (script : string) (o : options).
Context (tests : list TestRepository) (sections : list Section_) (defs : gmap string expr).

Abbreviation all_tests := (ListTests listdir isdir exists_ tests [] []).
Abbreviation classify := (classify_listed cwd system fuel listdir isdir exists_ script tests sections defs).

(** A test that a combination of path, architecture and mode asks for *)
Definition asked (what : list string * string * string) (t : TestCase) : Prop :=
  let '(patterns, on_arch, in_mode) := what in
  exists_ (vm cwd system exists_ script on_arch in_mode) = true /\
  t ∈ all_tests on_arch in_mode /\ Contains patterns (path t) = true.
(** The outcomes that the status files expect of it *)
Definition expected (what : list string * string * string) (t : TestCase) (outcomes : gset pyelm) : Prop :=
  let env := environment system what.1.2 what.2 in
  exists en, (forall s, s ∈ en <-> s ∈ sections /\ Section_enabled fuel env defs s = Ok true) /\
    good_outcomes fuel env defs (concat (map rules en)) (path t) outcomes.

Lemma classify_asked what cases flag cases' flag' : classify (cases, flag) what = Ok (cases', flag') ->
  exists new, cases' = (cases ++ new)%list /\
    (forall t, asked what t -> exists outcomes, (t, outcomes) ∈ new) /\
    (forall t outcomes, (t, outcomes) ∈ new -> asked what t /\ expected what t outcomes).
Proof.
  destruct what as [[patterns on_arch] in_mode]. unfold classify_listed, asked.
  destruct (exists_ (vm _ _ _ _ _ _)) eqn:Ev; cbn [negb].
  2:{ intros [= <- <-]. exists []. rewrite app_nil_r. split_and!; [done|by intros t []|].
      by intros t x ?%not_elem_of_nil. }
  set (tl := ListTests _ _ _ _ _ _ _ _). intros ([[result u] al] & Hc & [= <- <-])%bind_ok.
  apply ClassifyTests_outcomes in Hc as (en & Hen & Hfst & Hgood).
  assert (Htl : forall t, t ∈ tl <-> t ∈ all_tests on_arch in_mode /\ Contains patterns (path t) = true).
  { intros t. unfold tl. destruct (ListTests_filter listdir isdir exists_ tests patterns on_arch in_mode) as [-> _].
    rewrite list_elem_of_filter. naive_solver. }
  assert (Hlen : length tl = length (map snd result)).
  { rewrite length_map, <- (length_map path tl), <- Hfst. apply length_map. }
  exists (zip tl (map snd result)). split_and!; [done| |].
  - intros t (_ & Ht). apply Htl in Ht. apply list_elem_of_lookup in Ht as [i Hi].
    destruct (lookup_lt_is_Some_2 (map snd result) i) as [x Hx].
    { rewrite <- Hlen. by eapply lookup_lt_Some. }
    exists x. apply list_elem_of_lookup. exists i. apply lookup_zip_with_Some. by exists t, x.
  - intros t x Hin. apply list_elem_of_lookup in Hin as [i Hi].
    apply lookup_zip_with_Some in Hi as (t' & x' & [= <- <-] & Ht & Hx).
    split; [split; [done|]; apply Htl, list_elem_of_lookup; by exists i|].
    exists en. split; [done|]. apply list_lookup_fmap_Some in Hx as ([pt x'] & -> & Hr).
    rewrite list.Forall_forall in Hgood. specialize (Hgood (pt, x') (list_elem_of_lookup_2 _ _ _ Hr)).
    cbn in Hgood. assert (Heq : pt = path t); [|by rewrite <- Heq].
    assert (H1 : map fst result !! i = Some pt) by (change (map fst result) with (fst <$> result); by rewrite list_lookup_fmap, Hr).
    rewrite Hfst in H1. change (map path tl) with (path <$> tl) in H1. rewrite list_lookup_fmap, Ht in H1. by injection H1.
Qed.

Lemma classify_all whats cases flag cases' flag' : foldM classify (cases, flag) whats = Ok (cases', flag') ->
  exists new, cases' = (cases ++ new)%list /\
    (forall what t, what ∈ whats -> asked what t -> exists outcomes, (t, outcomes) ∈ new /\ expected what t outcomes) /\
    (forall t outcomes, (t, outcomes) ∈ new -> exists what, what ∈ whats /\ asked what t /\ expected what t outcomes).
Proof.
  revert cases flag. induction whats as [|what whats IH]; intros cases flag; cbn [foldM].
  - intros [= <- <-]. exists []. rewrite app_nil_r. split_and!; [done|by intros w t ?%not_elem_of_nil|].
    by intros t x ?%not_elem_of_nil.
  - intros ([cases1 flag1] & H1 & H)%bind_ok. apply classify_asked in H1 as (new1 & -> & A1 & B1).
    apply IH in H as (new2 & -> & A2 & B2). exists (new1 ++ new2)%list. rewrite app_assoc. split_and!; [done| |].
    + intros w t [->|Hw]%elem_of_cons Ha.
      * destruct (A1 t Ha) as [x Hx]. exists x. split; [apply elem_of_app; by left|by apply B1].
      * destruct (A2 w t Hw Ha) as (x & Hx & He). exists x. split; [apply elem_of_app; by right|done].
    + intros t x [Hx|Hx]%elem_of_app; [exists what; split; [by left|by apply B1]|].
      destruct (B2 t x Hx) as (w & Hw & ?). exists w. split; [by right|done].
Qed.
End MainLemmas.

(** C26. [Main] answers 0, and is not asked only to build or to print the tests, only
    after it ran at least one test and the runner reported success for what it was
    given: of the tests that some path, architecture and mode asks for and that has an
    executable, every one with outcomes that the enabled rules of the status files
    give it, except those expected to be skipped or slow, and no other test. *)
Theorem Main_success cwd system cpu_count fuel listdir isdir exists_ configuration read_lines
    RunTestCases BuildRequirements script o :
  Main cwd system cpu_count fuel listdir isdir exists_ configuration read_lines RunTestCases
    BuildRequirements script o = Ok 0%Z ->
  o_build_only o = false -> o_cat o = false ->
  exists tests sections defs cases timed,
    repositories cwd listdir isdir exists_ configuration script o = Ok tests /\
    GetTestStatus exists_ read_lines tests [] ∅ = Ok (sections, defs) /\
    RunTestCases cases (o_progress o) (ProcessOptions o cpu_count).2 = Ran true timed /\ cases <> [] /\
    (forall what t, what ∈ combinations cpu_count o ->
       asked cwd system listdir isdir exists_ script tests what t -> exists outcomes,
       expected system fuel sections defs what t outcomes /\
       (DoSkip outcomes = true \/ (t, outcomes) ∈ cases)) /\
    (forall t outcomes, (t, outcomes) ∈ cases -> DoSkip outcomes = false /\
       exists what, what ∈ combinations cpu_count o /\
         asked cwd system listdir isdir exists_ script tests what t /\
         expected system fuel sections defs what t outcomes).
Proof.
  unfold Main. intros H Hb Hcat. rewrite Hb, Hcat in H.
  destruct (ProcessOptions o cpu_count) as [[archs modes] tasks].
  apply bind_ok in H as (built & _ & H). destruct (negb built); [done|].
  apply bind_ok in H as (tests & Htests & H).
  apply bind_ok in H as ([sections defs] & Hst & H). apply bind_ok in H as ([all_cases classified] & Hall & H).
  apply classify_all in Hall as (new & -> & HA & HB). case_match; [done|].
  cbn [app] in H. set (cases := filter (fun c : TestCase * gset pyelm => DoSkip c.2 = false) new) in H.
  destruct cases as [|c cases'] eqn:Ecases; [done|]. rewrite <- Ecases in H.
  destruct (RunTestCases cases (o_progress o) tasks) as [verdict timed|] eqn:Er; [|done].
  case_match; [done|]. destruct verdict; [|done].
  exists tests, sections, defs, cases, timed. split_and!; [done..|by rewrite Ecases| |].
  - intros what t Hw Ha. destruct (HA what t Hw Ha) as (x & Hx & He). exists x. split; [done|].
    destruct (DoSkip x) eqn:Ex; [by left|right]. by apply list_elem_of_filter.
  - intros t x [Hd Hin]%list_elem_of_filter. split; [done|]. by apply HB.
Qed.

(** ** An example tree: one suite with one test *)
Definition sample_listdir (dir : string) : list string :=
  if String.eqb dir "/w/test" then ["parallel"; "README"]
  else if String.eqb dir "/w/test/parallel" then ["test-a.js"; "testcfg.py"]
  else [].
Definition sample_isdir (p : string) : bool := String.eqb p "/w/test/parallel".
Definition sample_exists (p : string) : bool :=
  String.eqb p "/w/test/parallel/testcfg.py" || String.eqb p "out/Release/iojs".
Definition sample_options : options := {|
  o_arch := "none"; o_mode := "release"; o_suite := []; o_special_command := None; o_valgrind := false;
  o_shell := "shell"; o_timeout := 60%Z; o_progress := "mono"; o_J := false; o_j := 1; o_no_build := true;
  o_build_only := false; o_cat := false; o_warn_unused := false; o_time := false; o_args := ["parallel/test-a*"] |}.
Definition sample_run (cases : list (TestCase * gset pyelm)) (progress : string) (tasks : nat) : run_end :=
  Ran (bool_decide (map (fun c => (path c.1, file c.1)) cases =
                      [(["parallel"; "test-a"], "/w/test/parallel/test-a.js")])) (length cases).

Lemma Main_success_witness :
  let main := Main "/w" "Linux" 1 5 sample_listdir sample_isdir sample_exists GetConfiguration (fun _ => [])
    sample_run (fun _ _ => true) "/w/tools/test.py" sample_options in
  main = Ok 0%Z /\
  exists cases timed, sample_run cases "mono" 1 = Ran true timed /\ cases <> [] /\
    forall t outcomes, (t, outcomes) ∈ cases -> DoSkip outcomes = false.
Proof.
  intros main. assert (E : main = Ok 0%Z) by by vm_compute. split; [done|].
  destruct (Main_success "/w" "Linux" 1 5 sample_listdir sample_isdir sample_exists GetConfiguration (fun _ => [])
    sample_run (fun _ _ => true) "/w/tools/test.py" sample_options E eq_refl eq_refl)
    as (tests & sections & defs & cases & timed & _ & _ & Hrun & Hne & _ & Hc).
  exists cases, timed. split_and!; [exact Hrun|exact Hne|]. intros t x Hin. exact (proj1 (Hc t x Hin)).
Defined.
