(* ===== verification/TestProgress.v ===== *)
(** * The progress indicators of [tools/test.py]

    What each kind of [ProgressIndicator] prints or logs while the tests run.  The
    methods are called with the lock held ([TestRun]), so they come one after the
    other: a run is a list of the calls. *)
From S2P Require Import Prelude PyStr PyPath TestRun.
From stdpp Require Import options.
#[local] Open Scope nat_scope.

(** ** Python's standard output

    A [print] that ends with a comma leaves [softspace] set, unless white space other
    than a blank was printed last; the next [print] then starts with a blank. *)
Record console := { text : string; softspace : bool }.
Definition write (s : string) (c : console) : console := {| text := text c +:+ s; softspace := false |}.
Definition last_char (s : string) : option ascii := list.last (String.list_ascii_of_string s).
Definition print_item (s : string) (c : console) : console :=
  {| text := text c +:+ (if softspace c then " " else "") +:+ s;
     softspace := match last_char s with Some a => negb (isspace a) || Ascii.eqb a " " | None => true end |}.
Definition print (s : string) (c : console) : console :=
  {| text := text (print_item s c) +:+ nl; softspace := false |}.
Definition print_newline (c : console) : console := {| text := text c +:+ nl; softspace := false |}.
Definition prints (l : list string) (c : console) : console := foldl (fun c s => print s c) c l.

(** ** What the indicators are told *)
Record timedelta := { days : Z; seconds : Z; microseconds : Z }.
(** A test that has run; [unexpected] and [has_crashed] are what [UnexpectedOutput] and
    [HasCrashed] answer for it. *)
Record test_output := {
  label : string; test_path : list string; negative : bool; command : list string; output : CommandOutput;
  unexpected : bool; has_crashed : bool; duration : timedelta }.

Record indicator := {
  succeeded : Z; remaining : Z; total : Z; failed : list test_output; crashed : Z;
  done_ : Z; last_status_length : nat; out : console; log : list string }.
Definition new (cases : nat) (out : console) : indicator :=
  {| succeeded := 0; remaining := Z.of_nat cases; total := Z.of_nat cases; failed := []; crashed := 0; done_ := 0;
     last_status_length := 0; out := out; log := [] |}.
Definition on_console (f : console -> console) (p : indicator) : indicator :=
  {| succeeded := succeeded p; remaining := remaining p; total := total p; failed := failed p; crashed := crashed p;
     done_ := done_ p; last_status_length := last_status_length p; out := f (out p); log := log p |}.
(** [logger.info] *)
Definition info (l : list string) (p : indicator) : indicator :=
  {| succeeded := succeeded p; remaining := remaining p; total := total p; failed := failed p; crashed := crashed p;
     done_ := done_ p; last_status_length := last_status_length p; out := out p; log := (log p ++ l)%list |}.
Definition set_done (n : Z) (p : indicator) : indicator :=
  {| succeeded := succeeded p; remaining := remaining p; total := total p; failed := failed p; crashed := crashed p;
     done_ := n; last_status_length := last_status_length p; out := out p; log := log p |}.
Definition set_status_length (n : nat) (p : indicator) : indicator :=
  {| succeeded := succeeded p; remaining := remaining p; total := total p; failed := failed p; crashed := crashed p;
     done_ := done_ p; last_status_length := n; out := out p; log := log p |}.
(** What [RunSingle] counts before it calls [HasRun] *)
Definition count (o : test_output) (p : indicator) : indicator :=
  {| succeeded := if unexpected o then succeeded p else succeeded p + 1;
     remaining := remaining p - 1; total := total p;
     failed := if unexpected o then failed p ++ [o] else failed p;
     crashed := if unexpected o && has_crashed o then crashed p + 1 else crashed p;
     done_ := done_ p; last_status_length := last_status_length p; out := out p; log := log p |}%Z.

Definition EscapeCommand (command : list string) : string :=
  join " " (map (fun part => if str_mem " " part then String dquote (part +:+ String dquote "") else part) command).
Definition failure_header (o : test_output) : list string :=
  ["=== " +:+ label o +:+ " " +:+ (if negative o then "[negative] " else "") +:+ "==="; "Path: " +:+ join "/" (test_path o)].
Definition how_it_ended (o : test_output) : list string :=
  ((if has_crashed o then ["--- CRASHED ---"] else []) ++ (if HasTimedOut (output o) then ["--- TIMEOUT ---"] else []))%list.

(** ** [SimpleProgressIndicator] *)
Definition section_of (title text : string) : list string :=
  if String.eqb text "" then [] else ["--- " +:+ title +:+ " ---"; strip text].
Definition Starting (p : indicator) : indicator :=
  on_console (print ("Running " +:+ string_of_int (total p) +:+ " tests")) p.
Definition failure_report (o : test_output) : list string :=
  (failure_header o ++ section_of "stderr" (stderr (output o)) ++ section_of "stdout" (stdout (output o))
   ++ ["Command: " +:+ EscapeCommand (command o)] ++ how_it_ended o)%list.
Definition Done (p : indicator) : indicator :=
  on_console (fun c =>
    let c := prints (concat (map failure_report (failed p))) (print_newline c) in
    match failed p with
    | [] => prints ["==="; "=== All tests succeeded"; "==="] c
    | _ => prints (["==="; "=== " +:+ string_of_int (Z.of_nat (length (failed p))) +:+ " tests failed"]
                   ++ (if (0 <? crashed p)%Z then ["=== " +:+ string_of_int (crashed p) +:+ " tests CRASHED"] else [])
                   ++ ["==="])%list (print_newline c)
    end) p.

(** ** The kinds of indicators *)
Inductive kind := verbose | dots | color | tap | mono.

Definition verbose_HasRun (o : test_output) (p : indicator) : indicator :=
  let outcome := if unexpected o then (if has_crashed o then "CRASH" else "FAIL") else "pass" in
  on_console (print ("Done running " +:+ label o +:+ ": " +:+ outcome)) p.

Definition dot (o : test_output) : string :=
  if unexpected o then (if has_crashed o then "C" else if HasTimedOut (output o) then "T" else "F") else ".".
Definition dots_HasRun (o : test_output) (p : indicator) : indicator :=
  let total := (succeeded p + Z.of_nat (length (failed p)))%Z in
  on_console (fun c =>
    let c := if (1 <? total)%Z && (total mod 50 =? 1)%Z then write nl c else c in write (dot o) c) p.

(** [splitlines()]: lines end with a newline, a carriage return or both. *)
Fixpoint splitlines_from (line : option string) (s : string) : list string :=
  match s with
  | "" => match line with Some l => [l] | None => [] end
  | String c s' =>
      if Ascii.eqb c newline then default "" line :: splitlines_from None s'
      else if Ascii.eqb c carriage_return then
        default "" line ::
        match s' with
        | String d s'' => if Ascii.eqb d newline then splitlines_from None s'' else splitlines_from None s'
        | "" => []
        end
      else splitlines_from (Some (default "" line +:+ String c "")) s'
  end.
Definition splitlines : string -> list string := splitlines_from None.
Definition duration_line (d : timedelta) : string :=
  let total_seconds := ((microseconds d + (seconds d + days d * 24 * 3600) * 10 ^ 6) / 10 ^ 6)%Z in
  "  duration_ms: " +:+ string_of_int total_seconds +:+ "." +:+ string_of_int (microseconds d / 1000).
Definition tap_Starting (p : indicator) : indicator := set_done 0 (info ["1.." +:+ string_of_int (total p)] p).
Definition tap_lines (number : Z) (name : string) (o : test_output) : list string :=
  let result := string_of_int number +:+ " - " +:+ name in
  ((if unexpected o then
      ["not ok " +:+ result] ++ map (String.append "#") (splitlines (stderr (output o)))
      ++ map (String.append "#") (splitlines (stdout (output o)))
    else ["ok " +:+ result])
   ++ ["  ---"; duration_line (duration o); "  ..."])%list.
Definition tap_HasRun (o : test_output) (p : indicator) : res indicator :=
  let p := set_done (done_ p + 1) p in
  last ← of_option IndexError (list.last (command o));
  Ok (info (tap_lines (done_ p) (basename last) o) p).

(** [CompactProgressIndicator]; [elapsed] is [int(time.time() - self.start_time)]. *)
Definition Truncate (s : string) (length : nat) : string :=
  if (0 <? length) && (length - 3 <? String.length s) then str_take (length - 3) s +:+ "..." else s.
Definition pad (c : ascii) (width : nat) (s : string) : string := str_repeat (width - String.length s) (String c "") +:+ s.
Definition escape (s : string) : string := String "027" ("[" +:+ s).
Definition status_line (colored : bool) (mins secs percentage passed failures : Z) (test : string) : string :=
  let in_color (code s : string) := if colored then escape (code +:+ "m") +:+ s +:+ escape "0m" else s in
  let number (n : Z) := pad " " 4 (if (n <? 0)%Z then string_of_int n else " " +:+ string_of_int n) in
  "[" +:+ pad "0" 2 (string_of_int mins) +:+ ":" +:+ pad "0" 2 (string_of_int secs) +:+ "|"
  +:+ in_color "34" ("%" +:+ number percentage) +:+ "|" +:+ in_color "32" ("+" +:+ number passed) +:+ "|"
  +:+ in_color "31" ("-" +:+ number failures) +:+ "]: " +:+ test.
Definition ClearLine (colored : bool) (last_line_length : nat) : console -> console :=
  print_item (if colored then escape ("1K" +:+ String carriage_return "")
              else String carriage_return (str_repeat last_line_length " " +:+ String carriage_return "")).
Definition PrintProgress (colored : bool) (elapsed : Z) (name : string) (p : indicator) : res indicator :=
  if (total p =? 0)%Z then Err ZeroDivisionError
  else
    let status := status_line colored (elapsed / 60) (elapsed mod 60) ((total p - remaining p) * 100 / total p)
                    (succeeded p) (Z.of_nat (length (failed p))) name in
    let status := Truncate status 78 in
    Ok (set_status_length (String.length status)
          (on_console (fun c => print_item status (ClearLine colored (last_status_length p) c)) p)).
Definition highlighted (colored : bool) (code s : string) : string :=
  if colored then escape (code +:+ "m") +:+ s +:+ escape "0m" else s.
Definition compact_HasRun (colored : bool) (o : test_output) (p : indicator) : indicator :=
  if unexpected o then
    let out_text := strip (stdout (output o)) in
    let err_text := strip (stderr (output o)) in
    on_console (fun c => prints (failure_header o
      ++ (if String.eqb out_text "" then [] else [highlighted colored "1" out_text])
      ++ (if String.eqb err_text "" then [] else [highlighted colored "31" err_text])
      ++ ["Command: " +:+ EscapeCommand (command o)] ++ how_it_ended o)%list (ClearLine colored (last_status_length p) c)) p
  else p.

(** ** A run: the calls in their order, with the time that has passed *)
Inductive call := AboutToRun (label : string) (elapsed : Z) | HasRun (o : test_output).
Definition start (k : kind) (p : indicator) : indicator :=
  match k with verbose | dots => Starting p | tap => tap_Starting p | color | mono => p end.
Definition run_call (k : kind) (p : indicator) (c : call) : res indicator :=
  match c with
  | AboutToRun label elapsed =>
      match k with
      | verbose => Ok (on_console (print ("Starting " +:+ label +:+ "...")) p)
      | dots | tap => Ok p
      | color => PrintProgress true elapsed label p
      | mono => PrintProgress false elapsed label p
      end
  | HasRun o =>
      let p := count o p in
      match k with
      | verbose => Ok (verbose_HasRun o p)
      | dots => Ok (dots_HasRun o p)
      | tap => tap_HasRun o p
      | color => Ok (compact_HasRun true o p)
      | mono => Ok (compact_HasRun false o p)
      end
  end.
Definition finish (k : kind) (elapsed : Z) (p : indicator) : res indicator :=
  match k with
  | verbose | dots => Ok (Done p)
  | tap => Ok p
  | color => PrintProgress true elapsed "Done" p
  | mono => PrintProgress false elapsed "Done" p
  end.
Definition Run (k : kind) (cases : nat) (calls : list call) (elapsed : Z) (c : console) : res indicator :=
  p ← foldM (run_call k) (start k (new cases c)) calls;
  finish k elapsed p.

(** ** Reading the log of [tap]

    The first line says how many tests there are; then come results, with diagnostics
    that a hash starts and blocks between lines of dashes and of dots. *)
Definition log_text (l : list string) : string := join "" (map (fun s => s +:+ nl) l).
Definition read_number (ok : bool) (s : string) : option (bool * Z * string) :=
  '(number, rest) ← split1 " " s;
  n ← int_of_string number;
  if startswith "- " rest then Some (ok, n, str_drop 2 rest) else None.
Definition read_result (line : string) : option (bool * Z * string) :=
  if startswith "ok " line then read_number true (str_drop 3 line)
  else if startswith "not ok " line then read_number false (str_drop 7 line)
  else None.
Fixpoint read_results (in_block : bool) (ls : list string) : option (list (bool * Z * string)) :=
  match ls with
  | [] => if in_block then None else Some []
  | l :: ls =>
      if in_block then read_results (negb (String.eqb l "  ...")) ls
      else if String.eqb l "  ---" then read_results true ls
      else if startswith "#" l then read_results false ls
      else r ← read_result l; cons r <$> read_results false ls
  end.
Definition read_tap (text : string) : option (Z * list (bool * Z * string)) :=
  match split_char newline text with
  | plan :: ls =>
      if startswith "1.." plan then
        n ← int_of_string (str_drop 3 plan);
        '(body, last) ← (match rev ls with x :: l => Some (rev l, x) | [] => None end);
        if String.eqb last "" then pair n <$> read_results false body else None
      else None
  | [] => None
  end.

(** The last word of a command, without its directory *)
Definition test_name (o : test_output) : string := basename (default "" (list.last (command o))).
Definition outputs_of (calls : list call) : list test_output :=
  omap (fun c => match c with HasRun o => Some o | AboutToRun _ _ => None end) calls.
Definition results (outs : list test_output) : list (bool * Z * string) :=
  imap (fun i o => (negb (unexpected o), Z.of_nat (S i), test_name o)) outs.

Lemma read_number_app ok n name : (0 <= n)%Z ->
  read_number ok (string_of_int n +:+ " - " +:+ name) = Some (ok, n, name).
Proof.
  intros Hn. unfold read_number. change (" - " +:+ name) with (String " " ("- " +:+ name)).
  rewrite split1_app by by apply string_of_int_free. cbn [mbind option_bind]. rewrite int_of_string_of_int by done.
  unfold startswith. by rewrite PyStr.prefix_app.
Qed.
Lemma read_ok s : read_result ("ok " +:+ s) = read_number true s.
Proof. unfold read_result, startswith. by rewrite PyStr.prefix_app. Qed.
Lemma read_not_ok s : read_result ("not ok " +:+ s) = read_number false s.
Proof. unfold read_result, startswith. by rewrite PyStr.prefix_app. Qed.
Lemma read_diagnostics l ls : read_results false (map (String.append "#") l ++ ls) = read_results false ls.
Proof.
  induction l as [|x l IH]; [done|]. cbn [map app read_results]. change (String.eqb ("#" +:+ x) "  ---") with false.
  unfold startswith at 1. by rewrite PyStr.prefix_app.
Qed.
Lemma read_block o ls : read_results false (["  ---"; duration_line (duration o); "  ..."] ++ ls) = read_results false ls.
Proof. done. Qed.
Lemma read_tap_lines o i name ls :
  read_results false (tap_lines (Z.of_nat (S i)) name o ++ ls) =
  (cons (negb (unexpected o), Z.of_nat (S i), name) <$> read_results false ls).
Proof.
  unfold tap_lines. cbv zeta. rewrite <- app_assoc.
  pose proof (fun b => read_number_app b (Z.of_nat (S i)) name ltac:(lia)) as Hn.
  set (s := string_of_int (Z.of_nat (S i)) +:+ " - " +:+ name) in *. destruct (unexpected o).
  - rewrite <- !app_assoc. change (read_results false (["not ok " +:+ s] ++ ?ls)) with
      (r ← read_result ("not ok " +:+ s); cons r <$> read_results false ls).
    rewrite read_not_ok, Hn. cbn [mbind option_bind negb]. by rewrite !read_diagnostics, read_block.
  - change (read_results false (["ok " +:+ s] ++ ?ls)) with (r ← read_result ("ok " +:+ s); cons r <$> read_results false ls).
    rewrite read_ok, Hn. cbn [mbind option_bind negb]. by rewrite read_block.
Qed.

Lemma splitlines_one_line line s : one_line (default "" line) = true ->
  Forall (fun l => one_line l = true) (splitlines_from line s).
Proof.
  remember (String.length s) as n eqn:Hn. revert line s Hn.
  induction n as [n IH] using lt_wf_ind. intros line [|c s] -> Hl; cbn [splitlines_from].
  - destruct line; by repeat constructor.
  - destruct (Ascii.eqb_spec c newline) as [->|Hc]; [constructor; [done|]; by eapply IH; [|done|]; cbn; [lia|]|].
    destruct (Ascii.eqb c carriage_return).
    + constructor; [done|]. destruct s as [|d s]; [done|].
      destruct (Ascii.eqb d newline); (eapply IH; [|done|done]; cbn; lia).
    + eapply IH; [|done|]; [cbn; lia|]. cbn [default from_option id]. apply one_line_app; [done|].
      unfold one_line. rewrite str_mem_cons. by destruct (Ascii.eqb_spec newline c) as [<-|].
Qed.
Lemma tap_lines_one_line n name o : one_line name = true -> Forall (fun l => one_line l = true) (tap_lines n name o).
Proof.
  intros Hname. unfold tap_lines. cbv zeta.
  assert (Hr : one_line (string_of_int n +:+ " - " +:+ name) = true).
  { apply one_line_app; [apply negb_true_iff, string_of_int_free; done|]. by apply one_line_app. }
  assert (Hd : forall s, Forall (fun l => one_line l = true) (map (String.append "#") (splitlines s))).
  { intros s. apply Forall_map. eapply list.Forall_impl; [by apply splitlines_one_line|]. intros l Hl. by apply (one_line_app "#"). }
  apply Forall_app. split.
  - destruct (unexpected o); [|constructor; [by apply one_line_app|done]].
    constructor; [by apply one_line_app|]. apply Forall_app. split; apply Hd.
  - constructor; [done|]. constructor; [|by constructor]. unfold duration_line. cbv zeta.
    apply one_line_app; [done|]. apply one_line_app; [by apply negb_true_iff, string_of_int_free|].
    apply one_line_app; [done|]. by apply negb_true_iff, string_of_int_free.
Qed.

(** What [tap] has logged when [outs] have run *)
Definition logged (outs : list test_output) : list string :=
  concat (imap (fun i o => tap_lines (Z.of_nat (S i)) (test_name o) o) outs).
Lemma read_logged outs : read_results false (logged outs) = Some (results outs).
Proof.
  unfold logged, results.
  assert (H : forall k, read_results false (concat (imap (fun i o => tap_lines (Z.of_nat (S (k + i))) (test_name o) o) outs)) =
    Some (imap (fun i o => (negb (unexpected o), Z.of_nat (S (k + i)), test_name o)) outs)); [|exact (H 0)].
  induction outs as [|o outs IH]; intros k; [done|]. cbn [imap concat]. rewrite read_tap_lines. unfold compose.
  assert (E : forall {B} (f : nat -> test_output -> B),
    imap (fun i o => f (S (k + S i)) o) outs = imap (fun i o => f (S (S k + i)) o) outs).
  { intros B f. apply imap_ext. intros i x _. f_equal. lia. }
  rewrite (E _ (fun n o => tap_lines (Z.of_nat n) (test_name o) o)), (E _ (fun n o => (negb (unexpected o), Z.of_nat n, test_name o))).
  rewrite IH. cbn. by rewrite Nat.add_0_r.
Qed.
Lemma tap_run calls p : Forall (fun o => command o <> []) (outputs_of calls) ->
  exists q, foldM (run_call tap) p calls = Ok q /\ done_ q = (done_ p + Z.of_nat (length (outputs_of calls)))%Z /\
    log q = (log p ++ concat (imap (fun i o => tap_lines (done_ p + Z.of_nat (S i)) (test_name o) o) (outputs_of calls)))%list.
Proof.
  revert p. induction calls as [|c calls IH]; intros p H; cbn [foldM].
  - exists p. cbn. rewrite app_nil_r. split_and!; [done|lia|done].
  - destruct c as [l e|o]; cbn [run_call mbind res_bind]; [by apply IH|].
    change (outputs_of (HasRun o :: calls)) with (o :: outputs_of calls) in *. inversion H as [|? ? Hc Ho]. subst.
    assert (E : exists last, list.last (command o) = Some last) by (destruct (list.last (command o)) eqn:E; [by eexists|by apply last_None in E]).
    destruct E as [last E]. unfold tap_HasRun. rewrite E. cbn [of_option mbind res_bind].
    edestruct IH as (q & Hq & Hd & Hl); [exact Ho|]. exists q. split; [exact Hq|]. rewrite Hd, Hl. cbn [done_ set_done info log count].
    split; [cbn [length]; lia|]. cbn [imap concat]. rewrite <- app_assoc. f_equal. unfold test_name at 2. rewrite E.
    f_equal. unfold compose. f_equal. apply imap_ext. intros i x _. f_equal. lia.
Qed.

(** C38. A reader of the Test Anything Protocol finds in what [tap] logs the number of
    tests and one result for each test that has run, numbered from one in the order in
    which they ended, with the verdict and the name of its file; what the tests print
    is not taken for results. *)
Theorem tap_reads cases calls elapsed c :
  Forall (fun o => command o <> [] /\ one_line (test_name o) = true) (outputs_of calls) ->
  exists p, Run tap cases calls elapsed c = Ok p /\
    read_tap (log_text (log p)) = Some (Z.of_nat cases, results (outputs_of calls)).
Proof.
  intros H. destruct (tap_run calls (start tap (new cases c))) as (p & Hp & _ & Hl).
  { eapply list.Forall_impl; [exact H|]. by intros o [Ho _]. }
  exists p. split; [unfold Run; by rewrite Hp|].
  change (log p = ["1.." +:+ string_of_int (Z.of_nat cases)] ++ logged (outputs_of calls))%list in Hl.
  rewrite Hl. unfold read_tap, log_text. rewrite split_newlines.
  - cbn [app]. unfold startswith. rewrite PyStr.prefix_app.
    change (str_drop 3 ("1.." +:+ string_of_int (Z.of_nat cases))) with (string_of_int (Z.of_nat cases)).
    rewrite int_of_string_of_int by lia. cbn [mbind option_bind]. rewrite rev_app_distr. cbn [rev app].
    rewrite rev_involutive. cbn [mbind option_bind]. by rewrite read_logged.
  - constructor; [apply one_line_app; [done|]; by apply negb_true_iff, string_of_int_free|].
    unfold logged. apply Forall_concat, Forall_lookup_2. intros i x. rewrite list_lookup_imap.
    intros (o & Ho & ->)%fmap_Some. apply tap_lines_one_line. rewrite list.Forall_lookup in H. by apply (H i).
Qed.
Definition quick : timedelta := {| days := 0; seconds := 1; microseconds := 5000 |}.
Definition assertion_failed : test_output :=
  {| label := "release test-fs"; test_path := ["parallel"; "test-fs"]; negative := false;
     command := ["out/Release/iojs"; "test/parallel/test-fs.js"];
     output := {| exit_code := 1; timed_out := false; failed_memo := Some true; stdout := "ok 2 - nothing" +:+ nl;
                  stderr := "AssertionError" +:+ String carriage_return nl +:+ "  at test-fs.js" |};
     unexpected := true; has_crashed := false; duration := quick |}.
Definition passed : test_output :=
  {| label := "release test-net"; test_path := ["parallel"; "test-net"]; negative := false;
     command := ["out/Release/iojs"; "test/parallel/test-net.js"];
     output := {| exit_code := 0; timed_out := false; failed_memo := Some false; stdout := ""; stderr := "" |};
     unexpected := false; has_crashed := false; duration := quick |}.
Lemma tap_reads_witness : exists p,
  Run tap 3 [AboutToRun "release test-fs" 0; HasRun assertion_failed; HasRun passed] 2 {| text := ""; softspace := false |} = Ok p /\
  read_tap (log_text (log p)) = Some (3%Z, [(false, 1%Z, "test-fs.js"); (true, 2%Z, "test-net.js")]).
Proof.
  apply (tap_reads 3 [AboutToRun "release test-fs" 0; HasRun assertion_failed; HasRun passed] 2 {| text := ""; softspace := false |}).
  repeat constructor; done.
Defined.
(** One second and five milliseconds *)
Example unpadded_milliseconds : duration_line quick = "  duration_ms: 1.5".
Proof. reflexivity. Qed.

(** ** The rows of [dots] *)
Definition in_rows (full : list string) (last : string) : string := join nl (full ++ [last]).
Definition dots_inv (t0 : string) (outs : list test_output) (p : indicator) : Prop := exists full last,
  text (out p) = t0 +:+ in_rows full last /\ Forall (fun r => String.length r = 50) full /\ String.length last <= 50 /\
  (last = "" -> full = []) /\ join "" (full ++ [last]) = join "" (map dot outs) /\
  (succeeded p + Z.of_nat (length (failed p)) = Z.of_nat (50 * length full + String.length last))%Z.
Lemma join_last sep l s u : join sep (l ++ [s +:+ u]) = join sep (l ++ [s]) +:+ u.
Proof.
  destruct l as [|x l]; [done|]. rewrite !join_snoc by done. by rewrite !append_assoc.
Qed.
Lemma length_dot o : String.length (dot o) = 1.
Proof. unfold dot. destruct (unexpected o), (has_crashed o), (HasTimedOut (output o)); done. Qed.
Lemma dots_step t0 outs p o : dots_inv t0 outs p -> dots_inv t0 (outs ++ [o]) (dots_HasRun o (count o p)).
Proof.
  intros (full & last & Ht & Hf & Hl & He & Hj & Hn).
  assert (Htotal : (succeeded (count o p) + Z.of_nat (length (failed (count o p))) =
    Z.of_nat (50 * length full + String.length last) + 1)%Z).
  { cbn [succeeded failed count]. destruct (unexpected o); rewrite ?length_app; cbn [length]; lia. }
  assert (Hj' : join "" (map dot (outs ++ [o])) = join "" (map dot outs) +:+ dot o).
  { rewrite map_app. cbn [map]. destruct outs as [|x outs]; [done|]. rewrite join_snoc by done. done. }
  pose proof (length_dot o) as Hd. unfold dots_HasRun. cbv zeta. rewrite Htotal.
  set (n := (Z.of_nat (50 * length full + String.length last) + 1)%Z).
  destruct ((1 <? n)%Z && (n mod 50 =? 1)%Z) eqn:E.
  - apply andb_prop in E as [E1%Z.ltb_lt E2%Z.eqb_eq].
    assert (Hlast : String.length last = 50).
    { destruct (decide (String.length last = 50)) as [|E50]; [done|]. exfalso.
      assert (En : n = (Z.of_nat (String.length last) + 1 + Z.of_nat (length full) * 50)%Z) by (unfold n; lia).
      rewrite En, Z.mod_add in E2 by lia. destruct (decide (String.length last = 49)) as [E49|]; [by rewrite E49 in E2|].
      rewrite Z.mod_small in E2 by lia. assert (E0 : String.length last = 0) by lia.
      destruct last; [|done]. rewrite (He eq_refl) in En. cbn in En. lia. }
    exists (full ++ [last])%list, (dot o). split_and!.
    + cbn [out on_console text write count]. unfold in_rows in *. rewrite Ht, (join_snoc nl (full ++ [last])) by by destruct full.
      by rewrite !append_assoc.
    + apply Forall_app. split; [done|]. by constructor.
    + lia.
    + intros E. by rewrite E in Hd.
    + rewrite (join_snoc "" (full ++ [last])) by by destruct full. by rewrite Hj, Hj'.
    + cbn [out on_console succeeded failed]. rewrite Htotal, length_app. unfold n. cbn [length]. lia.
  - exists full, (last +:+ dot o). split_and!.
    + cbn [out on_console text write count]. unfold in_rows in *. by rewrite Ht, join_last, !append_assoc.
    + done.
    + rewrite length_append, Hd. destruct (decide (String.length last = 50)) as [E50|]; [|lia]. exfalso.
      assert (E1 : n = ((Z.of_nat (length full) + 1) * 50 + 1)%Z) by (unfold n; lia).
      assert (E2 : (n mod 50 = 1)%Z) by (rewrite E1, Z.add_comm, Z.mod_add by done; done).
      rewrite E2 in E. assert (E3 : (1 <? n)%Z = true) by (apply Z.ltb_lt; lia). by rewrite E3 in E.
    + intros E'. apply (f_equal String.length) in E'. rewrite length_append, Hd in E'. cbn in E'. lia.
    + by rewrite join_last, Hj, Hj'.
    + cbn [out on_console succeeded failed]. rewrite Htotal, length_append, Hd. lia.
Qed.
(** The dots are those of the tests in their order, fifty in each row but the last. *)
Theorem dots_rows cases calls c : exists p,
  foldM (run_call dots) (start dots (new cases c)) calls = Ok p /\
  dots_inv (text (out (start dots (new cases c)))) (outputs_of calls) p.
Proof.
  induction calls as [|x calls IH] using rev_ind.
  - eexists. split; [done|]. exists [], "". split_and!; [symmetry; apply append_nil_r|constructor|cbn; lia|done|done|done].
  - destruct IH as (p & Hp & Hi). rewrite foldM_app, Hp. cbn [mbind res_bind foldM].
    unfold outputs_of in *. rewrite omap_app. destruct x as [l e|o]; cbn [run_call mbind res_bind omap list_omap].
    + rewrite app_nil_r. by exists p.
    + eexists. split; [done|]. by apply dots_step.
Qed.
