(* ===== verification/TestMessage.v ===== *)
(** * Message tests ([test/message/testcfg.py])

    A message test passes when the lines it writes match the lines of its expected
    output, in which a star stands for any text: [MessageTestCase.IsFailureOutput],
    with the regular expressions it makes of the lines. *)
From S2P Require Import Prelude PyStr PyFormat PyPath TestConfig TestRun.
From stdpp Require Import options.
#[local] Open Scope nat_scope.

Definition zero : ascii := "000"%char.

Section Message.
Context (other : directive -> option string).

(** ** The regular expression of a line

    [re.escape] in Python 2 leaves letters and digits alone. *)
Definition escape_char (c : ascii) : string :=
  if isalpha c || isdigit c then String c ""
  else if Ascii.eqb c zero then "\000" else String "\" (String c "").
Definition escape : string -> string := str_subst escape_char.
Definition pattern_of (line : string) : string :=
  "^" +:+ str_replace "\*" ".*" (escape line) +:+ "$".

(** [re.match], for what [pattern_of] makes: an escaped character, the null character
    in octal, any number of characters but a newline, or the character itself; the end
    may be before a last newline. *)
Fixpoint match_from (pattern s : string) : bool :=
  match pattern with
  | String "$" "" => String.eqb s "" || String.eqb s nl
  | String "." (String "*" pattern) =>
      (fix star (s : string) : bool :=
         match_from pattern s || match s with "" => false | String d s' => any_char d && star s' end) s
  | String "\" (String "0" (String "0" (String "0" pattern))) =>
      match s with String d s' => Ascii.eqb zero d && match_from pattern s' | "" => false end
  | String "\" (String c pattern) =>
      match s with String d s' => Ascii.eqb c d && match_from pattern s' | "" => false end
  | String c pattern =>
      match s with String d s' => Ascii.eqb c d && match_from pattern s' | "" => false end
  | "" => true
  end.
Definition re_match (pattern s : string) : bool :=
  match pattern with String "^" pattern => match_from pattern s | _ => match_from pattern s end.

(** ** The verdict *)
Definition IgnoreLine (s : string) : bool :=
  String.eqb (strip s) "" || startswith "==" s || startswith "**" s.
Definition env_of (file : string) : list (string * string) := [("basename", basename file)].
Definition patterns_of (file : string) (expected : list string) : res (list string) :=
  foldM (fun patterns line =>
           if String.eqb (strip line) "" then Ok patterns
           else line ← percent other (env_of file) (rstrip line); Ok (patterns ++ [pattern_of line])%list)
    [] expected.
Definition IsFailureOutput (file : string) (expected : list string) (output : CommandOutput) : res bool :=
  patterns ← patterns_of file expected;
  let raw_lines := split_char newline (stdout output +:+ stderr output) in
  let outlines := filter (fun s => IgnoreLine s = false) raw_lines in
  Ok (if length outlines =? length patterns then
        negb (forallb (fun '(p, s) => re_match p s) (zip patterns outlines))
      else true).
End Message.

(** ** What a match means: a star is any text without a newline, anything else itself *)
Inductive wild : string -> string -> Prop :=
  | wild_end s : s = "" \/ s = nl -> wild "" s
  | wild_star p u s : str_forallb any_char u = true -> wild p s -> wild (String "*" p) (u +:+ s)
  | wild_char c p s : c <> "*"%char -> wild p s -> wild (String c p) (String c s).

(** What becomes of a character of the line *)
Definition pattern_char (c : ascii) : string := if Ascii.eqb c "*" then ".*" else escape_char c.

Lemma escape_head line : startswith "*" (escape line) = false.
Proof.
  destruct line as [|c line]; [done|]. unfold escape. cbn [str_subst]. unfold escape_char.
  destruct (isalpha c || isdigit c) eqn:E.
  - cbn [String.append]. rewrite startswith_cons. destruct (Ascii.eqb_spec "*" c) as [<-|]; done.
  - by destruct (Ascii.eqb c zero).
Qed.
(** Characters other than a backslash are copied, and so is a backslash that no star follows. *)
Lemma replace_other c s : c <> "\"%char ->
  str_replace_from "\*" ".*" 0 (String c s) = String c (str_replace_from "\*" ".*" 0 s).
Proof.
  intros Hc. cbn [str_replace_from]. change (String.prefix "\*" (String c s)) with (startswith "\*" (String c s)).
  rewrite startswith_cons. destruct (Ascii.eqb_spec "\" c) as [<-|]; done.
Qed.
Lemma replace_backslash s : startswith "*" s = false ->
  str_replace_from "\*" ".*" 0 (String "\" s) = String "\" (str_replace_from "\*" ".*" 0 s).
Proof.
  intros Hs. cbn [str_replace_from]. change (String.prefix "\*" (String "\" s)) with (startswith "*" s).
  by rewrite Hs.
Qed.
Lemma replace_star line : str_replace "\*" ".*" (escape line) = str_subst pattern_char line.
Proof.
  unfold str_replace. induction line as [|c line IH]; [done|].
  change (escape (String c line)) with (escape_char c +:+ escape line).
  change (str_subst pattern_char (String c line)) with (pattern_char c +:+ str_subst pattern_char line).
  rewrite <- IH. unfold pattern_char. pose proof (escape_head line) as Hh.
  destruct (Ascii.eqb_spec c "*") as [->|Hc].
  { change (escape_char "*" +:+ escape line) with (String "\" (String "*" (escape line))).
    cbn [str_replace_from]. change (String.prefix "\*" (String "\" (String "*" (escape line))))
      with (startswith "" (escape line)). by rewrite startswith_nil. }
  unfold escape_char. destruct (isalpha c || isdigit c) eqn:E.
  - cbn [String.append]. apply replace_other. by intros ->.
  - destruct (Ascii.eqb_spec c zero) as [->|Hz]; cbn [String.append].
    + rewrite replace_backslash by done. by rewrite !replace_other.
    + rewrite replace_backslash by (rewrite startswith_cons; by destruct (Ascii.eqb_spec "*" c) as [<-|]).
      destruct (Ascii.eqb_spec c "\") as [->|Hb]; [by rewrite replace_backslash|by rewrite replace_other].
Qed.

Lemma match_star pattern s : match_from (".*" +:+ pattern) s = true <->
  exists u s', s = u +:+ s' /\ str_forallb any_char u = true /\ match_from pattern s' = true.
Proof.
  cbn [match_from String.append]. induction s as [|d s IH].
  - rewrite orb_false_r. split; [intros H; by exists "", ""|]. by intros ([|] & [|] & ? & ? & ?).
  - rewrite orb_true_iff, andb_true_iff, IH. split.
    + intros [H|(Hd & u & s' & -> & Hu & H)]; [by exists "", (String d s)|].
      exists (String d u), s'. cbn. by rewrite Hd, Hu.
    + intros ([|d' u] & s' & Heq & Hu & H); cbn in Heq, Hu.
      * left. by rewrite Heq.
      * injection Heq as -> ->. apply andb_true_iff in Hu as [Hd Hu]. right. eauto 6.
Qed.
Lemma match_literal c pattern s : c <> "*"%char -> pattern <> "" ->
  match_from (escape_char c +:+ pattern) s =
  match s with "" => false | String d s' => Ascii.eqb c d && match_from pattern s' end.
Proof.
  intros Hc Hp. unfold escape_char. destruct (isalpha c || isdigit c) eqn:E.
  - destruct pattern as [|e pattern]; [done|]. destruct c as [[] [] [] [] [] [] [] []]; try discriminate E; done.
  - destruct (Ascii.eqb_spec c zero) as [->|Hz]; [done|].
    destruct c as [[] [] [] [] [] [] [] []]; try discriminate E; done.
Qed.
Lemma match_wild line s : match_from (str_subst pattern_char line +:+ "$") s = true <-> wild line s.
Proof.
  revert s. induction line as [|c line IH]; intros s.
  - cbn [str_subst String.append match_from]. rewrite orb_true_iff, !String.eqb_eq.
    split; [by constructor|by inversion 1].
  - change (str_subst pattern_char (String c line)) with (pattern_char c +:+ str_subst pattern_char line).
    rewrite append_assoc. unfold pattern_char at 1. destruct (Ascii.eqb_spec c "*") as [->|Hc].
    + rewrite match_star. setoid_rewrite IH. split.
      * intros (u & s' & -> & Hu & H). by constructor.
      * inversion 1; subst; [eauto|done].
    + rewrite match_literal; [|done|by destruct (str_subst pattern_char line)].
      destruct s as [|d s]; [split; [done|inversion 1; by subst]|].
      rewrite andb_true_iff, IH, Ascii.eqb_eq. split; [intros [<- ?]; by constructor|].
      inversion 1; subst; done.
Qed.
Lemma re_match_wild line s : re_match (pattern_of line) s = true <-> wild line s.
Proof. unfold pattern_of, re_match. rewrite replace_star. apply match_wild. Qed.

Section Verdict.
Context (other : directive -> option string).

(** The lines of the expected output that count *)
Definition counts (line : string) : bool := negb (String.eqb (strip line) "").
Definition kept_lines (output : CommandOutput) : list string :=
  filter (fun s => IgnoreLine s = false) (split_char newline (stdout output +:+ stderr output)).
Definition formats (file line text : string) : Prop := percent other (env_of file) (rstrip line) = Ok text.

Lemma patterns_of_spec file expected acc :
  match foldM (fun patterns line =>
           if String.eqb (strip line) "" then Ok patterns
           else line ← percent other (env_of file) (rstrip line); Ok (patterns ++ [pattern_of line])%list)
    acc expected with
  | Ok patterns => exists texts, Forall2 (formats file) (filter (fun l => counts l = true) expected) texts /\
      patterns = (acc ++ map pattern_of texts)%list
  | Err e => exists line, line ∈ expected /\ counts line = true /\
      percent other (env_of file) (rstrip line) = Err e
  | NoFuel => False
  end.
Proof.
  revert acc. induction expected as [|line expected IH]; intros acc; cbn [foldM].
  { exists []. by rewrite app_nil_r. }
  rewrite filter_cons. case_decide as Hc; unfold counts in Hc.
  - apply negb_true_iff in Hc. rewrite Hc.
    destruct (percent other (env_of file) (rstrip line)) as [text|e|] eqn:Ep; cbn [mbind res_bind].
    + specialize (IH (acc ++ [pattern_of text])%list). destruct (foldM _ _ expected) as [ps|e|];
        [|destruct IH as (l & ? & ?); exists l; split; [by right|done]|done].
      destruct IH as (texts & HF & ->). exists (text :: texts). split; [by constructor|]. by rewrite <- app_assoc.
    + exists line. split_and!; [by left| |done]. unfold counts. by rewrite Hc.
    + by apply percent_fuel in Ep.
  - apply not_true_is_false, negb_false_iff in Hc. rewrite Hc. cbn [mbind res_bind]. specialize (IH acc).
    destruct (foldM _ acc expected) as [ps|e|]; [done| |done].
    destruct IH as (l & ? & ?). exists l. split; [by right|done].
Qed.
End Verdict.

(** The verdict on a message test: the lines of the expected output that are not
    blank are formatted, and the test has not failed exactly when the lines that it
    wrote, without the blank ones and those of valgrind, are as many and match them
    one by one, a star matching any text and every other character only itself.  A
    line that cannot be formatted raises. *)
Theorem IsFailureOutput_matches other file expected output :
  match IsFailureOutput other file expected output with
  | Ok failed => exists texts,
      Forall2 (formats other file) (filter (fun l => counts l = true) expected) texts /\
      (failed = false <-> Forall2 wild texts (kept_lines output))
  | Err e => exists line, line ∈ expected /\ counts line = true /\
      percent other (env_of file) (rstrip line) = Err e
  | NoFuel => False
  end.
Proof.
  unfold IsFailureOutput, patterns_of. pose proof (patterns_of_spec other file expected []) as H.
  destruct (foldM _ [] expected) as [ps|e|]; cbn [mbind res_bind]; [|done..].
  destruct H as (texts & HF & ->). exists texts. split; [done|]. fold (kept_lines output). cbn [app]. clear HF.
  rewrite length_map. destruct (length (kept_lines output) =? length texts) eqn:El; reflect.
  - rewrite negb_false_iff. revert El. generalize (kept_lines output) as outs.
    induction texts as [|t texts IH]; intros [|s outs]; cbn [length map zip zip_with forallb]; try done.
    intros [= Hl]. rewrite andb_true_iff, (IH outs Hl), re_match_wild. split; [intros []; by constructor|].
    by inversion 1; subst.
  - split; [done|]. intros HF%Forall2_length. congruence.
Qed.

(** Dots and brackets are themselves, [%%] is a percent sign. *)
Example message_passes :
  IsFailureOutput (fun _ => None) "/t/throws.js" ["*/%(basename)s:3" +:+ nl; nl; "  [100%%]. * end" +:+ nl]
    {| exit_code := 1%Z; timed_out := false; failed_memo := None;
       stdout := "/x/throws.js:3" +:+ nl; stderr := "==12== valgrind" +:+ nl +:+ "  [100%]. at the end" +:+ nl |} = Ok false /\
  IsFailureOutput (fun _ => None) "/t/throws.js" ["a.c" +:+ nl]
    {| exit_code := 0%Z; timed_out := false; failed_memo := None; stdout := "abc" +:+ nl; stderr := "" |} = Ok true /\
  IsFailureOutput (fun _ => None) "/t/throws.js" ["100%" +:+ nl]
    {| exit_code := 0%Z; timed_out := false; failed_memo := None; stdout := "100%" +:+ nl; stderr := "" |}
  = Err (ValueError "incomplete format").
Proof. by vm_compute. Qed.
