(* ===== verification/Common.v ===== *)
(** * [tools/gyp/pylib/gyp/common.py]

    Qualified target names, relative paths, quoting for a posix shell, and the
    two graph traversals [DeepDependencyTargets] and [TopologicallySorted].
    [RelativePath_on] is [RelativePath] over the host's [os.path], its
    [realpath] included, so with symbolic links and the drives of win32; the
    components that call it use [RelativePath], the posix host without symbolic
    links, where [cwd] is the current directory. *)
From stdpp Require Import sorting.
From S2P Require Import Prelude PyStr PyPath.
From stdpp Require Import options.

(** ** Qualified targets *)

(** [build_file:target#toolset]; [None] is Python's. *)
Definition ParseQualifiedTarget (target : string) : option string * string * option string :=
  let '(build_file, target) :=
    match rsplit1 ":" target with Some (b, t) => (Some b, t) | None => (None, target) end in
  let '(target, toolset) :=
    match rsplit1 "#" target with Some (t, s) => (t, Some s) | None => (target, None) end in
  (build_file, target, toolset).

(** Truth of a string that may be [None] *)
Definition truthy (o : option string) : bool :=
  match o with Some s => negb (String.eqb s "") | None => false end.

Definition BuildFile (fully_qualified_target : string) : option string :=
  (ParseQualifiedTarget fully_qualified_target).1.1.
Definition QualifiedTarget (build_file target : string) (toolset : option string) : string :=
  let fully_qualified := build_file +:+ ":" +:+ target in
  match toolset with
  | Some t => if String.eqb t "" then fully_qualified else fully_qualified +:+ "#" +:+ t
  | None => fully_qualified
  end.
Definition FindQualifiedTargets (target : string) (qualified_list : list string) : list string :=
  filter (fun t => (ParseQualifiedTarget t).1.2 = target) qualified_list.
Definition BuildFileTargets (target_list : list string) (build_file : string) : list string :=
  filter (fun p => BuildFile p = Some build_file) target_list.

(** ** Relative paths *)

(** What [RelativePath] uses of the host: [sys.platform == 'win32'] and
    [os.path]'s [sep], [join], [splitdrive] and [realpath], which reads the file
    system; [os.path.pardir] is two dots everywhere. *)
Record host := {
  win32 : bool;
  os_sep : ascii;
  os_join : string -> string -> string;
  os_splitdrive : string -> string * string;
  os_realpath : string -> string }.

Definition RelativePath_on (os : host) (path relative_to : string) : string :=
  let path := os_realpath os path in
  let relative_to := os_realpath os relative_to in
  if win32 os && negb (String.eqb (lower (os_splitdrive os path).1)
                         (lower (os_splitdrive os relative_to).1))
  then path
  else
    let path_split := split_char (os_sep os) path in
    let relative_to_split := split_char (os_sep os) relative_to in
    let prefix_len := length (commonprefix path_split relative_to_split) in
    let relative_split :=
      (replicate (length relative_to_split - prefix_len) ".." ++ drop prefix_len path_split)%list in
    match relative_split with
    | [] => ""
    | a :: ps => foldl (os_join os) a ps
    end.

(** A posix host whose file system resolves links as [resolve] says. *)
Definition posix (resolve : string -> string) : host := {|
  win32 := false; os_sep := "/"; os_join := path_join2;
  os_splitdrive := fun p => ("", p); os_realpath := resolve |}.

Section Paths.
Context (cwd : string).

Definition RelativePath : string -> string -> string := RelativePath_on (posix (realpath cwd)).
Definition InvertRelativePath (path : string) (toplevel_dir : option string) : string :=
  if String.eqb path "" then path
  else
    let toplevel_dir := default "." toplevel_dir in
    RelativePath toplevel_dir (path_join2 toplevel_dir path).
Definition FixIfRelativePath (path relative_to : string) : string :=
  if isabs path then path else RelativePath path relative_to.
Definition UnrelativePath (path relative_to : string) : string :=
  normpath (path_join2 (dirname relative_to) path).

Definition ResolveTarget (build_file : option string) (target : string)
    (toolset : option string) : option string * string * option string :=
  let '(parsed_build_file, target, parsed_toolset) := ParseQualifiedTarget target in
  let build_file :=
    match parsed_build_file with
    | Some parsed =>
        if String.eqb parsed "" then build_file
        else match build_file with
             | Some b =>
                 if String.eqb b "" then parsed_build_file
                 else
                   let b := normpath (path_join2 (dirname b) parsed) in
                   Some (if isabs b then b else RelativePath b ".")
             | None => parsed_build_file
             end
    | None => build_file
    end in
  (build_file, target, if truthy parsed_toolset then parsed_toolset else toolset).
End Paths.

(** ** Quoting for a posix shell *)
Definition tab : ascii := "009"%char.
Definition quote_chars : string :=
  String tab (String newline " #$%&'()*;<=>?[{|}~").
(** [_quote.search] finds a character of the class, or the empty string;
    [_escape] puts a backslash before three characters. *)
Definition needs_quote (argument : string) : bool :=
  str_existsb (fun c => str_mem c quote_chars) argument || String.eqb argument "".
Definition escape_char (c : ascii) : string :=
  if Ascii.eqb c dquote || Ascii.eqb c "\" || Ascii.eqb c "`"
  then String "\" (String c "") else String c "".
Definition EncodePOSIXShellArgument (argument : string) : string :=
  let quote := if needs_quote argument then String dquote "" else "" in
  quote +:+ str_subst escape_char argument +:+ quote.
Definition EncodePOSIXShellList (list : list string) : string :=
  join " " (map EncodePOSIXShellArgument list).

(** ** [DeepDependencyTargets] *)
Record target_deps := { dependencies : list string; dependencies_original : list string }.
Definition children (spec : target_deps) : gset string :=
  list_to_set (dependencies spec) ∪ list_to_set (dependencies_original spec).

Section Deep.
(** [set.pop()] removes an arbitrary element. *)
Context (pop : gset string -> option string).
Context (target_dicts : gmap string target_deps).

Fixpoint DeepLoop (fuel : nat) (deps pending : gset string) : res (gset string) :=
  match fuel with
  | 0 => NoFuel
  | S fuel =>
      match pop pending with
      | None => Ok deps
      | Some r =>
          let pending := pending ∖ {[r]} in
          if decide (r ∈ deps) then DeepLoop fuel deps pending
          else
            spec ← of_option (KeyError r) (target_dicts !! r);
            DeepLoop fuel (deps ∪ {[r]}) (pending ∪ children spec)
      end
  end.

(** Every iteration takes an element off [pending], and a target's children
    are put there at most once. *)
Definition deep_fuel (roots : list string) : nat :=
  length roots +
  sum_list_with (fun p => size (children p.2)) (map_to_list target_dicts) + 1.
Definition DeepDependencyTargets (roots : list string) : res (gset string) :=
  deps ← DeepLoop (deep_fuel roots) ∅ (list_to_set roots);
  Ok (deps ∖ list_to_set roots).

(** The order of [list(set)] is arbitrary: the second part is a set here. *)
Definition AllTargets (target_list : list string) (build_file : string)
    : res (list string * gset string) :=
  let bftargets := BuildFileTargets target_list build_file in
  deptargets ← DeepDependencyTargets bftargets;
  Ok (bftargets, deptargets).
End Deep.

(** ** [TopologicallySorted] *)
Record topo := { visited : gset string; visiting : gset string; ordered_nodes : list string }.

Section Topo.
Context (get_edges : string -> list string).

Fixpoint Visit (fuel : nat) (st : topo) (node : string) : res topo :=
  match fuel with
  | 0 => NoFuel
  | S fuel =>
      if decide (node ∈ visiting st) then Err (CycleError (visiting st))
      else if decide (node ∈ visited st) then Ok st
      else
        let st := {| visited := visited st ∪ {[node]}; visiting := visiting st ∪ {[node]};
                     ordered_nodes := ordered_nodes st |} in
        st ← foldM (Visit fuel) st (get_edges node);
        Ok {| visited := visited st; visiting := visiting st ∖ {[node]};
              ordered_nodes := node :: ordered_nodes st |}
  end.

Definition string_le (a b : string) : Prop := String.leb a b = true.
#[export] Instance string_le_dec : RelDecision string_le.
Proof. intros a b. unfold string_le. apply _. Defined.

Definition TopologicallySorted (fuel : nat) (graph : list string) : res (list string) :=
  st ← foldM (Visit fuel) {| visited := ∅; visiting := ∅; ordered_nodes := [] |}
         (merge_sort string_le graph);
  Ok (ordered_nodes st).
End Topo.

(** ** Small helpers *)

(** [uniquer], with [idfun] the identity *)
Definition uniquer_step (st : gset string * list string) (item : string)
    : gset string * list string :=
  if decide (item ∈ st.1) then st else (st.1 ∪ {[item]}, (st.2 ++ [item])%list).
Definition uniquer (seq : list string) : list string :=
  (foldl uniquer_step (∅, []) seq).2.

(** [GetFlavor(params)]: [flavor] is the entry of [params] if there is one. *)
Definition GetFlavor (flavor : option string) (platform : string) : string :=
  match flavor with
  | Some f => f
  | None =>
      if String.eqb platform "cygwin" then "win"
      else if String.eqb platform "win32" then "win"
      else if String.eqb platform "darwin" then "mac"
      else if startswith "sunos" platform then "solaris"
      else if startswith "freebsd" platform then "freebsd"
      else if startswith "openbsd" platform then "openbsd"
      else if startswith "aix" platform then "aix"
      else "linux"
  end.

(** [ExceptionAppend] on the exception's [args], all strings here. *)
Definition ExceptionAppend (args : list string) (msg : string) : list string :=
  match args with
  | [] => [msg]
  | [a] => [a +:+ " " +:+ msg]
  | a :: rest => (a +:+ " " +:+ msg) :: rest
  end.
Fixpoint GetEnvironFallback (environ : gmap string string) (var_list : list string)
    (default : string) : string :=
  match var_list with
  | [] => default
  | var :: var_list =>
      match environ !! var with
      | Some v => v
      | None => GetEnvironFallback environ var_list default
      end
  end.
(** [CrossCompileRequested]: the first variable that is set and not empty; a
    chain of [or] returns its last operand when none is true. *)
Definition CrossCompileRequested (environ : gmap string string) : option string :=
  foldr (fun var rest => if truthy (environ !! var) then environ !! var else rest)
    (environ !! "CXX_target")
    ["GYP_CROSSCOMPILE"; "AR_host"; "CC_host"; "CXX_host"; "AR_target"; "CC_target"].

(** [CopyTool]: the tool of a flavor, with its header rewritten. *)
Definition CopyTool_prefix (flavor : string) : option string :=
  if String.eqb flavor "aix" then Some "flock"
  else if String.eqb flavor "solaris" then Some "flock"
  else if String.eqb flavor "mac" then Some "mac"
  else if String.eqb flavor "win" then Some "win"
  else None.
Definition CopyTool_lines (source : list string) : res (list string) :=
  match source with
  | [] => Err IndexError
  | first :: rest =>
      Ok (first :: ("# Generated by gyp. Do not edit." +:+ String newline "") :: rest)
  end.

(** ** Reference definitions *)

(** Word splitting and quote removal of a posix shell (XCU 2.2), for a command
    line without expansions: [None] where the shell would do more than read
    words (an operator, a pattern, an expansion, an open quotation). *)
Definition posix_special : string :=
  String newline (String "'" "|&;<>()$`*?[#~=%{}").
Fixpoint shell_read (quoted : bool) (word : option string) (s : string) : option (list string) :=
  let put (c : ascii) := Some (default "" word +:+ String c "") in
  match s with
  | "" =>
      if quoted then None else Some (match word with Some w => [w] | None => [] end)
  | String c s' =>
      if Ascii.eqb c dquote then shell_read (negb quoted) (Some (default "" word)) s'
      else if Ascii.eqb c "\" then
        match s' with
        | "" => None
        | String d s'' =>
            if Ascii.eqb d newline then shell_read quoted word s''
            else if negb quoted || str_mem d (String dquote "\`$") then shell_read quoted (put d) s''
            else shell_read quoted (Some (default "" word +:+ String c (String d ""))) s''
        end
      else if quoted then
        if Ascii.eqb c "$" || Ascii.eqb c "`" then None else shell_read quoted (put c) s'
      else if Ascii.eqb c " " || Ascii.eqb c tab then
        match word with
        | None => shell_read quoted None s'
        | Some w =>
            match shell_read quoted None s' with Some ws => Some (w :: ws) | None => None end
        end
      else if str_mem c posix_special then None
      else shell_read quoted (put c) s'
  end.
Definition shell_words : string -> option (list string) := shell_read false None.

(** An edge of the dependency graph *)
Definition dep_edge (target_dicts : gmap string target_deps) (r t : string) : Prop :=
  exists spec, target_dicts !! r = Some spec /\ t ∈ children spec.
Definition reaches (target_dicts : gmap string target_deps) (roots : list string) (t : string)
    : Prop := exists r, r ∈ roots /\ rtc (dep_edge target_dicts) r t.

(** ** Qualified targets: lemmas *)
Lemma ParseQualifiedTarget_Qualified b t ts :
  str_mem ":" t = false -> str_mem "#" t = false ->
  (forall s, ts = Some s -> s <> "" /\ str_mem ":" s = false /\ str_mem "#" s = false) ->
  ParseQualifiedTarget (QualifiedTarget b t ts) = (Some b, t, ts).
Proof.
  intros Ht1 Ht2 Hts. unfold ParseQualifiedTarget, QualifiedTarget.
  change (((":" : string)) +:+ t) with (String ":" t).
  destruct ts as [s|].
  - destruct (Hts s eq_refl) as (Hne & Hs1 & Hs2). apply String.eqb_neq in Hne as ->.
    rewrite append_assoc, append_cons. change (("#" : string) +:+ s) with (String "#" s).
    rewrite rsplit1_app, rsplit1_app; [done|done|].
    rewrite str_mem_app, Ht1. by rewrite str_mem_cons, Hs1.
  - rewrite rsplit1_app by done. by apply rsplit1_free in Ht2 as ->.
Qed.
Lemma ParseQualifiedTarget_inv s b t ts :
  ParseQualifiedTarget s = (Some b, t, ts) -> ts <> Some "" -> QualifiedTarget b t ts = s.
Proof.
  unfold ParseQualifiedTarget, QualifiedTarget. intros H Hne.
  destruct (rsplit1 ":" s) as [[b' t']|] eqn:E; [|by destruct (rsplit1 "#" s) as [[]|]].
  apply rsplit1_some in E as [-> _].
  destruct (rsplit1 "#" t') as [[t2 s2]|] eqn:E2; injection H as <- <- <-; [|done].
  apply rsplit1_some in E2 as [-> _]. destruct (String.eqb_spec s2 "") as [->|_]; [done|].
  by rewrite append_assoc.
Qed.

(** Splitting a qualified target inverts building it: a target name and a
    toolset without the separators come back with any build file, and whatever
    names a build file and no empty toolset is rebuilt from its three parts. *)
Theorem QualifiedTarget_roundtrip b t ts s :
  str_mem ":" t = false -> str_mem "#" t = false ->
  (forall x, ts = Some x -> x <> "" /\ str_mem ":" x = false /\ str_mem "#" x = false) ->
  ParseQualifiedTarget (QualifiedTarget b t ts) = (Some b, t, ts) /\
  BuildFile (QualifiedTarget b t ts) = Some b /\
  (forall b' t' ts', ParseQualifiedTarget s = (Some b', t', ts') -> ts' <> Some "" ->
     QualifiedTarget b' t' ts' = s).
Proof.
  intros H1 H2 H3. pose proof (ParseQualifiedTarget_Qualified b t ts H1 H2 H3) as H.
  split_and!; [done|unfold BuildFile; by rewrite H|]. intros b' t' ts'. apply ParseQualifiedTarget_inv.
Qed.
Lemma QualifiedTarget_roundtrip_witness :
  ParseQualifiedTarget (QualifiedTarget "c:/deps/uv/uv.gyp" "libuv" (Some "host")) =
    (Some "c:/deps/uv/uv.gyp", "libuv", Some "host") /\
  BuildFile (QualifiedTarget "c:/deps/uv/uv.gyp" "libuv" (Some "host")) = Some "c:/deps/uv/uv.gyp" /\
  (forall b' t' ts', ParseQualifiedTarget "a.gyp:b#target" = (Some b', t', ts') -> ts' <> Some "" ->
     QualifiedTarget b' t' ts' = "a.gyp:b#target").
Proof.
  apply (QualifiedTarget_roundtrip "c:/deps/uv/uv.gyp" "libuv" (Some "host") "a.gyp:b#target");
    [reflexivity|reflexivity|].
  intros x [= <-]. split; [discriminate|split; reflexivity].
Defined.

(** ** Relative paths: lemmas *)
Lemma commonprefix_take l k :
  take (length (commonprefix l k)) l = take (length (commonprefix l k)) k /\
  length (commonprefix l k) <= length l /\ length (commonprefix l k) <= length k.
Proof.
  revert k; induction l as [|x l IH]; intros [|y k]; simpl.
  1-3: split_and!; [done|lia..].
  destruct (String.eqb_spec x y) as [->|]; simpl; [|split_and!; [done|lia..]].
  destruct (IH k) as (H1 & H2 & H3). split_and!; [by rewrite H1|lia..].
Qed.

(** From [r], up to the common prefix and down along [p]. *)
Lemma walk_relative p r :
  Forall comp_ok p -> Forall comp_ok r ->
  let sp := split_char "/" (abs p) in let sr := split_char "/" (abs r) in
  let n := length (commonprefix sp sr) in
  walk (rev r) (replicate (length sr - n) ".." ++ drop n sp) = rev p.
Proof.
  intros Hp Hr sp sr n. unfold n, sp, sr. rewrite !split_abs by done. simpl.
  rewrite walk_app, walk_up by by apply Forall_rev.
  destruct p as [|c p], r as [|d r]; simpl.
  - done.
  - destruct d as [|x d]; [by inversion Hr as [|? ? []]|]. simpl.
    rewrite drop_ge by (rewrite length_app, length_rev; simpl; lia). done.
  - destruct c as [|x c]; [by inversion Hp as [|? ? []]|]. simpl.
    change (walk [] (String x c :: p) = rev (String x c :: p)).
    by rewrite walk_ok, app_nil_r.
  - change (if String.eqb c d then _ else _) with (commonprefix (c :: p) (d :: r)).
    set (cp := c :: p) in *. set (dr := d :: r) in *. change (rev r ++ [d]) with (rev dr).
    change (S (length r)) with (length dr).
    destruct (commonprefix_take cp dr) as (H1 & H2 & H3).
    set (m := length (commonprefix cp dr)) in *.
    rewrite walk_ok by by apply Forall_drop.
    rewrite <- (take_drop m dr) at 2. rewrite rev_app_distr.
    rewrite drop_app_length' by by rewrite length_rev, length_drop.
    rewrite <- H1, <- rev_app_distr. by rewrite take_drop.
Qed.

Lemma RelativePath_on_leads resolve path relative_to :
  abs_path (resolve path) -> abs_path (resolve relative_to) ->
  let rel := RelativePath_on (posix resolve) path relative_to in
  normpath (path_join2 (resolve relative_to) rel) = resolve path /\ isabs rel = false.
Proof.
  intros (p & Hpc & Hp) (r & Hrc & Hr). unfold RelativePath_on. simpl. rewrite Hp, Hr.
  pose proof (walk_relative p r Hpc Hrc) as Hw. simpl in Hw.
  assert (Hfree : Forall (fun x => str_mem "/" x = false)
    (replicate (length (split_char "/" (abs r)) -
       length (commonprefix (split_char "/" (abs p)) (split_char "/" (abs r)))) ".." ++
     drop (length (commonprefix (split_char "/" (abs p)) (split_char "/" (abs r))))
       (split_char "/" (abs p)))%list).
  { apply Forall_app. split; [by apply Forall_replicate|]. apply Forall_drop, split_char_free_all. }
  destruct (_ ++ _)%list as [|a ps] eqn:E in Hw, Hfree |- *.
  - split; [|done]. rewrite normpath_rooted by by apply rooted_join; [apply rooted_abs|].
    rewrite walk_join, walk_abs by done. change (split_char "/" "") with [""].
    rewrite walk_empty. change (rev r = rev p) in Hw. by rewrite Hw, rev_involutive.
  - destruct (walk_path_join (rev r) a ps Hfree) as [Hwalk Habs]. split; [|done].
    rewrite normpath_rooted by by apply rooted_join; [apply rooted_abs|].
    rewrite walk_join, walk_abs by done. unfold path_join in Hwalk.
    rewrite Hwalk, Hw by done. by rewrite rev_involutive.
Qed.

(** On a file system without links, in terms of the paths themselves. *)
Lemma RelativePath_leads cwd path relative_to :
  abs_path cwd -> plain_path path -> plain_path relative_to ->
  normpath (path_join2 (realpath cwd relative_to) (RelativePath cwd path relative_to)) =
    realpath cwd path /\
  isabs (RelativePath cwd path relative_to) = false.
Proof.
  intros Hcwd Hp Hr. apply RelativePath_on_leads; by apply abspath_abs.
Qed.

(** On win32 there is no relative path to another drive. *)
Lemma RelativePath_drives os path relative_to : win32 os = true ->
  lower (os_splitdrive os (os_realpath os path)).1 <>
    lower (os_splitdrive os (os_realpath os relative_to)).1 ->
  RelativePath_on os path relative_to = os_realpath os path.
Proof.
  intros Hw Hd. unfold RelativePath_on. by rewrite Hw, (proj2 (String.eqb_neq _ _) Hd).
Qed.

(** C9. On posix, whatever the symbolic links are: for two paths whose real
    paths are absolute and normalised, which every real path is but one that
    starts with exactly two slashes, the relative path is not absolute and leads
    from the second path to the first, since joined to the second's real path
    and normalised it is the first's real path. *)
Theorem RelativePath_resolves resolve path relative_to :
  abs_path (resolve path) -> abs_path (resolve relative_to) ->
  let rel := RelativePath_on (posix resolve) path relative_to in
  normpath (path_join2 (resolve relative_to) rel) = resolve path /\ isabs rel = false.
Proof. apply RelativePath_on_leads. Qed.

(** [out] is a link to another directory. *)
Definition linked_out (path : string) : string :=
  if String.eqb path "out" then "/mnt/build/out" else realpath "/w/io.js" path.
Lemma RelativePath_resolves_witness :
  let rel := RelativePath_on (posix linked_out) "deps//v8/./src" "out" in
  normpath (path_join2 (linked_out "out") rel) = linked_out "deps//v8/./src" /\
  isabs rel = false.
Proof.
  apply RelativePath_resolves.
  - exists ["w"; "io.js"; "deps"; "v8"; "src"]. split; [|reflexivity].
    repeat (apply list.Forall_cons; split; [by split_and!|]). constructor.
  - exists ["mnt"; "build"; "out"]. split; [|reflexivity].
    repeat (apply list.Forall_cons; split; [by split_and!|]). constructor.
Defined.
Example linked_out_relative :
  RelativePath_on (posix linked_out) "deps//v8/./src" "out" = "../../../w/io.js/deps/v8/src".
Proof. reflexivity. Qed.

(** ** Quoting: lemmas *)
Lemma escape_char_cases c :
  (escape_char c = String "\" (String c "") /\ (c = dquote \/ c = "\"%char \/ c = "`"%char)) \/
  (escape_char c = String c "" /\ c <> dquote /\ c <> "\"%char /\ c <> "`"%char).
Proof.
  unfold escape_char. destruct (Ascii.eqb_spec c dquote); [auto|].
  destruct (Ascii.eqb_spec c "\"); [auto|]. destruct (Ascii.eqb_spec c "`"); [auto|]. auto.
Qed.

Lemma shell_quoted w a rest : str_mem "$" a = false ->
  shell_read true (Some w) (str_subst escape_char a +:+ String dquote rest) =
  shell_read false (Some (w +:+ a)) rest.
Proof.
  revert w; induction a as [|c a IH]; intros w Ha; [by rewrite append_nil_r|].
  rewrite str_mem_cons in Ha. apply orb_false_iff in Ha as [Hc Ha].
  specialize (IH (w +:+ String c "") Ha). rewrite append_assoc in IH. simpl in IH.
  change (str_subst escape_char (String c a)) with (escape_char c +:+ str_subst escape_char a).
  rewrite append_assoc.
  destruct (escape_char_cases c) as [(-> & [-> | [-> | ->]])|(-> & H1 & H2 & H3)]; simpl; [by apply IH..|].
  apply Ascii.eqb_neq in H1 as ->, H2 as ->, H3 as ->.
  rewrite Ascii.eqb_sym, Hc. simpl. apply IH.
Qed.

Lemma quote_chars_special c : str_mem c quote_chars = false -> Ascii.eqb c "`" = false ->
  Ascii.eqb c " " = false /\ Ascii.eqb c tab = false /\ str_mem c posix_special = false.
Proof. by destruct c as [[] [] [] [] [] [] [] []]. Qed.

Lemma shell_unquoted word a rest :
  str_existsb (fun c => str_mem c quote_chars) a = false -> a <> "" ->
  shell_read false word (str_subst escape_char a +:+ rest) =
  shell_read false (Some (default "" word +:+ a)) rest.
Proof.
  revert word; induction a as [|c a IH]; intros word Hq Hne; [done|].
  apply orb_false_iff in Hq as [Hc Ha].
  assert (Hstep : shell_read false word (escape_char c +:+ str_subst escape_char a +:+ rest) =
    shell_read false (Some (default "" word +:+ String c "")) (str_subst escape_char a +:+ rest)).
  { destruct (escape_char_cases c) as [(-> & [-> | [-> | ->]])|(-> & H1 & H2 & H3)]; simpl; [done..|].
    apply Ascii.eqb_neq in H1 as ->, H2 as ->, H3.
    by destruct (quote_chars_special c Hc H3) as (-> & -> & ->). }
  change (str_subst escape_char (String c a)) with (escape_char c +:+ str_subst escape_char a).
  rewrite append_assoc, Hstep. destruct (decide (a = "")) as [->|Hnea]; [done|].
  rewrite IH by done. simpl. by rewrite append_assoc.
Qed.

Lemma shell_argument a rest : str_mem "$" a = false ->
  shell_read false None (EncodePOSIXShellArgument a +:+ rest) = shell_read false (Some a) rest.
Proof.
  intros Ha. unfold EncodePOSIXShellArgument. destruct (needs_quote a) eqn:E.
  - rewrite !append_assoc. change (String dquote "" +:+ ?x) with (String dquote x).
    change (shell_read true (Some "") (str_subst escape_char a +:+ String dquote rest) =
            shell_read false (Some a) rest). by rewrite shell_quoted.
  - unfold needs_quote in E. apply orb_false_iff in E as [Hq Hne]. apply String.eqb_neq in Hne.
    change ("" +:+ ?x) with x. rewrite append_nil_r. by rewrite shell_unquoted.
Qed.

(** A posix shell reads the encoded list back as exactly the list of
    arguments, for arguments without a dollar sign (those may be expanded). *)
Theorem EncodePOSIXShellList_roundtrip args :
  Forall (fun a => str_mem "$" a = false) args ->
  shell_words (EncodePOSIXShellList args) = Some args.
Proof.
  unfold shell_words, EncodePOSIXShellList. induction 1 as [|a args Ha _ IH]; [done|].
  destruct args as [|b args].
  - simpl. rewrite <- (append_nil_r (EncodePOSIXShellArgument a)). by rewrite shell_argument.
  - change (join " " (map EncodePOSIXShellArgument (a :: b :: args))) with
      (EncodePOSIXShellArgument a +:+ String " " (join " " (map EncodePOSIXShellArgument (b :: args)))).
    rewrite shell_argument by done. simpl in *. by rewrite IH.
Qed.
Lemma EncodePOSIXShellList_roundtrip_witness :
  shell_words (EncodePOSIXShellList ["cp"; "a b\c`d"; ""; "-DX=(1)"; "plain\"]) =
    Some ["cp"; "a b\c`d"; ""; "-DX=(1)"; "plain\"].
Proof.
  apply EncodePOSIXShellList_roundtrip.
  repeat (apply list.Forall_cons; split; [reflexivity|]). constructor.
Defined.

(** ** [DeepDependencyTargets]: lemmas *)
Section DeepLemmas.
Context (target_dicts : gmap string target_deps) (roots : list string).
Abbreviation edge := (dep_edge target_dicts).
Abbreviation reach := (reaches target_dicts roots).

(** Children of the targets not yet visited *)
Definition unvisited_children (deps : gset string) (l : list (string * target_deps)) : nat :=
  sum_list_with (fun p => if decide (p.1 ∈ deps) then 0 else size (children p.2)) l.

Lemma unvisited_mono deps r l :
  unvisited_children (deps ∪ {[r]}) l <= unvisited_children deps l.
Proof.
  unfold unvisited_children. induction l as [|[k s] l IH]; simpl; [lia|].
  repeat case_decide; try lia. set_solver.
Qed.
Lemma unvisited_visit deps r spec l : (r, spec) ∈ l -> r ∉ deps ->
  unvisited_children (deps ∪ {[r]}) l + size (children spec) <= unvisited_children deps l.
Proof.
  intros Hin Hr. unfold unvisited_children. induction l as [|[k s] l IH]; [set_solver|].
  apply elem_of_cons in Hin as [Heq|Hin].
  - injection Heq as <- <-. simpl. rewrite decide_True, decide_False by set_solver.
    pose proof (unvisited_mono deps r l). unfold unvisited_children in *. lia.
  - specialize (IH Hin). simpl. repeat case_decide; try lia. set_solver.
Qed.

Record deep_inv (deps pending : gset string) : Prop := {
  deep_reach : forall t, t ∈ deps ∪ pending -> reach t;
  deep_roots : forall t, t ∈ roots -> t ∈ deps ∪ pending;
  deep_closed : forall r t, r ∈ deps -> edge r t -> t ∈ deps ∪ pending }.

Lemma deep_inv_skip deps pending r : deep_inv deps pending -> r ∈ deps ->
  deep_inv deps (pending ∖ {[r]}).
Proof.
  intros [H1 H2 H3] Hr.
  assert (Hsub : forall t, t ∈ deps ∪ pending -> t ∈ deps ∪ pending ∖ {[r]}).
  { intros t. destruct (decide (t = r)); set_solver. }
  split; [set_solver|auto|eauto].
Qed.
Lemma deep_inv_visit deps pending r spec : deep_inv deps pending -> r ∈ pending ->
  target_dicts !! r = Some spec ->
  deep_inv (deps ∪ {[r]}) (pending ∖ {[r]} ∪ children spec).
Proof.
  intros [H1 H2 H3] Hr Hs.
  assert (Hsub : forall t, t ∈ deps ∪ pending ->
    t ∈ deps ∪ {[r]} ∪ (pending ∖ {[r]} ∪ children spec)).
  { intros t. destruct (decide (t = r)); set_solver. }
  split.
  - intros t Ht. destruct (decide (t ∈ children spec)) as [Hc|Hc]; [|apply H1; set_solver].
    destruct (H1 r) as (r0 & Hr0 & Hp); [set_solver|]. exists r0. split; [done|].
    eapply rtc_r; [exact Hp|]. by exists spec.
  - auto.
  - intros r' t [Hin| ->%elem_of_singleton]%elem_of_union He; [eauto|].
    destruct He as (spec' & Hs' & Ht). rewrite Hs in Hs'. injection Hs' as <-. set_solver.
Qed.

Context (pop : gset string -> option string).
Context (pop_some : forall s x, pop s = Some x -> x ∈ s).
Context (pop_none : forall s, pop s = None -> s = ∅).

(** Either some reachable target is not defined, or the loop ends on exactly
    the reachable targets. *)
Lemma DeepLoop_spec fuel deps pending :
  deep_inv deps pending ->
  size pending + unvisited_children deps (map_to_list target_dicts) < fuel ->
  (exists d, DeepLoop pop target_dicts fuel deps pending = Ok d /\ forall t, t ∈ d <-> reach t) \/
  (exists k, DeepLoop pop target_dicts fuel deps pending = Err (KeyError k) /\
     reach k /\ target_dicts !! k = None).
Proof using pop_some pop_none.
  revert deps pending; induction fuel as [|fuel IH]; intros deps pending Hinv Hf; [lia|].
  cbn [DeepLoop]. destruct (pop pending) as [r|] eqn:Hpop.
  - apply pop_some in Hpop as Hr.
    assert (Hsize : S (size (pending ∖ {[r]})) = size pending).
    { assert (0 < size pending).
      { apply Nat.neq_0_lt_0. intros Hz%size_empty_inv. set_solver. }
      rewrite size_difference, size_singleton by set_solver. lia. }
    case_decide as Hd; [apply IH; [by apply deep_inv_skip|lia]|].
    destruct (target_dicts !! r) as [spec|] eqn:Hs; simpl.
    + apply IH; [by apply deep_inv_visit|].
      pose proof (unvisited_visit deps r spec (map_to_list target_dicts)) as Hu.
      specialize (Hu (proj2 (elem_of_map_to_list _ _ _) Hs) Hd).
      pose proof (size_union_alt (pending ∖ {[r]}) (children spec)).
      pose proof (subseteq_size (children spec ∖ (pending ∖ {[r]})) (children spec)) as Hle.
      specialize (Hle ltac:(set_solver)). lia.
    + right. exists r. split_and!; [done| |done]. apply Hinv. set_solver.
  - left. exists deps. split; [done|]. apply pop_none in Hpop. subst. destruct Hinv as [H1 H2 H3].
    intros t. split; [intros; apply H1; set_solver|]. intros (r & Hr & Hp).
    assert (Hin : r ∈ deps) by set_solver. clear Hr. induction Hp; [done|].
    apply IHHp. set_solver.
Qed.
End DeepLemmas.

Lemma deep_inv_init target_dicts roots :
  deep_inv target_dicts roots ∅ (list_to_set roots).
Proof.
  split; [|set_solver|set_solver]. intros t Ht. exists t. split; [set_solver|constructor].
Qed.
Lemma unvisited_empty l :
  unvisited_children ∅ l = sum_list_with (fun p => size (children p.2)) l.
Proof.
  unfold unvisited_children. induction l as [|p l IH]; [done|]. cbn [sum_list_with].
  rewrite IH. case_decide; [set_solver|done].
Qed.
Lemma deep_fuel_enough target_dicts roots :
  size (list_to_set roots : gset string) +
    unvisited_children ∅ (map_to_list target_dicts) < deep_fuel target_dicts roots.
Proof.
  unfold deep_fuel.
  assert (Hs : size (list_to_set roots : gset string) <= length roots).
  { induction roots as [|r l IH]; simpl; [done|].
    pose proof (size_union_alt ({[r]} : gset string) (list_to_set l)) as Hu.
    pose proof (subseteq_size (list_to_set l ∖ {[r]}) (list_to_set l : gset string)) as Hle.
    specialize (Hle ltac:(set_solver)). rewrite size_singleton in Hu. lia. }
  rewrite unvisited_empty. lia.
Qed.

(** In whatever order [set.pop] takes the pending targets, the traversal
    ends, and answers the targets that can be reached from the roots and are not
    roots, unless a reachable target is not defined: then it raises its
    [KeyError].  Cycles are no obstacle. *)
Theorem DeepDependencyTargets_reachable pop target_dicts roots :
  (forall s x, pop s = Some x -> x ∈ s) -> (forall s, pop s = None -> s = ∅) ->
  (exists d, DeepDependencyTargets pop target_dicts roots = Ok d /\
     forall t, t ∈ d <-> reaches target_dicts roots t /\ t ∉ roots) \/
  (exists k, DeepDependencyTargets pop target_dicts roots = Err (KeyError k) /\
     reaches target_dicts roots k /\ target_dicts !! k = None).
Proof.
  intros Hs Hn. unfold DeepDependencyTargets.
  destruct (DeepLoop_spec target_dicts roots pop Hs Hn (deep_fuel target_dicts roots) ∅
    (list_to_set roots) (deep_inv_init _ _) (deep_fuel_enough _ _)) as [(d & -> & Hd)|(k & -> & Hk)].
  - left. eexists. split; [done|]. intros t. rewrite elem_of_difference, Hd, elem_of_list_to_set.
    done.
  - right. by exists k.
Qed.
Lemma DeepDependencyTargets_reachable_witness :
  let pop (s : gset string) := head (elements s) in
  let td : gmap string target_deps :=
    {[ "a" := {| dependencies := ["b"; "c"]; dependencies_original := [] |};
       "b" := {| dependencies := ["c"]; dependencies_original := ["a"] |};
       "c" := {| dependencies := []; dependencies_original := [] |} ]} in
  (exists d, DeepDependencyTargets pop td ["a"] = Ok d /\
     forall t, t ∈ d <-> reaches td ["a"] t /\ t ∉ ["a"]) \/
  (exists k, DeepDependencyTargets pop td ["a"] = Err (KeyError k) /\
     reaches td ["a"] k /\ td !! k = None).
Proof.
  intros pop td. apply (DeepDependencyTargets_reachable pop td ["a"]).
  - intros s x H. apply elem_of_elements. unfold pop in H. destruct (elements s); [discriminate H|].
    injection H as <-. left.
  - intros s H. apply leibniz_equiv, elements_empty_inv. unfold pop in H. by destruct (elements s).
Defined.

(** ** [TopologicallySorted]: lemmas *)
Section TopoLemmas.
Context (get_edges : string -> list string).
Definition edge_to (a b : string) : Prop := b ∈ get_edges a.
(** Each node of the list stands before the nodes it has edges to. *)
Definition topological (l : list string) : Prop :=
  forall l1 a l2, l = l1 ++ a :: l2 -> forall b, edge_to a b -> b ∈ l2.

(** Visited nodes are on the current path or done, and the done ones are in order. *)
Record topo_inv (st : topo) : Prop := {
  topo_visited : forall x, x ∈ visited st <-> x ∈ visiting st \/ x ∈ ordered_nodes st;
  topo_disjoint : forall x, x ∈ visiting st -> x ∉ ordered_nodes st;
  topo_nodup : NoDup (ordered_nodes st);
  topo_order : topological (ordered_nodes st) }.

(** What a visit that starts in [st] at [node] may do; [U] is the node set. *)
Definition visit_post (st : topo) (node : string) (r : res topo) : Prop :=
  match r with
  | Ok st' =>
      topo_inv st' /\ visiting st' = visiting st /\ node ∈ ordered_nodes st' /\
      visited st ⊆ visited st' /\
      (forall x, x ∈ ordered_nodes st -> x ∈ ordered_nodes st') /\
      (forall x, x ∈ ordered_nodes st' -> x ∈ ordered_nodes st \/ rtc edge_to node x)
  | Err e => exists s x, e = CycleError s /\ rtc edge_to node x /\
      (x ∈ visiting st \/ tc edge_to x x)
  | NoFuel => False
  end.

Definition visit_all_post (st : topo) (nodes : list string) (r : res topo) : Prop :=
  match r with
  | Ok st' =>
      topo_inv st' /\ visiting st' = visiting st /\
      (forall n, n ∈ nodes -> n ∈ ordered_nodes st') /\
      visited st ⊆ visited st' /\
      (forall x, x ∈ ordered_nodes st -> x ∈ ordered_nodes st') /\
      (forall x, x ∈ ordered_nodes st' ->
         x ∈ ordered_nodes st \/ exists n, n ∈ nodes /\ rtc edge_to n x)
  | Err e => exists s n x, e = CycleError s /\ n ∈ nodes /\ rtc edge_to n x /\
      (x ∈ visiting st \/ tc edge_to x x)
  | NoFuel => False
  end.

Lemma visit_all (f : topo -> string -> res topo) (P : topo -> Prop) st nodes :
  (forall st n, n ∈ nodes -> topo_inv st -> P st -> visit_post st n (f st n)) ->
  (forall st st', P st -> visited st ⊆ visited st' -> visiting st' = visiting st -> P st') ->
  topo_inv st -> P st -> visit_all_post st nodes (foldM f st nodes).
Proof.
  intros Hf HP. revert st; induction nodes as [|n nodes IH]; intros st Hi Hst; simpl.
  - split_and!; try done; [set_solver|auto].
  - pose proof (Hf st n ltac:(left) Hi Hst) as Hn. destruct (f st n) as [st1|e|]; simpl in *; [| |done].
    + destruct Hn as (Hi1 & Hv1 & Hn1 & Hs1 & Ho1 & Hr1).
      assert (IH' := IH ltac:(intros; apply Hf; [by right|done..]) st1 Hi1
                       (HP _ _ Hst Hs1 Hv1)).
      destruct (foldM f st1 nodes) as [st2|e|]; simpl in *; [| |done].
      * destruct IH' as (Hi2 & Hv2 & Hn2 & Hs2 & Ho2 & Hr2). split_and!; try done.
        -- by rewrite Hv2.
        -- intros m [->|?]%elem_of_cons; auto.
        -- set_solver.
        -- auto.
        -- intros x Hx. destruct (Hr2 x Hx) as [H|(m & ? & ?)].
           ++ destruct (Hr1 x H); [by left|]. right. exists n. split; [left|done].
           ++ right. exists m. split; [by right|done].
      * destruct IH' as (s & m & x & -> & Hm & Hr & Hx). exists s, m, x. rewrite <- Hv1.
        split_and!; try done. by right.
    + destruct Hn as (s & x & -> & Hr & Hx). exists s, n, x. split_and!; try done. left.
Qed.

Context (U : gset string).
Context (U_closed : forall a b, a ∈ U -> edge_to a b -> b ∈ U).

Lemma Visit_spec fuel st node :
  node ∈ U -> topo_inv st -> size (U ∖ visited st) < fuel ->
  visit_post st node (Visit get_edges fuel st node).
Proof using U_closed.
  revert st node; induction fuel as [|fuel IH]; intros st node HU Hi Hf; [lia|].
  cbn [Visit]. case_decide as Hg; [|case_decide as Hv].
  - exists (visiting st), node. split_and!; [done|constructor|by left].
  - simpl. split_and!; try done; [|auto]. apply Hi in Hv as [?|?]; done.
  - set (st1 := {| visited := _; visiting := _; ordered_nodes := _ |}).
    assert (Hno : node ∉ ordered_nodes st) by (intros H; apply Hv, Hi; by right).
    assert (Hi1 : topo_inv st1).
    { destruct Hi as [H1 H2 H3 H4]. split; simpl; [|set_solver|done|done].
      intros x. rewrite elem_of_union, H1, elem_of_union. tauto. }
    assert (Hf1 : size (U ∖ visited st1) < fuel).
    { assert (Heq : U ∖ visited st = {[node]} ∪ (U ∖ visited st1)).
      { apply set_eq. intros x. simpl. destruct (decide (x = node)); set_solver. }
      rewrite Heq, size_union, size_singleton in Hf by (simpl; set_solver). lia. }
    assert (Hall := visit_all (Visit get_edges fuel)
      (fun st => size (U ∖ visited st) < fuel) st1 (get_edges node)).
    specialize (Hall ltac:(intros st' n Hn Hi' Hs'; apply IH; [by eapply U_closed|done|done])).
    specialize (Hall ltac:(intros st' st'' Hs' Hsub _;
      pose proof (subseteq_size (U ∖ visited st'') (U ∖ visited st')); set_solver by lia) Hi1 Hf1).
    destruct (foldM _ st1 _) as [st2|e|]; simpl in *; [| |done].
    + destruct Hall as (Hi2 & Hv2 & Hn2 & Hs2 & Ho2 & Hr2).
      destruct Hi2 as [H1 H2 H3 H4].
      assert (Hno2 : node ∉ ordered_nodes st2) by (apply H2; rewrite Hv2; set_solver).
      split_and!; simpl.
      * split; simpl.
        -- intros x. rewrite H1. destruct (decide (x = node)); set_solver.
        -- set_solver.
        -- by constructor.
        -- intros [|a l1] b l2 Heq c Hc; injection Heq as -> Heq; [subst; by apply Hn2|].
           by eapply H4.
      * rewrite Hv2. apply set_eq. set_solver.
      * left.
      * set_solver.
      * intros x Hx. right. auto.
      * intros x [->|Hx]%elem_of_cons; [right; constructor|].
        destruct (Hr2 x Hx) as [?|(n & Hn & Hp)]; [by left|]. right. by eapply rtc_l.
    + destruct Hall as (s & n & x & -> & Hn & Hr & Hx). exists s, x. split_and!; [done|by eapply rtc_l|].
      destruct Hx as [[Hx| ->%elem_of_singleton]%elem_of_union|?]; [by left| |by right].
      right. eapply tc_rtc_r; [by constructor|done].
Qed.
End TopoLemmas.

Lemma topological_tc get_edges l l1 x l2 y :
  topological get_edges l -> l = l1 ++ x :: l2 -> tc (edge_to get_edges) x y -> y ∈ l2.
Proof.
  intros Ht Heq Hxy. revert l1 l2 Heq. induction Hxy as [x y Hxy|x z y Hxz Hzy IH]; intros l1 l2 ->.
  - by eapply Ht.
  - assert (Hz : z ∈ l2) by by eapply Ht. apply list_elem_of_split in Hz as (l3 & l4 & ->).
    assert (y ∈ l4); [|set_solver]. apply (IH (l1 ++ x :: l3)). by rewrite <- app_assoc.
Qed.
Lemma topological_acyclic get_edges l x :
  NoDup l -> topological get_edges l -> x ∈ l -> ~ tc (edge_to get_edges) x x.
Proof.
  intros Hnd Ht (l1 & l2 & Heq)%list_elem_of_split Hx.
  pose proof (topological_tc _ _ _ _ _ _ Ht Heq Hx). subst.
  apply list.NoDup_app in Hnd as (_ & _ & Hnd). by apply list.NoDup_cons in Hnd as [? _].
Qed.
Lemma topological_closed get_edges l x y :
  topological get_edges l -> x ∈ l -> rtc (edge_to get_edges) x y -> y ∈ l.
Proof.
  intros Ht Hx Hr. induction Hr as [|x z y Hxz _ IH]; [done|]. apply IH.
  apply list_elem_of_split in Hx as (l1 & l2 & ->). specialize (Ht l1 x l2 eq_refl z Hxz). set_solver.
Qed.

(** C10. Over a finite graph the sort ends: either it returns, without
    repetition, exactly the nodes reachable from the given ones, each before the
    nodes it has edges to, and no reachable node is on a cycle; or it raises
    [CycleError] and some reachable node is on a cycle. *)
Theorem TopologicallySorted_spec get_edges (U : gset string) graph fuel :
  (forall a b, a ∈ U -> edge_to get_edges a b -> b ∈ U) ->
  (forall n, n ∈ graph -> n ∈ U) -> size U < fuel ->
  (exists l, TopologicallySorted get_edges fuel graph = Ok l /\ NoDup l /\
     (forall x, x ∈ l <-> exists n, n ∈ graph /\ rtc (edge_to get_edges) n x) /\
     topological get_edges l /\ (forall x, x ∈ l -> ~ tc (edge_to get_edges) x x)) \/
  (exists s n x, TopologicallySorted get_edges fuel graph = Err (CycleError s) /\
     n ∈ graph /\ rtc (edge_to get_edges) n x /\ tc (edge_to get_edges) x x).
Proof.
  intros HU Hg Hf. unfold TopologicallySorted.
  set (st0 := {| visited := ∅; visiting := ∅; ordered_nodes := [] |}).
  assert (Hi : topo_inv get_edges st0).
  { split; simpl; [set_solver|set_solver|constructor|]. by intros [|? ?]. }
  assert (Hall : visit_all_post get_edges st0 (merge_sort string_le graph)
    (foldM (Visit get_edges fuel) st0 (merge_sort string_le graph))).
  { apply (visit_all get_edges _ (fun st => size (U ∖ visited st) < fuel)); [| |done|].
    - intros st' n Hn Hi' Hs. apply (Visit_spec _ U HU); [|done|done].
      apply Hg. by rewrite merge_sort_Permutation in Hn.
    - intros st' st'' Hs Hsub _. pose proof (subseteq_size (U ∖ visited st'') (U ∖ visited st')).
      set_solver by lia.
    - simpl. pose proof (subseteq_size (U ∖ ∅) U). set_solver by lia. }
  destruct (foldM _ st0 _) as [st|e|]; simpl in *; [| |done].
  - destruct Hall as ([_ _ Hnd Ht] & _ & Hn & _ & _ & Hr).
    left. exists (ordered_nodes st). split_and!; [done|done| |done|].
    + intros x. split.
      * intros Hx. destruct (Hr x Hx) as [[]%not_elem_of_nil|(n & Hin & Hp)]. exists n.
        by rewrite merge_sort_Permutation in Hin.
      * intros (n & Hin & Hp). eapply topological_closed; [exact Ht| |exact Hp].
        apply Hn. by rewrite merge_sort_Permutation.
    + intros x Hx. by eapply topological_acyclic.
  - destruct Hall as (s & n & x & -> & Hin & Hr & Hx).
    right. exists s, n, x. rewrite merge_sort_Permutation in Hin. set_solver.
Qed.
Lemma TopologicallySorted_spec_witness :
  let edges n := if String.eqb n "a" then ["b"; "c"] else if String.eqb n "c" then ["b"] else [] in
  TopologicallySorted edges 4 ["c"; "b"; "a"] = Ok ["a"; "c"; "b"] /\
  ((exists l, TopologicallySorted edges 4 ["c"; "b"; "a"] = Ok l /\ NoDup l /\
     (forall x, x ∈ l <-> exists n, n ∈ ["c"; "b"; "a"] /\ rtc (edge_to edges) n x) /\
     topological edges l /\ (forall x, x ∈ l -> ~ tc (edge_to edges) x x)) \/
  (exists s n x, TopologicallySorted edges 4 ["c"; "b"; "a"] = Err (CycleError s) /\
     n ∈ ["c"; "b"; "a"] /\ rtc (edge_to edges) n x /\ tc (edge_to edges) x x)).
Proof.
  intros edges. split; [by vm_compute|].
  apply (TopologicallySorted_spec edges {["a"; "b"; "c"]} ["c"; "b"; "a"] 4).
  - unfold edge_to, edges. intros a b _. destruct (String.eqb a "a"); [set_solver|].
    destruct (String.eqb a "c"); set_solver.
  - set_solver.
  - vm_compute. lia.
Defined.

(** *** [uniquer] keeps the first occurrences, in order *)
Lemma uniquer_spec seq :
  NoDup (uniquer seq) /\ (forall x, x ∈ uniquer seq <-> x ∈ seq) /\ sublist (uniquer seq) seq.
Proof.
  unfold uniquer.
  assert (Hg : forall seen (res done : list string), (forall x, x ∈ seen <-> x ∈ res) -> NoDup res ->
    (forall x, x ∈ res <-> x ∈ done) -> sublist res done ->
    let out := (foldl uniquer_step (seen, res) seq).2 in
    NoDup out /\ (forall x, x ∈ out <-> x ∈ (done ++ seq)%list) /\ sublist out (done ++ seq)%list).
  { induction seq as [|y seq IH]; intros seen res done Hs Hnd Hd Hsub; simpl.
    - rewrite app_nil_r. done.
    - unfold uniquer_step at 2 4 6. simpl.
      replace (done ++ y :: seq)%list with ((done ++ [y]) ++ seq)%list by by rewrite <- app_assoc.
      case_decide as Hy.
      + apply IH; [done|done| |by apply sublist_inserts_r].
        intros x. rewrite elem_of_app, list_elem_of_singleton, <- Hd.
        split; [by left|]. intros [?| ->]; [done|by apply Hs].
      + apply IH.
        * intros x. rewrite elem_of_union, elem_of_app, Hs. set_solver.
        * apply NoDup_snoc; [done|by rewrite <- Hs].
        * intros x. rewrite !elem_of_app, Hd. done.
        * by apply sublist_app. }
  by apply (Hg ∅ [] []); [set_solver|constructor| |].
Qed.
