(* ===== verification/Ordered.v ===== *)
(** * The ordered containers of gyp: [common.OrderedSet] and [ordered_dict.OrderedDict]

    Both keep their keys in a circular doubly linked list of mutable three-item
    lists behind a sentinel, and a dictionary from each key to its link.  The
    links are objects in a heap here, so that the aliasing of the assignments is
    visible.  Each container is proved to refine a list without repeated keys. *)
From S2P Require Import Prelude PyStr.
From stdpp Require Import functions options.

(** ** The linked ring *)
Module Ring.
(** A link: [[key, prev, next]] in the set, [[prev, next, key]] in the dictionary.
    The sentinel is object 0 and has no key. *)
Record link := { l_key : option string; l_prev : nat; l_next : nat }.
Record ring := { heap : nat -> link; map_ : gmap string nat; fresh : nat }.
Definition sentinel : nat := 0.

Definition set_prev (i p : nat) (h : nat -> link) : nat -> link :=
  <[i := {| l_key := l_key (h i); l_prev := p; l_next := l_next (h i) |}]> h.
Definition set_next (i n : nat) (h : nat -> link) : nat -> link :=
  <[i := {| l_key := l_key (h i); l_prev := l_prev (h i); l_next := n |}]> h.

Definition empty : ring := {|
  heap := fun _ => {| l_key := None; l_prev := sentinel; l_next := sentinel |};
  map_ := ∅; fresh := 1 |}.

(** [curr[2] = end[1] = self.map[key] = [key, curr, end]] *)
Definition link_last (key : string) (r : ring) : ring :=
  let curr := l_prev (heap r sentinel) in
  let new := fresh r in
  let h := <[new := {| l_key := Some key; l_prev := curr; l_next := sentinel |}]> (heap r) in
  {| heap := set_prev sentinel new (set_next curr new h);
     map_ := <[key := new]> (map_ r); fresh := S new |}.

(** [key, prev, next = map.pop(key); prev[2] = next; next[1] = prev] *)
Definition unlink (key : string) (r : ring) : ring :=
  match map_ r !! key with
  | None => r
  | Some i =>
      let prev := l_prev (heap r i) in
      let next := l_next (heap r i) in
      {| heap := set_prev next prev (set_next prev next (heap r));
         map_ := delete key (map_ r); fresh := fresh r |}
  end.

(** [while curr is not end: yield curr[0]; curr = curr[2]] *)
Fixpoint walk (step : link -> nat) (fuel curr : nat) (h : nat -> link)
    : res (list (option string)) :=
  match fuel with
  | 0 => NoFuel
  | S fuel =>
      if decide (curr = sentinel) then Ok []
      else rest ← walk step fuel (step (h curr)) h; Ok (l_key (h curr) :: rest)
  end.
Definition forward (r : ring) : res (list (option string)) :=
  walk l_next (S (size (map_ r))) (l_next (heap r sentinel)) (heap r).
Definition backward (r : ring) : res (list (option string)) :=
  walk l_prev (S (size (map_ r))) (l_prev (heap r sentinel)) (heap r).

(** *** Segments: the links after [a] are [l], then comes [b]. *)
Fixpoint seg (h : nat -> link) (a : nat) (l : list nat) (b : nat) : Prop :=
  match l with
  | [] => l_next (h a) = b /\ l_prev (h b) = a
  | c :: l => l_next (h a) = c /\ l_prev (h c) = a /\ seg h c l b
  end.

Record rep (r : ring) (ids : list nat) (keys : list string) : Prop := {
  rep_seg : seg (heap r) sentinel ids sentinel;
  rep_ids : NoDup (sentinel :: ids);
  rep_fresh : forall i, i ∈ sentinel :: ids -> i < fresh r;
  rep_keys : Forall2 (fun i k => l_key (heap r i) = Some k) ids keys;
  rep_nodup : NoDup keys;
  rep_map : forall k i, map_ r !! k = Some i <-> (k, i) ∈ zip keys ids }.

Lemma seg_app h a l1 c l2 b : seg h a (l1 ++ c :: l2) b <-> seg h a l1 c /\ seg h c l2 b.
Proof.
  revert a; induction l1 as [|d l1 IH]; intros a; simpl; [tauto|]. rewrite IH. tauto.
Qed.
Lemma seg_ext h h' a l b :
  (forall x, x ∈ a :: l -> l_next (h' x) = l_next (h x)) ->
  (forall x, x ∈ l ++ [b] -> l_prev (h' x) = l_prev (h x)) ->
  seg h a l b -> seg h' a l b.
Proof.
  revert a; induction l as [|c l IH]; intros a Hn Hp; simpl.
  - rewrite Hn, Hp by set_solver. done.
  - rewrite Hn, Hp by set_solver. intros (? & ? & ?). split_and!; [done..|].
    apply IH; [|intros; apply Hp; set_solver|done]. intros; apply Hn; set_solver.
Qed.
(** Making the last link of a segment point to [n]. *)
Lemma seg_retarget h h' a l b n :
  NoDup (a :: l) -> seg h a l b ->
  (forall x, x ∈ a :: l -> x <> l_prev (h b) -> l_next (h' x) = l_next (h x)) ->
  (forall x, x ∈ l -> l_prev (h' x) = l_prev (h x)) ->
  l_next (h' (l_prev (h b))) = n -> l_prev (h' n) = l_prev (h b) ->
  seg h' a l n /\ l_prev (h b) ∈ a :: l.
Proof.
  revert a; induction l as [|c l IH]; intros a Hnd; simpl.
  - intros [Ha Hb] _ _ <- Hp. rewrite Hb in *. split; [done|left].
  - apply list.NoDup_cons in Hnd as [Hac Hnd]. intros (H1 & H2 & H3) Hn Hp Hl Hr.
    destruct (IH c Hnd H3) as [Hs Hin].
    + intros; apply Hn; set_solver.
    + intros; apply Hp; set_solver.
    + done.
    + done.
    + split; [|by right]. rewrite (Hp c) by left.
      rewrite Hn; [done|left|]. intros Heq. apply Hac. by rewrite Heq.
Qed.

Lemma next_set_next i n h x : l_next (set_next i n h x) = if decide (x = i) then n else l_next (h x).
Proof.
  unfold set_next. case_decide as H; [subst; by rewrite fn_lookup_insert|].
  by rewrite fn_lookup_insert_ne.
Qed.
Lemma prev_set_next i n h x : l_prev (set_next i n h x) = l_prev (h x).
Proof.
  unfold set_next. destruct (decide (x = i)) as [->|H]; [by rewrite fn_lookup_insert|].
  by rewrite fn_lookup_insert_ne.
Qed.
Lemma next_set_prev i n h x : l_next (set_prev i n h x) = l_next (h x).
Proof.
  unfold set_prev. destruct (decide (x = i)) as [->|H]; [by rewrite fn_lookup_insert|].
  by rewrite fn_lookup_insert_ne.
Qed.
Lemma prev_set_prev i n h x : l_prev (set_prev i n h x) = if decide (x = i) then n else l_prev (h x).
Proof.
  unfold set_prev. case_decide as H; [subst; by rewrite fn_lookup_insert|].
  by rewrite fn_lookup_insert_ne.
Qed.
Lemma key_set_next i n h x : l_key (set_next i n h x) = l_key (h x).
Proof.
  unfold set_next. destruct (decide (x = i)) as [->|H]; [by rewrite fn_lookup_insert|].
  by rewrite fn_lookup_insert_ne.
Qed.
Lemma key_set_prev i n h x : l_key (set_prev i n h x) = l_key (h x).
Proof.
  unfold set_prev. destruct (decide (x = i)) as [->|H]; [by rewrite fn_lookup_insert|].
  by rewrite fn_lookup_insert_ne.
Qed.
Create Rewrite HintDb ring.
#[export] Hint Rewrite next_set_next prev_set_next next_set_prev prev_set_prev
  key_set_next key_set_prev : ring.

(** *** The operations keep the representation *)
Lemma empty_rep : rep empty [] [].
Proof.
  split; simpl; [done|repeat constructor; set_solver| |constructor|constructor|].
  - intros i ->%list_elem_of_singleton. unfold sentinel. lia.
  - intros k i. split; [done|]. by intros ?%not_elem_of_nil.
Qed.

Lemma rep_length r ids keys : rep r ids keys -> length ids = length keys.
Proof. intros H. eapply Forall2_length, H. Qed.
Lemma rep_dom r ids keys k : rep r ids keys -> is_Some (map_ r !! k) <-> k ∈ keys.
Proof.
  intros H. pose proof (rep_length _ _ _ H) as Hl. destruct H as [_ _ _ _ _ Hm]. split.
  - intros [i Hi]. apply Hm in Hi. by apply elem_of_zip_l in Hi.
  - intros [n Hn]%list_elem_of_lookup. destruct (lookup_lt_is_Some_2 ids n) as [i Hi].
    { rewrite Hl. by eapply lookup_lt_Some. }
    exists i. apply Hm. apply list_elem_of_lookup. exists n. rewrite lookup_zip_with, Hn. simpl.
    by rewrite Hi.
Qed.
Lemma rep_size r ids keys : rep r ids keys -> size (map_ r) = length keys.
Proof.
  intros H. pose proof (rep_length _ _ _ H) as Hl. destruct H as [_ _ _ _ Hnd Hm].
  assert (Heq : map_ r = list_to_map (zip keys ids)).
  { apply map_eq. intros k. apply option_eq. intros i. rewrite Hm.
    apply elem_of_list_to_map. by rewrite fst_zip by lia. }
  rewrite Heq, map_size_list_to_map by by rewrite fst_zip by lia.
  rewrite length_zip_with. lia.
Qed.

Lemma link_last_rep r ids keys key :
  rep r ids keys -> key ∉ keys -> rep (link_last key r) (ids ++ [fresh r]) (keys ++ [key]).
Proof.
  intros H Hk. pose proof (rep_length _ _ _ H) as Hl. destruct H as [Hs Hi Hf Hkeys Hnd Hm].
  assert (Hnew : fresh r ∉ sentinel :: ids) by (intros Hin; apply Hf in Hin; lia).
  set (h' := heap (link_last key r)). set (curr := l_prev (heap r sentinel)).
  assert (Hold : forall x, x ∈ sentinel :: ids ->
    l_next (h' x) = (if decide (x = curr) then fresh r else l_next (heap r x)) /\
    l_prev (h' x) = (if decide (x = sentinel) then fresh r else l_prev (heap r x)) /\
    l_key (h' x) = l_key (heap r x)).
  { intros x Hx. unfold h'. simpl. autorewrite with ring.
    rewrite fn_lookup_insert_ne by congruence. done. }
  destruct (seg_retarget (heap r) h' sentinel ids sentinel (fresh r)) as [Hseg Hcurr]; try done.
  - intros x Hx Hne. rewrite (proj1 (Hold x Hx)). by rewrite decide_False.
  - intros x Hx. destruct (Hold x) as (_ & -> & _); [by right|]. rewrite decide_False; [done|].
    intros ->. by apply list.NoDup_cons in Hi as [? _].
  - unfold h'. simpl. autorewrite with ring. by rewrite decide_True.
  - unfold h'. simpl. autorewrite with ring. rewrite decide_False, fn_lookup_insert; [done|].
    intros Heq. apply Hnew, elem_of_cons. by left.
  - split.
    + apply seg_app. split; [done|]. unfold h'. simpl. autorewrite with ring. split.
      * rewrite decide_False, fn_lookup_insert; [done|]. intros Heq. apply Hnew. by rewrite Heq.
      * done.
    + rewrite app_comm_cons. by apply NoDup_snoc.
    + simpl. intros i. rewrite app_comm_cons. intros [Hin| ->%list_elem_of_singleton]%elem_of_app;
        [apply Hf in Hin; lia|lia].
    + apply Forall2_app; [|constructor; [|constructor]].
      * apply Forall2_lookup. intros n. apply Forall2_lookup with (i := n) in Hkeys.
        inversion Hkeys as [i k Hik Hn Hk'|]; [constructor|constructor].
        change (l_key (h' i) = Some k). destruct (Hold i) as (_ & _ & ->); [|done]. right. apply list_elem_of_lookup. by exists n.
      * simpl. autorewrite with ring. by rewrite fn_lookup_insert.
    + by apply NoDup_snoc.
    + intros k i. simpl. rewrite zip_with_app by done. simpl.
      rewrite elem_of_app, list_elem_of_singleton, <- Hm, lookup_insert_Some.
      split; [intros [[<- <-]|[? ?]]; auto|].
      intros [Hki|[= -> ->]]; [|by left]. right. split; [|done]. intros <-.
      apply Hk. apply (rep_dom r ids keys); [by split|by eexists].
Qed.

(** Taking the link [i] out of the ring. *)
Lemma seg_unlink h i i1 i2 :
  NoDup (sentinel :: i1 ++ i :: i2) -> seg h sentinel (i1 ++ i :: i2) sentinel ->
  let p := l_prev (h i) in let q := l_next (h i) in
  seg (set_prev q p (set_next p q h)) sentinel (i1 ++ i2)%list sentinel.
Proof.
  intros Hnd Hs p q. apply seg_app in Hs as [H1 H2].
  rewrite app_comm_cons in Hnd. apply list.NoDup_app in Hnd as (Hnd1 & Hdisj & Hnd2).
  apply list.NoDup_cons in Hnd2 as [Hi2 Hnd2].
  set (h' := set_prev q p (set_next p q h)).
  assert (Hright : forall x, x ∈ i2 -> x ∉ sentinel :: i1).
  { intros x Hx Hx'. apply (Hdisj x Hx'). by right. }
  assert (Hq : (q ∉ i1) /\ seg h' sentinel i1 q /\ p ∈ sentinel :: i1).
  { assert (Hqn : q ∉ i1).
    { unfold q. destruct i2 as [|c i2]; simpl in H2.
      - destruct H2 as [-> _]. by apply list.NoDup_cons in Hnd1 as [? _].
      - destruct H2 as [-> _]. intros Hc. apply (Hright c); [left|by right]. }
    split; [done|].
    apply (seg_retarget h h' sentinel i1 i q); [done|done|..]; unfold h'.
    - intros x Hx Hne. autorewrite with ring. by rewrite decide_False.
    - intros x Hx. autorewrite with ring. rewrite decide_False; [done|]. by intros ->.
    - autorewrite with ring. by rewrite decide_True.
    - autorewrite with ring. by rewrite decide_True. }
  destruct Hq as (Hqn & Hq & Hp). unfold q in Hq, Hqn |- *.
  destruct i2 as [|c i2]; simpl in H2; [destruct H2 as [Hn _]; rewrite Hn in Hq; by rewrite app_nil_r|].
  destruct H2 as (Hn & _ & Hs). rewrite Hn in Hq. apply seg_app. split; [done|].
  apply (seg_ext h); [| |done]; unfold h'; intros x Hx; autorewrite with ring.
  - rewrite decide_False; [done|]. intros ->. by apply (Hright p).
  - rewrite decide_False; [done|]. unfold q. rewrite Hn. intros ->.
    apply list.NoDup_cons in Hnd2 as [Hc _].
    apply elem_of_app in Hx as [?| Hx%list_elem_of_singleton]; [done|].
    apply (Hright c); [left|]. rewrite Hx. left.
Qed.

Lemma unlink_rep r ids keys key k1 k2 :
  rep r ids keys -> keys = k1 ++ key :: k2 ->
  exists i1 i i2, ids = (i1 ++ i :: i2)%list /\ length i1 = length k1 /\ map_ r !! key = Some i /\
    rep (unlink key r) (i1 ++ i2) (k1 ++ k2).
Proof.
  intros H ->. pose proof (rep_length _ _ _ H) as Hl. destruct H as [Hs Hi Hf Hkeys Hnd Hm].
  apply Forall2_app_inv_r in Hkeys as (i1 & i2' & Hk1 & Hk2 & ->).
  apply Forall2_cons_inv_r in Hk2 as (i & i2 & Hik & Hk2 & ->).
  exists i1, i, i2. split; [done|].
  assert (Hl1 : length k1 = length i1) by (by apply Forall2_length in Hk1).
  assert (Hl2 : length k2 = length i2) by (by apply Forall2_length in Hk2).
  assert (Hzip : zip (k1 ++ key :: k2) (i1 ++ i :: i2) = zip k1 i1 ++ (key, i) :: zip k2 i2).
  { by rewrite zip_with_app. }
  assert (Hlook : map_ r !! key = Some i).
  { apply Hm. rewrite Hzip. set_solver. }
  split_and!; [done|done|]. unfold unlink. rewrite Hlook. split; simpl.
  - by apply seg_unlink.
  - rewrite app_comm_cons in *. apply list.NoDup_app in Hi as (? & Hd & [_ ?]%list.NoDup_cons).
    apply list.NoDup_app. split_and!; [done| |done]. intros x Hx Hx'. apply (Hd x Hx). by right.
  - intros x Hx. apply Hf. set_solver.
  - apply Forall2_app; (eapply list.Forall2_impl; [eassumption|]); intros x k Hx;
      by autorewrite with ring.
  - apply list.NoDup_app in Hnd as (? & Hd & [_ ?]%list.NoDup_cons).
    apply list.NoDup_app. split_and!; [done| |done]. intros x Hx Hx'. apply (Hd x Hx). by right.
  - intros k x. rewrite lookup_delete_Some, Hm, Hzip, zip_with_app by done.
    rewrite !elem_of_app, elem_of_cons.
    apply list.NoDup_app in Hnd as (_ & Hd & [Hk2' _]%list.NoDup_cons).
    split; [intros [Hne [?|[[= -> _]|?]]]; auto; done|].
    intros Hin. split; [|tauto]. intros ->. destruct Hin as [Hin|Hin]; apply elem_of_zip_l in Hin.
    + apply (Hd k); [done|left].
    + done.
Qed.

(** *** Walking the ring *)
Lemma walk_forward h a l fuel :
  seg h a l sentinel -> sentinel ∉ l -> length l < fuel ->
  walk l_next fuel (l_next (h a)) h = Ok (map (fun i => l_key (h i)) l).
Proof.
  revert a fuel; induction l as [|c l IH]; intros a [|fuel] Hs Hn Hf; simpl in *; try lia.
  - destruct Hs as [-> _]. done.
  - destruct Hs as (-> & _ & Hs). rewrite decide_False by set_solver.
    rewrite IH by (done || set_solver || lia). done.
Qed.
Lemma walk_backward h l b fuel :
  seg h sentinel l b -> sentinel ∉ l -> length l < fuel ->
  walk l_prev fuel (l_prev (h b)) h = Ok (map (fun i => l_key (h i)) (rev l)).
Proof.
  revert b fuel; induction l as [|c l IH] using rev_ind; intros b [|fuel] Hs Hn Hf;
    rewrite ?length_app in *; simpl in *; try lia.
  - destruct Hs as [_ ->]. done.
  - apply seg_app in Hs as [Hs [_ Hb]]. rewrite Hb, decide_False by set_solver.
    rewrite rev_app_distr. simpl. rewrite IH by (done || set_solver || lia). done.
Qed.

Lemma rep_key_list r ids keys : rep r ids keys ->
  map (fun i => l_key (heap r i)) ids = map Some keys.
Proof.
  intros [_ _ _ Hk _ _]. induction Hk as [|i k ids keys Hik _ IH]; simpl; [done|]. by rewrite Hik, IH.
Qed.
Lemma forward_rep r ids keys : rep r ids keys -> forward r = Ok (map Some keys).
Proof.
  intros H. unfold forward. rewrite (walk_forward _ _ ids); [by rewrite (rep_key_list _ _ keys)|apply H| |].
  - by destruct H as [_ [? _]%list.NoDup_cons _ _ _ _].
  - rewrite (rep_size _ ids keys), (rep_length _ _ _ H) by done. lia.
Qed.
Lemma backward_rep r ids keys : rep r ids keys -> backward r = Ok (map Some (rev keys)).
Proof.
  intros H. unfold backward. rewrite (walk_backward _ ids sentinel).
  - by rewrite map_rev, (rep_key_list _ _ keys), map_rev.
  - apply H.
  - by destruct H as [_ [? _]%list.NoDup_cons _ _ _ _].
  - rewrite (rep_size _ ids keys), (rep_length _ _ _ H) by done. lia.
Qed.

(** The keys next to the sentinel are the first and the last one. *)
Lemma rep_first r ids keys : rep r ids keys ->
  l_key (heap r (l_next (heap r sentinel))) = match keys with [] => l_key (heap r sentinel) | k :: _ => Some k end.
Proof.
  intros [Hs _ _ Hk _ _]. destruct Hk as [|i k ids keys Hik _]; simpl in Hs.
  - by destruct Hs as [-> _].
  - by destruct Hs as [-> _].
Qed.
Lemma rep_last r ids keys k : rep r ids (keys ++ [k]) ->
  l_key (heap r (l_prev (heap r sentinel))) = Some k.
Proof.
  intros [Hs _ _ Hk _ _]. apply Forall2_app_inv_r in Hk as (i1 & i2 & _ & Hk & ->).
  apply Forall2_cons_inv_r in Hk as (i & i3 & Hik & Hnil & ->).
  apply Forall2_nil_inv_r in Hnil as ->. apply seg_app in Hs as [_ [_ ->]]. done.
Qed.
End Ring.

(** ** [common.OrderedSet] *)
Module OrderedSet.
Import Ring.

Definition contains (s : ring) (key : string) : bool := bool_decide (is_Some (map_ s !! key)).
Definition len (s : ring) : nat := size (map_ s).
Definition add (key : string) (s : ring) : ring :=
  if contains s key then s else link_last key s.
Definition discard (key : string) (s : ring) : ring :=
  if contains s key then unlink key s else s.
(** [__iter__] and [__reversed__], consumed without changing the set. *)
Definition iter (s : ring) : res (list (option string)) := forward s.
Definition reversed (s : ring) : res (list (option string)) := backward s.
Definition update (iterable : list string) (s : ring) : ring :=
  foldl (fun s i => if contains s i then s else add i s) s iterable.
(** [self |= iterable] of the base class adds every element. *)
Definition new (iterable : list string) : ring := foldl (fun s i => add i s) empty iterable.
Definition pop (last : bool) (s : ring) : res (option string * ring) :=
  if len s =? 0 then Err (KeyError "set is empty")
  else
    let key := if last then l_key (heap s (l_prev (heap s sentinel)))
               else l_key (heap s (l_next (heap s sentinel))) in
    Ok (key, match key with Some k => discard k s | None => s end).
(** [__eq__] with another [OrderedSet] *)
Definition eq (s other : ring) : res bool :=
  if negb (len s =? len other) then Ok false
  else a ← iter s; b ← iter other; Ok (bool_decide (a = b)).

(** A client's calls, and what each returns. *)
Inductive op :=
  | Add (key : string) | Discard (key : string) | Pop (last : bool)
  | Update (iterable : list string).
Definition run_op (o : op) (s : ring) : res (option string * ring) :=
  match o with
  | Add key => Ok (None, add key s)
  | Discard key => Ok (None, discard key s)
  | Pop last => pop last s
  | Update iterable => Ok (None, update iterable s)
  end.
Fixpoint run (ops : list op) (s : ring) : res (list (option string) * ring) :=
  match ops with
  | [] => Ok ([], s)
  | o :: ops => '(out, s) ← run_op o s; '(outs, s) ← run ops s; Ok (out :: outs, s)
  end.

(** *** The same calls on a list without repetitions *)
Definition spec_add (key : string) (l : list string) : list string :=
  if decide (key ∈ l) then l else (l ++ [key])%list.
Definition spec_discard (key : string) (l : list string) : list string :=
  filter (fun k => k <> key) l.
Definition spec_op (o : op) (l : list string) : res (option string * list string) :=
  match o with
  | Add key => Ok (None, spec_add key l)
  | Discard key => Ok (None, spec_discard key l)
  | Pop last =>
      match (if last then rev l else l) with
      | [] => Err (KeyError "set is empty")
      | k :: _ => Ok (Some k, spec_discard k l)
      end
  | Update iterable => Ok (None, foldl (fun l k => spec_add k l) l iterable)
  end.
Fixpoint spec_run (ops : list op) (l : list string) : res (list (option string) * list string) :=
  match ops with
  | [] => Ok ([], l)
  | o :: ops => '(out, l) ← spec_op o l; '(outs, l) ← spec_run ops l; Ok (out :: outs, l)
  end.

Definition refines (s : ring) (l : list string) : Prop := exists ids, rep s ids l.

Lemma contains_spec s l key : refines s l -> contains s key = bool_decide (key ∈ l).
Proof. intros [ids H]. apply bool_decide_ext. by eapply rep_dom. Qed.
Lemma filter_other (l : list string) key : key ∉ l -> filter (fun k => k <> key) l = l.
Proof.
  induction l as [|k l IH]; [done|]. intros [Hk Hl]%not_elem_of_cons.
  by rewrite list.filter_cons_True, IH by done.
Qed.
Lemma filter_middle (l1 l2 : list string) key : NoDup (l1 ++ key :: l2) ->
  filter (fun k => k <> key) (l1 ++ key :: l2)%list = (l1 ++ l2)%list.
Proof.
  intros Hnd. pose proof Hnd as (_ & Hd & [H2 _]%list.NoDup_cons)%list.NoDup_app.
  rewrite list.filter_app, list.filter_cons_False by tauto. rewrite !filter_other; [done|done|].
  intros H1. apply (Hd key H1). left.
Qed.

Lemma add_refines s l key : refines s l -> refines (add key s) (spec_add key l).
Proof.
  intros H. unfold add, spec_add. rewrite (contains_spec s l) by done.
  case_bool_decide; case_decide; try done. destruct H as [ids H]. eexists. by apply link_last_rep.
Qed.
Lemma discard_refines s l key : refines s l -> refines (discard key s) (spec_discard key l).
Proof.
  intros H. unfold discard, spec_discard. rewrite (contains_spec s l) by done.
  case_bool_decide as Hk; [|by rewrite filter_other].
  destruct H as [ids H]. apply list_elem_of_split in Hk as (l1 & l2 & ->).
  destruct (unlink_rep _ _ _ _ _ _ H eq_refl) as (i1 & i & i2 & _ & _ & _ & Hr).
  rewrite filter_middle by apply H. by exists (i1 ++ i2)%list.
Qed.
Lemma set_update_refines iterable s l : refines s l ->
  refines (update iterable s) (foldl (fun l k => spec_add k l) l iterable).
Proof.
  revert s l; induction iterable as [|k it IH]; intros s l H; [done|]. simpl. apply IH.
  destruct (contains s k) eqn:E; [|by apply add_refines].
  rewrite (contains_spec s l) in E by done. apply bool_decide_eq_true in E.
  unfold spec_add. by rewrite decide_True.
Qed.
Lemma len_refines s l : refines s l -> len s = length l.
Proof. intros [ids H]. by eapply rep_size. Qed.
Lemma pop_refines last s l : refines s l ->
  match spec_op (Pop last) l with
  | Ok (k, l') => exists s', pop last s = Ok (k, s') /\ refines s' l'
  | Err e => pop last s = Err e
  | NoFuel => False
  end.
Proof.
  intros H. pose proof (len_refines s l H) as Hl. unfold pop. rewrite Hl. simpl.
  destruct H as [ids H]. destruct last.
  - destruct l as [|k l _] using rev_ind; [done|]. rewrite rev_app_distr, length_app. simpl.
    rewrite Nat.add_1_r. simpl. rewrite (rep_last s ids _ _ H). eexists. split; [done|].
    apply discard_refines. by exists ids.
  - destruct l as [|k l]; [done|]. simpl. rewrite (rep_first s ids (k :: l)) by done.
    eexists. split; [done|]. apply discard_refines. by exists ids.
Qed.

Lemma set_run_refines ops s l : refines s l ->
  match spec_run ops l with
  | Ok (outs, l') => exists s', run ops s = Ok (outs, s') /\ refines s' l'
  | Err e => run ops s = Err e
  | NoFuel => False
  end.
Proof.
  revert s l; induction ops as [|o ops IH]; intros s l H; simpl; [eauto|].
  assert (Hop : match spec_op o l with
    | Ok (k, l') => exists s', run_op o s = Ok (k, s') /\ refines s' l'
    | Err e => run_op o s = Err e | NoFuel => False end).
  { destruct o as [k|k|last|it]; [..|by apply pop_refines|]; simpl; eexists; (split; [done|]);
      [by apply add_refines|by apply discard_refines|by apply set_update_refines]. }
  destruct (spec_op o l) as [[k l1]|e|]; simpl; [|by rewrite Hop|done].
  destruct Hop as (s1 & -> & H1). simpl. specialize (IH s1 l1 H1).
  destruct (spec_run ops l1) as [[outs l2]|e|]; simpl; [|by rewrite IH|done].
  destruct IH as (s2 & -> & H2). simpl. eauto.
Qed.
End OrderedSet.

(** C11. Any sequence of calls on an [OrderedSet] behaves as on a list without
    repetitions that new elements join at the end: same results, same
    [KeyError], and afterwards the set iterates in that order, backwards in the
    reverse order, and agrees on length and membership. *)
Theorem OrderedSet_refines ops :
  match OrderedSet.spec_run ops [] with
  | Ok (outs, l) =>
      exists s, OrderedSet.run ops Ring.empty = Ok (outs, s) /\ NoDup l /\
        OrderedSet.iter s = Ok (map Some l) /\ OrderedSet.reversed s = Ok (map Some (rev l)) /\
        OrderedSet.len s = length l /\
        (forall k, OrderedSet.contains s k = bool_decide (k ∈ l))
  | Err e => OrderedSet.run ops Ring.empty = Err e
  | NoFuel => False
  end.
Proof.
  pose proof (OrderedSet.set_run_refines ops Ring.empty [] (ex_intro _ [] Ring.empty_rep)) as H.
  destruct (OrderedSet.spec_run ops []) as [[outs l]|e|]; [|done..].
  destruct H as (s & Hrun & Hs). exists s. destruct Hs as [ids Hr]. split_and!.
  - done.
  - apply Hr.
  - by eapply Ring.forward_rep.
  - by eapply Ring.backward_rep.
  - by eapply Ring.rep_size.
  - intros k. apply OrderedSet.contains_spec. by exists ids.
Qed.

(** ** [ordered_dict.OrderedDict] *)
Module OrderedDict.
Import Ring.
Section Dict.
Context {V : Type}.

(** The inherited dictionary is [values]. *)
Record dict := { links : ring; values : gmap string V }.

Definition new : dict := {| links := empty; values := ∅ |}.
Definition contains (d : dict) (key : string) : bool := bool_decide (is_Some (values d !! key)).
Definition setitem (key : string) (value : V) (d : dict) : dict := {|
  links := if contains d key then links d else link_last key (links d);
  values := <[key := value]> (values d) |}.
Definition delitem (key : string) (d : dict) : res dict :=
  _ ← of_option (KeyError key) (values d !! key);
  Ok {| links := unlink key (links d); values := delete key (values d) |}.
Definition iter (d : dict) : res (list (option string)) := forward (links d).
Definition reversed (d : dict) : res (list (option string)) := backward (links d).
(** The emptied links are unreachable afterwards, so they stay as they are. *)
Definition clear (d : dict) : dict := {|
  links := {|
    heap := <[sentinel := {| l_key := None; l_prev := sentinel; l_next := sentinel |}]>
              (heap (links d));
    map_ := ∅; fresh := fresh (links d) |};
  values := ∅ |}.
(** The end link is cut off by hand, not through [__delitem__]. *)
Definition popitem (last : bool) (d : dict) : res (string * V * dict) :=
  if size (values d) =? 0 then Err (KeyError "dictionary is empty")
  else
    let r := links d in
    let link := if last then l_prev (heap r sentinel) else l_next (heap r sentinel) in
    let h :=
      if last then
        let link_prev := l_prev (heap r link) in
        set_prev sentinel link_prev (set_next link_prev sentinel (heap r))
      else
        let link_next := l_next (heap r link) in
        set_prev link_next sentinel (set_next sentinel link_next (heap r)) in
    key ← of_option (KeyError "None") (l_key (heap r link));
    value ← of_option (KeyError key) (values d !! key);
    Ok (key, value, {| links := {| heap := h; map_ := delete key (map_ r); fresh := fresh r |};
                       values := delete key (values d) |}).
Definition pop (key : string) (default : option V) (d : dict) : res (V * dict) :=
  match values d !! key with
  | Some result => d' ← delitem key d; Ok (result, d')
  | None =>
      match default with Some v => Ok (v, d) | None => Err (KeyError key) end
  end.
Definition setdefault (key : string) (default : V) (d : dict) : V * dict :=
  match values d !! key with
  | Some v => (v, d)
  | None => (default, setitem key default d)
  end.
(** [update] from another mapping's items, or from an iterable of pairs *)
Definition update (other : list (string * V)) (d : dict) : dict :=
  foldl (fun d kv => setitem kv.1 kv.2 d) d other.
Definition fromkeys (iterable : list string) (value : V) : dict :=
  foldl (fun d k => setitem k value d) new iterable.
(** [[(key, self[key]) for key in self]] *)
Fixpoint getitems (keys : list (option string)) (d : dict) : res (list (string * V)) :=
  match keys with
  | [] => Ok []
  | key :: keys =>
      key ← of_option (KeyError "None") key;
      v ← of_option (KeyError key) (values d !! key);
      rest ← getitems keys d;
      Ok ((key, v) :: rest)
  end.
Definition items (d : dict) : res (list (string * V)) := keys ← iter d; getitems keys d.
Definition copy (d : dict) : res dict := l ← items d; Ok (update l new).

Inductive op :=
  | SetItem (key : string) (value : V) | DelItem (key : string) | Clear
  | PopItem (last : bool) | Pop (key : string) (default : option V)
  | SetDefault (key : string) (default : V) | Update (other : list (string * V)).
Definition run_op (o : op) (d : dict) : res (option V * dict) :=
  match o with
  | SetItem key value => Ok (None, setitem key value d)
  | DelItem key => d ← delitem key d; Ok (None, d)
  | Clear => Ok (None, clear d)
  | PopItem last => '(_, v, d) ← popitem last d; Ok (Some v, d)
  | Pop key default => '(v, d) ← pop key default d; Ok (Some v, d)
  | SetDefault key default => let '(v, d) := setdefault key default d in Ok (Some v, d)
  | Update other => Ok (None, update other d)
  end.
Fixpoint run (ops : list op) (d : dict) : res (list (option V) * dict) :=
  match ops with
  | [] => Ok ([], d)
  | o :: ops => '(out, d) ← run_op o d; '(outs, d) ← run ops d; Ok (out :: outs, d)
  end.

(** *** The same calls on a list of pairs without repeated keys *)
Fixpoint assoc (key : string) (l : list (string * V)) : option V :=
  match l with
  | [] => None
  | (k, v) :: l => if decide (k = key) then Some v else assoc key l
  end.
Fixpoint assoc_set (key : string) (value : V) (l : list (string * V)) : list (string * V) :=
  match l with
  | [] => [(key, value)]
  | (k, v) :: l => if decide (k = key) then (k, value) :: l else (k, v) :: assoc_set key value l
  end.
Definition assoc_del (key : string) (l : list (string * V)) : list (string * V) :=
  filter (fun kv => kv.1 <> key) l.
Definition spec_op (o : op) (l : list (string * V)) : res (option V * list (string * V)) :=
  match o with
  | SetItem key value => Ok (None, assoc_set key value l)
  | DelItem key =>
      match assoc key l with Some _ => Ok (None, assoc_del key l) | None => Err (KeyError key) end
  | Clear => Ok (None, [])
  | PopItem last =>
      match (if last then rev l else l) with
      | [] => Err (KeyError "dictionary is empty")
      | (k, v) :: _ => Ok (Some v, assoc_del k l)
      end
  | Pop key default =>
      match assoc key l, default with
      | Some v, _ => Ok (Some v, assoc_del key l)
      | None, Some v => Ok (Some v, l)
      | None, None => Err (KeyError key)
      end
  | SetDefault key default =>
      match assoc key l with
      | Some v => Ok (Some v, l)
      | None => Ok (Some default, assoc_set key default l)
      end
  | Update other => Ok (None, foldl (fun l kv => assoc_set kv.1 kv.2 l) l other)
  end.
Fixpoint spec_run (ops : list op) (l : list (string * V))
    : res (list (option V) * list (string * V)) :=
  match ops with
  | [] => Ok ([], l)
  | o :: ops => '(out, l) ← spec_op o l; '(outs, l) ← spec_run ops l; Ok (out :: outs, l)
  end.

Record refines (d : dict) (l : list (string * V)) : Prop := {
  ref_links : exists ids, rep (links d) ids l.*1;
  ref_values : forall k, values d !! k = assoc k l }.

Lemma assoc_None k l : assoc k l = None <-> k ∉ l.*1.
Proof.
  induction l as [|[k' v] l IH]; simpl; [set_solver|]. case_decide; set_solver.
Qed.
Lemma assoc_app k l1 l2 :
  assoc k (l1 ++ l2) = match assoc k l1 with Some v => Some v | None => assoc k l2 end.
Proof. induction l1 as [|[k' v] l1 IH]; simpl; [done|]. by case_decide. Qed.
Lemma assoc_Some k v l : assoc k l = Some v -> exists l1 l2,
  l = (l1 ++ (k, v) :: l2)%list /\ k ∉ l1.*1.
Proof.
  induction l as [|[k' v'] l IH]; simpl; [done|]. case_decide as Hk.
  - intros [= ->]. exists [], l. subst. split; [done|set_solver].
  - intros (l1 & l2 & -> & Hn)%IH. exists ((k', v') :: l1), l2. split; [done|set_solver].
Qed.
Lemma assoc_set_new k v l : k ∉ l.*1 -> assoc_set k v l = (l ++ [(k, v)])%list.
Proof.
  induction l as [|[k' v'] l IH]; simpl; [done|]. intros [Hk Hl]%not_elem_of_cons.
  rewrite decide_False by done. by rewrite IH.
Qed.
Lemma assoc_set_old k v v' l1 l2 : k ∉ l1.*1 ->
  assoc_set k v (l1 ++ (k, v') :: l2)%list = (l1 ++ (k, v) :: l2)%list.
Proof.
  induction l1 as [|[k' w] l1 IH]; simpl; [by rewrite decide_True|].
  intros [Hk Hl]%not_elem_of_cons. rewrite decide_False by done. by rewrite IH.
Qed.
Lemma assoc_set_lookup k v k' l :
  assoc k' (assoc_set k v l) = if decide (k' = k) then Some v else assoc k' l.
Proof.
  induction l as [|[k1 v1] l IH]; simpl; repeat case_decide; simpl; repeat case_decide;
    subst; try done; rewrite ?IH; by repeat case_decide.
Qed.
Lemma assoc_del_other k l : k ∉ l.*1 -> assoc_del k l = l.
Proof.
  unfold assoc_del. induction l as [|[k' v'] l IH]; [done|]. intros [Hk Hl]%not_elem_of_cons.
  rewrite list.filter_cons_True by (simpl; done). by rewrite IH.
Qed.
Lemma assoc_del_lookup k k' l :
  assoc k' (assoc_del k l) = if decide (k' = k) then None else assoc k' l.
Proof.
  unfold assoc_del. induction l as [|[k1 v1] l IH]; simpl; [by case_decide|].
  destruct (decide (k1 = k)) as [->|Hk].
  - rewrite list.filter_cons_False by (simpl; tauto). rewrite IH. repeat case_decide; congruence.
  - rewrite list.filter_cons_True by (simpl; done). simpl. rewrite IH.
    repeat case_decide; congruence.
Qed.
Lemma assoc_del_middle k v l1 l2 : NoDup (l1 ++ (k, v) :: l2)%list.*1 ->
  assoc_del k (l1 ++ (k, v) :: l2)%list = (l1 ++ l2)%list.
Proof.
  rewrite fmap_app. intros (_ & Hd & [H2 _]%list.NoDup_cons)%list.NoDup_app.
  unfold assoc_del. rewrite list.filter_app, list.filter_cons_False by (simpl; tauto).
  fold (assoc_del k l1) (assoc_del k l2).
  rewrite !assoc_del_other; [done|done|]. intros H1. apply (Hd k H1). left.
Qed.
Lemma assoc_middle k v l1 l2 k' : NoDup (l1 ++ (k, v) :: l2)%list.*1 ->
  assoc k' (l1 ++ l2)%list =
  if decide (k' = k) then None else assoc k' (l1 ++ (k, v) :: l2)%list.
Proof.
  rewrite fmap_app. intros (_ & Hd & [H2 _]%list.NoDup_cons)%list.NoDup_app.
  rewrite !assoc_app. simpl. case_decide as Hk.
  - subst. destruct (assoc k l1) eqn:E.
    + exfalso. apply (Hd k); [|left]. destruct (decide (k ∈ l1.*1)) as [|Hn]; [done|].
      apply assoc_None in Hn. congruence.
    + by apply assoc_None.
  - destruct (assoc k' l1); [done|]. by rewrite decide_False by congruence.
Qed.

(** *** Each operation refines its list counterpart *)
Lemma refines_new : refines new [].
Proof. split; [exists []; apply empty_rep|done]. Qed.
Lemma refines_contains d l k : refines d l -> contains d k = bool_decide (k ∈ l.*1).
Proof.
  intros [_ Hv]. apply bool_decide_ext. rewrite Hv. rewrite <- not_eq_None_Some, assoc_None.
  split; [apply dec_stable|tauto].
Qed.
Lemma refines_nodup d l : refines d l -> NoDup l.*1.
Proof. intros [[ids H] _]. apply H. Qed.

Lemma setitem_refines d l k v : refines d l -> refines (setitem k v d) (assoc_set k v l).
Proof.
  intros H. pose proof (refines_contains d l k H) as Hc. destruct H as [[ids Hr] Hv]. split.
  - unfold setitem. simpl. rewrite Hc. case_bool_decide as Hk.
    + destruct (assoc k l) as [w|] eqn:E; [|by apply assoc_None in E].
      apply assoc_Some in E as (l1 & l2 & -> & Hn). rewrite assoc_set_old by done.
      exists ids. by rewrite fmap_app in *.
    + rewrite assoc_set_new, fmap_app by done. eexists. by apply link_last_rep.
  - intros k'. change (values (setitem k v d)) with (<[k := v]> (values d)).
    rewrite assoc_set_lookup, <- Hv. clear Hc. case_decide; subst;
      [by rewrite lookup_insert_eq|by rewrite lookup_insert_ne].
Qed.

(** Taking out a pair: the ring loses a link, the dictionary a key. *)
Lemma remove_refines d l1 k v l2 r :
  refines d (l1 ++ (k, v) :: l2)%list ->
  (exists ids, rep r ids (l1 ++ l2)%list.*1) ->
  refines {| links := r; values := delete k (values d) |} (l1 ++ l2)%list.
Proof.
  intros H Hr. pose proof (refines_nodup _ _ H) as Hnd. destruct H as [_ Hv]. split; [done|].
  intros k'. cbn [values]. rewrite (assoc_middle k v) by done. rewrite <- Hv.
  case_decide; subst; [by rewrite lookup_delete_eq|by rewrite lookup_delete_ne].
Qed.

Lemma delitem_refines d l k : refines d l ->
  match assoc k l with
  | Some _ => exists d', delitem k d = Ok d' /\ refines d' (assoc_del k l)
  | None => delitem k d = Err (KeyError k)
  end.
Proof.
  intros H. unfold delitem. rewrite (ref_values d l H). destruct (assoc k l) as [v|] eqn:E; [|done].
  apply assoc_Some in E as (l1 & l2 & -> & _). eexists. split; [done|].
  rewrite assoc_del_middle by by eapply refines_nodup. eapply remove_refines; [done|].
  destruct (ref_links _ _ H) as [ids Hr]. rewrite fmap_app in Hr.
  destruct (unlink_rep _ _ _ k _ _ Hr eq_refl) as (i1 & i & i2 & _ & _ & _ & Hr').
  rewrite fmap_app. eauto.
Qed.

Lemma clear_refines d l : refines d l -> refines (clear d) [].
Proof.
  intros [[ids Hr] _]. split; [|done]. exists []. split; simpl.
  - done.
  - by apply NoDup_singleton.
  - intros i ->%list_elem_of_singleton. destruct Hr as [_ _ Hf _ _ _]. apply Hf. left.
  - constructor.
  - constructor.
  - intros k i. split; [done|]. by intros ?%not_elem_of_nil.
Qed.

Lemma refines_size d l : refines d l -> size (values d) = length l.
Proof.
  intros H. pose proof (refines_nodup _ _ H) as Hnd. destruct H as [_ Hv].
  assert (Heq : values d = list_to_map l).
  { apply map_eq. intros k. rewrite Hv. clear Hv. apply option_eq. intros v.
    rewrite <- elem_of_list_to_map by done. split.
    - intros (l1 & l2 & -> & _)%assoc_Some. set_solver.
    - induction l as [|[k' v'] l IH]; simpl in *; [set_solver|].
      apply list.NoDup_cons in Hnd as [Hk Hnd]. intros [[= -> ->]|Hin]%elem_of_cons.
      + by rewrite decide_True.
      + rewrite decide_False; [by apply IH|]. intros ->. apply Hk.
        apply list_elem_of_fmap. by exists (k, v). }
  by rewrite Heq, map_size_list_to_map.
Qed.

(** Cutting the end link by hand is unlinking it. *)
Lemma popitem_links (last : bool) r ids keys k :
  rep r ids keys -> (if last then exists k1, keys = (k1 ++ [k])%list else exists k2, keys = k :: k2) ->
  let link := if last then l_prev (heap r sentinel) else l_next (heap r sentinel) in
  l_key (heap r link) = Some k /\
  {| heap := if last
             then set_prev sentinel (l_prev (heap r link))
                    (set_next (l_prev (heap r link)) sentinel (heap r))
             else set_prev (l_next (heap r link)) sentinel
                    (set_next sentinel (l_next (heap r link)) (heap r));
     map_ := delete k (map_ r); fresh := fresh r |} = unlink k r.
Proof.
  intros Hr Hk. destruct last; destruct Hk as [k' ->].
  - destruct (unlink_rep _ _ _ k k' [] Hr eq_refl) as (i1 & i & i2 & -> & Hl1 & Hm & _).
    pose proof (rep_length _ _ _ Hr) as Hl.
    assert (i2 = []) as ->.
    { destruct i2; [done|]. rewrite !length_app in Hl. simpl in Hl. lia. }
    pose proof (rep_last _ _ _ _ Hr). destruct Hr as [Hs _ _ _ _ _].
    apply seg_app in Hs as [_ [Hn Hp]]. simpl. rewrite Hp in *. split; [done|].
    unfold unlink. by rewrite Hm, Hn.
  - destruct (unlink_rep _ _ _ k [] k' Hr eq_refl) as (i1 & i & i2 & -> & Hl1 & Hm & _).
    destruct i1; [|done]. pose proof (rep_first _ _ _ Hr). destruct Hr as [Hs _ _ _ _ _].
    assert (Hn : l_next (heap r sentinel) = i /\ l_prev (heap r i) = sentinel).
    { by destruct Hs as (? & ? & _). }
    destruct Hn as [Hn Hp]. simpl. rewrite Hn in *. split; [done|].
    unfold unlink. by rewrite Hm, Hp.
Qed.

Lemma popitem_refines (last : bool) d l : refines d l ->
  match (if last then rev l else l) with
  | [] => popitem last d = Err (KeyError "dictionary is empty")
  | (k, v) :: _ => exists d', popitem last d = Ok (k, v, d') /\ refines d' (assoc_del k l)
  end.
Proof.
  intros H. pose proof (refines_size d l H) as Hsz. pose proof (refines_nodup d l H) as Hnd.
  destruct (if last then rev l else l) as [|[k v] rest] eqn:E.
  { assert (l = []) as -> by (destruct last; [|done]; apply (f_equal (@rev _)) in E;
      by rewrite rev_involutive in E).
    unfold popitem. by rewrite Hsz. }
  assert (Hl : exists l1 l2, l = (l1 ++ (k, v) :: l2)%list /\ (if last then l2 = [] else l1 = [])).
  { destruct last; [|by exists [], rest]. exists (rev rest), []. split; [|done].
    apply (f_equal (@rev _)) in E. by rewrite rev_involutive in E. }
  destruct Hl as (l1 & l2 & -> & Hend). destruct (ref_links _ _ H) as [ids Hr].
  rewrite fmap_app in Hr. cbn [fmap list_fmap fst] in Hr.
  destruct (popitem_links last (links d) ids _ k Hr) as [Hkey Hun].
  { destruct last; rewrite Hend; eauto. }
  assert (Hv : values d !! k = Some v).
  { rewrite (ref_values _ _ H), assoc_app. destruct (assoc k l1) eqn:E1; simpl;
      [|by rewrite decide_True].
    rewrite fmap_app in Hnd. apply list.NoDup_app in Hnd as (_ & Hd & _).
    exfalso. apply (Hd k); [|left]. destruct (decide (k ∈ l1.*1)) as [|Hn]; [done|].
    apply assoc_None in Hn. congruence. }
  assert (Hz : (size (values d) =? 0) = false).
  { apply Nat.eqb_neq. rewrite Hsz, length_app. simpl. lia. }
  unfold popitem. rewrite Hz. cbv zeta. rewrite Hkey. cbn [of_option mbind res_bind].
  rewrite Hv. cbn [of_option mbind res_bind]. eexists. split; [done|].
  rewrite assoc_del_middle by done. eapply remove_refines; [done|]. rewrite Hun.
  destruct (unlink_rep _ _ _ k _ _ Hr eq_refl) as (i1 & i & i2 & _ & _ & _ & Hr').
  rewrite fmap_app. eauto.
Qed.

Lemma dict_update_refines other d l : refines d l ->
  refines (update other d) (foldl (fun l kv => assoc_set kv.1 kv.2 l) l other).
Proof.
  unfold update. revert d l; induction other as [|[k v] other IH]; intros d l H; [done|].
  by apply IH, setitem_refines.
Qed.

Lemma run_op_refines o d l : refines d l ->
  match spec_op o l with
  | Ok (out, l') => exists d', run_op o d = Ok (out, d') /\ refines d' l'
  | Err e => run_op o d = Err e
  | NoFuel => False
  end.
Proof.
  intros H. destruct o as [k v|k| |last|k v|k v|other]; simpl.
  - eexists. split; [done|]. by apply setitem_refines.
  - pose proof (delitem_refines d l k H) as Hd. destruct (assoc k l); [|by rewrite Hd].
    destruct Hd as (d' & -> & ?). simpl. eauto.
  - eexists. split; [done|]. by eapply clear_refines.
  - pose proof (popitem_refines last d l H) as Hp.
    destruct (if last then rev l else l) as [|[k v] rest]; [by rewrite Hp|].
    destruct Hp as (d' & -> & ?). simpl. eauto.
  - pose proof (delitem_refines d l k H) as Hd. unfold pop. rewrite (ref_values _ _ H).
    destruct (assoc k l) as [w|]; [|destruct v; simpl; eauto].
    destruct Hd as (d' & -> & ?). simpl. eauto.
  - unfold setdefault. rewrite (ref_values _ _ H). destruct (assoc k l) as [w|]; [by eauto|].
    eexists. split; [done|]. by apply setitem_refines.
  - eexists. split; [done|]. by apply dict_update_refines.
Qed.

Lemma dict_run_refines ops d l : refines d l ->
  match spec_run ops l with
  | Ok (outs, l') => exists d', run ops d = Ok (outs, d') /\ refines d' l'
  | Err e => run ops d = Err e
  | NoFuel => False
  end.
Proof.
  revert d l; induction ops as [|o ops IH]; intros d l H; simpl; [eauto|].
  pose proof (run_op_refines o d l H) as Hop.
  destruct (spec_op o l) as [[out l1]|e|]; simpl; [|by rewrite Hop|done].
  destruct Hop as (d1 & -> & H1). simpl. specialize (IH d1 l1 H1).
  destruct (spec_run ops l1) as [[outs l2]|e|]; simpl; [|by rewrite IH|done].
  destruct IH as (d2 & -> & H2). simpl. eauto.
Qed.

Lemma getitems_refines d l k : refines d (k ++ l)%list ->
  getitems (map Some l.*1) d = Ok l.
Proof.
  revert k; induction l as [|[key v] l IH]; intros k H; simpl; [done|].
  assert (Hv : values d !! key = Some v).
  { pose proof (refines_nodup _ _ H) as Hnd. rewrite (ref_values _ _ H), assoc_app.
    destruct (assoc key k) eqn:E; simpl; [|by rewrite decide_True].
    rewrite fmap_app in Hnd. apply list.NoDup_app in Hnd as (_ & Hd & _).
    exfalso. apply (Hd key); [|left]. destruct (decide (key ∈ k.*1)) as [|Hn]; [done|].
    apply assoc_None in Hn. congruence. }
  assert (HI : getitems (map Some l.*1) d = Ok l).
  { apply (IH (k ++ [(key, v)])%list). by rewrite <- app_assoc. }
  unfold fmap in HI. rewrite Hv. simpl. by rewrite HI.
Qed.
Lemma items_refines d l : refines d l -> items d = Ok l.
Proof.
  intros H. unfold items, iter. destruct (ref_links _ _ H) as [ids Hr].
  rewrite (forward_rep _ _ _ Hr). simpl. by apply (getitems_refines d l []).
Qed.

(** Copying a dictionary gives the same items in the same order. *)
Lemma copy_items d l : refines d l -> exists d', copy d = Ok d' /\ items d' = Ok l.
Proof.
  intros H. unfold copy. rewrite (items_refines d l H). simpl. eexists. split; [done|].
  apply items_refines. pose proof (refines_nodup d l H) as Hnd.
  assert (Hl : forall k, NoDup (k ++ l)%list.*1 ->
    foldl (fun l kv => assoc_set kv.1 kv.2 l) k l = (k ++ l)%list).
  { clear H Hnd. induction l as [|[key v] l IH]; intros k Hnd; simpl; [by rewrite app_nil_r|].
    pose proof Hnd as Hnd'. rewrite fmap_app in Hnd'. apply list.NoDup_app in Hnd' as (_ & Hd & _).
    rewrite assoc_set_new by (intros Hin; apply (Hd key Hin); left).
    rewrite IH by by rewrite <- app_assoc. by rewrite <- app_assoc. }
  pose proof (dict_update_refines l new [] refines_new) as Hu. by rewrite (Hl []) in Hu.
Qed.
End Dict.
Arguments dict : clear implicits.
Arguments op : clear implicits.
End OrderedDict.

(** Any sequence of calls on an [OrderedDict] behaves as on a list of pairs
    without repeated keys, where a new key joins at the end and a known one keeps
    its place: same results, same [KeyError], the same items in the same order,
    also in a copy, and the reverse iteration is the reverse. *)
Theorem OrderedDict_refines {V} (ops : list (OrderedDict.op V)) :
  match OrderedDict.spec_run ops [] with
  | Ok (outs, l) =>
      exists d, OrderedDict.run ops OrderedDict.new = Ok (outs, d) /\ NoDup l.*1 /\
        OrderedDict.items d = Ok l /\
        OrderedDict.reversed d = Ok (map Some (rev l.*1)) /\
        (forall k, OrderedDict.values d !! k = OrderedDict.assoc k l) /\
        exists d', OrderedDict.copy d = Ok d' /\ OrderedDict.items d' = Ok l
  | Err e => OrderedDict.run ops OrderedDict.new = Err e
  | NoFuel => False
  end.
Proof.
  pose proof (OrderedDict.dict_run_refines ops OrderedDict.new [] OrderedDict.refines_new) as H.
  destruct (OrderedDict.spec_run ops []) as [[outs l]|e|]; [|done..].
  destruct H as (d & Hrun & Hd). exists d. split_and!.
  - done.
  - by eapply OrderedDict.refines_nodup.
  - by apply OrderedDict.items_refines.
  - destruct (OrderedDict.ref_links _ _ Hd) as [ids Hr]. by eapply Ring.backward_rep.
  - apply Hd.
  - by apply OrderedDict.copy_items.
Qed.
