(* ===== verification/FileSystem.v ===== *)
(** * A posix file system

    What the standard library's [os] and [shutil] do to the files that a program can
    see: a map from places to nodes, where a place is the list of the names that lead
    to it, the innermost first.  Owners, permissions and times are left out; symbolic
    links are followed as the kernel does. *)
From S2P Require Import Prelude PyStr PyPath.
From stdpp Require Import options.
#[local] Open Scope nat_scope.

Inductive node := Dir | File (content : string) | Link (target : string).
#[global] Instance node_eq_dec : EqDecision node.
Proof. solve_decision. Defined.
Abbreviation place := (list string).
Abbreviation files := (gmap (list string) node).

Definition node_at (s : files) (k : place) : option node :=
  match k with [] => Some Dir | _ => s !! k end.

(** ** Following a path

    The last component of a path may be missing; whether it is followed when it is a
    link depends on the call.  The kernel gives up after [MAXSYMLINKS] links. *)
Definition MAXSYMLINKS : nat := 40.
Fixpoint resolve (links : nat) (s : files) (follow : bool) : place -> list string -> res place :=
  fix go (cur : place) (comps : list string) : res place :=
    match comps with
    | [] => Ok cur
    | c :: rest =>
        if String.eqb c "" || String.eqb c "." then go cur rest
        else if String.eqb c ".." then go (tail cur) rest
        else
          let k := c :: cur in
          match node_at s k, rest with
          | Some Dir, _ => go k rest
          | Some (File _), [] | None, [] => Ok k
          | Some (File _), _ => Err (OSError "ENOTDIR")
          | None, _ => Err (OSError "ENOENT")
          | Some (Link target), _ =>
              if bool_decide (rest = []) && negb follow then Ok k
              else
                match links with
                | 0 => Err (OSError "ELOOP")
                | S links =>
                    resolve links s follow (if isabs target then [] else cur) (split_char "/" target ++ rest)%list
                end
          end
    end.
Definition locate (s : files) (follow : bool) (path : string) : res place :=
  resolve MAXSYMLINKS s follow [] (split_char "/" path).

(** ** [os], for absolute paths *)
Definition exists_ (s : files) (path : string) : bool :=
  match locate s true path with Ok k => bool_decide (is_Some (node_at s k)) | _ => false end.
Definition isdir (s : files) (path : string) : bool :=
  match locate s true path with Ok k => bool_decide (node_at s k = Some Dir) | _ => false end.
Definition islink (s : files) (path : string) : bool :=
  match locate s false path with
  | Ok k => match node_at s k with Some (Link _) => true | _ => false end
  | _ => false
  end.
Definition unlink (path : string) (s : files) : res files :=
  k ← locate s false path;
  match node_at s k with
  | None => Err (OSError "ENOENT")
  | Some Dir => Err (OSError "EISDIR")
  | Some _ => Ok (delete k s)
  end.
Definition symlink (source_path link_path : string) (s : files) : res files :=
  k ← locate s false link_path;
  match node_at s k with
  | None => Ok (<[k := Link source_path]> s)
  | Some _ => Err (OSError "EEXIST")
  end.
Definition mkdir (path : string) (s : files) : res files :=
  k ← locate s false path;
  match node_at s k with
  | None => Ok (<[k := Dir]> s)
  | Some _ => Err (OSError "EEXIST")
  end.
(** [os.makedirs]: the parents first; one that is there already is no error, the
    directory itself is.  The budget is the length of the path. *)
Fixpoint makedirs_loop (fuel : nat) (name : string) (s : files) : res files :=
  match fuel with
  | 0 => NoFuel
  | S fuel =>
      let '(head, tail) := path_split name in
      let '(head, tail) := if String.eqb tail "" then path_split head else (head, tail) in
      if negb (String.eqb head "") && negb (String.eqb tail "") && negb (exists_ s head) then
        s ← match makedirs_loop fuel head s with
            | Err (OSError "EEXIST") => Ok s
            | r => r
            end;
        if String.eqb tail "." then Ok s else mkdir name s
      else mkdir name s
  end.
Definition makedirs (name : string) : files -> res files := makedirs_loop (S (String.length name)) name.
Definition has_children (s : files) (k : place) : bool :=
  existsb (fun k' => match k' with _ :: parent => bool_decide (parent = k) | [] => false end)
    (map fst (map_to_list s)).
Definition rmdir (path : string) (s : files) : res files :=
  k ← locate s false path;
  match node_at s k with
  | None => Err (OSError "ENOENT")
  | Some Dir =>
      if bool_decide (k = []) then Err (OSError "EBUSY")
      else if has_children s k then Err (OSError "ENOTEMPTY")
      else Ok (delete k s)
  | Some _ => Err (OSError "ENOTDIR")
  end.

(** ** [open]; [shutil.copy2] of a file with a content *)
Definition read (path : string) (s : files) : res string :=
  k ← locate s true path;
  match node_at s k with
  | Some (File content) => Ok content
  | None => Err (OSError "ENOENT")
  | Some _ => Err (OSError "EISDIR")
  end.
Definition write (path content : string) (s : files) : res files :=
  k ← locate s true path;
  match node_at s k with
  | Some Dir => Err (OSError "EISDIR")
  | _ => Ok (<[k := File content]> s)
  end.
Definition copy2 (source_path content path : string) (s : files) : res files :=
  write (if isdir s path then path_join2 path (basename source_path) else path) content s.

(** ** A file system without dangling places *)
Definition rooted_tree (s : files) : Prop :=
  s !! [] = None /\ forall c k, is_Some (s !! (c :: k)) -> comp_ok c /\ node_at s k = Some Dir.
(** No link and no file is on the way to [k]. *)
Definition clear_way (s : files) (k : place) : Prop :=
  forall n, 0 < n -> node_at s (drop n k) = Some Dir \/ node_at s (drop n k) = None.

(** ** Places that exist have directories around them *)
Definition spell (k : place) : string := abs (rev k).
Definition valid_place (k : place) : Prop := Forall comp_ok k.

Lemma node_at_cons s c k : node_at s (c :: k) = s !! (c :: k).
Proof. done. Qed.
Lemma rooted_tree_parent s k : rooted_tree s -> is_Some (node_at s k) -> node_at s (tail k) = Some Dir.
Proof. intros [_ H] Hk. destruct k as [|c k]; [done|]. by destruct (H c k Hk). Qed.
Lemma rooted_tree_around s l k : rooted_tree s -> is_Some (node_at s (l ++ k)%list) -> l <> [] -> node_at s k = Some Dir.
Proof.
  intros Hs. induction l as [|c l IH]; [done|]. intros Hk _. apply rooted_tree_parent in Hk; [|done]. cbn [tail app] in Hk.
  destruct l as [|d l]; [done|]. apply IH; [by rewrite Hk|done].
Qed.
Lemma clear_way_tail s k : clear_way s k -> clear_way s (tail k).
Proof.
  intros H n Hn. destruct k as [|c k]; [exact (H n Hn)|]. change (drop n (tail (c :: k))) with (drop (S n) (c :: k)). apply H. lia.
Qed.
Lemma clear_way_around s l k : clear_way s (l ++ k)%list -> l <> [] -> node_at s k = Some Dir \/ node_at s k = None.
Proof.
  intros H Hl. specialize (H (length l)). rewrite drop_app_length in H. apply H. destruct l; [done|cbn; lia].
Qed.
Lemma clear_way_intro s k : (forall l k', k = (l ++ k')%list -> l <> [] -> node_at s k' = Some Dir \/ node_at s k' = None) ->
  clear_way s k.
Proof.
  intros H n Hn. destruct (decide (n <= length k)) as [Hle|Hgt].
  - destruct k as [|c k]; [left; by rewrite drop_nil|]. apply (H (take n (c :: k))); [by rewrite take_drop|]. destruct n; [lia|done].
  - rewrite drop_ge by lia. by left.
Qed.

(** ** A place is found by its path *)
Definition not_link (s : files) (k : place) : Prop := forall target, node_at s k <> Some (Link target).

Lemma resolve_unfold links s follow cur comps : resolve links s follow cur comps =
  match comps with
  | [] => Ok cur
  | c :: rest =>
      if String.eqb c "" || String.eqb c "." then resolve links s follow cur rest
      else if String.eqb c ".." then resolve links s follow (tail cur) rest
      else
        let k := c :: cur in
        match node_at s k, rest with
        | Some Dir, _ => resolve links s follow k rest
        | Some (File _), [] | None, [] => Ok k
        | Some (File _), _ => Err (OSError "ENOTDIR")
        | None, _ => Err (OSError "ENOENT")
        | Some (Link target), _ =>
            if bool_decide (rest = []) && negb follow then Ok k
            else
              match links with
              | 0 => Err (OSError "ELOOP")
              | S links =>
                  resolve links s follow (if isabs target then [] else cur) (split_char "/" target ++ rest)%list
              end
        end
  end.
Proof. destruct links, comps; reflexivity. Qed.
Lemma comp_ok_tests c : comp_ok c -> String.eqb c "" || String.eqb c "." = false /\ String.eqb c ".." = false.
Proof.
  intros (H1 & H2 & H3 & _). split; [apply orb_false_iff; split|]; by apply String.eqb_neq.
Qed.

Lemma resolve_clear links s follow cur cs : rooted_tree s -> node_at s cur = Some Dir ->
  Forall comp_ok cs -> clear_way s (rev cs ++ cur)%list -> follow = false \/ not_link s (rev cs ++ cur)%list ->
  resolve links s follow cur cs =
    if decide (node_at s (tail (rev cs ++ cur)%list) = Some Dir) then Ok (rev cs ++ cur)%list else Err (OSError "ENOENT").
Proof.
  intros Hs Hcur Hcs. revert cur Hcur. induction Hcs as [|c cs Hc Hcs IH]; intros cur Hcur Hway Hf; rewrite resolve_unfold.
  - cbn [rev app]. rewrite decide_True; [done|]. by apply rooted_tree_parent; [|rewrite Hcur].
  - destruct (comp_ok_tests _ Hc) as [-> ->]. cbn zeta.
    assert (E : (rev (c :: cs) ++ cur = rev cs ++ c :: cur)%list) by (cbn [rev]; by rewrite <- app_assoc). rewrite E in *.
    destruct (decide (cs = [])) as [->|Hne].
    + cbn [rev app] in *. rewrite decide_True by done.
      destruct (node_at s (c :: cur)) as [[| |target]|] eqn:Ek; [by rewrite resolve_unfold|done| |done].
      rewrite bool_decide_true by done. destruct Hf as [->|Hf]; [done|]. by destruct (Hf target).
    + assert (Hr : rev cs <> []) by (intros H; apply Hne; by rewrite <- (rev_involutive cs), H).
      destruct (clear_way_around _ _ _ Hway Hr) as [Ek|Ek]; rewrite Ek; [by apply IH|].
      destruct cs as [|d cs]; [done|]. rewrite decide_False; [done|]. intros Hd.
      destruct (rev (d :: cs)) as [|e l] eqn:El; [done|]. cbn [app tail] in Hd. destruct l as [|e' l].
      * cbn [app] in Hd. congruence.
      * enough (node_at s (c :: cur) = Some Dir) by congruence. apply (rooted_tree_around s (e' :: l)); [done| |done]. by rewrite Hd.
Qed.
Lemma locate_place s follow k : rooted_tree s -> valid_place k -> clear_way s k -> follow = false \/ not_link s k ->
  locate s follow (spell k) =
    if decide (node_at s (tail k) = Some Dir) then Ok k else Err (OSError "ENOENT").
Proof.
  intros Hs Hk Hway Hf. unfold locate, spell. assert (Hr : Forall comp_ok (rev k)) by by apply Forall_rev.
  rewrite split_abs by done. rewrite resolve_unfold. cbn [String.eqb orb].
  pose proof (resolve_clear MAXSYMLINKS s follow [] (rev k) Hs eq_refl Hr) as H.
  rewrite rev_involutive, app_nil_r in H. specialize (H Hway Hf).
  destruct (decide (rev k = [])) as [Hd|Hd]; [|exact H]. assert (k = []) as ->. { apply (f_equal (@rev _)) in Hd. by rewrite rev_involutive in Hd. }
  rewrite resolve_unfold. cbn [String.eqb orb]. rewrite resolve_unfold. by rewrite decide_True.
Qed.

(** A path through directories; a link at its end *)
Lemma resolve_dirs links s follow cur cs rest : rooted_tree s -> Forall comp_ok cs ->
  node_at s (rev cs ++ cur)%list = Some Dir ->
  resolve links s follow cur (cs ++ rest)%list = resolve links s follow (rev cs ++ cur)%list rest.
Proof.
  intros Hs Hcs. revert cur. induction Hcs as [|c cs Hc Hcs IH]; intros cur Hd; [done|].
  cbn [app]. rewrite resolve_unfold. destruct (comp_ok_tests _ Hc) as [-> ->]. cbn zeta.
  assert (E : (rev (c :: cs) ++ cur = rev cs ++ c :: cur)%list) by (cbn [rev]; by rewrite <- app_assoc). rewrite E in *.
  assert (Hk : node_at s (c :: cur) = Some Dir).
  { destruct (rev cs) as [|d l] eqn:El; [done|]. apply (rooted_tree_around s (d :: l)); [done|by rewrite Hd|done]. }
  rewrite Hk. by apply IH.
Qed.
Lemma locate_link s c k target : rooted_tree s -> valid_place (c :: k) -> s !! (c :: k) = Some (Link target) ->
  locate s true (spell (c :: k)) =
    resolve (pred MAXSYMLINKS) s true (if isabs target then [] else k) (split_char "/" target).
Proof.
  intros Hs Hk Hl. unfold locate, spell. assert (Hr : Forall comp_ok (rev (c :: k))) by by apply Forall_rev.
  rewrite split_abs by done. rewrite resolve_unfold. cbn [String.eqb orb].
  rewrite decide_False by (cbn [rev]; by destruct (rev k)). cbn [rev].
  pose proof Hk as [Hc Hk']%list.Forall_cons.
  rewrite resolve_dirs; [|done|by apply Forall_rev|rewrite rev_involutive, app_nil_r; apply (rooted_tree_parent s (c :: k) Hs); by rewrite node_at_cons, Hl].
  rewrite rev_involutive, app_nil_r, resolve_unfold. destruct (comp_ok_tests _ Hc) as [-> ->]. cbn zeta.
  rewrite node_at_cons, Hl. cbn [bool_decide andb negb MAXSYMLINKS pred]. rewrite andb_false_r. by rewrite app_nil_r.
Qed.

Section Place.
Context (s : files) (k : place) (Hs : rooted_tree s) (Hk : valid_place k) (Hway : clear_way s k).

Lemma missing_parent : node_at s (tail k) <> Some Dir -> node_at s k = None.
Proof using Hs.
  intros H. destruct (node_at s k) eqn:E; [|done]. exfalso. apply H. apply rooted_tree_parent; [done|by rewrite E].
Qed.
Lemma unlink_place : unlink (spell k) s =
  match node_at s k with
  | None => Err (OSError "ENOENT")
  | Some Dir => Err (OSError "EISDIR")
  | Some _ => Ok (delete k s)
  end.
Proof using Hs Hk Hway.
  unfold unlink. rewrite locate_place by auto. case_decide as Hd; [done|]. by rewrite (missing_parent Hd).
Qed.
Lemma rmdir_place : rmdir (spell k) s =
  match node_at s k with
  | None => Err (OSError "ENOENT")
  | Some Dir =>
      if bool_decide (k = []) then Err (OSError "EBUSY")
      else if has_children s k then Err (OSError "ENOTEMPTY")
      else Ok (delete k s)
  | Some _ => Err (OSError "ENOTDIR")
  end.
Proof using Hs Hk Hway.
  unfold rmdir. rewrite locate_place by auto. case_decide as Hd; [done|]. by rewrite (missing_parent Hd).
Qed.
Lemma mkdir_place : node_at s k = None -> node_at s (tail k) = Some Dir -> mkdir (spell k) s = Ok (<[k := Dir]> s).
Proof using Hs Hk Hway. intros Hn Hd. unfold mkdir. rewrite locate_place by auto. rewrite decide_True by done. cbn. by rewrite Hn. Qed.
Lemma mkdir_exists : is_Some (node_at s k) -> mkdir (spell k) s = Err (OSError "EEXIST").
Proof using Hs Hk Hway.
  intros Hn. unfold mkdir. rewrite locate_place by auto. rewrite decide_True by by apply rooted_tree_parent.
  cbn. by destruct Hn as [? ->].
Qed.
Lemma exists_place : not_link s k -> exists_ s (spell k) = bool_decide (is_Some (node_at s k)).
Proof using Hs Hk Hway.
  intros Hl. unfold exists_. rewrite locate_place by auto. case_decide as Hd; [done|].
  rewrite (missing_parent Hd). rewrite bool_decide_false; [done|]. by intros [? ?].
Qed.
Lemma isdir_place : not_link s k -> isdir s (spell k) = bool_decide (node_at s k = Some Dir).
Proof using Hs Hk Hway.
  intros Hl. unfold isdir. rewrite locate_place by auto. case_decide as Hd; [done|]. by rewrite (missing_parent Hd).
Qed.
Lemma write_place content : not_link s k -> node_at s k <> Some Dir -> forall s', write (spell k) content s = Ok s' ->
  node_at s (tail k) = Some Dir /\ s' = <[k := File content]> s.
Proof using Hs Hk Hway.
  intros Hl Hn s'. unfold write. rewrite locate_place by auto. case_decide as Hd; [|done]. cbn [mbind res_bind].
  destruct (node_at s k) as [[]|]; try done; by intros [= <-].
Qed.
End Place.

(** ** Changes keep the tree *)
Lemma node_at_nonempty s c k : node_at s (c :: k) = s !! (c :: k).
Proof. done. Qed.
Lemma rooted_tree_insert s k n : rooted_tree s -> valid_place k -> k <> [] -> node_at s (tail k) = Some Dir ->
  n = Dir \/ s !! k <> Some Dir -> rooted_tree (<[k := n]> s).
Proof.
  intros [H0 Hs] Hk Hne Hp Hn. split; [by rewrite lookup_insert_ne|]. intros c p Hc.
  assert (Hcp : comp_ok c /\ node_at s p = Some Dir).
  { destruct (decide (c :: p = k)) as [<-|Hneq]; [by apply list.Forall_cons in Hk as []|].
    rewrite lookup_insert_ne in Hc by congruence. by apply Hs. }
  split; [apply Hcp|]. destruct p as [|d p]; [done|]. destruct Hcp as [_ Hp']. rewrite node_at_nonempty in *.
  destruct (decide (k = d :: p)) as [->|Hkp]; [|by rewrite lookup_insert_ne].
  rewrite lookup_insert_eq. destruct Hn as [->|Hn]; [done|]. congruence.
Qed.
Lemma has_children_spec s k : has_children s k = true <-> exists c, is_Some (s !! (c :: k)).
Proof.
  unfold has_children. rewrite existsb_exists. split.
  - intros ([|c p] & Hin & Hp); [done|]. apply bool_decide_eq_true in Hp as ->. apply list_elem_of_In in Hin.
    apply list_elem_of_fmap in Hin as ([k' n] & Heq & Hin). cbn in Heq. subst. apply elem_of_map_to_list in Hin. by exists c, n.
  - intros (c & n & Hn). exists (c :: k). split; [|by apply bool_decide_eq_true]. apply list_elem_of_In, list_elem_of_fmap.
    exists (c :: k, n). split; [done|]. by apply elem_of_map_to_list.
Qed.
Lemma rooted_tree_delete s k : rooted_tree s -> s !! k <> Some Dir \/ has_children s k = false -> rooted_tree (delete k s).
Proof.
  intros [H0 Hs] Hk. split; [by rewrite lookup_delete_None; right|]. intros c p Hc.
  destruct (decide (c :: p = k)) as [<-|Hne]; [by rewrite lookup_delete_eq in Hc; destruct Hc|].
  rewrite lookup_delete_ne in Hc by congruence. destruct (Hs c p Hc) as [Hok Hp]. split; [done|].
  destruct p as [|d p]; [done|]. rewrite node_at_nonempty in *.
  destruct (decide (k = d :: p)) as [->|Hkp]; [|by rewrite lookup_delete_ne].
  exfalso. destruct Hk as [Hk|Hk]; [congruence|]. assert (has_children s (d :: p) = true); [|congruence].
  apply has_children_spec. by exists c.
Qed.
