(* ===== verification/Install.v ===== *)
(** * The installer ([tools/install.py])

    [run] copies what was built below the install path, or removes it again.  The
    files to be installed are read from the source tree, which is not changed: their
    contents, and the directories that [os.walk] goes through, are parameters. *)
From S2P Require Import Prelude PyStr PyPath Ordered FileSystem.
From stdpp Require Import options.
#[local] Open Scope nat_scope.

(** ** The configuration that [configure] wrote *)

(** [re.sub(r'#.*?\n', '', s)]: from a hash to the end of its line; a last line
    without an end is kept. *)
Fixpoint strip_comments (s : string) : string :=
  match s with
  | "" => ""
  | String c s' =>
      if Ascii.eqb c "#" && str_mem newline s' then
        (fix skip (s : string) : string :=
           match s with
           | "" => ""
           | String c s' => if Ascii.eqb c newline then strip_comments s' else skip s'
           end) s'
      else String c (strip_comments s')
  end.
Definition convert_quotes : string -> string :=
  str_subst (fun c => if Ascii.eqb c "'" then String dquote "" else String c "").
(** What [json.loads] is given *)
Definition config_text (s : string) : string := convert_quotes (strip_comments s).

(** ** The source tree

    A directory as [os.walk] sees it: its files and its directories. *)
Inductive tree := Tree (filenames : list string) (dirs : list (string * tree)).
(** [os.walk(path)] from the top, without the directories of the name [skip] *)
Fixpoint os_walk (skip : option string) (path : string) (t : tree) : list (string * list string) :=
  match t with
  | Tree filenames dirs =>
      (path, filenames) ::
      (fix go (dirs : list (string * tree)) : list (string * list string) :=
         match dirs with
         | [] => []
         | (name, t) :: dirs =>
             if bool_decide (skip = Some name) then go dirs
             else os_walk skip (path_join2 path name) t ++ go dirs
         end)%list dirs
  end.

Inductive action := install | uninstall.
#[global] Instance action_eq_dec : EqDecision action.
Proof. solve_decision. Defined.

Section Install.
Context (cwd : string) (source : string -> option string).
(** Directories of the source tree, by their paths *)
Context (source_tree : string -> tree).
(** The items of a dictionary, in the order in which they are iterated *)
Context (iteritems : list (string * list string) -> list (string * list string)).
Context (platform : string) (portable : bool).

Section Paths.
Context (node_prefix install_path : string).

Definition abspath_ (arg : string) (args : list string) : string := abspath cwd (path_join arg args).

Definition try_unlink (path : string) (s : files) : res files :=
  match unlink path s with
  | Err (OSError "ENOENT") => Ok s
  | r => r
  end.
Definition try_symlink (source_path link_path : string) (s : files) : res files :=
  s ← try_unlink link_path s; symlink source_path link_path s.
Definition try_mkdir_r (path : string) (s : files) : res files :=
  match makedirs path s with
  | Err (OSError "EEXIST") => Ok s
  | r => r
  end.
(** The directory and those around it, as long as they are empty and below the install
    path.  The budget is the number of components. *)
Fixpoint try_rmdir_loop (fuel : nat) (path : string) (s : files) : res files :=
  if startswith install_path path then
    match fuel with
    | 0 => NoFuel
    | S fuel =>
        match rmdir path s with
        | Ok s => try_rmdir_loop fuel (abspath_ path [".."]) s
        | Err (OSError "ENOTEMPTY") | Err (OSError "ENOENT") => Ok s
        | r => r
        end
    end
  else Ok s.
Definition try_rmdir_r (path : string) (s : files) : res files :=
  let path := abspath_ path [] in try_rmdir_loop (S (String.length path)) path s.

Definition mkpaths (path dst : string) : string * string :=
  (path, if endswith "/" dst then abspath_ install_path [dst; basename path] else abspath_ install_path [dst]).
Definition try_copy (path dst : string) (s : files) : res files :=
  let '(source_path, target_path) := mkpaths path dst in
  s ← try_mkdir_r (dirname target_path) s;
  s ← try_unlink target_path s;
  content ← of_option (OSError "ENOENT") (source source_path);
  copy2 source_path content target_path s.
Definition try_remove (path dst : string) (s : files) : res files :=
  let '(source_path, target_path) := mkpaths path dst in
  s ← try_unlink target_path s;
  try_rmdir_r (dirname target_path) s.
(** [action(paths, dst)] *)
Definition perform (a : action) (paths : list string) (dst : string) (s : files) : res files :=
  foldM (fun s path => match a with install => try_copy path dst s | uninstall => try_remove path dst s end)
    s paths.

(** [re.sub(r'#!.*\n', '#!' + shebang + '\n', s)], wherever it matches; a backslash in
    the shebang would be read as an escape, which no prefix has. *)
Fixpoint sub_shebang (fuel : nat) (shebang s : string) : string :=
  match fuel, s with
  | S fuel, String c s' =>
      let '(line, after) := span any_char (str_drop 2 s) in
      if startswith "#!" s && startswith nl after then
        "#!" +:+ shebang +:+ nl +:+ sub_shebang fuel shebang (str_drop 1 after)
      else String c (sub_shebang fuel shebang s')
  | _, _ => s
  end.
Definition update_shebang (path shebang : string) (s : files) : res files :=
  content ← read path s;
  write path (sub_shebang (String.length content) shebang content) s.

Definition portable_shebang : string :=
  "/bin/sh" +:+ nl +:+ "// 2>/dev/null; exec " +:+ String dquote ("`dirname " +:+ String dquote ("$0" +:+
    String dquote ("`/iojs" +:+ String dquote (" " +:+ String dquote ("$0" +:+ String dquote (" " +:+
    String dquote ("$@" +:+ String dquote ""))))))).
Definition npm_target_path : string := "lib/node_modules/npm/".
Definition npm_files (a : action) (s : files) : res files :=
  if islink s (abspath_ install_path [npm_target_path]) then Ok s
  else
    s ← foldM (fun s '(dirname, basenames) =>
                 perform a (map (path_join2 dirname) basenames)
                   (npm_target_path +:+ str_drop 9 dirname +:+ "/") s)
          s (os_walk (Some "test") "deps/npm" (source_tree "deps/npm"));
    let link_path := abspath_ install_path ["bin/npm"] in
    match a with
    | uninstall => perform a [link_path] "bin/npm" s
    | install =>
        s ← try_symlink "../lib/node_modules/npm/bin/npm-cli.js" link_path s;
        let shebang :=
          if portable then portable_shebang
          else path_join2 (if String.eqb node_prefix "" then "/" else node_prefix) "bin/iojs" in
        update_shebang link_path shebang s
    end.

(** The files of each directory, by the directory they go to *)
Definition subdir_dict (path dest : string) : list (string * list string) :=
  foldl (fun ret '(dirpath, filenames) =>
      OrderedDict.assoc_set (dest +:+ str_replace path "" dirpath)
        (map (fun f => dirpath +:+ "/" +:+ f) (filter (fun f => endswith ".h" f = true) filenames)) ret)
    [] (os_walk None path (source_tree path)).
Definition subdir_files (path dest : string) (a : action) (s : files) : res files :=
  foldM (fun s '(subdir, files) => perform a files (subdir +:+ "/") s) s (iteritems (subdir_dict path dest)).

Definition headers : list string :=
  ["common.gypi"; "config.gypi"; "src/node.h"; "src/node_buffer.h"; "src/node_internals.h";
   "src/node_object_wrap.h"; "src/node_version.h"; "src/smalloc.h"].
Definition zlib_headers : list string := ["deps/zlib/zconf.h"; "deps/zlib/zlib.h"].

Definition when (variables : gmap string string) (name value : string) (f : files -> res files) (s : files) :
    res files :=
  if bool_decide (variables !! name = Some value) then f s else Ok s.
Definition install_files (variables : gmap string string) (a : action) (s : files) : res files :=
  let is_windows := String.eqb platform "win32" in
  let exeext := if is_windows then ".exe" else "" in
  s ← perform a ["out/Release/iojs" +:+ exeext] ("bin/iojs" +:+ exeext) s;
  s ← (if is_windows then Ok s
       else
         let link_target := "bin/node" in
         let link_path := abspath_ install_path [link_target] in
         match a with
         | uninstall => perform a [link_path] link_target s
         | install => try_symlink "iojs" link_path s
         end);
  s ← when variables "node_use_dtrace" "true" (perform a ["out/Release/node.d"] "lib/dtrace/node.d") s;
  s ← perform a ["src/node.stp"] "share/systemtap/tapset/" s;
  s ← (if contains "freebsd" platform || contains "openbsd" platform
       then perform a ["doc/iojs.1"] "man/man1/" s
       else perform a ["doc/iojs.1"] "share/man/man1/" s);
  s ← when variables "node_install_npm" "true" (npm_files a) s;
  s ← perform a headers "include/node/" s;
  s ← subdir_files "deps/cares/include" "include/node/" a s;
  s ← subdir_files "deps/v8/include" "include/node/" a s;
  s ← when variables "node_shared_libuv" "false" (subdir_files "deps/uv/include" "include/node/" a) s;
  s ← when variables "node_shared_openssl" "false" (fun s =>
        s ← subdir_files "deps/openssl/openssl/include/openssl" "include/node/openssl/" a s;
        perform a ["deps/openssl/config/opensslconf.h"] "include/node/openssl/" s) s;
  when variables "node_shared_zlib" "false" (perform a zlib_headers "include/node/") s.
End Paths.

(** [args] is [sys.argv]; [variables] are those of the configuration. *)
Definition default_prefix : string := "/usr/local".
Definition run (variables : gmap string string) (args : list string) (s : files) : res files :=
  let node_prefix := default default_prefix (args !! 3) in
  match args !! 2 with
  | None => Err (NameError "dst_dir")
  | Some dst_dir =>
      let install_path := dst_dir +:+ node_prefix +:+ "/" in
      let cmd := default "install" (args !! 1) in
      if String.eqb cmd "install" then install_files node_prefix install_path variables install s
      else if String.eqb cmd "uninstall" then install_files node_prefix install_path variables uninstall s
      else Err (RuntimeError ("Bad command: " +:+ cmd +:+ nl))
  end.
End Install.
