(* ===== verification/InstallProps.v ===== *)
(** * Uninstalling removes what installing put *)
From S2P Require Import Prelude PyStr PyPath Ordered FileSystem Install.
From stdpp Require Import options.
#[local] Open Scope nat_scope.

(** ** Paths of places *)
Lemma spell_nil : spell [] = "/".
Proof. done. Qed.
Lemma spell_cons c k : valid_place (c :: k) -> spell (c :: k) = (if decide (k = []) then "/" else spell k +:+ "/") +:+ c.
Proof.
  intros Hk. unfold spell, abs. cbn [rev]. case_decide as Hn; [by subst|].
  assert (Hr : rev k <> []) by (intros H; apply Hn; by rewrite <- (rev_involutive k), H).
  assert (E : forall l, l <> [] -> join "/" (l ++ [c])%list = join "/" l +:+ "/" +:+ c).
  { clear. induction l as [|x l IH]; [done|]. intros _. destruct l as [|y l]; [done|].
    change (join "/" ((x :: y :: l) ++ [c])%list) with (x +:+ "/" +:+ join "/" ((y :: l) ++ [c])%list).
    rewrite IH by done. change (join "/" (x :: y :: l)) with (x +:+ "/" +:+ join "/" (y :: l)).
    by rewrite !append_assoc. }
  by rewrite E, !append_assoc.
Qed.
Lemma last_not_slash k : valid_place k -> k <> [] -> exists s c, spell k = s +:+ String c "" /\ c <> "/"%char.
Proof.
  intros Hk Hne. destruct k as [|x k]; [done|]. rewrite spell_cons by done. apply list.Forall_cons in Hk as [(Hx & _ & _ & Hslash) _].
  generalize (if decide (k = []) then "/" else spell k +:+ "/") as pre. intros pre.
  assert (H : exists s c, x = s +:+ String c "" /\ c <> "/"%char).
  { clear pre. induction x as [|c x IH]; [done|]. rewrite str_mem_cons in Hslash. apply orb_false_iff in Hslash as [Hc Hx'].
    destruct x as [|d x]; [exists "", c; split; [done|]; intros ->; done|].
    destruct IH as (s & e & Heq & He); [done..|]. exists (String c s), e. by rewrite Heq. }
  destruct H as (s & c & -> & Hc). exists (pre +:+ s), c. split; [by rewrite append_assoc|done].
Qed.
Lemma rstrip_of_rest p s t : str_forallb p t = true -> rstrip_of p (s +:+ t) = rstrip_of p s.
Proof.
  intros Ht. induction s as [|c s IH]; cbn.
  - clear - Ht. induction t as [|c t IH]; [done|]. cbn in Ht |- *. apply andb_true_iff in Ht as [Hc Ht]. by rewrite (IH Ht), Hc.
  - by rewrite IH.
Qed.
Lemma rstrip_of_last p s c : p c = false -> rstrip_of p (s +:+ String c "") = s +:+ String c "".
Proof.
  intros Hc. induction s as [|d s IH]; cbn; [by rewrite Hc|]. rewrite IH. by destruct s.
Qed.
Lemma path_split_spell c k : valid_place (c :: k) -> path_split (spell (c :: k)) = (spell k, c).
Proof.
  intros Hk. unfold path_split. pose proof Hk as [(_ & _ & _ & Hc) Hk']%list.Forall_cons. rewrite spell_cons by done.
  case_decide as Hn.
  - subst. change ("/" +:+ c) with ("" +:+ String "/" c). by rewrite rsplit1_app.
  - rewrite append_assoc. change ("/" +:+ c) with (String "/" c). rewrite rsplit1_app by done.
    destruct (last_not_slash k Hk' Hn) as (s & d & E & Hd). rewrite E.
    assert (Hf : str_forallb (Ascii.eqb "/") ((s +:+ String d "") +:+ "/") = false).
    { rewrite !str_forallb_app. cbn [str_forallb]. rewrite (proj2 (Ascii.eqb_neq "/" d)) by congruence. by rewrite andb_false_r. }
    rewrite Hf, rstrip_of_rest by done. rewrite rstrip_of_last; [done|]. apply Ascii.eqb_neq. congruence.
Qed.
Lemma dirname_spell k : valid_place k -> dirname (spell k) = spell (tail k).
Proof. intros Hk. destruct k as [|c k]; [done|]. unfold dirname. by rewrite path_split_spell. Qed.
Lemma valid_tail k : valid_place k -> valid_place (tail k).
Proof. intros Hk. destruct k; [done|]. by apply list.Forall_cons in Hk as []. Qed.
Lemma length_spell k : valid_place k -> length k <= String.length (spell k).
Proof.
  induction k as [|c k IH]; cbn [length]; [lia|]. intros Hk. rewrite spell_cons by done.
  apply list.Forall_cons in Hk as [(Hc & _) Hk]. specialize (IH Hk). rewrite length_append.
  assert (String.length c <> 0) by by destruct c. case_decide; [subst; cbn in *; lia|rewrite length_append; lia].
Qed.
Lemma rooted_spell k : valid_place k -> rooted (spell k).
Proof. intros Hk. apply rooted_abs. by apply Forall_rev. Qed.
Lemma walk_spell k : valid_place k -> walk [] (split_char "/" (spell k)) = k.
Proof. intros Hk. unfold spell. rewrite walk_abs by by apply Forall_rev. apply rev_involutive. Qed.

(** ** Directories: made and removed around a place *)
(** The places that are changed are directories around [k], or [k] itself. *)
Definition around (s s' : files) (k : place) (before after : option node) : Prop :=
  rooted_tree s' /\
  forall k', s' !! k' = s !! k' \/ (s !! k' = before /\ s' !! k' = after /\ k' `suffix_of` k).
Definition grown s s' k := around s s' k None (Some Dir) /\ node_at s' k = Some Dir.
Definition shrunk s s' k := around s s' k (Some Dir) None.

Lemma around_refl s k b a : rooted_tree s -> around s s k b a.
Proof. intros Hs. split; [done|]. by left. Qed.
Lemma clear_dir s k : clear_way s k -> node_at s k = Some Dir \/ node_at s k = None -> forall l k', k = (l ++ k')%list ->
  node_at s k' = Some Dir \/ node_at s k' = None.
Proof.
  intros Hway Hk l k' ->. destruct (decide (l = [])) as [->|Hl]; [done|]. by eapply clear_way_around.
Qed.
Lemma not_link_dir s k : node_at s k = Some Dir \/ node_at s k = None -> not_link s k.
Proof. intros [H|H] t; by rewrite H. Qed.

Lemma makedirs_spec fuel s k : length k < fuel -> rooted_tree s -> valid_place k -> clear_way s k ->
  node_at s k = Some Dir \/ node_at s k = None ->
  makedirs_loop fuel (spell k) s = Err (OSError "EEXIST") /\ node_at s k = Some Dir \/
  exists s', makedirs_loop fuel (spell k) s = Ok s' /\ grown s s' k.
Proof.
  intros Hf Hs Hk. revert fuel Hf. induction k as [|c k IH]; intros fuel Hf Hway Hn; (destruct fuel as [|fuel]; [cbn in Hf; lia|]).
  { left. split; [|done]. cbn [makedirs_loop]. rewrite spell_nil. cbn [path_split]. by apply (mkdir_exists s []). }
  cbn [makedirs_loop]. rewrite path_split_spell by done. pose proof Hk as [(Hc & Hdot & _ & _) Hk']%list.Forall_cons.
  apply String.eqb_neq in Hc as Hce. rewrite Hce. assert (Hne : String.eqb (spell k) "" = false) by by apply String.eqb_neq.
  rewrite Hne, Hce. cbn [negb andb]. pose proof (clear_way_tail _ _ Hway) as Hway'. cbn [tail] in Hway'.
  assert (Hnk : node_at s k = Some Dir \/ node_at s k = None) by (by apply (clear_way_around s [c])).
  rewrite exists_place by (done || by apply not_link_dir). destruct Hnk as [Hd|Hd]; rewrite Hd.
  - rewrite bool_decide_true by done. cbn [negb]. destruct Hn as [Hn|Hn]; [left; split; [|done]; apply mkdir_exists; [done..|by rewrite Hn]|].
    right. rewrite mkdir_place by done. eexists. split; [done|]. split; [|by rewrite node_at_nonempty, lookup_insert_eq].
    split; [apply rooted_tree_insert; auto; done|]. intros k'. destruct (decide (k' = c :: k)) as [->|Hkk]; [|left; by rewrite lookup_insert_ne by congruence].
    right. rewrite lookup_insert_eq. by split_and!.
  - rewrite bool_decide_false by by intros [? ?]. cbn [negb].
    destruct (IH Hk' fuel) as [[-> Hd']|(s1 & -> & (Hs1 & H1) & Hd1)]; [cbn in Hf; lia|done|by right|congruence|].
    cbn [mbind res_bind]. apply String.eqb_neq in Hdot as ->.
    assert (Hn1 : node_at s1 (c :: k) = None).
    { rewrite node_at_nonempty. destruct (H1 (c :: k)) as [->|(_ & _ & [l Hl])].
      - rewrite <- node_at_nonempty. destruct Hn as [Hn|]; [|done]. exfalso.
        pose proof (rooted_tree_parent s (c :: k) Hs) as Hp. rewrite Hn in Hp. specialize (Hp ltac:(done)). cbn in Hp. congruence.
      - apply (f_equal length) in Hl. rewrite length_app in Hl. cbn in Hl. lia. }
    assert (Hway1 : clear_way s1 (c :: k)).
    { apply clear_way_intro. intros l k' Hl Hlne. destruct k' as [|d k']; [by left|].
      destruct (H1 (d :: k')) as [E|(_ & E & _)]; rewrite node_at_nonempty, E; [|by left].
      rewrite <- node_at_nonempty. by apply (clear_way_around s l); [rewrite <- Hl|]. }
    right. rewrite mkdir_place by done. eexists. split; [done|]. split; [|by rewrite node_at_nonempty, lookup_insert_eq].
    split; [apply rooted_tree_insert; auto; done|]. intros k'. destruct (decide (k' = c :: k)) as [->|Hkk].
    + right. rewrite lookup_insert_eq. split_and!; [|done|done]. rewrite node_at_nonempty in Hn1. 
      destruct (H1 (c :: k)) as [E|(E & _)]; congruence.
    + rewrite lookup_insert_ne by congruence. destruct (H1 k') as [->|(E1 & E2 & Hsuf)]; [by left|right].
      split_and!; [done..|]. by apply suffix_cons_r.
Qed.

Section Run.
Context (cwd : string) (source : string -> option string).
Context (source_tree : string -> tree).
Context (iteritems : list (string * list string) -> list (string * list string)).
Context (platform : string) (portable : bool).
Context (node_prefix install_path : string).
(** The install path is absolute, and not the root itself. *)
Context (Hip : rooted install_path) (Hnotroot : startswith install_path "/" = false).

Lemma abspath_parent c k : valid_place (c :: k) -> abspath_ cwd (spell (c :: k)) [".."] = spell k.
Proof using.
  intros Hk. pose proof (rooted_spell _ Hk) as Hr. unfold abspath_, abspath, path_join. cbn [foldl].
  assert (Hj : rooted (path_join2 (spell (c :: k)) "..")) by by apply rooted_join.
  rewrite rooted_isabs, normpath_rooted by done. unfold spell at 2. f_equal. f_equal.
  rewrite walk_join, walk_spell by done. change (split_char "/" "..") with (replicate 1 ".."). by rewrite walk_up.
Qed.
Lemma abspath_self k : valid_place k -> abspath_ cwd (spell k) [] = spell k.
Proof using.
  intros Hk. unfold abspath_, abspath, path_join. cbn [foldl]. rewrite rooted_isabs by by apply rooted_spell.
  apply normpath_id. exists (rev k). split; [by apply Forall_rev|done].
Qed.
Lemma shrunk_trans_delete s s' c k : shrunk (delete (c :: k) s) s' k -> s !! (c :: k) = Some Dir -> shrunk s s' (c :: k).
Proof using.
  intros [Hs' H] Hd. split; [done|]. intros k'. destruct (decide (k' = c :: k)) as [->|Hne].
  - right. split_and!; [done| |done]. destruct (H (c :: k)) as [->|(E & _)]; [apply lookup_delete_eq|].
    by rewrite lookup_delete_eq in E.
  - destruct (H k') as [->|(E1 & E2 & Hsuf)]; rewrite lookup_delete_ne in * by congruence; [by left|right].
    split_and!; [done..|]. by apply suffix_cons_r.
Qed.
Lemma try_rmdir_spec fuel s k : length k < fuel -> rooted_tree s -> valid_place k -> clear_way s k ->
  node_at s k = Some Dir \/ node_at s k = None ->
  exists s', try_rmdir_loop cwd install_path fuel (spell k) s = Ok s' /\ shrunk s s' k.
Proof using Hnotroot.
  revert fuel s. induction k as [|c k IH]; intros fuel s Hf Hs Hk Hway Hn; (destruct fuel as [|fuel]; [cbn in Hf; lia|]);
    cbn [try_rmdir_loop].
  { rewrite spell_nil, Hnotroot. exists s. split; [done|by apply around_refl]. }
  destruct (startswith install_path (spell (c :: k))); [|exists s; split; [done|by apply around_refl]].
  rewrite rmdir_place by done. destruct Hn as [Hn|Hn]; rewrite Hn; [|exists s; split; [done|by apply around_refl]].
  rewrite bool_decide_false by done. destruct (has_children s (c :: k)) eqn:Ec; [exists s; split; [done|by apply around_refl]|].
  rewrite abspath_parent by done. set (s1 := delete (c :: k) s).
  assert (Hk1 : forall k', k' `suffix_of` k -> node_at s1 k' = node_at s k').
  { intros k' [l Hl]. destruct k' as [|d k']; [done|]. rewrite !node_at_nonempty. apply lookup_delete_ne.
    intros E. rewrite <- E in Hl. apply (f_equal length) in Hl. rewrite length_app in Hl. cbn in Hl. lia. }
  pose proof (clear_way_tail _ _ Hway) as Hway'. cbn [tail] in Hway'.
  destruct (IH fuel s1) as (s' & -> & H').
  - cbn in Hf. lia.
  - apply rooted_tree_delete; auto.
  - by apply list.Forall_cons in Hk as [].
  - apply clear_way_intro. intros l k' Hl Hne. rewrite Hk1 by by exists l. apply (clear_way_around s l); [by rewrite <- Hl|done].
  - rewrite Hk1 by done. by apply (clear_way_around s [c]).
  - exists s'. split; [done|]. by apply shrunk_trans_delete.
Qed.

(** ** Where a file goes *)
Definition target_place (path dst : string) : place :=
  let target := path_join2 install_path dst in
  walk [] (split_char "/" (if endswith "/" dst then path_join2 target (basename path) else target)).
Lemma basename_slashless path : str_mem "/" (basename path) = false.
Proof using.
  unfold basename, path_split. destruct (rsplit1 "/" path) as [[h t]|] eqn:E; [by apply rsplit1_some in E as []|].
  by apply rsplit1_free in E.
Qed.
Lemma slashless_relative x : str_mem "/" x = false -> isabs x = false.
Proof using. destruct x as [|d x]; [done|]. rewrite str_mem_cons, isabs_cons. by intros [? _]%orb_false_iff. Qed.
Lemma abspath_spell p : rooted p -> abspath cwd p = spell (walk [] (split_char "/" p)).
Proof using. intros Hr. unfold abspath. by rewrite rooted_isabs, normpath_rooted. Qed.
Lemma valid_walk p : valid_place (walk [] (split_char "/" p)).
Proof using. apply walk_comp_ok; [done|apply split_char_free_all]. Qed.
Lemma mkpaths_target path dst : isabs dst = false ->
  mkpaths cwd install_path path dst = (path, spell (target_place path dst)) /\ valid_place (target_place path dst).
Proof using Hip.
  intros Hd. assert (Hr : rooted (path_join2 install_path dst)) by by apply rooted_join.
  unfold mkpaths, target_place, abspath_, path_join. split; [|destruct (endswith "/" dst); apply valid_walk].
  destruct (endswith "/" dst); cbn [foldl]; rewrite abspath_spell; [done| |done..].
  apply rooted_join; [done|]. apply slashless_relative, basename_slashless.
Qed.

(** ** What stays the same while targets come and go *)
Section Targets.
Context (targets : list place) (s0 : files).
(** No target is around another one, and what is around them are directories, if it
    is there at all. *)
Definition separate : Prop := forall k, k ∈ targets -> k <> [] /\ forall l k', k = (l ++ k')%list -> l <> [] ->
  (k' ∉ targets) /\ (node_at s0 k' = Some Dir \/ node_at s0 k' = None).
Context (Hsep : separate).

Definition dir_or_none (n : option node) : Prop := n = None \/ n = Some Dir.
Definition same_files (s : files) : Prop :=
  rooted_tree s /\
  forall k, k ∉ targets -> s !! k = s0 !! k \/ dir_or_none (s0 !! k) /\ dir_or_none (s !! k).

Lemma same_around s l k k' : same_files s -> k ∈ targets -> k = (l ++ k')%list -> l <> [] ->
  (k' ∉ targets) /\ (node_at s k' = Some Dir \/ node_at s k' = None).
Proof using Hsep.
  intros [_ H] Hk Hl Hne. destruct (Hsep k Hk) as [_ Ht]. destruct (Ht l k' Hl Hne) as [Hn H0]. split; [done|].
  destruct k' as [|c k']; [by left|]. rewrite node_at_nonempty in *.
  destruct (H (c :: k') Hn) as [->|[_ [H1|H1]]]; [done|by right|by left].
Qed.
Lemma same_clear s k : same_files s -> k ∈ targets -> clear_way s k.
Proof using Hsep. intros Hs Hk. apply clear_way_intro. intros l k' Hl Hne. by eapply same_around. Qed.
Lemma same_tail s k : same_files s -> k ∈ targets ->
  clear_way s (tail k) /\ (node_at s (tail k) = Some Dir \/ node_at s (tail k) = None).
Proof using Hsep.
  intros Hs Hk. split; [by apply clear_way_tail, same_clear|]. destruct (Hsep k Hk) as [Hne _].
  destruct k as [|c k]; [done|]. by apply (same_around s [c] (c :: k)).
Qed.
(** Making and removing directories around a target *)
Lemma same_files_around s s' k b a : same_files s -> k ∈ targets -> around s s' (tail k) b a ->
  dir_or_none b -> dir_or_none a -> same_files s' /\ forall k', k' ∈ targets -> s' !! k' = s !! k'.
Proof using Hsep.
  intros Hsame Hk [Hs' H] Hb Ha. pose proof Hsame as [Hs H0]. split; [split; [done|]|].
  - intros k' Hk'. destruct (H k') as [->|(E & -> & _)]; [by apply H0|]. right.
    destruct (H0 k' Hk') as [E'|[? _]]; [|done]. rewrite <- E', E. done.
  - intros k' Hk'. destruct (H k') as [->|(_ & _ & [l Hl])]; [done|]. exfalso.
    destruct (Hsep k Hk) as [Hne Ht]. destruct k as [|c k]; [done|]. cbn in Hl.
    by destruct (Ht (c :: l) k') as [? _]; [cbn; by f_equal|done|].
Qed.
Lemma same_files_put s k n : same_files s -> k ∈ targets -> valid_place k -> node_at s (tail k) = Some Dir ->
  s !! k <> Some Dir -> same_files (<[k := n]> s).
Proof using Hsep.
  intros [Hs H] Hk Hv Hp Hn. split.
  - apply rooted_tree_insert; auto. by apply Hsep.
  - intros k' Hk'. rewrite lookup_insert_ne by (by intros ->). by apply H.
Qed.
Lemma same_files_delete s k : same_files s -> k ∈ targets -> s !! k <> Some Dir -> same_files (delete k s).
Proof using.
  intros [Hs H] Hk Hn. split; [by apply rooted_tree_delete; auto|]. intros k' Hk'.
  rewrite lookup_delete_ne by (by intros ->). by apply H.
Qed.

(** ** The operations on a target *)
Section Target.
Context (s : files) (k : place) (Hs : same_files s) (Hk : k ∈ targets) (Hv : valid_place k).

Lemma try_mkdir_target : exists s', try_mkdir_r (dirname (spell k)) s = Ok s' /\ same_files s' /\
  (forall k', k' ∈ targets -> s' !! k' = s !! k') /\ node_at s' (tail k) = Some Dir.
Proof using Hsep Hs Hk Hv.
  destruct (same_tail s k Hs Hk) as [Hway Hd]. pose proof (valid_tail k Hv) as Hvt. unfold try_mkdir_r, makedirs.
  rewrite dirname_spell by done. pose proof (length_spell _ Hvt).
  destruct (makedirs_spec (S (String.length (spell (tail k)))) s (tail k)) as [[-> Hdir]|(s' & -> & Hgrown & Hdir)];
    [lia|apply Hs|done..| |].
  - exists s. by split_and!.
  - exists s'. split; [done|]. destruct (same_files_around s s' k _ _ Hs Hk Hgrown) as [H1 H2]; [by left|by right|]. done.
Qed.
Lemma try_unlink_target : try_unlink (spell k) s =
  match s !! k with Some Dir => Err (OSError "EISDIR") | _ => Ok (delete k s) end.
Proof using Hsep Hs Hk Hv.
  unfold try_unlink. rewrite unlink_place by (done || apply Hs || by apply same_clear).
  destruct (Hsep k Hk) as [Hne _]. destruct k as [|c k']; [done|]. rewrite node_at_nonempty.
  destruct (s !! (c :: k')) as [[]|] eqn:E; [done..|]. by rewrite delete_id.
Qed.
End Target.

Lemma try_copy_target path dst s s' : let k := target_place path dst in
  isabs dst = false -> k ∈ targets -> same_files s -> try_copy cwd source install_path path dst s = Ok s' ->
  same_files s' /\ (exists content, s' !! k = Some (File content)) /\
  forall k', k' ∈ targets -> k' <> k -> s' !! k' = s !! k'.
Proof using Hip Hsep.
  intros k Hdst Hk Hs. unfold try_copy. destruct (mkpaths_target path dst Hdst) as [-> Hv]. fold k in Hv |- *.
  destruct (try_mkdir_target s k Hs Hk Hv) as (s1 & -> & Hs1 & Heq1 & Hd1). cbn [mbind res_bind].
  rewrite try_unlink_target by done. intros (s2 & H2 & (content & _ & H3)%bind_ok)%bind_ok.
  assert (E2 : s2 = delete k s1 /\ s1 !! k <> Some Dir) by (destruct (s1 !! k) as [[]|]; inv_ok; done).
  destruct E2 as [-> Hnd]. pose proof (same_files_delete s1 k Hs1 Hk Hnd) as Hs2. destruct (Hsep k Hk) as [Hne _].
  assert (Hn2 : node_at (delete k s1) k = None) by (destruct k; [done|]; rewrite node_at_nonempty; apply lookup_delete_eq).
  assert (Hl : not_link (delete k s1) k) by (apply not_link_dir; by right).
  pose proof (same_clear _ k Hs2 Hk) as Hway. unfold copy2 in H3.
  rewrite isdir_place, Hn2, bool_decide_false in H3 by (done || apply Hs2).
  apply (write_place (delete k s1) k) in H3 as [Hp ->]; [|apply Hs2|done..|by rewrite Hn2].
  split_and!.
  - apply same_files_put; [done..|]. destruct k; [done|]. rewrite node_at_nonempty in Hn2. by rewrite Hn2.
  - exists content. apply lookup_insert_eq.
  - intros k' Hk' Hkk. rewrite lookup_insert_ne, lookup_delete_ne by congruence. by apply Heq1.
Qed.
Lemma try_symlink_target path k s s' : k ∈ targets -> valid_place k -> same_files s ->
  try_symlink path (spell k) s = Ok s' ->
  same_files s' /\ s' !! k = Some (Link path) /\ (forall k', k' ∈ targets -> k' <> k -> s' !! k' = s !! k').
Proof using Hsep.
  intros Hk Hv Hs. unfold try_symlink. rewrite try_unlink_target by done. intros (s2 & H2 & H3)%bind_ok.
  assert (E2 : s2 = delete k s /\ s !! k <> Some Dir) by (destruct (s !! k) as [[]|]; inv_ok; done).
  destruct E2 as [-> Hnd]. pose proof (same_files_delete s k Hs Hk Hnd) as Hs2. destruct (Hsep k Hk) as [Hne _].
  unfold symlink in H3. rewrite locate_place in H3 by (apply Hs2 || done || (by apply same_clear) || by left).
  case_decide as Hp; [|done]. cbn [mbind res_bind] in H3.
  assert (Hn2 : node_at (delete k s) k = None) by (destruct k; [done|]; rewrite node_at_nonempty; apply lookup_delete_eq).
  rewrite Hn2 in H3. injection H3 as <-. split_and!.
  - apply same_files_put; [done..|]. destruct k; [done|]. rewrite node_at_nonempty in Hn2. by rewrite Hn2.
  - apply lookup_insert_eq.
  - intros k' Hk' Hkk. by rewrite lookup_insert_ne, lookup_delete_ne by congruence.
Qed.
Lemma try_remove_target path dst s : let k := target_place path dst in
  isabs dst = false -> k ∈ targets -> same_files s -> s !! k <> Some Dir ->
  exists s', try_remove cwd install_path path dst s = Ok s' /\ same_files s' /\ s' !! k = None /\
    forall k', k' ∈ targets -> k' <> k -> s' !! k' = s !! k'.
Proof using Hip Hnotroot Hsep.
  intros k Hdst Hk Hs Hnd. unfold try_remove. destruct (mkpaths_target path dst Hdst) as [-> Hv]. fold k in Hv |- *.
  rewrite try_unlink_target by done. pose proof (same_files_delete s k Hs Hk Hnd) as Hs1.
  assert (E : match s !! k with Some Dir => Err (OSError "EISDIR") | _ => Ok (delete k s) end = Ok (delete k s))
    by (destruct (s !! k) as [[]|]; done).
  rewrite E. cbn [mbind res_bind]. unfold try_rmdir_r. pose proof (valid_tail k Hv) as Hvt.
  rewrite dirname_spell, abspath_self by done. destruct (same_tail _ k Hs1 Hk) as [Hway Hd].
  destruct (try_rmdir_spec (S (String.length (spell (tail k)))) (delete k s) (tail k)) as (s' & -> & Hsh);
    [pose proof (length_spell _ Hvt); lia|apply Hs1|done..|].
  destruct (same_files_around _ s' k _ _ Hs1 Hk Hsh) as [H1 H2]; [by right|by left|]. exists s'. split_and!; [done..| |].
  - rewrite H2 by done. apply lookup_delete_eq.
  - intros k' Hk' Hkk. rewrite H2 by done. by apply lookup_delete_ne.
Qed.

(** ** The two phases

    [copied] are the targets that hold a file, [placed] those that hold a file or a link. *)
Definition installed (copied placed : list place) (s : files) : Prop :=
  same_files s /\ (forall k, k ∈ copied -> exists content, s !! k = Some (File content)) /\
  (forall k, k ∈ placed -> exists n, s !! k = Some n /\ n <> Dir).
Definition removed (gone : list place) (s : files) : Prop :=
  same_files s /\ (forall k, k ∈ targets -> s !! k <> Some Dir) /\ forall k, k ∈ gone -> s !! k = None.

(** What an operation installs and removes, when it is asked to *)
Definition copies (l : list place) (f : files -> res files) : Prop :=
  forall copied placed s s', copied ⊆ targets -> placed ⊆ targets -> installed copied placed s -> f s = Ok s' ->
    installed (copied ++ l) (placed ++ l) s'.
Definition puts (l : list place) (f : files -> res files) : Prop :=
  forall placed s s', placed ⊆ targets -> installed [] placed s -> f s = Ok s' -> installed [] (placed ++ l) s'.
Definition drops (l : list place) (f : files -> res files) : Prop :=
  forall gone s, gone ⊆ targets -> removed gone s -> exists s', f s = Ok s' /\ removed (gone ++ l) s'.
(** An operation, by the action *)
Definition handles (l : list place) (f : action -> files -> res files) : Prop :=
  puts l (f install) /\ drops l (f uninstall).

Lemma installed_copied k content copied placed s s' : copied ⊆ targets -> placed ⊆ targets ->
  installed copied placed s -> same_files s' -> s' !! k = Some (File content) ->
  (forall k', k' ∈ targets -> k' <> k -> s' !! k' = s !! k') -> installed (copied ++ [k]) (placed ++ [k]) s'.
Proof using.
  intros Hc Hp (_ & HF & HI) Hs' Hk Heq. split_and!; [done|intros k'|intros k'].
  - destruct (decide (k' = k)) as [->|Hne]; [eauto|]. intros [Hin|Hin]%elem_of_app; [|by apply list_elem_of_singleton in Hin].
    rewrite Heq by auto. by apply HF.
  - destruct (decide (k' = k)) as [->|Hne]; [eauto|]. intros [Hin|Hin]%elem_of_app; [|by apply list_elem_of_singleton in Hin].
    rewrite Heq by auto. by apply HI.
Qed.
Lemma copies_perform paths dst : isabs dst = false -> map (fun path => target_place path dst) paths ⊆ targets ->
  copies (map (fun path => target_place path dst) paths) (perform cwd source install_path install paths dst).
Proof using Hip Hsep.
  intros Hdst. induction paths as [|path paths IH]; intros Hsub copied placed s s' Hc Hp Hi; unfold perform; cbn [foldM map].
  - intros [= <-]. by rewrite !app_nil_r.
  - intros (s1 & H1 & H2)%bind_ok. assert (Hk : target_place path dst ∈ targets) by (apply Hsub; by left).
    apply try_copy_target in H1 as (Hs1 & [content Hk1] & Heq); [|done..|apply Hi].
    pose proof (installed_copied _ _ _ _ _ _ Hc Hp Hi Hs1 Hk1 Heq) as Hi1.
    rewrite (cons_middle (target_place path dst) copied), (cons_middle (target_place path dst) placed), !app_assoc.
    apply (IH ltac:(intros x Hx; apply Hsub; by right) _ _ s1 s'); [| |done|exact H2];
      intros x [Hx|Hx]%elem_of_app; try (by auto); apply list_elem_of_singleton in Hx as ->; done.
Qed.
Lemma drops_perform paths dst : isabs dst = false -> map (fun path => target_place path dst) paths ⊆ targets ->
  drops (map (fun path => target_place path dst) paths) (perform cwd source install_path uninstall paths dst).
Proof using Hip Hnotroot Hsep.
  intros Hdst. induction paths as [|path paths IH]; intros Hsub gone s Hg (Hs & Hnd & Hr); unfold perform; cbn [foldM map].
  - exists s. split; [done|]. by rewrite app_nil_r.
  - assert (Hk : target_place path dst ∈ targets) by (apply Hsub; by left).
    destruct (try_remove_target path dst s Hdst Hk Hs (Hnd _ Hk)) as (s1 & H1 & Hs1 & Hn1 & Heq). rewrite H1. cbn [mbind res_bind].
    rewrite (cons_middle (target_place path dst) gone), app_assoc.
    apply IH; [intros x Hx; apply Hsub; by right| |].
    + intros x [Hx| ->%list_elem_of_singleton]%elem_of_app; auto.
    + split_and!; [done| |].
      * intros k Hkt. destruct (decide (k = target_place path dst)) as [->|Hne]; [by rewrite Hn1|]. rewrite Heq by done. by apply Hnd.
      * intros k [Hin| ->%list_elem_of_singleton]%elem_of_app; [|done].
        destruct (decide (k = target_place path dst)) as [->|Hne]; [done|]. rewrite Heq by auto. by apply Hr.
Qed.
Lemma copies_puts l f : l ⊆ targets -> copies l f -> puts l f.
Proof using.
  intros Hl H placed s s' Hp Hi Hf. destruct (H [] placed s s' ltac:(intros x Hx; by apply not_elem_of_nil in Hx) Hp Hi Hf) as (H1 & _ & H3).
  split_and!; [done| |done]. intros k Hk. by apply not_elem_of_nil in Hk.
Qed.
Lemma handles_perform paths dst : isabs dst = false -> map (fun path => target_place path dst) paths ⊆ targets ->
  handles (map (fun path => target_place path dst) paths) (fun a => perform cwd source install_path a paths dst).
Proof using Hip Hnotroot Hsep.
  intros Hd Hs. split; [by apply copies_puts, copies_perform|by apply drops_perform].
Qed.

(** Putting operations together *)
Lemma handles_nil : handles [] (fun _ s => Ok s).
Proof using.
  split; [intros placed s s' _ Hi [= <-]|intros gone s _ Hr; exists s; split; [done|]]; by rewrite app_nil_r.
Qed.
Lemma handles_app l k f g : l ⊆ targets -> handles l f -> handles k g -> handles (l ++ k) (fun a s => s ← f a s; g a s).
Proof using.
  intros Hl [Hf1 Hf2] [Hg1 Hg2]. split.
  - intros placed s s' Hp Hi (s1 & H1 & H2)%bind_ok. rewrite app_assoc. eapply Hg1; [|by eapply Hf1|done].
    intros x [Hx|Hx]%elem_of_app; auto.
  - intros gone s Hg Hr. destruct (Hf2 gone s Hg Hr) as (s1 & -> & H1). cbn [mbind res_bind]. rewrite app_assoc.
    apply Hg2; [|done]. intros x [Hx|Hx]%elem_of_app; auto.
Qed.
Lemma handles_if (b : bool) l k f g : handles l f -> handles k g ->
  handles (if b then l else k) (fun a s => if b then f a s else g a s).
Proof using. by destruct b. Qed.
Lemma handles_ext l f g : (forall a s, f a s = g a s) -> handles l f -> handles l g.
Proof using.
  intros H [H1 H2]. split.
  - intros placed s s' Hp Hi. rewrite <- H. by apply H1.
  - intros gone s Hg Hr. rewrite <- H. by apply H2.
Qed.
Lemma handles_seq l k f g : (l ++ k)%list ⊆ targets -> (l ⊆ targets -> handles l f) -> (k ⊆ targets -> handles k g) ->
  handles (l ++ k) (fun a s => s ← f a s; g a s).
Proof using.
  intros Hs Hf Hg. assert (Hl : l ⊆ targets) by (intros x Hx; apply Hs, elem_of_app; by left).
  assert (Hk : k ⊆ targets) by (intros x Hx; apply Hs, elem_of_app; by right). by apply handles_app; auto.
Qed.
Lemma handles_when variables name value l f : (l ⊆ targets -> handles l f) ->
  (if bool_decide (variables !! name = Some value) then l else []) ⊆ targets ->
  handles (if bool_decide (variables !! name = Some value) then l else [])
    (fun a s => when variables name value (f a) s).
Proof using.
  intros H Hs. unfold when. destruct (bool_decide _); [by apply H|apply handles_nil].
Qed.

(** ** Loops *)
Definition action_targets (paths : list string) (dst : string) : list place :=
  map (fun path => target_place path dst) paths.
Definition call_targets (calls : list (list string * string)) : list place :=
  concat (map (fun '(paths, dst) => action_targets paths dst) calls).
Definition calls_relative (calls : list (list string * string)) : Prop :=
  Forall (fun call : list string * string => isabs call.2 = false) calls.
Definition perform_all (a : action) (calls : list (list string * string)) (s : files) : res files :=
  foldM (fun s '(paths, dst) => perform cwd source install_path a paths dst s) s calls.

Lemma copies_all calls : calls_relative calls -> call_targets calls ⊆ targets ->
  copies (call_targets calls) (perform_all install calls).
Proof using Hip Hsep.
  induction 1 as [|[paths dst] calls Hd _ IH]; intros Hsub copied placed s s' Hc Hp Hi; unfold perform_all, call_targets; cbn [foldM map concat].
  - intros [= <-]. by rewrite !app_nil_r.
  - intros (s1 & H1 & H2)%bind_ok. change (concat (map _ calls)) with (call_targets calls).
    assert (Hl : action_targets paths dst ⊆ targets) by (intros x Hx; apply Hsub; unfold call_targets; cbn; apply elem_of_app; by left).
    assert (Hr : call_targets calls ⊆ targets) by (intros x Hx; apply Hsub; unfold call_targets; cbn; apply elem_of_app; by right).
    pose proof (copies_perform paths dst Hd Hl _ _ _ _ Hc Hp Hi H1) as Hi1. rewrite !app_assoc.
    apply (IH Hr _ _ s1 s'); [| |exact Hi1|exact H2]; intros x [Hx|Hx]%elem_of_app; auto.
Qed.
Lemma drops_all calls : calls_relative calls -> call_targets calls ⊆ targets ->
  drops (call_targets calls) (perform_all uninstall calls).
Proof using Hip Hnotroot Hsep.
  induction 1 as [|[paths dst] calls Hd _ IH]; intros Hsub gone s Hg Hr; unfold perform_all, call_targets; cbn [foldM map concat].
  - exists s. split; [done|]. by rewrite app_nil_r.
  - change (concat (map _ calls)) with (call_targets calls).
    assert (Hl : action_targets paths dst ⊆ targets) by (intros x Hx; apply Hsub; unfold call_targets; cbn; apply elem_of_app; by left).
    assert (Hrest : call_targets calls ⊆ targets) by (intros x Hx; apply Hsub; unfold call_targets; cbn; apply elem_of_app; by right).
    destruct (drops_perform paths dst Hd Hl gone s Hg Hr) as (s1 & -> & H1). cbn [mbind res_bind]. rewrite app_assoc.
    apply IH; [done| |done]. intros x [Hx|Hx]%elem_of_app; auto.
Qed.
Lemma handles_all calls : calls_relative calls -> call_targets calls ⊆ targets ->
  handles (call_targets calls) (fun a => perform_all a calls).
Proof using Hip Hnotroot Hsep.
  intros Hc Hs. split; [by apply copies_puts, copies_all|by apply drops_all].
Qed.

(** The two links *)
Lemma target_place_file path dst : endswith "/" dst = false -> isabs dst = false ->
  target_place path dst = walk (walk [] (split_char "/" install_path)) (split_char "/" dst).
Proof using. intros He Hd. unfold target_place. rewrite He. by apply walk_join. Qed.
Lemma link_spelled dst path : endswith "/" dst = false -> isabs dst = false ->
  abspath_ cwd install_path [dst] = spell (target_place path dst).
Proof using Hip.
  intros He Hd. destruct (mkpaths_target path dst Hd) as [H _]. unfold mkpaths in H. rewrite He in H. by injection H.
Qed.
Lemma handles_link path dst : endswith "/" dst = false -> isabs dst = false -> [target_place "" dst] ⊆ targets ->
  handles [target_place "" dst] (fun a s =>
    match a with
    | uninstall => perform cwd source install_path a [abspath_ cwd install_path [dst]] dst s
    | install => try_symlink path (abspath_ cwd install_path [dst]) s
    end).
Proof using Hip Hnotroot Hsep.
  intros He Hd Hsub. set (k := target_place "" dst). assert (Hk : k ∈ targets) by (apply Hsub; by left). split.
  - intros placed s s' Hp (Hs & _ & HI). rewrite (link_spelled dst "") by done. fold k.
    destruct (mkpaths_target "" dst Hd) as [_ Hv]. intros H.
    destruct (try_symlink_target path k s s' Hk Hv Hs H) as (Hs' & Hk' & Heq). split_and!; [done|by intros x ?%not_elem_of_nil|].
    intros x. destruct (decide (x = k)) as [->|Hne]; [eauto|]. intros [Hx|Hx]%elem_of_app; [|by apply list_elem_of_singleton in Hx].
    rewrite Heq by auto. by apply HI.
  - pose proof (drops_perform [abspath_ cwd install_path [dst]] dst Hd) as H. cbn [map] in H.
    assert (E : target_place (abspath_ cwd install_path [dst]) dst = k) by (unfold k; by rewrite !target_place_file).
    rewrite E in H. by apply H.
Qed.

(** ** npm *)
Definition base : place := walk [] (split_char "/" install_path).
Definition npm_place : place := "npm" :: "node_modules" :: "lib" :: base.
Definition npm_cli : place := "npm-cli.js" :: "bin" :: npm_place.
Definition npm_calls : list (list string * string) :=
  map (fun '(dirname, basenames) =>
         (map (path_join2 dirname) basenames, npm_target_path +:+ str_drop 9 dirname +:+ "/"))
    (os_walk (Some "test") "deps/npm" (source_tree "deps/npm")).
Definition npm_targets : list place := call_targets npm_calls ++ [target_place "" "bin/npm"].

Lemma npm_calls_relative : calls_relative npm_calls.
Proof using. apply list.Forall_forall. intros call Hc. apply list_elem_of_fmap in Hc as ([d b] & -> & _). done. Qed.
Lemma npm_spelled : abspath_ cwd install_path [npm_target_path] = spell npm_place /\ valid_place npm_place.
Proof using Hip.
  unfold abspath_, path_join. cbn [foldl]. rewrite abspath_spell by by apply rooted_join.
  rewrite walk_join by done. split; [done|]. apply (walk_comp_ok base ["lib"; "node_modules"; "npm"]); [apply valid_walk|by repeat constructor].
Qed.
Lemma not_npm_link s : same_files s -> npm_cli ∈ targets -> islink s (abspath_ cwd install_path [npm_target_path]) = false.
Proof using Hip Hsep.
  intros Hs Hk. destruct npm_spelled as [-> Hv].
  destruct (same_around s ["npm-cli.js"; "bin"] npm_cli npm_place Hs Hk eq_refl ltac:(done)) as [_ Hd].
  assert (Hway : clear_way s npm_place).
  { pose proof (clear_way_tail _ _ (clear_way_tail _ _ (same_clear s npm_cli Hs Hk))) as H. exact H. }
  unfold islink. rewrite locate_place by (done || apply Hs || by left). case_decide; [|done].
  by destruct Hd as [->| ->].
Qed.
Lemma npm_perform a s :
  foldM (fun s '(dirname, basenames) =>
           perform cwd source install_path a (map (path_join2 dirname) basenames)
             (npm_target_path +:+ str_drop 9 dirname +:+ "/") s)
    s (os_walk (Some "test") "deps/npm" (source_tree "deps/npm")) = perform_all a npm_calls s.
Proof using.
  unfold perform_all, npm_calls. revert s. induction (os_walk _ _ _) as [|[d b] l IH]; intros s; cbn [foldM map]; [done|].
  destruct (perform _ _ _ _ _ _ s); cbn [mbind res_bind]; [apply IH|done..].
Qed.
(** The link to npm leads to the script, whose first line is rewritten. *)
Lemma npm_link_leads s : same_files s -> npm_cli ∈ targets -> s !! ("npm" :: "bin" :: base) = Some (Link "../lib/node_modules/npm/bin/npm-cli.js") ->
  not_link s npm_cli -> forall k, locate s true (spell ("npm" :: "bin" :: base)) = Ok k -> k = npm_cli.
Proof using Hsep.
  intros Hs Hk Hl Hnl k. assert (Hv : valid_place ("npm" :: "bin" :: base)).
  { apply (walk_comp_ok base ["bin"; "npm"]); [apply valid_walk|by repeat constructor]. }
  rewrite (locate_link s _ _ _ (proj1 Hs) Hv Hl). cbn [isabs startswith]. 
  change (split_char "/" "../lib/node_modules/npm/bin/npm-cli.js") with [".."; "lib"; "node_modules"; "npm"; "bin"; "npm-cli.js"].
  rewrite resolve_unfold. cbn [String.eqb orb Ascii.eqb Bool.eqb tail].
  assert (Hb : node_at s base = Some Dir).
  { apply (rooted_tree_around s ["npm"; "bin"]); [apply Hs| |done]. cbn [app]. by rewrite node_at_nonempty, Hl. }
  change (if isabs _ then _ else _) with ("bin" :: base). cbn [tail].
  rewrite resolve_clear; [|apply Hs|done|by repeat constructor|exact (same_clear s npm_cli Hs Hk)|by right].
  case_decide; [|done]. by intros [= <-].
Qed.
Lemma update_shebang_npm s s' shebang copied : same_files s -> npm_cli ∈ targets ->
  s !! ("npm" :: "bin" :: base) = Some (Link "../lib/node_modules/npm/bin/npm-cli.js") ->
  s !! npm_cli = Some (File copied) ->
  update_shebang (spell ("npm" :: "bin" :: base)) shebang s = Ok s' ->
  same_files s' /\ exists content, s' = <[npm_cli := File content]> s.
Proof using Hsep.
  intros Hs Hk Hl Hf. assert (Hnl : not_link s npm_cli) by (intros t; change (node_at s npm_cli) with (s !! npm_cli); congruence).
  pose proof (npm_link_leads s Hs Hk Hl Hnl) as Hlead. unfold update_shebang, read, write.
  destruct (locate s true _) as [k|e|]; [|done..]. rewrite (Hlead k eq_refl). cbn [mbind res_bind].
  change (node_at s npm_cli) with (s !! npm_cli). rewrite Hf. cbn [mbind res_bind]. intros [= <-]. split; [|eauto].
  assert (Hv : valid_place npm_cli).
  { apply (walk_comp_ok base ["lib"; "node_modules"; "npm"; "bin"; "npm-cli.js"]); [apply valid_walk|by repeat constructor]. }
  apply same_files_put; [done..| |congruence]. apply (rooted_tree_parent s npm_cli); [apply Hs|].
  change (node_at s npm_cli) with (s !! npm_cli). by rewrite Hf.
Qed.
Lemma handles_npm : npm_targets ⊆ targets -> npm_cli ∈ call_targets npm_calls ->
  handles npm_targets (npm_files cwd source source_tree portable node_prefix install_path).
Proof using Hip Hnotroot Hsep.
  intros Hsub Hcli. assert (Hk : npm_cli ∈ targets) by (apply Hsub, elem_of_app; by left).
  assert (Hc : call_targets npm_calls ⊆ targets) by (intros x Hx; apply Hsub, elem_of_app; by left).
  assert (Hlink : target_place "" "bin/npm" ∈ targets) by (apply Hsub, elem_of_app; right; by left).
  assert (El : target_place "" "bin/npm" = "npm" :: "bin" :: base) by by rewrite target_place_file.
  split.
  - intros placed s s' Hp Hi. unfold npm_files. rewrite not_npm_link by (done || apply Hi). rewrite npm_perform.
    intros (s1 & H1 & (s2 & H2 & H3)%bind_ok)%bind_ok.
    assert (Hnil : [] ⊆ targets) by (intros x Hx; by apply not_elem_of_nil in Hx).
    destruct (copies_all npm_calls npm_calls_relative Hc [] placed s s1 Hnil Hp Hi H1) as (Hs1 & HF1 & HI1).
    rewrite (link_spelled "bin/npm" "") in H2, H3 by done. destruct (mkpaths_target "" "bin/npm" eq_refl) as [_ Hv].
    destruct (try_symlink_target _ _ s1 s2 Hlink Hv Hs1 H2) as (Hs2 & Hl2 & Heq2). rewrite El in Hl2, H3.
    destruct (HF1 npm_cli Hcli) as [copied Hcopied]. rewrite <- Heq2 in Hcopied by (done || (by rewrite El)).
    destruct (update_shebang_npm s2 s' _ copied Hs2 Hk Hl2 Hcopied H3) as (Hs' & content & ->).
    split_and!; [done|by intros x ?%not_elem_of_nil|]. intros x Hx.
    destruct (decide (x = npm_cli)) as [->|Hne]; [rewrite lookup_insert_eq; eauto|]. rewrite lookup_insert_ne by congruence.
    destruct (decide (x = target_place "" "bin/npm")) as [->|Hne']; [rewrite El, Hl2; eauto|].
    unfold npm_targets in Hx. rewrite app_assoc in Hx. apply elem_of_app in Hx as [Hx|Hx]; [|by apply list_elem_of_singleton in Hx].
    rewrite Heq2; [by apply HI1| |done]. apply elem_of_app in Hx as [Hx|Hx]; auto.
  - intros gone s Hg Hr. unfold npm_files. rewrite not_npm_link by (done || apply Hr). rewrite npm_perform.
    destruct (drops_all npm_calls npm_calls_relative Hc gone s Hg Hr) as (s1 & -> & H1). cbn [mbind res_bind].
    destruct (handles_link "" "bin/npm" eq_refl eq_refl) as [_ Hdrop]; [by intros x ->%list_elem_of_singleton|].
    unfold npm_targets. rewrite app_assoc. apply Hdrop; [|done]. intros x [Hx|Hx]%elem_of_app; auto.
Qed.

(** ** The whole *)
Context (Hiter : forall l, iteritems l ≡ₚ l).
Definition subdir_calls (path dest : string) : list (list string * string) :=
  map (fun '(subdir, files) => (files, subdir +:+ "/")) (iteritems (subdir_dict source_tree path dest)).
Definition subdir_targets (path dest : string) : list place := call_targets (subdir_calls path dest).

Lemma assoc_set_all {V} (P : string -> Prop) k (v : V) l : P k -> Forall (fun kv => P kv.1) l ->
  Forall (fun kv => P kv.1) (OrderedDict.assoc_set k v l).
Proof using.
  intros Hk. induction 1 as [|[k' v'] l Hk' Hl IH]; cbn; [by repeat constructor|]. case_decide; by constructor.
Qed.
Lemma subdir_calls_relative path dest : (exists c d, dest = String c d /\ c <> "/"%char) -> calls_relative (subdir_calls path dest).
Proof using Hiter.
  intros (c & d & -> & Hc). assert (H : Forall (fun kv => exists x, kv.1 = String c x) (subdir_dict source_tree path (String c d))).
  { unfold subdir_dict. generalize (os_walk None path (source_tree path)) as l.
    assert (Hg : forall l (ret : list (string * list string)), Forall (fun kv => exists x, kv.1 = String c x) ret ->
      Forall (fun kv => exists x, kv.1 = String c x) (foldl (fun ret '(dirpath, filenames) =>
        OrderedDict.assoc_set (String c d +:+ str_replace path "" dirpath)
          (map (fun f => dirpath +:+ "/" +:+ f) (filter (fun f => endswith ".h" f = true) filenames)) ret) ret l)); [|by intros; apply Hg].
    induction l as [|[p fs] l IH]; intros ret Hret; cbn [foldl]; [done|]. apply IH.
    apply (assoc_set_all (fun k => exists x, k = String c x)); [by eexists|done]. }
  apply list.Forall_forall. intros call Hin. apply list_elem_of_fmap in Hin as ([k fs] & -> & Hin). cbn.
  rewrite Hiter in Hin. rewrite list.Forall_forall in H. destruct (H _ Hin) as [x Hx]. cbn in Hx. subst k.
  rewrite append_cons, isabs_cons. apply Ascii.eqb_neq. congruence.
Qed.
Lemma handles_subdir path dest : (exists c d, dest = String c d /\ c <> "/"%char) -> subdir_targets path dest ⊆ targets ->
  handles (subdir_targets path dest) (subdir_files cwd source source_tree iteritems install_path path dest).
Proof using Hip Hnotroot Hsep Hiter.
  intros Hd Hs. eapply handles_ext; [|apply handles_all; [by apply subdir_calls_relative|done]].
  intros a s. unfold subdir_files, perform_all, subdir_calls. revert s.
  induction (iteritems _) as [|[k fs] l IH]; intros s; cbn [foldM map]; [done|].
  destruct (perform _ _ _ _ _ _ s); cbn [mbind res_bind]; [apply IH|done..].
Qed.

Abbreviation if_set variables name value l := (if bool_decide (variables !! name = Some value) then l else []).
Definition all_targets (variables : gmap string string) : list place :=
  let is_windows := String.eqb platform "win32" in
  let exeext := if is_windows then ".exe" else "" in
  (action_targets ["out/Release/iojs" +:+ exeext] ("bin/iojs" +:+ exeext) ++
   (if is_windows then [] else [target_place "" "bin/node"]) ++
   if_set variables "node_use_dtrace" "true" (action_targets ["out/Release/node.d"] "lib/dtrace/node.d") ++
   action_targets ["src/node.stp"] "share/systemtap/tapset/" ++
   (if contains "freebsd" platform || contains "openbsd" platform then action_targets ["doc/iojs.1"] "man/man1/"
    else action_targets ["doc/iojs.1"] "share/man/man1/") ++
   if_set variables "node_install_npm" "true" npm_targets ++
   action_targets headers "include/node/" ++
   subdir_targets "deps/cares/include" "include/node/" ++
   subdir_targets "deps/v8/include" "include/node/" ++
   if_set variables "node_shared_libuv" "false" (subdir_targets "deps/uv/include" "include/node/") ++
   if_set variables "node_shared_openssl" "false"
     (subdir_targets "deps/openssl/openssl/include/openssl" "include/node/openssl/" ++
      action_targets ["deps/openssl/config/opensslconf.h"] "include/node/openssl/") ++
   if_set variables "node_shared_zlib" "false" (action_targets zlib_headers "include/node/"))%list.

Lemma handles_install_files variables : all_targets variables ⊆ targets ->
  (variables !! "node_install_npm" = Some "true" -> npm_cli ∈ call_targets npm_calls) ->
  handles (all_targets variables)
    (install_files cwd source source_tree iteritems platform portable node_prefix install_path variables).
Proof using Hip Hnotroot Hsep Hiter.
  intros Hs Hnpm. unfold install_files, all_targets in *. cbn zeta in *.
  apply handles_seq; [exact Hs|intros H; by apply handles_perform; [destruct (String.eqb platform "win32")|]|clear Hs; intros Hs].
  apply handles_seq; [exact Hs| |clear Hs; intros Hs].
  { intros H. destruct (String.eqb platform "win32"); [apply handles_nil|by apply handles_link]. }
  apply handles_seq; [exact Hs|intros H; apply handles_when; [intros; by apply handles_perform|done]|clear Hs; intros Hs].
  apply handles_seq; [exact Hs|intros H; by apply handles_perform|clear Hs; intros Hs].
  apply handles_seq; [exact Hs|intros H|clear Hs; intros Hs].
  { destruct (_ || _); by apply handles_perform. }
  apply handles_seq; [exact Hs|intros H|clear Hs; intros Hs].
  { unfold when. destruct (bool_decide _) eqn:E; [|apply handles_nil]. apply handles_npm; [done|].
    apply Hnpm. by apply bool_decide_eq_true in E. }
  apply handles_seq; [exact Hs|intros H; by apply handles_perform|clear Hs; intros Hs].
  apply handles_seq; [exact Hs|intros H; apply handles_subdir; [by eexists _, _|done]|clear Hs; intros Hs].
  apply handles_seq; [exact Hs|intros H; apply handles_subdir; [by eexists _, _|done]|clear Hs; intros Hs].
  apply handles_seq; [exact Hs|intros H; apply handles_when; [intros; apply handles_subdir; [by eexists _, _|done]|done]|clear Hs; intros Hs].
  apply handles_seq; [exact Hs|intros H|clear Hs; intros Hs; apply handles_when; [intros; by apply handles_perform|done]].
  apply (handles_when variables "node_shared_openssl" "false" _ (fun a s =>
    s ← subdir_files cwd source source_tree iteritems install_path "deps/openssl/openssl/include/openssl" "include/node/openssl/" a s;
    perform cwd source install_path a ["deps/openssl/config/opensslconf.h"] "include/node/openssl/" s)); [|done].
  intros H'. apply handles_seq; [exact H'|intros; apply handles_subdir; [by eexists _, _|done]|intros; by apply handles_perform].
Qed.
End Targets.
End Run.

(** C29. What was installed can be uninstalled again, with the same arguments and
    configuration: after installing, every target holds a file or a link; uninstalling
    does not fail, and no target is left.  Whatever else is not a directory is as it was
    before, after either.  The install path is absolute and not the root, no target is
    around another one, and no link or file is around a target; npm's own script is
    among its files. *)
Theorem uninstall_undoes_install cwd source source_tree iteritems platform portable variables dst_dir prefix s s1 :
  (forall l, iteritems l ≡ₚ l) ->
  let install_path := dst_dir +:+ prefix +:+ "/" in
  let targets := all_targets source_tree iteritems platform install_path variables in
  rooted install_path -> startswith install_path "/" = false -> rooted_tree s -> separate targets s ->
  (variables !! "node_install_npm" = Some "true" ->
     npm_cli install_path ∈ call_targets install_path (npm_calls source_tree)) ->
  run cwd source source_tree iteritems platform portable variables ["install.py"; "install"; dst_dir; prefix] s = Ok s1 ->
  exists s2,
    run cwd source source_tree iteritems platform portable variables ["install.py"; "uninstall"; dst_dir; prefix] s1 = Ok s2 /\
    (forall k, k ∈ targets -> (exists n, s1 !! k = Some n /\ n <> Dir) /\ s2 !! k = None) /\
    forall k n, n <> Dir -> k ∉ targets ->
      (s1 !! k = Some n <-> s !! k = Some n) /\ (s2 !! k = Some n <-> s !! k = Some n).
Proof.
  intros Hiter install_path targets Hip Hroot Hs Hsep Hnpm Hrun.
  destruct (handles_install_files cwd source source_tree iteritems platform portable prefix install_path Hip Hroot
    targets s Hsep Hiter variables) as [Hputs Hdrops]; [done..|].
  assert (Hsame : same_files targets s s) by (split; [done|by left]).
  assert (Hnil : [] ⊆ targets) by (intros x Hx; by apply not_elem_of_nil in Hx).
  assert (Hi : installed targets s [] [] s) by (split_and!; [done|by intros x ?%not_elem_of_nil..]).
  destruct (Hputs [] s s1 Hnil Hi Hrun) as (Hs1 & _ & HI1).
  assert (Hr : removed targets s [] s1).
  { split_and!; [done| |by intros x ?%not_elem_of_nil]. intros k Hk. destruct (HI1 k Hk) as (n & -> & Hn). congruence. }
  destruct (Hdrops [] s1 Hnil Hr) as (s2 & H2 & (Hs2 & _ & Hgone)). exists s2. split; [exact H2|]. split.
  - intros k Hk. split; [by apply HI1|by apply Hgone].
  - assert (Hsub : forall s', same_files targets s s' -> forall k n, n <> Dir -> k ∉ targets -> s' !! k = Some n <-> s !! k = Some n).
    { intros s' [_ H] k n Hn Hk. destruct (H k Hk) as [->|[[E|E] [E'|E']]]; [done|rewrite E, E'..]; split; congruence. }
    intros k n Hn Hk. split; by apply Hsub.
Qed.

(** ** An example *)
#[local] Instance dir_or_none_dec n : Decision (dir_or_none n).
Proof. unfold dir_or_none. apply _. Defined.
Definition separate_b (targets : list place) (s : files) : bool :=
  forallb (fun k => negb (bool_decide (k = [])) &&
    forallb (fun n => bool_decide (drop n k ∉ targets) && bool_decide (dir_or_none (node_at s (drop n k)))) (seq 1 (length k))) targets.
Lemma separate_b_spec targets s : separate_b targets s = true -> separate targets s.
Proof.
  unfold separate_b. rewrite forallb_forall. intros H k Hk. specialize (H k (proj1 (list_elem_of_In _ _) Hk)).
  apply andb_true_iff in H as [Hne H]. split; [by intros ->|]. intros l k' -> Hl. rewrite forallb_forall in H.
  specialize (H (length l)). rewrite drop_app_length in H.
  assert (Hin : In (length l) (seq 1 (length (l ++ k')%list))).
  { apply in_seq. rewrite length_app. destruct l; [done|]. cbn. lia. }
  apply H, andb_true_iff in Hin as [Hn%bool_decide_eq_true Hd%bool_decide_eq_true]. split; [done|]. destruct Hd; auto.
Qed.

#[local] Instance comp_ok_dec c : Decision (comp_ok c).
Proof. unfold comp_ok. apply _. Defined.
Definition rooted_tree_b (s : files) : bool :=
  bool_decide (s !! [] = None) &&
  forallb (fun '(k, _) => match k with c :: p => bool_decide (comp_ok c) && bool_decide (node_at s p = Some Dir) | [] => true end)
    (map_to_list s).
Lemma rooted_tree_b_spec s : rooted_tree_b s = true -> rooted_tree s.
Proof.
  unfold rooted_tree_b. intros [H0%bool_decide_eq_true H]%andb_true_iff. split; [done|]. intros c k [n Hn].
  rewrite forallb_forall in H. apply elem_of_map_to_list, list_elem_of_In, H in Hn.
  by apply andb_true_iff in Hn as [?%bool_decide_eq_true ?%bool_decide_eq_true].
Qed.

Definition sample_source (path : string) : option string :=
  Some (if endswith "npm-cli.js" path then "#!/usr/bin/env node" +:+ nl +:+ "start()" +:+ nl else path).
Definition sample_tree (path : string) : tree :=
  if String.eqb path "deps/npm" then
    Tree ["README.md"] [("bin", Tree ["npm-cli.js"] []); ("test", Tree ["t.js"] [])]
  else if String.eqb path "deps/v8/include" then Tree ["v8.h"; "DEPS"] [("libplatform", Tree ["p.h"] [])]
  else Tree [] [].
Definition sample_variables : gmap string string :=
  <["node_install_npm" := "true"]> {["node_shared_zlib" := "false"]}.
Definition sample_files : files :=
  <[["opt"] := Dir]> (<[["iojs"; "bin"; "opt"] := File "old"]> (<[["bin"; "opt"] := Dir]> {[["note"; "opt"] := File "mine"]})).
Definition sample_run (cmd : string) : files -> res files :=
  run "/w" sample_source sample_tree id "linux2" false sample_variables ["install.py"; cmd; ""; "/opt"].
(** What a place holds *)
Definition held (r : res files) (k : place) : option node := match r with Ok s => s !! k | _ => None end.

Example install_sample :
  let s1 := sample_run "install" sample_files in
  held s1 ["iojs"; "bin"; "opt"] = Some (File "out/Release/iojs") /\
  held s1 ["npm"; "bin"; "opt"] = Some (Link "../lib/node_modules/npm/bin/npm-cli.js") /\
  held s1 ["npm-cli.js"; "bin"; "npm"; "node_modules"; "lib"; "opt"] =
    Some (File ("#!/opt/bin/iojs" +:+ nl +:+ "start()" +:+ nl)) /\
  held s1 ["t.js"; "test"; "npm"; "node_modules"; "lib"; "opt"] = None /\
  held s1 ["p.h"; "libplatform"; "node"; "include"; "opt"] = Some (File "deps/v8/include/libplatform/p.h").
Proof. by vm_compute. Qed.

Lemma uninstall_undoes_install_witness :
  exists s1 s2, sample_run "install" sample_files = Ok s1 /\ sample_run "uninstall" s1 = Ok s2 /\
    s2 !! ["iojs"; "bin"; "opt"] = None /\ s2 !! ["note"; "opt"] = Some (File "mine").
Proof.
  assert (H : is_ok (sample_run "install" sample_files) = true) by by vm_compute.
  destruct (sample_run "install" sample_files) as [s1| |] eqn:E; [|discriminate H..].
  destruct (uninstall_undoes_install "/w" sample_source sample_tree id "linux2" false sample_variables "" "/opt" sample_files s1)
    as (s2 & H2 & Ht & Hrest).
  - done.
  - by vm_compute.
  - by vm_compute.
  - apply rooted_tree_b_spec. by vm_compute.
  - apply separate_b_spec. by vm_compute.
  - intros _. decided.
  - exact E.
  - exists s1, s2. split_and!; [done|exact H2| |].
    + apply (Ht ["iojs"; "bin"; "opt"]). decided.
    + apply (Hrest ["note"; "opt"] (File "mine")); [done|decided|by vm_compute].
Defined.
(** Without a staging directory the arguments do not suffice, and a prefix that ends in a
    slash leaves directories behind, since no path begins with two slashes in a row. *)
Example too_few_arguments : run "/w" sample_source sample_tree id "linux2" false sample_variables ["install.py"] ∅ = Err (NameError "dst_dir").
Proof. done. Qed.
Example directories_left :
  let go cmd := run "/w" sample_source sample_tree id "linux2" false ∅ ["install.py"; cmd; "/stage"; "/"] in
  match go "install" ∅ with
  | Ok s1 => held (go "uninstall" s1) ["bin"; "stage"] = Some Dir
  | _ => False
  end.
Proof. by vm_compute. Qed.
