(* ===== verification/GypValue.v ===== *)
(** * The data gyp works on

    A loaded [.gyp] file is a tree of strings, integers, lists and dictionaries
    ([val]).  A dictionary is the list of its items in the order in which it is
    iterated (Python 2 leaves that order open, so every statement is about any
    order); its keys are strings.  Here too: the restricted evaluator of
    [input.CheckedEval], [simple_copy.deepcopy], [TurnIntIntoStrInDict],
    [IsPathSection], and the text predicates of the variable expander. *)
From S2P Require Import Prelude PyStr Ordered.
From stdpp Require Import options.

Inductive val :=
  | VInt (n : Z)
  | VStr (s : string)
  | VList (l : list val)
  | VDict (d : list (string * val)).
Abbreviation dict := (list (string * val)).

Section ValInd.
Context (P : val -> Prop).
Context (HInt : forall n, P (VInt n)) (HStr : forall s, P (VStr s)).
Context (HList : forall l, Forall P l -> P (VList l)).
Context (HDict : forall d, Forall (fun kv => P kv.2) d -> P (VDict d)).
Fixpoint val_ind' (v : val) : P v :=
  match v with
  | VInt n => HInt n
  | VStr s => HStr s
  | VList l =>
      HList l ((fix go l := match l return Forall P l with
                | [] => List.Forall_nil _
                | x :: l => List.Forall_cons _ x l (val_ind' x) (go l) end) l)
  | VDict d =>
      HDict d ((fix go d := match d return Forall (fun kv => P kv.2) d with
                | [] => List.Forall_nil _
                | kv :: d => List.Forall_cons _ kv d (val_ind' kv.2) (go d) end) d)
  end.
End ValInd.

#[global] Instance val_eq_dec : EqDecision val.
Proof.
  refine (fix go (x y : val) : Decision (x = y) :=
    match x, y return Decision (x = y) with
    | VInt a, VInt b => cast_if (decide (a = b))
    | VStr a, VStr b => cast_if (decide (a = b))
    | VList a, VList b => cast_if (@list_eq_dec _ go a b)
    | VDict a, VDict b => cast_if (@list_eq_dec _ (@prod_eq_dec _ _ _ go) a b)
    | _, _ => right _
    end); congruence.
Defined.

(** ** Dictionaries *)
Abbreviation dget := (OrderedDict.assoc (V := val)).
Abbreviation dset := (OrderedDict.assoc_set (V := val)).
Abbreviation ddel := (OrderedDict.assoc_del (V := val)).
(** [k in d], [d[k]], [d.get(k, default)] *)
Definition dmem (k : string) (d : dict) : bool := bool_decide (k ∈ d.*1).
Definition dindex (k : string) (d : dict) : res val := of_option (KeyError k) (dget k d).

(** [repr] *)
Definition hex_digit (n : nat) : ascii :=
  ascii_of_nat (if n <? 10 then 48 + n else 87 + n).
Definition repr_char (quote c : ascii) : string :=
  if Ascii.eqb c quote || Ascii.eqb c "\" then String "\" (String c "")
  else if Ascii.eqb c newline then "\n"
  else if ord c =? 13 then "\r"
  else if ord c =? 9 then "\t"
  else if in_range 32 126 c then String c ""
  else "\x" +:+ String (hex_digit (ord c / 16)) (String (hex_digit (ord c mod 16)) "").
Definition repr_str (s : string) : string :=
  let quote := if str_mem "'" s && negb (str_mem dquote s) then dquote else "'"%char in
  String quote (str_subst (repr_char quote) s +:+ String quote "").
Fixpoint repr (v : val) : string :=
  match v with
  | VInt n => string_of_int n
  | VStr s => repr_str s
  | VList l => "[" +:+ join ", " (map repr l) +:+ "]"
  | VDict d => "{" +:+ join ", " (map (fun kv => repr_str kv.1 +:+ ": " +:+ repr kv.2) d) +:+ "}"
  end.
Definition py_str (v : val) : string :=
  match v with VInt n => string_of_int n | VStr s => s | _ => repr v end.

(** [type(x).__name__] *)
Definition type_name (v : val) : string :=
  match v with VInt _ => "int" | VStr _ => "str" | VList _ => "list" | VDict _ => "dict" end.
(** Truth of a value, and of what [d.get(k)] returns ([None] is false). *)
Definition val_truthy (v : val) : bool :=
  match v with
  | VInt n => negb (n =? 0)%Z
  | VStr s => negb (String.eqb s "")
  | VList l => negb (length l =? 0)
  | VDict d => negb (length d =? 0)
  end.
Definition get_truthy (k : string) (d : dict) : bool :=
  match dget k d with Some v => val_truthy v | None => false end.

(** [for x in v], [v.get(..)], and a value used as a key. *)
Fixpoint chars (s : string) : list val :=
  match s with "" => [] | String c s => VStr (String c "") :: chars s end.
Definition iterate (v : val) : res (list val) :=
  match v with
  | VList l => Ok l
  | VStr s => Ok (chars s)
  | VDict d => Ok (map (fun kv => VStr kv.1) d)
  | VInt _ => Err (TypeError "'int' object is not iterable")
  end.
Definition as_dict (attr : string) (v : val) : res dict :=
  match v with VDict d => Ok d | _ => Err (AttributeError attr) end.
Definition as_key (v : val) : res string :=
  match v with
  | VStr s => Ok s
  | VInt n => Err (KeyError (string_of_int n))
  | _ => Err (TypeError ("unhashable type: '" +:+ type_name v +:+ "'"))
  end.
(** [d.get(k, [])], iterated *)
Definition get_list (k : string) (d : dict) : res (list val) :=
  match dget k d with Some v => iterate v | None => Ok [] end.

(** Two values of one kind, strings and integers being one kind. *)
Definition same_kind (v w : val) : bool :=
  match v, w with
  | (VInt _ | VStr _), (VInt _ | VStr _) => true
  | VList _, VList _ => true
  | VDict _, VDict _ => true
  | _, _ => false
  end.

(** No repeated keys at any level *)
Fixpoint val_wf (v : val) : Prop :=
  match v with
  | VInt _ | VStr _ => True
  | VList l => (fix go l := match l with [] => True | x :: l => val_wf x /\ go l end) l
  | VDict d =>
      NoDup d.*1 /\
      (fix go (d : list (string * val)) := match d with [] => True | kv :: d => val_wf kv.2 /\ go d end) d
  end.

(** ** [simple_copy.deepcopy]: values have no identity, so this is a rebuild. *)
Fixpoint deepcopy (x : val) : val :=
  match x with
  | VInt n => VInt n
  | VStr s => VStr s
  | VList l => VList (map deepcopy l)
  | VDict d => VDict (map (fun kv => (kv.1, deepcopy kv.2)) d)
  end.

(** ** [TurnIntIntoStrInDict], [TurnIntIntoStrInList] *)
Fixpoint TurnIntIntoStr (v : val) : val :=
  match v with
  | VInt n => VStr (string_of_int n)
  | VStr s => VStr s
  | VList l => VList (map TurnIntIntoStr l)
  | VDict d => VDict (map (fun kv => (kv.1, TurnIntIntoStr kv.2)) d)
  end.
Definition TurnIntIntoStrInDict (the_dict : dict) : dict :=
  map (fun kv => (kv.1, TurnIntIntoStr kv.2)) the_dict.
Definition TurnIntIntoStrInList (the_list : list val) : list val := map TurnIntIntoStr the_list.

(** ** [CheckedEval], over Python's syntax trees

    A constant of a program: an [int], a [str], a [unicode] text (in utf-8) or
    another number ([long], [float], [complex]), which has the name of its type
    and either the integer that it is equal to or its [repr]. *)
Inductive const :=
  | CInt (n : Z)
  | CStr (s : string)
  | CUnicode (s : string)
  | CNumber (type_name : string) (value : Z + string).
#[global] Instance const_eq_dec : EqDecision const.
Proof. solve_decision. Defined.

Definition const_type (c : const) : string :=
  match c with
  | CInt _ => "int" | CStr _ => "str" | CUnicode _ => "unicode" | CNumber t _ => t
  end.
Definition const_text (c : const) : option string :=
  match c with CStr s | CUnicode s => Some s | CInt _ | CNumber _ _ => None end.
Definition const_number (c : const) : option (Z + string) :=
  match c with CInt n => Some (inl n) | CNumber _ v => Some v | CStr _ | CUnicode _ => None end.

(** Equality of two constants as keys: numbers by value, texts by their
    characters; a [str] that is not ascii is equal to no [unicode]. *)
Definition same_key (a b : const) : bool :=
  match a, b with
  | CStr s, CStr t | CUnicode s, CUnicode t => String.eqb s t
  | CStr s, CUnicode t | CUnicode s, CStr t =>
      String.eqb s t && str_forallb (fun c => ord c <? 128) s
  | _, _ =>
      match const_number a, const_number b with
      | Some v, Some w => bool_decide (v = w)
      | _, _ => false
      end
  end.

(** What [eval] makes of such a tree. *)
Inductive pyval :=
  | PConst (c : const)
  | PList (l : list pyval)
  | PDict (d : list (const * pyval)).

(** The nodes of [compiler.ast] that [CheckNode] tells apart; [Other] is any
    other one, with its [repr]. *)
Inductive node :=
  | Dict (items : list (node * node))
  | List (children : list node)
  | Const (c : const)
  | Other (repr : string).

(** A [Module] node with its [Stmt]: a statement that is an expression is a
    [Discard]. *)
Inductive statement :=
  | Discard (expr : node)
  | OtherStatement.
Record module_ast := { doc : option string; statements : list statement }.

(** ['.'.join(keypath)] *)
Fixpoint join_keypath_from (i : nat) (keypath : list const) : res (list string) :=
  match keypath with
  | [] => Ok []
  | c :: keypath =>
      match const_text c with
      | Some s => l ← join_keypath_from (S i) keypath; Ok (s :: l)
      | None => Err (TypeError ("sequence item " +:+ string_of_int (Z.of_nat i) +:+
                                ": expected string, " +:+ const_type c +:+ " found"))
      end
  end.
Definition join_keypath (keypath : list const) : res string :=
  l ← join_keypath_from 0 keypath; Ok (join "." l).

Definition key_in (key : const) (d : list (const * pyval)) : bool :=
  existsb (fun kv => same_key kv.1 key) d.

Definition repeated_key {A} (key : const) (keypath : list const) : res A :=
  match const_text key with
  | None => Err (TypeError ("cannot concatenate 'str' and '" +:+ const_type key +:+ "' objects"))
  | Some s =>
      path ← join_keypath keypath;
      Err (GypError ("Key '" +:+ s +:+ "' repeated at level " +:+
                     string_of_int (Z.of_nat (length keypath) + 1) +:+ " with key path '" +:+
                     path +:+ "'"))
  end.

Fixpoint CheckNode (n : node) (keypath : list const) {struct n} : res pyval :=
  match n with
  | Dict items =>
      (fix loop (items : list (node * node)) (d : list (const * pyval)) : res pyval :=
         match items with
         | [] => Ok (PDict d)
         | (Const key, value) :: items =>
             if key_in key d then repeated_key key keypath
             else
               v ← CheckNode value (keypath ++ [key])%list;
               loop items (d ++ [(key, v)])%list
         | _ :: _ => Err AssertionError
         end) items []
  | List children =>
      (fix loop (index : nat) (children : list node) (acc : list pyval) : res pyval :=
         match children with
         | [] => Ok (PList acc)
         | child :: children =>
             v ← CheckNode child (keypath ++ [CStr (string_of_int (Z.of_nat index))])%list;
             loop (S index) children (acc ++ [v])%list
         end) 0 children []
  | Const c => Ok (PConst c)
  | Other repr =>
      path ← join_keypath keypath;
      Err (TypeError ("Unknown AST node at key path '" +:+ path +:+ "': " +:+ repr))
  end.

(** Only the first statement is looked at. *)
Definition CheckedEval (ast : module_ast) : res pyval :=
  match doc ast with
  | Some _ => Err AssertionError
  | None =>
      match statements ast with
      | [] => Err IndexError
      | OtherStatement :: _ => Err AssertionError
      | Discard c3 :: _ => CheckNode c3 []
      end
  end.

(** No two equal keys at any level *)
Definition distinct_keys (l : list const) : Prop :=
  ForallOrdPairs (fun a b => same_key a b = false) l.
Fixpoint pyval_wf (v : pyval) : Prop :=
  match v with
  | PConst _ => True
  | PList l => (fix go l := match l with [] => True | x :: l => pyval_wf x /\ go l end) l
  | PDict d =>
      distinct_keys d.*1 /\
      (fix go (d : list (const * pyval)) :=
         match d with [] => True | kv :: d => pyval_wf kv.2 /\ go d end) d
  end.

(** The values of the later stages: integers, strings, and string keys.  The
    gyp files of the repository have no other constants. *)
Fixpoint plain (v : pyval) : option val :=
  match v with
  | PConst (CInt n) => Some (VInt n)
  | PConst (CStr s) => Some (VStr s)
  | PConst _ => None
  | PList l => VList <$> mapM plain l
  | PDict d =>
      VDict <$> mapM (fun kv => match kv.1 with
                                | CStr k => pair k <$> plain kv.2
                                | _ => None
                                end) d
  end.

(** ** [IsPathSection]

    [while section[-1:] in '=+?!': section = section[:-1]].  The empty string is
    a substring of every string: the loop does not end once the name is empty. *)
Definition policy_char (c : ascii) : bool := str_mem c "=+?!".
Fixpoint strip_policy (fuel : nat) (section : string) : res string :=
  match fuel with
  | 0 => NoFuel
  | S fuel =>
      let last := str_last 1 section in
      if match last with "" => true | String c _ => policy_char c end
      then strip_policy fuel (str_init 1 section)
      else Ok section
  end.
Definition path_suffix (section : string) : bool :=
  if str_mem "_" section then
    let tail := str_last 6 section in
    let tail := if endswith "s" tail then str_init 1 tail else tail in
    let tail5 := str_last 5 tail in
    if String.eqb tail5 "_file" || String.eqb tail5 "_path" then true
    else String.eqb (str_last 4 tail) "_dir"
  else false.
Definition IsPathSection_fuel (path_sections : gset string) (fuel : nat) (section : string)
    : res bool :=
  section ← strip_policy fuel section;
  Ok (if decide (section ∈ path_sections) then true else path_suffix section).
(** One round per character, and one to stop: [strip_policy_fuel] *)
Definition IsPathSection (path_sections : gset string) (section : string) : res bool :=
  IsPathSection_fuel path_sections (S (String.length section)) section.

Definition base_path_sections : list string :=
  ["destination"; "files"; "include_dirs"; "inputs"; "libraries"; "outputs"; "sources"].

(** ** [IsStrCanonicalInt], [FindEnclosingBracketGroup] *)
Definition IsStrCanonicalInt (s : string) : bool :=
  if String.eqb s "" then false
  else if String.eqb s "0" then true
  else
    let s := match s with String "-"%char s' => s' | _ => s end in
    match s with
    | "" => false
    | String c _ => if in_range 49 57 c then str_forallb isdigit s else false
    end.

(** [BRACKETS] maps each closing bracket to its opening one. *)
Definition open_of (c : ascii) : option ascii :=
  if Ascii.eqb c "}" then Some "{"%char
  else if Ascii.eqb c "]" then Some "["%char
  else if Ascii.eqb c ")" then Some "("%char
  else None.
Definition LBRACKETS (c : ascii) : bool := str_mem c "{[(".
Fixpoint bracket_loop (stack : list ascii) (start : option nat) (index : nat) (s : string)
    : option (nat * nat) :=
  match s with
  | "" => None
  | String char s =>
      if LBRACKETS char then
        bracket_loop (char :: stack) (match start with None => Some index | _ => start end)
          (S index) s
      else
        match open_of char with
        | Some b =>
            match stack with
            | [] => None
            | top :: stack =>
                if negb (Ascii.eqb top b) then None
                else
                  match stack, start with
                  | [], Some st => Some (st, S index)
                  | _, _ => bracket_loop stack start (S index) s
                  end
            end
        | None => bracket_loop stack start (S index) s
        end
  end.
(** [(-1, -1)] is [None]. *)
Definition FindEnclosingBracketGroup (input_str : string) : option (nat * nat) :=
  bracket_loop [] None 0 input_str.

(** ** [CheckNode]: the trees it accepts are the printed values *)
Fixpoint quote (v : pyval) : node :=
  match v with
  | PConst c => Const c
  | PList l => List (map quote l)
  | PDict d => Dict (map (fun kv => (Const kv.1, quote kv.2)) d)
  end.

(** The two loops of [CheckNode], by name. *)
Fixpoint check_items (items : list (node * node)) (keypath : list const)
    (d : list (const * pyval)) : res pyval :=
  match items with
  | [] => Ok (PDict d)
  | (Const key, value) :: items =>
      if key_in key d then repeated_key key keypath
      else
        v ← CheckNode value (keypath ++ [key])%list;
        check_items items keypath (d ++ [(key, v)])%list
  | _ :: _ => Err AssertionError
  end.
Fixpoint check_children (index : nat) (children : list node) (keypath : list const)
    (acc : list pyval) : res pyval :=
  match children with
  | [] => Ok (PList acc)
  | child :: children =>
      v ← CheckNode child (keypath ++ [CStr (string_of_int (Z.of_nat index))])%list;
      check_children (S index) children keypath (acc ++ [v])%list
  end.
Lemma CheckNode_Dict items keypath : CheckNode (Dict items) keypath = check_items items keypath [].
Proof.
  simpl. generalize (@nil (const * pyval)) at 2 3.
  induction items as [|[[| |k|] n] items IH]; intros d; simpl; [done..| |done].
  destruct (key_in k d); [done|]. destruct (CheckNode n _); simpl; auto.
Qed.
Lemma CheckNode_List children keypath :
  CheckNode (List children) keypath = check_children 0 children keypath [].
Proof.
  simpl. generalize 0. intros i. generalize (@nil pyval) at 2 3. revert i.
  induction children as [|n ns IH]; intros i acc; simpl; [done|].
  destruct (CheckNode n _); simpl; auto.
Qed.

Lemma val_wf_list l : val_wf (VList l) <-> Forall val_wf l.
Proof.
  simpl. induction l as [|v l IH]; [split; [constructor|done]|]. rewrite list.Forall_cons, IH. done.
Qed.
Lemma val_wf_dict d : val_wf (VDict d) <-> NoDup d.*1 /\ Forall (fun kv => val_wf kv.2) d.
Proof.
  simpl. apply and_iff_compat_l. induction d as [|v l IH]; [split; [constructor|done]|].
  rewrite list.Forall_cons, IH. done.
Qed.

Lemma pyval_wf_list l : pyval_wf (PList l) <-> Forall pyval_wf l.
Proof.
  simpl. induction l as [|v l IH]; [split; [constructor|done]|]. rewrite list.Forall_cons, IH. done.
Qed.
Lemma pyval_wf_dict d :
  pyval_wf (PDict d) <-> distinct_keys d.*1 /\ Forall (fun kv => pyval_wf kv.2) d.
Proof.
  simpl. apply and_iff_compat_l. induction d as [|v l IH]; [split; [constructor|done]|].
  rewrite list.Forall_cons, IH. done.
Qed.

Lemma distinct_keys_snoc l k :
  distinct_keys (l ++ [k]) <-> distinct_keys l /\ Forall (fun a => same_key a k = false) l.
Proof.
  unfold distinct_keys. induction l as [|a l IH]; simpl; [split; [by repeat constructor|by repeat constructor]|].
  rewrite list.Forall_cons. split.
  - inversion 1 as [|? ? Ha Hl]; subst. apply IH in Hl as [Hl Hk].
    apply Forall_app in Ha as [Ha Hak]. rewrite list.Forall_singleton in Hak.
    split; [by constructor|done].
  - intros [Hl [Ha Hk]]. inversion Hl as [|? ? Hal Hl']; subst. constructor; [|by apply IH].
    apply Forall_app. split; [done|]. by apply list.Forall_singleton.
Qed.
Lemma distinct_keys_app l k : distinct_keys (l ++ k) -> distinct_keys l.
Proof.
  unfold distinct_keys. induction l as [|a l IH]; simpl; [constructor|].
  inversion 1 as [|? ? Ha Hl]; subst. apply Forall_app in Ha as [Ha _].
  constructor; auto.
Qed.
Lemma key_in_false key d :
  key_in key d = false <-> Forall (fun a => same_key a key = false) d.*1.
Proof.
  unfold key_in. induction d as [|[k v] d IH]; simpl; [split; [constructor|done]|].
  rewrite list.Forall_cons, orb_false_iff, IH. done.
Qed.

Section PyvalInd.
Context (P : pyval -> Prop) (HC : forall c, P (PConst c)).
Context (HL : forall l, Forall P l -> P (PList l)).
Context (HD : forall d, Forall (fun kv => P kv.2) d -> P (PDict d)).
Fixpoint pyval_ind' (v : pyval) : P v :=
  match v with
  | PConst c => HC c
  | PList l =>
      HL l ((fix go l := match l return Forall P l with
             | [] => List.Forall_nil _
             | x :: l => List.Forall_cons _ x l (pyval_ind' x) (go l) end) l)
  | PDict d =>
      HD d ((fix go d := match d return Forall (fun kv => P kv.2) d with
             | [] => List.Forall_nil _
             | kv :: d => List.Forall_cons _ kv d (pyval_ind' kv.2) (go d) end) d)
  end.
End PyvalInd.

Lemma CheckNode_quote v keypath : pyval_wf v -> CheckNode (quote v) keypath = Ok v.
Proof.
  revert keypath; induction v as [c|l IH|d IH] using pyval_ind'; intros keypath; [done| |].
  - rewrite pyval_wf_list. intros Hwf. cbn [quote]. rewrite CheckNode_List.
    assert (Hg : forall i acc, check_children i (map quote l) keypath acc = Ok (PList (acc ++ l)%list)).
    { induction IH as [|v l Hv _ IH']; intros i acc; simpl; [by rewrite app_nil_r|].
      apply list.Forall_cons in Hwf as [Hw Hwf]. rewrite (Hv _ Hw). cbn [mbind res_bind].
      rewrite IH' by done. by rewrite <- app_assoc. }
    apply Hg.
  - rewrite pyval_wf_dict. intros [Hnd Hwf]. cbn [quote]. rewrite CheckNode_Dict.
    assert (Hg : forall acc, distinct_keys (acc ++ d)%list.*1 -> check_items
      (map (fun kv => (Const kv.1, quote kv.2)) d) keypath acc = Ok (PDict (acc ++ d)%list)).
    { clear Hnd. induction IH as [|[k v] d Hv _ IH']; intros acc Hnd; simpl; [by rewrite app_nil_r|].
      apply list.Forall_cons in Hwf as [Hw Hwf].
      replace (acc ++ (k, v) :: d)%list with ((acc ++ [(k, v)]) ++ d)%list in *
        by by rewrite <- app_assoc.
      assert (key_in k acc = false) as ->.
      { apply key_in_false. rewrite !fmap_app in Hnd.
        by apply distinct_keys_app, distinct_keys_snoc in Hnd as [_ Hnd]. }
      rewrite (Hv _ Hw). cbn [mbind res_bind]. by apply IH'. }
    by apply Hg.
Qed.

Section NodeInd.
Context (P : node -> Prop).
Context (HDict : forall items, Forall (fun kn => P kn.2) items -> P (Dict items)).
Context (HList : forall l, Forall P l -> P (List l)).
Context (HConst : forall c, P (Const c)) (HOther : forall r, P (Other r)).
Fixpoint node_ind' (n : node) : P n :=
  match n with
  | Dict items =>
      HDict items ((fix go d := match d return Forall (fun kn => P kn.2) d with
                    | [] => List.Forall_nil _
                    | kn :: d => List.Forall_cons _ kn d (node_ind' kn.2) (go d) end) items)
  | List l =>
      HList l ((fix go l := match l return Forall P l with
                | [] => List.Forall_nil _
                | x :: l => List.Forall_cons _ x l (node_ind' x) (go l) end) l)
  | Const c => HConst c
  | Other r => HOther r
  end.
End NodeInd.

Lemma repeated_key_raises {A} key keypath (a : A) : repeated_key key keypath <> Ok a.
Proof. unfold repeated_key. destruct (const_text key); [|done]. by destruct (join_keypath keypath). Qed.

Lemma CheckNode_inv n keypath v : CheckNode n keypath = Ok v -> n = quote v /\ pyval_wf v.
Proof.
  revert keypath v; induction n as [items IH|l IH|c|r] using node_ind'; intros keypath v.
  - rewrite CheckNode_Dict. intros H.
    assert (Hg : forall acc, distinct_keys acc.*1 -> Forall (fun kv => pyval_wf kv.2) acc ->
      check_items items keypath acc = Ok v ->
      exists d, v = PDict (acc ++ d)%list /\ items = map (fun kv => (Const kv.1, quote kv.2)) d /\
        distinct_keys (acc ++ d)%list.*1 /\ Forall (fun kv => pyval_wf kv.2) (acc ++ d)%list).
    { clear H. induction IH as [|[[| |k|] n] items Hn _ IH']; intros acc Hnd Hwf; simpl; try done.
      - intros [= <-]. exists []. by rewrite app_nil_r.
      - destruct (key_in k acc) eqn:Hk; [by intros ?%repeated_key_raises|]. intros (w & Hw & Hrest)%bind_ok.
        simpl in Hn. apply Hn in Hw as [-> Hww].
        apply IH' in Hrest as (d & -> & -> & Hnd' & Hwf').
        + exists ((k, w) :: d). simpl. by rewrite <- app_assoc in *.
        + rewrite fmap_app. apply distinct_keys_snoc. by rewrite <- key_in_false.
        + apply Forall_app. split; [done|]. by apply list.Forall_singleton. }
    destruct (Hg [] ltac:(by constructor) ltac:(by apply list.Forall_nil) H) as (d & -> & -> & Hnd & Hwf).
    split; [done|]. by apply pyval_wf_dict.
  - rewrite CheckNode_List. intros H.
    assert (Hg : forall i acc, Forall pyval_wf acc -> check_children i l keypath acc = Ok v ->
      exists k, v = PList (acc ++ k)%list /\ l = map quote k /\ Forall pyval_wf (acc ++ k)%list).
    { clear H. induction IH as [|n l Hn _ IH']; intros i acc Hwf; simpl.
      - intros [= <-]. exists []. by rewrite app_nil_r.
      - intros (w & Hw & Hrest)%bind_ok. apply Hn in Hw as [-> Hww].
        apply IH' in Hrest as (k & -> & -> & Hwf').
        + exists (w :: k). simpl. by rewrite <- app_assoc in *.
        + apply Forall_app. split; [done|]. by apply list.Forall_singleton. }
    destruct (Hg 0 [] ltac:(by apply list.Forall_nil) H) as (k & -> & -> & Hwf). split; [done|].
    by apply pyval_wf_list.
  - intros [= <-]. done.
  - simpl. by destruct (join_keypath keypath).
Qed.

Lemma join_keypath_ends keypath : join_keypath keypath <> NoFuel.
Proof.
  unfold join_keypath.
  assert (H : forall i, join_keypath_from i keypath <> NoFuel).
  { induction keypath as [|c l IH]; intros i; simpl; [done|]. destruct (const_text c); [|done].
    specialize (IH (S i)). by destruct (join_keypath_from _ l). }
  specialize (H 0). by destruct (join_keypath_from 0 keypath).
Qed.
Lemma CheckNode_ends n keypath : CheckNode n keypath <> NoFuel.
Proof.
  revert keypath; induction n as [items IH|l IH|c|r] using node_ind'; intros keypath; [..|done|].
  - rewrite CheckNode_Dict. generalize (@nil (const * pyval)).
    induction IH as [|[[| |k|] n] items Hn _ IH']; intros d; simpl; try done.
    destruct (key_in k d).
    { unfold repeated_key. pose proof (join_keypath_ends keypath).
      destruct (const_text k); [|done]. by destruct (join_keypath keypath). }
    simpl in Hn. specialize (Hn (keypath ++ [k])%list).
    destruct (CheckNode n _); simpl; [apply IH'|done|done].
  - rewrite CheckNode_List. generalize 0 (@nil pyval).
    induction IH as [|n l Hn _ IH']; intros i acc; simpl; [done|].
    specialize (Hn (keypath ++ [CStr (string_of_int (Z.of_nat i))])%list).
    destruct (CheckNode n _); simpl; [apply IH'|done|done].
  - simpl. pose proof (join_keypath_ends keypath). by destruct (join_keypath keypath).
Qed.

(** C12. The restricted evaluator accepts a file exactly when it has no
    docstring and its first statement is an expression built from lists,
    dictionaries and constants, with constant keys of which no two at one level
    are equal; it answers the value of that expression, whatever statements
    follow.  On every other file it raises, and it always ends. *)
Theorem CheckedEval_accepts ast :
  (forall v, CheckedEval ast = Ok v <->
     doc ast = None /\ exists rest, statements ast = Discard (quote v) :: rest /\ pyval_wf v) /\
  CheckedEval ast <> NoFuel.
Proof.
  unfold CheckedEval. split.
  - intros v. destruct (doc ast); [by split; [|intros []]|].
    destruct (statements ast) as [|[n|] rest]; [by split; [|intros (_ & ? & ? & _)]| |
      by split; [|intros (_ & ? & ? & _)]].
    split.
    + intros [-> Hwf]%CheckNode_inv. eauto.
    + intros (_ & rest' & [= -> _] & Hwf). by apply CheckNode_quote.
  - destruct (doc ast); [done|]. destruct (statements ast) as [|[n|] rest]; [done| |done].
    apply CheckNode_ends.
Qed.

Lemma CheckedEval_repeated :
  CheckedEval {| doc := None; statements := [Discard (Dict [(Const (CStr "a"),
    List [Dict [(Const (CUnicode "b"), Const (CInt 1)); (Const (CStr "b"), Const (CInt 2))]])])] |} =
  Err (GypError "Key 'b' repeated at level 3 with key path 'a.0'").
Proof. reflexivity. Qed.
Lemma CheckedEval_repeated_number :
  CheckedEval {| doc := None; statements := [Discard (Dict [
    (Const (CInt 1), Const (CStr "x")); (Const (CNumber "float" (inl 1%Z)), Const (CStr "y"))])] |} =
  Err (TypeError "cannot concatenate 'str' and 'float' objects").
Proof. reflexivity. Qed.

(** ** The end of a string *)
Lemma str_snoc_ind (P : string -> Prop) :
  P "" -> (forall t c, P t -> P (t +:+ String c "")) -> forall s, P s.
Proof.
  intros H0 Hs s. assert (Hg : forall n s, String.length s = n -> P s); [|by eapply Hg].
  induction n as [|n IH]; intros [|c t] Hl; try done.
  assert (Hx : exists u d, String c t = u +:+ String d "" /\ String.length u = n).
  { clear -Hl. revert c n Hl. induction t as [|d t IH]; intros c n Hl; simpl in *.
    - exists "", c. split; [done|]. simpl. lia.
    - destruct n as [|n]; [lia|]. destruct (IH d n ltac:(lia)) as (u & e & -> & Hu).
      exists (String c u), e. split; [done|]. simpl. lia. }
  destruct Hx as (u & d & -> & Hu). apply Hs. by apply IH.
Qed.
Lemma str_drop_app_le k a b : k <= String.length a -> str_drop k (a +:+ b) = str_drop k a +:+ b.
Proof.
  revert k; induction a as [|c a IH]; intros [|k] Hk; simpl in *; try done; [lia|]. apply IH. lia.
Qed.
Lemma str_last_app n a b : String.length b <= n ->
  str_last n (a +:+ b) = str_last (n - String.length b) a +:+ b.
Proof.
  intros Hn. unfold str_last. rewrite length_append, str_drop_app_le by lia.
  f_equal. f_equal. lia.
Qed.
Lemma str_last_all n a : String.length a <= n -> str_last n a = a.
Proof. intros H. unfold str_last. by replace (String.length a - n) with 0 by lia. Qed.
Lemma str_last_snoc t c : str_last 1 (t +:+ String c "") = String c "".
Proof. rewrite str_last_app by done. simpl. unfold str_last. by rewrite Nat.sub_0_r, str_drop_all. Qed.
Lemma str_last_split n s : exists q, s = q +:+ str_last n s.
Proof. exists (str_take (String.length s - n) s). symmetry. apply str_take_drop. Qed.
Lemma endswith_spec suf s : endswith suf s = true <-> exists t, s = t +:+ suf.
Proof.
  induction s as [|c s IH].
  - cbn [endswith]. rewrite orb_false_r, String.eqb_eq. split; [intros ->; by exists ""|].
    intros [[|? ?] Ht]; simpl in Ht; [done|discriminate].
  - cbn [endswith]. rewrite orb_true_iff, IH, String.eqb_eq. split.
    + intros [->|[t ->]]; [by exists ""|by exists (String c t)].
    + intros [[|d t] Ht]; [by left|]. right. exists t. by injection Ht.
Qed.
Lemma endswith_last c t d : endswith (String c "") (t +:+ String d "") = Ascii.eqb c d.
Proof.
  apply eq_true_iff_eq. rewrite endswith_spec, Ascii.eqb_eq. split; [|intros ->; by exists t].
  intros [u Hu]. apply (f_equal (str_last 1)) in Hu. rewrite !str_last_snoc in Hu. congruence.
Qed.

(** ** [IsPathSection] *)
Definition path_suffixes : list string := ["_dir"; "_dirs"; "_file"; "_files"; "_path"; "_paths"].

Lemma strip_policy_snoc fuel t c :
  strip_policy (S fuel) (t +:+ String c "") =
  if policy_char c then strip_policy fuel t else Ok (t +:+ String c "").
Proof. cbn [strip_policy]. by rewrite str_last_snoc, str_init_snoc. Qed.
Lemma rstrip_of_snoc p t c :
  rstrip_of p (t +:+ String c "") = if p c then rstrip_of p t else t +:+ String c "".
Proof.
  induction t as [|d t IH]; [simpl; by destruct (p c)|]. rewrite append_cons. simpl. rewrite IH.
  destruct (p c); [done|]. by destruct t.
Qed.
Lemma strip_policy_fuel fuel s :
  String.length s < fuel ->
  strip_policy fuel s =
  (if String.eqb (rstrip_of policy_char s) "" then NoFuel else Ok (rstrip_of policy_char s)) /\
  (rstrip_of policy_char s = "" -> forall fuel, strip_policy fuel s = NoFuel).
Proof.
  assert (Hz : forall fuel, strip_policy fuel "" = NoFuel) by (induction fuel0; done).
  intros Hf. split.
  - revert fuel Hf. induction s as [|t c IH] using str_snoc_ind; intros fuel Hf; [by rewrite Hz|].
    destruct fuel as [|fuel]; [lia|]. rewrite length_append in Hf. simpl in Hf.
    rewrite strip_policy_snoc, rstrip_of_snoc. destruct (policy_char c).
    + apply IH. lia.
    + by destruct t.
  - clear Hf. induction s as [|t c IH] using str_snoc_ind; intros Hr fuel'; [done|].
    rewrite rstrip_of_snoc in Hr. destruct fuel' as [|fuel']; [done|]. rewrite strip_policy_snoc.
    destruct (policy_char c); [by apply IH|by destruct t].
Qed.

Lemma path_suffix_spec s : path_suffix s = true <-> exists t suf, suf ∈ path_suffixes /\ s = t +:+ suf.
Proof.
  unfold path_suffix. split.
  - destruct (str_mem "_" s); [|done]. destruct (str_last_split 6 s) as [p Hp].
    set (tail := str_last 6 s) in *. intros H.
    assert (Hx : exists x t, tail = x +:+ t /\ (t = "" \/ t = "s") /\
      (str_last 5 x = "_file" \/ str_last 5 x = "_path" \/ str_last 4 x = "_dir")).
    { destruct (endswith "s" tail) eqn:E.
      - apply endswith_spec in E as [x Hx]. exists x, "s". split; [done|]. split; [by right|].
        rewrite Hx, str_init_snoc in H. destruct (String.eqb_spec (str_last 5 x) "_file"); [auto|].
        destruct (String.eqb_spec (str_last 5 x) "_path"); [auto|]. apply String.eqb_eq in H. auto.
      - exists tail, "". rewrite append_nil_r. split; [done|]. split; [by left|].
        destruct (String.eqb_spec (str_last 5 tail) "_file"); [auto|].
        destruct (String.eqb_spec (str_last 5 tail) "_path"); [auto|]. apply String.eqb_eq in H. auto. }
    destruct Hx as (x & t & Ht & Hcase & Hlast).
    assert (Hq : exists q suf, x = q +:+ suf /\ suf +:+ t ∈ path_suffixes).
    { unfold path_suffixes.
      destruct Hlast as [Hl|[Hl|Hl]];
        [destruct (str_last_split 5 x) as [q Hq]|destruct (str_last_split 5 x) as [q Hq]|
         destruct (str_last_split 4 x) as [q Hq]];
        rewrite Hl in Hq; exists q; eexists; (split; [exact Hq|]);
        destruct Hcase as [->| ->]; simpl; set_solver. }
    destruct Hq as (q & suf & -> & Hin). exists (p +:+ q), (suf +:+ t). split; [done|].
    rewrite Hp, Ht. by rewrite !append_assoc.
  - intros (t & suf & Hin & ->). unfold path_suffixes in Hin.
    rewrite str_last_app by (repeat (apply elem_of_cons in Hin as [->|Hin]; [simpl; lia|]);
      by apply not_elem_of_nil in Hin).
    generalize (str_last (6 - String.length suf) t). intros z.
    assert (Hm : str_mem "_" (t +:+ suf) = true).
    { rewrite str_mem_app. apply orb_true_iff. right.
      repeat (apply elem_of_cons in Hin as [->|Hin]; [done|]). by apply not_elem_of_nil in Hin. }
    rewrite Hm.
    assert (Hend : forall x y, endswith "s" (z +:+ x +:+ String y "") = Ascii.eqb "s" y).
    { intros x y. rewrite <- append_assoc. apply endswith_last. }
    assert (Hini : forall x y, str_init 1 (z +:+ x +:+ String y "") = z +:+ x).
    { intros x y. rewrite <- append_assoc. apply str_init_snoc. }
    assert (H5 : forall x, String.length x = 5 -> str_last 5 (z +:+ x) = x).
    { intros x Hx. rewrite str_last_app by lia. rewrite Hx, Nat.sub_diag. unfold str_last.
      by rewrite Nat.sub_0_r, str_drop_all. }
    assert (H4 : str_last 4 (z +:+ "_dir") = "_dir").
    { rewrite str_last_app by done. simpl. unfold str_last. by rewrite Nat.sub_0_r, str_drop_all. }
    repeat (apply elem_of_cons in Hin as [->|Hin]); [..|by apply not_elem_of_nil in Hin].
    + assert (endswith "s" (z +:+ "_dir") = false) as -> by apply (Hend "_di" "r"%char).
      rewrite H4. by destruct (_ || _).
    + assert (endswith "s" (z +:+ "_dirs") = true) as -> by apply (Hend "_dir" "s"%char).
      assert (str_init 1 (z +:+ "_dirs") = z +:+ "_dir") as -> by apply (Hini "_dir" "s"%char).
      rewrite H4. by destruct (_ || _).
    + assert (endswith "s" (z +:+ "_file") = false) as -> by apply (Hend "_fil" "e"%char).
      by rewrite H5.
    + assert (endswith "s" (z +:+ "_files") = true) as -> by apply (Hend "_file" "s"%char).
      assert (str_init 1 (z +:+ "_files") = z +:+ "_file") as -> by apply (Hini "_file" "s"%char).
      by rewrite H5.
    + assert (endswith "s" (z +:+ "_path") = false) as -> by apply (Hend "_pat" "h"%char).
      by rewrite H5.
    + assert (endswith "s" (z +:+ "_paths") = true) as -> by apply (Hend "_path" "s"%char).
      assert (str_init 1 (z +:+ "_paths") = z +:+ "_path") as -> by apply (Hini "_path" "s"%char).
      by rewrite H5.
Qed.

(** A section name is first stripped of its policy characters; what is left,
    if anything is, is a path section exactly when it is a listed one or ends in
    [_dir], [_file] or [_path], possibly plural, as the regular expression of the
    comment says.  If nothing is left, for the empty name too, the stripping
    loop never ends. *)
Theorem IsPathSection_spec path_sections section :
  let base := rstrip_of policy_char section in
  (base = "" -> forall fuel, IsPathSection_fuel path_sections fuel section = NoFuel) /\
  (base <> "" -> exists b, IsPathSection path_sections section = Ok b /\
     (b = true <-> base ∈ path_sections \/
                   exists t suf, suf ∈ path_suffixes /\ base = t +:+ suf)).
Proof.
  intros base. unfold IsPathSection, IsPathSection_fuel.
  destruct (strip_policy_fuel (S (String.length section)) section) as [H1 H2]; [lia|].
  fold base in H1, H2. split.
  - intros Hb fuel. by rewrite H2.
  - intros Hb. apply String.eqb_neq in Hb as Hb'. rewrite Hb' in H1. rewrite H1.
    eexists. split; [done|]. rewrite <- path_suffix_spec. case_decide; split; auto; tauto.
Qed.
Lemma IsPathSection_spec_witness :
  (forall fuel, IsPathSection_fuel {["sources"]} fuel "+?" = NoFuel) /\
  (exists b, IsPathSection {["sources"]} "output_dirs+" = Ok b /\
     (b = true <-> "output_dirs" ∈ ({["sources"]} : gset string) \/
                   exists t suf, suf ∈ path_suffixes /\ "output_dirs" = t +:+ suf)).
Proof.
  split.
  - exact (proj1 (IsPathSection_spec {["sources"]} "+?") eq_refl).
  - exact (proj2 (IsPathSection_spec {["sources"]} "output_dirs+")
             ltac:(vm_compute; discriminate)).
Defined.

(** ** [FindEnclosingBracketGroup] *)
Inductive balanced : string -> Prop :=
  | bal_nil : balanced ""
  | bal_char c s : LBRACKETS c = false -> open_of c = None -> balanced s ->
      balanced (String c s)
  | bal_group o inner c rest : LBRACKETS o = true -> open_of c = Some o ->
      balanced inner -> balanced rest -> balanced (String o (inner +:+ String c rest)).
Definition no_bracket (c : ascii) : bool :=
  negb (LBRACKETS c) && match open_of c with None => true | Some _ => false end.

Lemma open_not_left c o : open_of c = Some o -> LBRACKETS c = false /\ LBRACKETS o = true.
Proof.
  unfold open_of. repeat case_match; intros [= <-];
    match goal with H : Ascii.eqb c _ = true |- _ => apply Ascii.eqb_eq in H as -> end; done.
Qed.

Lemma bracket_loop_balanced g o st start i s : balanced g ->
  bracket_loop (o :: st) (Some start) i (g +:+ s) =
  bracket_loop (o :: st) (Some start) (i + String.length g) s.
Proof.
  intros Hg. revert o st i s.
  induction Hg as [|c g Hc Ho _ IH|b inner c rest Hb Hc _ IH1 _ IH2]; intros o st i s.
  - by rewrite Nat.add_0_r.
  - rewrite append_cons. cbn [bracket_loop]. rewrite Hc, Ho, IH. f_equal. simpl. lia.
  - rewrite append_cons, append_assoc, append_cons. cbn [bracket_loop]. rewrite Hb, IH1.
    cbn [bracket_loop]. destruct (open_not_left _ _ Hc) as [-> _]. rewrite Hc, Ascii.eqb_refl.
    cbn [negb]. rewrite IH2. f_equal. simpl. rewrite length_append. simpl. lia.
Qed.

Lemma bracket_loop_inv n o st start i s a b :
  String.length s <= n -> LBRACKETS o = true ->
  bracket_loop (o :: st) (Some start) i s = Some (a, b) ->
  exists g c s', s = g +:+ String c s' /\ balanced g /\ open_of c = Some o /\
    match st with
    | [] => a = start /\ b = i + String.length g + 1
    | _ => bracket_loop st (Some start) (i + String.length g + 1) s' = Some (a, b)
    end.
Proof.
  revert o st i s; induction n as [|n IH]; intros o st i [|c s] Hl Ho; simpl in Hl; try lia;
    try done.
  cbn [bracket_loop]. destruct (LBRACKETS c) eqn:Hc.
  - intros H. destruct (IH c (o :: st) (S i) s) as (g1 & c1 & s1 & -> & Hg1 & Hc1 & H1);
      [lia|done|done|].
    rewrite length_append in Hl. simpl in Hl.
    destruct (IH o st _ s1 ltac:(lia) Ho H1) as (g2 & c2 & s2 & -> & Hg2 & Hc2 & H2).
    exists (String c (g1 +:+ String c1 g2)), c2, s2. split_and!.
    + by rewrite append_cons, append_assoc, append_cons.
    + by apply bal_group.
    + done.
    + simpl. rewrite length_append. simpl.
      replace (i + S (String.length g1 + S (String.length g2)) + 1)
        with (S i + String.length g1 + 1 + String.length g2 + 1) by lia. done.
  - destruct (open_of c) as [b'|] eqn:Hoc.
    + destruct (Ascii.eqb_spec o b') as [<-|]; [|done]. cbn [negb]. intros H.
      exists "", c, s. split_and!; [done|constructor|done|].
      destruct st; simpl; rewrite Nat.add_0_r, Nat.add_1_r; [by injection H as <- <-|done].
    + intros H. destruct (IH o st (S i) s) as (g & c1 & s1 & -> & Hg & Hc1 & H1); [lia|done|done|].
      exists (String c g), c1, s1. split_and!; [done|by apply bal_char|done|].
      simpl. replace (i + S (String.length g) + 1) with (S i + String.length g + 1) by lia. done.
Qed.

Lemma bracket_loop_plain pre i s : str_forallb no_bracket pre = true ->
  bracket_loop [] None i (pre +:+ s) = bracket_loop [] None (i + String.length pre) s.
Proof.
  revert i; induction pre as [|c pre IH]; intros i; [by rewrite Nat.add_0_r|].
  simpl. intros [Hc Hp]%andb_true_iff. unfold no_bracket in Hc. apply andb_true_iff in Hc as [Hc Ho].
  apply negb_true_iff in Hc. rewrite Hc. destruct (open_of c); [done|]. rewrite IH by done.
  f_equal. lia.
Qed.

(** The bracket scanner finds [i, j) exactly when nothing before [i] is a
    bracket and the text from [i] to [j] is one group: a bracket, properly nested
    text, the matching bracket. *)
Theorem FindEnclosingBracketGroup_spec s i j :
  FindEnclosingBracketGroup s = Some (i, j) <->
  exists pre o inner c rest, s = pre +:+ String o (inner +:+ String c rest) /\
    str_forallb no_bracket pre = true /\ LBRACKETS o = true /\ open_of c = Some o /\
    balanced inner /\ i = String.length pre /\ j = i + String.length inner + 2.
Proof.
  unfold FindEnclosingBracketGroup. split.
  - intros H. assert (Hg : forall k s, bracket_loop [] None k s = Some (i, j) ->
      exists pre o inner c rest, s = pre +:+ String o (inner +:+ String c rest) /\
        str_forallb no_bracket pre = true /\ LBRACKETS o = true /\ open_of c = Some o /\
        balanced inner /\ i = k + String.length pre /\ j = i + String.length inner + 2);
      [|by apply (Hg 0)].
    clear s H. intros k s. revert k. induction s as [|c s IH]; intros k; [done|].
    cbn [bracket_loop]. destruct (LBRACKETS c) eqn:Hc.
    + intros H. destruct (bracket_loop_inv _ _ _ _ _ _ _ _ (le_n _) Hc H)
        as (g & d & s' & -> & Hg & Hd & -> & ->).
      exists "", c, g, d, s'. split_and!; try done; simpl; lia.
    + destruct (open_of c) eqn:Ho; [done|]. intros H.
      destruct (IH (S k) H) as (pre & o & g & d & s' & -> & Hp & ? & ? & ? & -> & ->).
      exists (String c pre), o, g, d, s'. split_and!; try done; simpl; try lia.
      rewrite Hp. unfold no_bracket. by rewrite Hc, Ho.
  - intros (pre & o & g & c & rest & -> & Hp & Ho & Hc & Hg & -> & ->).
    rewrite bracket_loop_plain by done. cbn [bracket_loop]. rewrite Ho.
    rewrite bracket_loop_balanced by done. cbn [bracket_loop].
    destruct (open_not_left _ _ Hc) as [-> _]. rewrite Hc, Ascii.eqb_refl. cbn [negb].
    f_equal. f_equal. lia.
Qed.

(** ** [IsStrCanonicalInt] *)
Definition digit_char (n : N) : ascii := pretty_N_char n.
Lemma digit_char_ok n : (n < 10)%N -> isdigit (digit_char n) = true /\
  (in_range 49 57 (digit_char n) = true <-> n <> 0%N).
Proof.
  intros H. destruct n as [|p]; [vm_compute; intuition congruence|].
  do 4 (try destruct p as [p|p|]); try lia; vm_compute; intuition congruence.
Qed.
Lemma digit_char_surj c : isdigit c = true -> exists n, (n < 10)%N /\ digit_char n = c.
Proof.
  intros H. unfold isdigit, in_range in H. apply andb_true_iff in H as [H1 H2].
  apply Nat.leb_le in H1, H2. exists (N.of_nat (ord c - 48)). split; [lia|].
  unfold digit_char. rewrite <- (ascii_nat_embedding c) at 2. unfold ord in *.
  assert (Hn : nat_of_ascii c = 48 \/ nat_of_ascii c = 49 \/ nat_of_ascii c = 50 \/ nat_of_ascii c = 51 \/
    nat_of_ascii c = 52 \/ nat_of_ascii c = 53 \/ nat_of_ascii c = 54 \/ nat_of_ascii c = 55 \/
    nat_of_ascii c = 56 \/ nat_of_ascii c = 57) by lia.
  repeat destruct Hn as [->|Hn]; [done..|]. by rewrite Hn.
Qed.

(** A positive number is printed as a non-zero digit and digits. *)
Definition plain_number (s : string) : Prop :=
  exists c ds, s = String c ds /\ in_range 49 57 c = true /\ str_forallb isdigit ds = true.
Lemma pretty_N_go_shape x : (0 < x)%N -> exists u, plain_number u /\ forall s, pretty_N_go x s = u +:+ s.
Proof.
  induction (N.lt_wf_0 x) as [x _ IH]; intros Hx.
  destruct (decide (x < 10)%N) as [Hlt|Hge].
  - exists (String (digit_char x) ""). split.
    + exists (digit_char x), "". split_and!; [done| |done]. apply digit_char_ok; [done|lia].
    + intros s. rewrite pretty_N_go_step by done. rewrite N.div_small, N.mod_small by done. done.
  - destruct (IH (x `div` 10)%N) as (u & (c & ds & -> & Hc & Hds) & Hu).
    + by apply N.div_lt.
    + apply N.div_str_pos. lia.
    + exists (String c ds +:+ String (digit_char (x `mod` 10)%N) ""). split.
      * exists c, (ds +:+ String (digit_char (x `mod` 10)%N) ""). split_and!; [done..|].
        rewrite str_forallb_app, Hds. simpl. rewrite andb_true_r.
        apply digit_char_ok. by apply N.mod_lt.
      * intros s. rewrite pretty_N_go_step by done. rewrite Hu. by rewrite append_assoc.
Qed.
Lemma plain_number_printed u : plain_number u ->
  exists x, (0 < x)%N /\ forall s, pretty_N_go x s = u +:+ s.
Proof.
  intros (c & ds & -> & Hc & Hds). revert Hds.
  induction ds as [|ds d IH] using str_snoc_ind; intros Hds.
  - destruct (digit_char_surj c) as (n & Hn & <-).
    { unfold in_range, isdigit in *. reflect. apply andb_true_iff. rewrite !Nat.leb_le. lia. }
    exists n. apply digit_char_ok in Hc; [|done]. split; [lia|]. intros s.
    rewrite pretty_N_go_step by lia. by rewrite N.div_small, N.mod_small by done.
  - rewrite str_forallb_app in Hds. apply andb_true_iff in Hds as [Hds Hd].
    destruct (IH Hds) as (x & Hx & Hs). simpl in Hd. rewrite andb_true_r in Hd.
    destruct (digit_char_surj d Hd) as (n & Hn & <-). exists (10 * x + n)%N. split; [lia|]. intros s.
    rewrite pretty_N_go_step by lia.
    replace ((10 * x + n) `div` 10)%N with x by (rewrite (N.mul_comm 10), N.div_add_l by done;
      rewrite N.div_small by done; lia).
    replace ((10 * x + n) `mod` 10)%N with n by (rewrite (N.mul_comm 10), N.add_comm, N.Div0.mod_add;
      by rewrite N.mod_small).
    rewrite Hs. rewrite <- append_cons, append_assoc. done.
Qed.
Lemma plain_number_N u : plain_number u <-> exists p, u = pretty (N.pos p).
Proof.
  split.
  - intros (x & Hx & Hs)%plain_number_printed. destruct x as [|p]; [lia|]. exists p.
    specialize (Hs ""). rewrite append_nil_r in Hs. done.
  - intros [p ->]. destruct (pretty_N_go_shape (N.pos p)) as (u & Hu & Hs); [lia|].
    specialize (Hs ""). rewrite append_nil_r in Hs. unfold pretty, pretty_N. by rewrite decide_False, Hs.
Qed.

Lemma canonical_plain s : plain_number s <->
  match s with "" => false | String c _ => if in_range 49 57 c then str_forallb isdigit s else false end
    = true.
Proof.
  split.
  - intros (c & ds & -> & Hc & Hds). rewrite Hc. simpl. rewrite Hds, andb_true_r.
    unfold in_range, isdigit in *. reflect. apply andb_true_iff. rewrite !Nat.leb_le. lia.
  - destruct s as [|c ds]; [done|]. destruct (in_range 49 57 c) eqn:Hc; [|done].
    simpl. intros [_ ?]%andb_true_iff. by exists c, ds.
Qed.

(** The hand-written test accepts exactly the canonical integers: the texts
    that [str] prints for an integer. *)
Theorem IsStrCanonicalInt_spec s : IsStrCanonicalInt s = true <-> exists n, s = string_of_int n.
Proof.
  unfold IsStrCanonicalInt, string_of_int. split.
  - destruct (String.eqb_spec s ""); [done|]. destruct (String.eqb_spec s "0") as [->|]; [by exists 0%Z|].
    assert (Hcase : (exists s', s = String "-" s') \/
      match s with String "-"%char s' => s' | _ => s end = s).
    { destruct s as [|c s]; [by right|]. destruct (Ascii.eqb_spec c "-") as [->|Hc]; [left; by exists s|].
      right. by destruct c as [[] [] [] [] [] [] [] []]. }
    destruct Hcase as [[s' ->]| ->]; intros H; apply canonical_plain, plain_number_N in H as [p ->].
    + by exists (Z.neg p).
    + by exists (Z.pos p).
  - intros [[|p|p] ->]; [done| |]; unfold pretty, pretty_Z.
    + assert (Hp : plain_number (pretty (N.pos p))) by (apply plain_number_N; by exists p).
      pose proof Hp as (c & ds & Heq & Hc & _).
      change (pretty p) with (pretty (N.pos p)). rewrite Heq.
      destruct (String.eqb_spec (String c ds) "0") as [->|_]; [done|]. cbn [String.eqb].
      apply canonical_plain in Hp. rewrite Heq in Hp.
      replace (match c with "-"%char => ds | _ => String c ds end) with (String c ds); [done|].
      clear -Hc. by destruct c as [[] [] [] [] [] [] [] []].
    + change (pretty p) with (pretty (N.pos p)). apply canonical_plain, plain_number_N. by exists p.
Qed.
