(* ===== verification/Merge.v ===== *)
(** * Merging values: [MergeLists], [MergeDicts], configurations ([gyp/input.py])

    [cwd] is the current directory, [path_sections] and [non_configuration_keys]
    the module's globals.  Python raises in the middle of a merge and leaves the
    destination half merged; here the exception is the whole result.  The
    destination is never a part of the source. *)
From stdpp Require Import sorting.
From S2P Require Import Prelude PyStr PyPath Common Ordered GypValue.
From stdpp Require Import options.

Section Merge.
Context (cwd : string) (path_sections : gset string).

(** ** [MakePathRelative] *)

(** [exception_re]: a quotation mark or not, then one of [-/$<>^]. *)
Definition exception_re (item : string) : bool :=
  let special c := str_mem c "-/$<>^" in
  match item with
  | "" => false
  | String c item' =>
      if Ascii.eqb c dquote || Ascii.eqb c "'"
      then match item' with "" => false | String d _ => special d end
      else special c
  end.
Definition MakePathRelative (to_file fro_file item : string) : res string :=
  if String.eqb to_file fro_file || exception_re item then Ok item
  else
    let ret := str_replace "\" "/"
      (normpath (path_join2 (RelativePath cwd (dirname fro_file) (dirname to_file)) item)) in
    if String.eqb item "" then Err IndexError
    else Ok (if endswith "/" item then ret +:+ "/" else ret).
(** On an item of a list or dictionary; an integer does not match a regular
    expression. *)
Definition MakePathRelativeV (to_file fro_file : string) (item : val) : res val :=
  match item with
  | VStr s => s' ← MakePathRelative to_file fro_file s; Ok (VStr s')
  | _ => if String.eqb to_file fro_file then Ok item
         else Err (TypeError "expected string or buffer")
  end.

(** ** [MergeLists] and [MergeDicts] *)
Context (to_file fro_file : string).

Definition singleton_item (item : val) : bool :=
  match item with
  | VStr s => negb (startswith "-" s)
  | VInt _ => true
  | _ => false
  end.
(** [to.insert(i, x)] *)
Definition list_insert_at {A} (i : nat) (x : A) (to : list A) : list A :=
  (take i to ++ x :: drop i to)%list.
(** The loop state is the list and [prepend_index]. *)
Definition put_item `{EqDecision A} (append singleton : bool) (to_item : A) (st : list A * nat)
    : list A * nat :=
  let '(to, prepend_index) := st in
  if append then
    (if singleton && bool_decide (to_item ∈ to) then to else (to ++ [to_item])%list, prepend_index)
  else
    let to := if singleton then filter (fun x => x <> to_item) to else to in
    (list_insert_at prepend_index to_item to, S prepend_index).

(** The policy a list key asks for: the key of the destination list, whether the
    list there is replaced, whether it is only set if absent, whether the merge
    appends, and the keys that must not stand beside it. *)
Record policy := {
  list_base : string; replace : bool; only_new : bool; append : bool;
  lists_incompatible : list string }.
Definition list_policy (k : string) : res policy :=
  match str_last 1 k with
  | "" => Err IndexError
  | String ext _ =>
      let base := str_init 1 k in
      Ok (if Ascii.eqb ext "=" then
            {| list_base := base; replace := true; only_new := false; append := true;
               lists_incompatible := [base; base +:+ "?"] |}
          else if Ascii.eqb ext "+" then
            {| list_base := base; replace := false; only_new := false; append := false;
               lists_incompatible := [base +:+ "="; base +:+ "?"] |}
          else if Ascii.eqb ext "?" then
            {| list_base := base; replace := false; only_new := true; append := true;
               lists_incompatible := [base; base +:+ "="; base +:+ "+"] |}
          else
            {| list_base := k; replace := false; only_new := false; append := true;
               lists_incompatible := [k +:+ "="; k +:+ "?"] |})
  end.

Definition incompatible_type (v w : val) (key : string) : exn :=
  TypeError ("Attempt to merge dict value of type " +:+ type_name v +:+
             " into incompatible type " +:+ type_name w +:+ " for key " +:+ key).

(** One item [k: v] of [fro]; the recursive calls are parameters. *)
Section OneItem.
Context (MergeDicts_rec : val -> dict -> res dict).
Context (MergeLists_rec : val -> list val -> bool -> bool -> res (list val)).

Definition merge_key (fro to : dict) (k : string) (v : val) : res dict :=
  _ ← match dget k to with
      | Some w => if same_kind v w then Ok tt else Err (incompatible_type v w k)
      | None => Ok tt
      end;
  match v with
  | VInt _ | VStr _ =>
      is_path ← IsPathSection path_sections k;
      v' ← (if is_path : bool then MakePathRelativeV to_file fro_file v else Ok v);
      Ok (dset k v' to)
  | VDict _ =>
      let to_k := match dget k to with Some (VDict d) => d | _ => [] end in
      d ← MergeDicts_rec v to_k;
      Ok (dset k (VDict d) to)
  | VList _ =>
      p ← list_policy k;
      let to := if replace p then dset (list_base p) (VList []) to else to in
      _ ← match find (fun i => dmem i fro) (lists_incompatible p) with
          | Some i => Err (GypError ("Incompatible list policies " +:+ k +:+ " and " +:+ i))
          | None => Ok tt
          end;
      let merge (l : list val) :=
        is_paths ← IsPathSection path_sections (list_base p);
        l' ← MergeLists_rec v l is_paths (append p);
        Ok (dset (list_base p) (VList l') to) in
      match dget (list_base p) to with
      | Some (VList l) => if only_new p then Ok to else merge l
      | Some w =>
          if only_new p then Ok to
          else Err (incompatible_type v w (list_base p +:+ "(" +:+ k +:+ ")"))
      | None => merge []
      end
  end.

(** What an item of [fro] is copied to. *)
Definition merge_item (is_paths : bool) (item : val) : res val :=
  match item with
  | VInt _ | VStr _ => if is_paths then MakePathRelativeV to_file fro_file item else Ok item
  | VDict _ => d ← MergeDicts_rec item []; Ok (VDict d)
  | VList _ => l ← MergeLists_rec item [] false true; Ok (VList l)
  end.
End OneItem.

Fixpoint MergeDicts_ (fro : val) (to : dict) {struct fro} : res dict :=
  match fro with
  | VDict items =>
      (fix loop (its : dict) (to : dict) : res dict :=
         match its with
         | [] => Ok to
         | (k, v) :: its => to ← merge_key MergeDicts_ MergeLists_ items to k v; loop its to
         end) items to
  | _ => Err (AttributeError "iteritems")
  end
with MergeLists_ (fro : val) (to : list val) (is_paths append : bool) {struct fro}
    : res (list val) :=
  match fro with
  | VList items =>
      (fix loop (its : list val) (st : list val * nat) : res (list val) :=
         match its with
         | [] => Ok st.1
         | item :: its =>
             to_item ← merge_item MergeDicts_ MergeLists_ is_paths item;
             loop its (put_item append (singleton_item item) to_item st)
         end) items (to, 0)
  | _ => Err (TypeError "not iterable")
  end.

Definition MergeDicts (to fro : dict) : res dict := MergeDicts_ (VDict fro) to.
Definition MergeLists (to fro : list val) (is_paths append : bool) : res (list val) :=
  MergeLists_ (VList fro) to is_paths append.
End Merge.

(** ** Configurations *)
Section Configurations.
Context (cwd : string) (path_sections : gset string) (non_configuration_keys : list string).

(** The inheritance graph may have cycles: [visited] cuts them.  The budget
    bounds the depth of the recursion; see [MergeConfig_fuel]. *)
Fixpoint MergeConfigWithInheritance (fuel : nat) (new_configuration_dict : dict)
    (build_file : string) (target_dict : dict) (configuration : string) (visited : list string)
    : res dict :=
  match fuel with
  | 0 => NoFuel
  | S fuel =>
      if decide (configuration ∈ visited) then Ok new_configuration_dict
      else
        configurations ← dindex "configurations" target_dict;
        configurations ← as_dict "__getitem__" configurations;
        configuration_dict ← dindex configuration configurations;
        configuration_dict ← as_dict "get" configuration_dict;
        parents ← get_list "inherit_from" configuration_dict;
        new ← foldM (fun new parent =>
                       parent ← as_key parent;
                       MergeConfigWithInheritance fuel new build_file target_dict parent
                         (visited ++ [configuration])%list)
                new_configuration_dict parents;
        new ← MergeDicts cwd path_sections build_file build_file new configuration_dict;
        Ok (ddel "abstract" new)
  end.

Definition key_suffixes : string := "=+?!/".
Definition key_base (key : string) : string :=
  match str_last 1 key with
  | String ext _ => if str_mem ext key_suffixes then str_init 1 key else key
  | "" => key
  end.
Definition is_configuration_key (key : string) : bool :=
  bool_decide (key_base key ∉ non_configuration_keys).

Definition invalid_configuration_keys : list string :=
  ["actions"; "all_dependent_settings"; "configurations"; "dependencies";
   "direct_dependent_settings"; "libraries"; "link_settings"; "sources";
   "standalone_static_library"; "target_name"; "type"].

(** The names of the configurations that are not abstract, in order *)
Fixpoint concrete_configurations (configs : dict) : res (list string) :=
  match configs with
  | [] => Ok []
  | (i, config) :: configs =>
      config ← as_dict "get" config;
      rest ← concrete_configurations configs;
      Ok (if get_truthy "abstract" config then rest else i :: rest)
  end.

Definition with_defaults (target_dict : dict) : res dict :=
  let target_dict :=
    if dmem "configurations" target_dict then target_dict
    else dset "configurations" (VDict [("Default", VDict [])]) target_dict in
  if dmem "default_configuration" target_dict then Ok target_dict
  else
    configurations ← dindex "configurations" target_dict;
    configurations ← as_dict "iteritems" configurations;
    concrete ← concrete_configurations configurations;
    match merge_sort string_le concrete with
    | [] => Err IndexError
    | first :: _ => Ok (dset "default_configuration" (VStr first) target_dict)
    end.

(** What a configuration starts from: a copy of the target's settings. *)
Definition inherited_settings (target_dict : dict) : dict :=
  foldl (fun new kv => if is_configuration_key kv.1 then dset kv.1 (deepcopy kv.2) new else new)
    [] target_dict.
Definition merged_configuration (build_file : string) (target_dict : dict) (fuel : nat)
    (configuration : string) : res dict :=
  MergeConfigWithInheritance fuel (inherited_settings target_dict) build_file target_dict
    configuration [].

Definition check_configuration (target configuration : string) (configuration_dict : dict)
    : res unit :=
  match find (fun kv => bool_decide (kv.1 ∈ invalid_configuration_keys)) configuration_dict with
  | Some (key, _) =>
      Err (GypError (key +:+ " not allowed in the " +:+ configuration +:+
                     " configuration, found in target " +:+ target))
  | None => Ok tt
  end.

Definition SetUpConfigurations (target build_file : string) (target_dict : dict) : res dict :=
  target_dict ← with_defaults target_dict;
  configs ← dindex "configurations" target_dict;
  configs ← as_dict "iteritems" configs;
  (* [configs] is [target_dict['configurations']]: the merged dictionaries go
     in only after the loop. *)
  names ← concrete_configurations configs;
  merged ← foldM (fun merged configuration =>
                    new ← merged_configuration build_file target_dict (S (length configs))
                            configuration;
                    Ok (dset configuration (VDict new) merged)) [] names;
  let configs := foldl (fun configs kv => dset kv.1 kv.2 configs) configs merged in
  concrete ← concrete_configurations configs;
  let configs := filter (fun kv => kv.1 ∈ concrete) configs in
  let target_dict := dset "configurations" (VDict configs) target_dict in
  let target_dict := filter (fun kv => is_configuration_key kv.1 = false) target_dict in
  _ ← foldM (fun _ (kv : string * val) =>
               d ← as_dict "keys" kv.2; check_configuration target kv.1 d) tt configs;
  Ok target_dict.
End Configurations.

(** ** Lemmas *)
Section MergeLemmas.
Context (cwd : string) (path_sections : gset string) (to_file fro_file : string).
Abbreviation MergeDicts_ := (MergeDicts_ cwd path_sections to_file fro_file).
Abbreviation MergeLists_ := (MergeLists_ cwd path_sections to_file fro_file).
Abbreviation MergeDicts := (MergeDicts cwd path_sections to_file fro_file).
Abbreviation MergeLists := (MergeLists cwd path_sections to_file fro_file).
Abbreviation merge_key := (merge_key cwd path_sections to_file fro_file MergeDicts_ MergeLists_).
Abbreviation merge_item := (merge_item cwd to_file fro_file MergeDicts_ MergeLists_).

(** The two merges are loops over the items of the source. *)
Lemma MergeDicts_foldM to fro :
  MergeDicts to fro = foldM (fun to kv => merge_key fro to kv.1 kv.2) to fro.
Proof.
  transitivity ((fix loop (its : dict) (to : dict) : res dict :=
    match its with
    | [] => Ok to
    | (k, v) :: its => to ← merge_key fro to k v; loop its to
    end) fro to); [reflexivity|].
  generalize fro at 2 4. intros its.
  revert to; induction its as [|[k v] its IH]; intros to; [done|]. cbn [foldM fst snd].
  destruct (merge_key fro to k v); cbn [mbind res_bind]; auto.
Qed.
Lemma MergeLists_foldM to fro is_paths append :
  MergeLists to fro is_paths append =
  (st ← foldM (fun st item =>
                 to_item ← merge_item is_paths item;
                 Ok (put_item append (singleton_item item) to_item st)) (to, 0) fro;
   Ok st.1).
Proof.
  transitivity ((fix loop (its : list val) (st : list val * nat) : res (list val) :=
    match its with
    | [] => Ok st.1
    | item :: its =>
        to_item ← merge_item is_paths item;
        loop its (put_item append (singleton_item item) to_item st)
    end) fro (to, 0)); [reflexivity|].
  generalize (to, 0).
  induction fro as [|item fro IH]; intros st; [done|]. cbn [foldM].
  destruct (merge_item is_paths item); cbn [mbind res_bind]; auto.
Qed.

(** A scalar that is merged as it stands and at most once. *)
Definition plain_scalar (v : val) : Prop :=
  match v with VInt _ => True | VStr s => startswith "-" s = false | _ => False end.
Lemma plain_scalar_item v : plain_scalar v ->
  merge_item false v = Ok v /\ singleton_item v = true.
Proof. destruct v; simpl; try done. by intros ->. Qed.

Lemma MergeLists_scalars to fro append : Forall plain_scalar fro ->
  MergeLists to fro false append =
  Ok (foldl (fun st item => put_item append true item st) (to, 0) fro).1.
Proof.
  intros H. rewrite MergeLists_foldM. generalize (to, 0).
  induction H as [|v fro Hv _ IH]; intros st; [done|]. cbn [foldM].
  destruct (plain_scalar_item v Hv) as [-> ->]. cbn [mbind res_bind]. apply IH.
Qed.

Lemma append_scalars (fro to : list val) i :
  exists suf, foldl (fun st item => put_item true true item st) (to, i) fro = ((to ++ suf)%list, i) /\
    sublist suf fro /\ NoDup suf /\ (forall x, x ∈ suf -> x ∉ to) /\
    (forall x, x ∈ fro -> x ∈ (to ++ suf)%list).
Proof.
  revert to; induction fro as [|x fro IH]; intros to.
  - exists []. rewrite app_nil_r. split_and!; [done|constructor|constructor| |]; by intros ? ?%not_elem_of_nil.
  - cbn [foldl put_item andb]. case_bool_decide as Hx.
    + destruct (IH to) as (suf & -> & Hs & Hnd & Hd & Hin). exists suf. split_and!; try done.
      * by constructor.
      * intros y [->|Hy]%elem_of_cons; [set_solver|auto].
    + destruct (IH (to ++ [x])%list) as (suf & -> & Hs & Hnd & Hd & Hin).
      exists (x :: suf). rewrite <- app_assoc in *. split_and!.
      * done.
      * by constructor.
      * constructor; [|done]. intros Hxs. apply (Hd x Hxs). set_solver.
      * intros y [->|Hy]%elem_of_cons; [done|]. intros Hto. apply (Hd y Hy). set_solver.
      * intros y [->|Hy]%elem_of_cons; [set_solver|by apply Hin].
Qed.

Lemma filter_compose (l : list val) x fro :
  filter (fun y => y <> x) (filter (fun y => y ∉ fro) l) = filter (fun y => y ∉ (fro ++ [x])%list) l.
Proof.
  rewrite list_filter_filter. apply list_filter_iff. intros y. set_solver.
Qed.
Lemma filter_none (l : list val) x : x ∉ l -> filter (fun y => y <> x) l = l.
Proof.
  induction l as [|y l IH]; [done|]. intros [Hx Hl]%not_elem_of_cons.
  by rewrite list.filter_cons_True, IH by done.
Qed.

Lemma prepend_scalars (fro : list val) done_ rest :
  NoDup (done_ ++ fro)%list -> (forall x, x ∈ done_ -> x ∉ rest) ->
  foldl (fun st item => put_item false true item st) ((done_ ++ rest)%list, length done_) fro =
  ((done_ ++ fro ++ filter (fun x => x ∉ fro) rest)%list, length done_ + length fro).
Proof.
  revert done_ rest; induction fro as [|x fro IH]; intros done_ rest Hnd Hd.
  - simpl. rewrite Nat.add_0_r. f_equal. f_equal. rewrite <- (app_nil_l rest) at 1.
    symmetry. induction rest as [|y rest IHr]; [done|]. rewrite list.filter_cons_True by set_solver.
    simpl. f_equal. apply IHr. set_solver.
  - cbn [foldl put_item]. rewrite list.filter_app.
    assert (Hx : x ∉ done_).
    { apply list.NoDup_app in Hnd as (_ & Hdisj & _). intros Hin. apply (Hdisj x Hin). left. }
    rewrite (filter_none done_) by done. unfold list_insert_at.
    rewrite take_app_length, drop_app_length, cons_middle, app_assoc.
    replace (S (length done_)) with (length (done_ ++ [x])%list) by (rewrite length_app; simpl; lia).
    rewrite IH.
    + rewrite list_filter_filter, length_app, <- !app_assoc. simpl. f_equal; [|lia].
      do 3 f_equal. apply list_filter_iff. intros y. set_solver.
    + by rewrite <- app_assoc.
    + intros y [Hy| ->%list_elem_of_singleton]%elem_of_app;
        rewrite list_elem_of_filter; [|tauto]. intros [_ Hr]. by apply (Hd y).
Qed.

(** *** Kinds of values *)
Lemma same_kind_refl v : same_kind v v = true.
Proof. by destruct v. Qed.
Lemma same_kind_trans u v w : same_kind u v = true -> same_kind v w = true -> same_kind u w = true.
Proof. by destruct u, v, w. Qed.
Lemma same_kind_sym u v : same_kind u v = true -> same_kind v u = true.
Proof. by destruct u, v. Qed.
Lemma MakePathRelativeV_kind v v' :
  MakePathRelativeV cwd to_file fro_file v = Ok v' -> same_kind v v' = true.
Proof.
  destruct v; simpl; try (destruct (String.eqb to_file fro_file); by intros [= <-]).
  by intros (s' & _ & [= <-])%bind_ok.
Qed.
Lemma list_policy_key k p : list_policy k = Ok p ->
  (replace p = true -> k = list_base p +:+ "=") /\
  (str_forallb (fun c => negb (policy_char c)) (str_last 1 k) = true ->
     p = {| list_base := k; replace := false; only_new := false; append := true;
            lists_incompatible := [k +:+ "="; k +:+ "?"] |}).
Proof.
  unfold list_policy. destruct (str_last 1 k) as [|ext rest] eqn:E; [done|]. intros [= <-].
  assert (Hk : k = str_init 1 k +:+ String ext rest).
  { rewrite <- E. symmetry. apply str_take_drop. }
  assert (Hrest : rest = "").
  { apply (f_equal String.length) in E. unfold str_last in E. rewrite length_str_drop in E.
    simpl in E. destruct rest; [done|]. simpl in E. lia. }
  subst rest. destruct (Ascii.eqb_spec ext "=") as [->|H1]; [|destruct (Ascii.eqb_spec ext "+") as [->|H2];
    [|destruct (Ascii.eqb_spec ext "?") as [->|H3]]]; simpl; split; done.
Qed.

Lemma assoc_set_other (to : dict) k v q : q <> k -> dget q (dset k v to) = dget q to.
Proof. intros H. rewrite OrderedDict.assoc_set_lookup. by rewrite decide_False. Qed.
Lemma assoc_set_same (to : dict) k v : dget k (dset k v to) = Some v.
Proof. rewrite OrderedDict.assoc_set_lookup. by rewrite decide_True. Qed.

Lemma merge_key_keeps fro to k v to' q w :
  merge_key fro to k v = Ok to' -> k ∈ fro.*1 -> (q +:+ "=") ∉ fro.*1 ->
  dget q to = Some w -> exists w', dget q to' = Some w' /\ same_kind w w' = true.
Proof.
  unfold Merge.merge_key. intros (u0 & Hkind & H)%bind_ok Hk Hq Hw.
  assert (Hset : forall x, same_kind v x = true -> exists w',
    dget q (dset k x to) = Some w' /\ same_kind w w' = true).
  { intros x Hx. destruct (decide (q = k)) as [->|Hne].
    - rewrite assoc_set_same. exists x. split; [done|]. rewrite Hw in Hkind.
      destruct (same_kind v w) eqn:E; [|done]. eapply same_kind_trans; [|exact Hx].
      by apply same_kind_sym.
    - rewrite assoc_set_other by done. exists w. split; [done|apply same_kind_refl]. }
  assert (Hscalar : forall b v', (if b : bool then MakePathRelativeV cwd to_file fro_file v else Ok v) = Ok v' ->
    same_kind v v' = true).
  { intros [] v'; [apply MakePathRelativeV_kind|intros [= <-]; apply same_kind_refl]. }
  destruct v as [n|s|l|d].
  - apply bind_ok in H as (b & _ & (v' & Hv & [= <-])%bind_ok). eauto.
  - apply bind_ok in H as (b & _ & (v' & Hv & [= <-])%bind_ok). eauto.
  - apply bind_ok in H as (p & Hp & (u & _ & H)%bind_ok).
    destruct (list_policy_key k p Hp) as [Hrep _].
    assert (Hw' : dget q (if replace p then dset (list_base p) (VList []) to else to) = Some w).
    { destruct (replace p); [|done]. rewrite assoc_set_other; [done|].
      intros ->. by rewrite Hrep in Hk. }
    revert H. generalize dependent (if replace p then dset (list_base p) (VList []) to else to).
    intros to1 Hto1 H.
    assert (Hlist : forall m, (is_paths ← IsPathSection path_sections (list_base p);
        l' ← MergeLists_ (VList l) m is_paths (append p);
        Ok (dset (list_base p) (VList l') to1)) = Ok to' ->
        (q = list_base p -> exists l0, w = VList l0) ->
        exists w', dget q to' = Some w' /\ same_kind w w' = true).
    { intros m (b & _ & (l' & _ & [= <-])%bind_ok)%bind_ok Hl.
      destruct (decide (q = list_base p)) as [->|Hne].
      - rewrite assoc_set_same. destruct (Hl eq_refl) as [l0 ->]. by eexists.
      - rewrite assoc_set_other by done. exists w. split; [done|apply same_kind_refl]. }
    assert (Hsame : Ok to1 = Ok to' -> exists w', dget q to' = Some w' /\ same_kind w w' = true).
    { intros [= <-]. exists w. split; [done|apply same_kind_refl]. }
    destruct (dget (list_base p) to1) as [[m|m|m|m]|] eqn:E; try (destruct (only_new p); by auto).
    + destruct (only_new p); [by auto|]. apply (Hlist m H). intros ->.
      exists m. congruence.
    + apply (Hlist [] H). intros ->. congruence.
  - apply bind_ok in H as (d' & _ & [= <-]). by apply Hset.
Qed.

Lemma MergeDicts_keeps_key to fro to' q w :
  MergeDicts to fro = Ok to' -> (q +:+ "=") ∉ fro.*1 -> dget q to = Some w ->
  exists w', dget q to' = Some w' /\ same_kind w w' = true.
Proof.
  rewrite MergeDicts_foldM. intros H Hq Hw.
  apply (foldM_inv (fun to => exists w', dget q to = Some w' /\ same_kind w w' = true)) in H; [done| |].
  - exists w. split; [done|apply same_kind_refl].
  - intros to1 [k v] to2 Hin (w1 & Hw1 & Hk1) Hstep.
    destruct (merge_key_keeps fro to1 k v to2 q w1 Hstep) as (w2 & Hw2 & Hk2); [|done|done|].
    + apply list_elem_of_fmap. by exists (k, v).
    + exists w2. split; [done|]. by eapply same_kind_trans.
Qed.
End MergeLemmas.

(** ** Values that a merge into nothing copies *)
Fixpoint copyable (v : val) : Prop :=
  match v with
  | VInt _ | VStr _ => True
  | VList l =>
      NoDup (filter (fun x => singleton_item x = true) l) /\
      (fix go l := match l with [] => True | x :: l => copyable x /\ go l end) l
  | VDict d =>
      NoDup d.*1 /\
      (fix go (d : list (string * val)) := match d with
       | [] => True
       | kv :: d => (kv.1 <> "" /\ str_forallb (fun c => negb (policy_char c)) (str_last 1 kv.1) = true)
                    /\ copyable kv.2 /\ go d
       end) d
  end.
Definition plain_key (k : string) : Prop :=
  k <> "" /\ str_forallb (fun c => negb (policy_char c)) (str_last 1 k) = true.
Lemma copyable_list l :
  copyable (VList l) <-> NoDup (filter (fun x => singleton_item x = true) l) /\ Forall copyable l.
Proof.
  simpl. apply and_iff_compat_l. induction l as [|v l IH]; [split; [constructor|done]|].
  by rewrite list.Forall_cons, IH.
Qed.
Lemma copyable_dict d :
  copyable (VDict d) <-> NoDup d.*1 /\ Forall (fun kv => plain_key kv.1 /\ copyable kv.2) d.
Proof.
  simpl. apply and_iff_compat_l. induction d as [|[k v] l IH]; [split; [constructor|done]|].
  rewrite list.Forall_cons, IH. unfold plain_key. simpl. tauto.
Qed.

Lemma plain_key_last k c : plain_key (k +:+ String c "") -> policy_char c = false.
Proof.
  intros [_ H]. rewrite str_last_snoc in H. simpl in H. rewrite andb_true_r in H. by apply negb_true_iff in H.
Qed.
Lemma plain_key_section ps k : plain_key k -> exists b, IsPathSection ps k = Ok b.
Proof.
  intros Hk. destruct (strip_policy_fuel (S (String.length k)) k) as [H _]; [lia|].
  assert (Hr : rstrip_of policy_char k = k).
  { destruct k as [|t c _] using str_snoc_ind; [by destruct Hk|].
    rewrite rstrip_of_snoc. by rewrite (plain_key_last t c). }
  unfold IsPathSection, IsPathSection_fuel. rewrite H, Hr. destruct Hk as [Hne _].
  apply String.eqb_neq in Hne as ->. simpl. eauto.
Qed.

Section Copy.
Context (cwd : string) (path_sections : gset string) (file : string).
Abbreviation MergeDicts_ := (MergeDicts_ cwd path_sections file file).
Abbreviation MergeLists_ := (MergeLists_ cwd path_sections file file).

Lemma MakePathRelativeV_same v :
  match v with VInt _ | VStr _ => True | _ => False end -> MakePathRelativeV cwd file file v = Ok v.
Proof.
  destruct v; simpl; try done; [by rewrite String.eqb_refl|].
  unfold MakePathRelative. by rewrite String.eqb_refl.
Qed.

(** What copying one value means for its kind of merge. *)
Definition copies (v : val) : Prop :=
  match v with
  | VInt _ | VStr _ => True
  | VList l => forall b, MergeLists_ v [] b true = Ok l
  | VDict d => MergeDicts_ v [] = Ok d
  end.
Lemma copies_item v b : copies v ->
  merge_item cwd file file MergeDicts_ MergeLists_ b v = Ok v.
Proof.
  destruct v; simpl; intros H.
  - destruct b; [|done]. by rewrite String.eqb_refl.
  - destruct b; [|done]. unfold MakePathRelative. by rewrite String.eqb_refl.
  - by rewrite H.
  - by rewrite H.
Qed.

Lemma copies_list l : Forall copies l -> NoDup (filter (fun x => singleton_item x = true) l) ->
  forall b, MergeLists_ (VList l) [] b true = Ok l.
Proof.
  intros Hl Hnd b. change (MergeLists cwd path_sections file file [] l b true = Ok l).
  rewrite MergeLists_foldM.
  assert (Hg : forall acc, NoDup (filter (fun x => singleton_item x = true) (acc ++ l)%list) ->
    foldM (fun st item =>
      to_item ← merge_item cwd file file MergeDicts_ MergeLists_ b item;
      Ok (put_item true (singleton_item item) to_item st)) (acc, 0) l = Ok ((acc ++ l)%list, 0)).
  { clear Hnd. induction Hl as [|v l Hv _ IH]; intros acc Hnd; cbn [foldM]; [by rewrite app_nil_r|].
    rewrite copies_item by done. cbn [mbind res_bind put_item].
    assert (Hnew : singleton_item v && bool_decide (v ∈ acc) = false).
    { destruct (singleton_item v) eqn:Hs; [|done]. simpl. apply bool_decide_eq_false.
      rewrite list.filter_app, list.filter_cons_True in Hnd by done.
      apply list.NoDup_app in Hnd as (_ & Hd & _). intros Hin. apply (Hd v); [|left].
      by apply list_elem_of_filter. }
    rewrite Hnew, IH; [by rewrite <- app_assoc|]. by rewrite <- app_assoc. }
  by rewrite (Hg [] Hnd).
Qed.

Lemma plain_key_policy k : plain_key k -> list_policy k =
  Ok {| list_base := k; replace := false; only_new := false; append := true;
        lists_incompatible := [k +:+ "="; k +:+ "?"] |}.
Proof.
  intros Hk. destruct (list_policy k) as [p|e|] eqn:E.
  - f_equal. apply (list_policy_key k p E), Hk.
  - unfold list_policy in E. destruct k as [|t c _] using str_snoc_ind; [by destruct Hk|].
    by rewrite str_last_snoc in E.
  - unfold list_policy in E. by destruct (str_last 1 k).
Qed.

Lemma copies_dict d :
  NoDup d.*1 -> Forall (fun kv => plain_key kv.1 /\ copies kv.2) d -> MergeDicts_ (VDict d) [] = Ok d.
Proof.
  intros Hnd Hd. change (MergeDicts cwd path_sections file file [] d = Ok d).
  rewrite MergeDicts_foldM.
  assert (Hplain : forall k c, policy_char c = true -> dmem (k +:+ String c "") d = false).
  { intros k c Hc. apply bool_decide_eq_false. intros (kv & Heq & Hin)%list_elem_of_fmap.
    eapply list.Forall_forall in Hd as [Hk _]; [|exact Hin]. rewrite <- Heq in Hk.
    apply plain_key_last in Hk. congruence. }
  assert (Hg : forall acc rest, Forall (fun kv => plain_key kv.1 /\ copies kv.2) rest ->
    NoDup (acc ++ rest)%list.*1 ->
    foldM (fun to kv => merge_key cwd path_sections file file MergeDicts_ MergeLists_ d to kv.1 kv.2)
      acc rest = Ok (acc ++ rest)%list).
  { clear Hnd Hd. intros acc rest Hr. revert acc.
    induction Hr as [|[k v] rest [Hk Hv] _ IH]; intros acc Hnd; cbn [foldM]; [by rewrite app_nil_r|].
    cbn [fst snd] in Hk, Hv |- *.
    assert (Hnew : k ∉ acc.*1).
    { rewrite fmap_app in Hnd. apply list.NoDup_app in Hnd as (_ & Hdis & _).
      intros Hin. apply (Hdis k Hin). left. }
    assert (Hstep : merge_key cwd path_sections file file MergeDicts_ MergeLists_ d acc k v =
      Ok (acc ++ [(k, v)])%list).
    { unfold merge_key. apply OrderedDict.assoc_None in Hnew as Hget. rewrite Hget.
      cbn [mbind res_bind]. destruct (plain_key_section path_sections k Hk) as [b Hb].
      destruct v as [n|s|l|dd].
      - rewrite Hb. cbn [mbind res_bind]. rewrite MakePathRelativeV_same by done.
        destruct b; cbn [mbind res_bind]; by rewrite OrderedDict.assoc_set_new.
      - rewrite Hb. cbn [mbind res_bind]. rewrite MakePathRelativeV_same by done.
        destruct b; cbn [mbind res_bind]; by rewrite OrderedDict.assoc_set_new.
      - rewrite plain_key_policy by done. cbn [mbind res_bind find replace lists_incompatible].
        change (k +:+ "=") with (k +:+ String "=" ""). change (k +:+ "?") with (k +:+ String "?" "").
        rewrite !Hplain by done. cbn [list_base only_new append mbind res_bind].
        rewrite Hget, Hb. cbn [mbind res_bind]. cbn [copies] in Hv. rewrite Hv. cbn [mbind res_bind].
        by rewrite OrderedDict.assoc_set_new.
      - cbn [copies] in Hv. rewrite Hv. cbn [mbind res_bind]. by rewrite OrderedDict.assoc_set_new. }
    rewrite Hstep. cbn [mbind res_bind]. rewrite IH; rewrite <- app_assoc; done. }
  by apply (Hg [] d).
Qed.

Lemma copyable_copies v : copyable v -> copies v.
Proof.
  induction v as [n|s|l IH|d IH] using val_ind'; [done|done| |].
  - intros [Hnd Hl]%copyable_list b. apply copies_list; [|done].
    apply list.Forall_forall. intros x Hx.
    eapply list.Forall_forall in IH; [|exact Hx]. eapply list.Forall_forall in Hl; [|exact Hx]. auto.
  - intros [Hnd Hd]%copyable_dict. apply copies_dict; [done|].
    apply list.Forall_forall. intros kv Hx.
    eapply list.Forall_forall in IH; [|exact Hx]. eapply list.Forall_forall in Hd as [? ?]; [|exact Hx].
    auto.
Qed.
End Copy.

(** *** The depth of configuration inheritance is bounded by the number of
    configurations: more budget changes nothing. *)
Lemma MergeConfig_fuel cwd ps build_file target_dict configs fuel fuel' new configuration visited :
  dget "configurations" target_dict = Some (VDict configs) ->
  NoDup visited -> visited ⊆ configs.*1 ->
  length configs - length visited < fuel -> length configs - length visited < fuel' ->
  MergeConfigWithInheritance cwd ps fuel new build_file target_dict configuration visited =
  MergeConfigWithInheritance cwd ps fuel' new build_file target_dict configuration visited.
Proof.
  intros Hc. revert fuel' new configuration visited.
  induction fuel as [|fuel IH]; intros [|fuel'] new configuration visited Hnd Hsub Hf Hf'; try lia.
  cbn [MergeConfigWithInheritance]. case_decide as Hv; [done|].
  replace (dindex "configurations" target_dict) with (Ok (VDict configs)) by (unfold dindex; by rewrite Hc).
  cbn [of_option mbind res_bind as_dict].
  destruct (dindex configuration configs) as [d| |] eqn:Ed; [|done..]. cbn [mbind res_bind].
  destruct (as_dict "get" d) as [d'| |]; [|done..]. cbn [mbind res_bind].
  destruct (get_list "inherit_from" d') as [parents| |]; [|done..]. cbn [mbind res_bind].
  f_equal. apply foldM_ext. intros s x _. destruct (as_key x) as [parent| |]; [|done..].
  cbn [mbind res_bind].
  assert (Hin : configuration ∈ configs.*1).
  { destruct (decide (configuration ∈ configs.*1)) as [|Hn]; [done|].
    apply OrderedDict.assoc_None in Hn. unfold dindex in Ed. by rewrite Hn in Ed. }
  assert (Hnd' : NoDup (visited ++ [configuration])%list) by by apply NoDup_snoc.
  assert (Hsub' : (visited ++ [configuration])%list ⊆ configs.*1).
  { intros y [?| ->%list_elem_of_singleton]%elem_of_app; auto. }
  assert (Hlen : length (visited ++ [configuration])%list <= length configs).
  { rewrite <- (length_fmap fst configs). apply submseteq_length.
    by apply NoDup_submseteq. }
  rewrite length_app in Hlen. simpl in Hlen. apply IH; [done|done|..]; rewrite length_app; simpl; lia.
Qed.

(** ** The properties *)

(** Appending plain items leaves the destination list as a prefix and adds,
    in their order and once each, the items it does not hold yet. *)
Theorem MergeLists_append cwd path_sections to_file fro_file to fro :
  Forall plain_scalar fro ->
  exists suf,
    MergeLists cwd path_sections to_file fro_file to fro false true = Ok (to ++ suf)%list /\
    sublist suf fro /\ NoDup suf /\ (forall x, x ∈ suf -> x ∉ to) /\
    (forall x, x ∈ fro -> x ∈ (to ++ suf)%list).
Proof.
  intros H. rewrite MergeLists_scalars by done.
  destruct (append_scalars fro to 0) as (suf & -> & ?). by exists suf.
Qed.
Lemma MergeLists_append_witness :
  exists suf,
    MergeLists "/w" {["sources"]} "a.gyp" "b.gypi" [VStr "x.cc"; VStr "-g"] [VStr "y.cc"; VStr "x.cc"; VInt 3]
      false true = Ok ([VStr "x.cc"; VStr "-g"] ++ suf)%list /\
    sublist suf [VStr "y.cc"; VStr "x.cc"; VInt 3] /\ NoDup suf /\
    (forall x, x ∈ suf -> x ∉ [VStr "x.cc"; VStr "-g"]) /\
    (forall x, x ∈ [VStr "y.cc"; VStr "x.cc"; VInt 3] -> x ∈ ([VStr "x.cc"; VStr "-g"] ++ suf)%list).
Proof.
  apply MergeLists_append. repeat (apply list.Forall_cons; split; [done|]). constructor.
Defined.

(** Prepending plain items without repetition puts them in front in their
    order and takes their other occurrences out.  With a repeated item the
    insertion position runs ahead: prepending an item twice moves it behind the
    items it was to precede. *)
Theorem MergeLists_prepend cwd path_sections to_file fro_file to fro :
  Forall plain_scalar fro ->
  (NoDup fro ->
   MergeLists cwd path_sections to_file fro_file to fro false false =
     Ok (fro ++ filter (fun x => x ∉ fro) to)%list) /\
  (forall x y, plain_scalar x -> x <> y ->
   MergeLists cwd path_sections to_file fro_file [y] [x; x] false false = Ok [y; x]).
Proof.
  intros H. split.
  - intros Hnd. rewrite MergeLists_scalars by done.
    pose proof (prepend_scalars fro [] to) as Hp. cbn [app length] in Hp.
    rewrite Hp; [done|done|]. by intros ? ?%not_elem_of_nil.
  - intros x y Hx Hne. rewrite MergeLists_scalars by (apply list.Forall_cons; split; [done|by apply list.Forall_singleton]).
    simpl. rewrite list.filter_cons_True by done. rewrite list.filter_nil. simpl.
    unfold list_insert_at. simpl. rewrite list.filter_cons_False by tauto.
    rewrite list.filter_cons_True by done. done.
Qed.
Lemma MergeLists_prepend_witness :
  (NoDup [VStr "a"; VStr "b"] ->
   MergeLists "/w" ∅ "a.gyp" "a.gyp" [VStr "b"; VStr "c"] [VStr "a"; VStr "b"] false false =
     Ok ([VStr "a"; VStr "b"] ++ filter (fun x => x ∉ [VStr "a"; VStr "b"]) [VStr "b"; VStr "c"])%list) /\
  (forall x y, plain_scalar x -> x <> y ->
   MergeLists "/w" ∅ "a.gyp" "a.gyp" [y] [x; x] false false = Ok [y; x]).
Proof.
  apply MergeLists_prepend. repeat (apply list.Forall_cons; split; [done|]). constructor.
Defined.

(** C13. A successful merge keeps every key of the destination and the kind of
    its value, unless the source asks for that list to be replaced. *)
Theorem MergeDicts_keeps cwd path_sections to_file fro_file to fro to' q w :
  MergeDicts cwd path_sections to_file fro_file to fro = Ok to' ->
  (q +:+ "=") ∉ fro.*1 -> dget q to = Some w ->
  exists w', dget q to' = Some w' /\ same_kind w w' = true.
Proof. apply MergeDicts_keeps_key. Qed.
Lemma MergeDicts_keeps_witness :
  exists w', dget "sources" [("sources", VList [VStr "b.cc"; VStr "a.cc"]); ("type", VStr "none")] = Some w' /\
    same_kind (VList [VStr "a.cc"]) w' = true.
Proof.
  refine (MergeDicts_keeps "/w" ∅ "a.gyp" "a.gyp" [("sources", VList [VStr "a.cc"])]
    [("sources+", VList [VStr "b.cc"]); ("type", VStr "none")] _ "sources" _ _ _ eq_refl).
  - vm_compute. reflexivity.
  - cbn. set_solver.
Defined.

(** Merging into an empty dictionary of the same file copies: a dictionary
    whose keys carry no policy and whose lists repeat no plain item comes out
    equal, at every depth. *)
Theorem MergeDicts_copy cwd path_sections file d :
  copyable (VDict d) -> MergeDicts cwd path_sections file file [] d = Ok d.
Proof. intros H. apply (copyable_copies cwd path_sections file (VDict d) H). Qed.
Lemma MergeDicts_copy_witness :
  let d := [("sources", VList [VStr "a.cc"; VDict [("k", VInt 1)]]); ("msvs", VDict [("opt", VList [])])] in
  MergeDicts "/w" {["sources"]} "a.gyp" "a.gyp" [] d = Ok d.
Proof.
  intros d. apply MergeDicts_copy. cbn. split_and!; try done.
  all: by apply (bool_decide_unpack _); vm_compute.
Defined.
