(* ===== verification/Heap.v ===== *)
(** * Values with identity: the store of the variable expander ([gyp/input.py])

    Expanding variables changes dictionaries and lists in place, and a list in a
    [variables] dictionary can be the same object as one in another dictionary.  So
    lists and dictionaries are objects with a number here, a value refers to them,
    and an operation is a function of the store that may raise.  [thaw] puts a tree
    of [GypValue] into the store, [freeze] reads one out; [MergeDicts] and
    [MergeLists] of [Merge] are given for destinations in the store. *)
From S2P Require Import Prelude PyStr Ordered GypValue Merge.
From stdpp Require Import options.

Inductive hval :=
  | HInt (n : Z)
  | HStr (s : string)
  | HList (l : nat)
  | HDict (d : nat).
#[global] Instance hval_eq_dec : EqDecision hval.
Proof. solve_decision. Defined.
Abbreviation hdict := (list (string * hval)).

(** A command with its directory, as the cache of command results names it *)
Abbreviation command_key := (string * option string)%type.

(** References never dangle; [next] is the number of the next object.
    [executed] lists the commands that were run, the last one first, and [written]
    the files that were written. *)
Record state := State {
  lists : gmap nat (list hval);
  dicts : gmap nat hdict;
  next : nat;
  cached_command_results : gmap command_key string;
  executed : list command_key;
  written : list (string * string);
}.
Definition empty_state : state := State ∅ ∅ 0 ∅ [] [].

(** ** Operations on the store *)
Definition M (A : Type) : Type := state -> res (A * state).
#[global] Instance M_ret : MRet M := fun A a s => Ok (a, s).
#[global] Instance M_bind : MBind M := fun A B f m s =>
  match m s with Ok (a, s') => f a s' | Err e => Err e | NoFuel => NoFuel end.
Definition lift {A} (r : res A) : M A := fun s =>
  match r with Ok a => Ok (a, s) | Err e => Err e | NoFuel => NoFuel end.
Definition raise {A} (e : exn) : M A := fun _ => Err e.
Definition no_fuel {A} : M A := fun _ => NoFuel.
(** [except ... as e: raise f(e)] *)
Definition reraise {A} (f : exn -> exn) (m : M A) : M A := fun s =>
  match m s with Err e => Err (f e) | r => r end.

Lemma M_bind_at {A B} (m : M A) (f : A -> M B) s :
  (m ≫= f) s = match m s with Ok (a, s') => f a s' | Err e => Err e | NoFuel => NoFuel end.
Proof. done. Qed.

(** [for x in l: acc = body(acc, x)] *)
Fixpoint loop {A B} (body : B -> A -> M B) (acc : B) (l : list A) : M B :=
  match l with [] => mret acc | x :: l => acc ← body acc x; loop body acc l end.
Definition each {A} (body : A -> M unit) (l : list A) : M unit := loop (fun _ x => body x) tt l.

Definition set_lists (f : gmap nat (list hval) -> gmap nat (list hval)) (s : state) : state :=
  State (f (lists s)) (dicts s) (next s) (cached_command_results s) (executed s) (written s).
Definition set_dicts (f : gmap nat hdict -> gmap nat hdict) (s : state) : state :=
  State (lists s) (f (dicts s)) (next s) (cached_command_results s) (executed s) (written s).
Definition bump (s : state) : state :=
  State (lists s) (dicts s) (S (next s)) (cached_command_results s) (executed s) (written s).

Definition list_at (l : nat) (s : state) : list hval := default [] (lists s !! l).
Definition dict_at (d : nat) (s : state) : hdict := default [] (dicts s !! d).
Definition read_list (l : nat) : M (list hval) := fun s => Ok (list_at l s, s).
Definition read_dict (d : nat) : M hdict := fun s => Ok (dict_at d s, s).
Definition write_list (l : nat) (items : list hval) : M unit := fun s =>
  Ok (tt, set_lists (insert l items) s).
Definition write_dict (d : nat) (items : hdict) : M unit := fun s =>
  Ok (tt, set_dicts (insert d items) s).
Definition new_list (items : list hval) : M nat := fun s =>
  Ok (next s, bump (set_lists (insert (next s) items) s)).
Definition new_dict (items : hdict) : M nat := fun s =>
  Ok (next s, bump (set_dicts (insert (next s) items) s)).

Definition hget : string -> hdict -> option hval := OrderedDict.assoc.
Definition hset : string -> hval -> hdict -> hdict := OrderedDict.assoc_set.
Definition hmem (k : string) (d : hdict) : bool := bool_decide (k ∈ d.*1).
(** [d[k] = v] *)
Definition set_item (d : nat) (k : string) (v : hval) : M unit :=
  items ← read_dict d; write_dict d (hset k v items).

(** ** Trees *)
Fixpoint thaw (v : val) : M hval :=
  match v with
  | VInt n => mret (HInt n)
  | VStr s => mret (HStr s)
  | VList l =>
      items ← (fix go (l : list val) : M (list hval) :=
                 match l with
                 | [] => mret []
                 | x :: l => x ← thaw x; l ← go l; mret (x :: l)
                 end) l;
      l ← new_list items; mret (HList l)
  | VDict d =>
      items ← (fix go (d : dict) : M hdict :=
                 match d with
                 | [] => mret []
                 | (k, x) :: d => x ← thaw x; d ← go d; mret ((k, x) :: d)
                 end) d;
      d ← new_dict items; mret (HDict d)
  end.

(** [fuel] bounds the depth; Python does not come back from an object that contains
    itself either. *)
Fixpoint freeze (fuel : nat) (s : state) (v : hval) : res val :=
  match fuel with
  | 0 => NoFuel
  | S fuel =>
      match v with
      | HInt n => Ok (VInt n)
      | HStr t => Ok (VStr t)
      | HList l =>
          l ← foldM (fun acc x => v ← freeze fuel s x; Ok (acc ++ [v])%list) [] (list_at l s);
          Ok (VList l)
      | HDict d =>
          d ← foldM (fun acc kv => v ← freeze fuel s kv.2; Ok (acc ++ [(kv.1, v)])%list) [] (dict_at d s);
          Ok (VDict d)
      end
  end.
(** Without a cycle no path is longer than the number of objects. *)
Definition frozen (v : hval) : M val := fun s =>
  match freeze (S (S (next s))) s v with
  | Ok v => Ok (v, s) | Err e => Err e | NoFuel => NoFuel end.
Definition frozen_dict (d : hdict) : M dict :=
  loop (fun acc kv => v ← frozen kv.2; mret (acc ++ [(kv.1, v)])%list) [] d.

(** A value as far as its type shows *)
Definition shape (v : hval) : val :=
  match v with HInt n => VInt n | HStr s => VStr s | HList _ => VList [] | HDict _ => VDict [] end.

(** ** Merging into an object

    [fro] is read before the destination changes. *)
Section HeapMerge.
Context (cwd : string) (path_sections : gset string) (to_file fro_file : string).

Definition scalar (v : val) : hval :=
  match v with VInt n => HInt n | VStr s => HStr s | _ => HInt 0 end.

Section OneItem.
Context (MergeDicts_rec : nat -> val -> M unit).
Context (MergeLists_rec : nat -> val -> bool -> bool -> M unit).

Definition merge_key (to : nat) (fro : dict) (k : string) (v : val) : M unit :=
  items ← read_dict to;
  _ ← match hget k items with
      | Some w => if same_kind v (shape w) then mret tt else raise (incompatible_type v (shape w) k)
      | None => mret tt
      end;
  match v with
  | VInt _ | VStr _ =>
      is_path ← lift (IsPathSection path_sections k);
      v' ← lift (if is_path : bool then MakePathRelativeV cwd to_file fro_file v else Ok v);
      set_item to k (scalar v')
  | VDict _ =>
      match hget k items with
      | Some (HDict d) => MergeDicts_rec d v
      | _ => d ← new_dict []; _ ← set_item to k (HDict d); MergeDicts_rec d v
      end
  | VList _ =>
      p ← lift (list_policy k);
      _ ← (if replace p then l ← new_list []; set_item to (list_base p) (HList l) else mret tt);
      _ ← match find (fun i => dmem i fro) (lists_incompatible p) with
          | Some i => raise (GypError ("Incompatible list policies " +:+ k +:+ " and " +:+ i))
          | None => mret tt
          end;
      items ← read_dict to;
      match hget (list_base p) items with
      | Some w =>
          if only_new p then mret tt
          else match w with
               | HList l =>
                   is_paths ← lift (IsPathSection path_sections (list_base p));
                   MergeLists_rec l v is_paths (append p)
               | _ => raise (incompatible_type v (shape w) (list_base p +:+ "(" +:+ k +:+ ")"))
               end
      | None =>
          l ← new_list [];
          _ ← set_item to (list_base p) (HList l);
          is_paths ← lift (IsPathSection path_sections (list_base p));
          MergeLists_rec l v is_paths (append p)
      end
  end.

Definition merge_item (is_paths : bool) (item : val) : M hval :=
  match item with
  | VInt _ | VStr _ =>
      v ← lift (if is_paths then MakePathRelativeV cwd to_file fro_file item else Ok item);
      mret (scalar v)
  | VDict _ => d ← new_dict []; _ ← MergeDicts_rec d item; mret (HDict d)
  | VList _ => l ← new_list []; _ ← MergeLists_rec l item false true; mret (HList l)
  end.
End OneItem.

Fixpoint MergeDicts_ (to : nat) (fro : val) {struct fro} : M unit :=
  match fro with
  | VDict items =>
      (fix loop (its : dict) : M unit :=
         match its with
         | [] => mret tt
         | (k, v) :: its => _ ← merge_key MergeDicts_ MergeLists_ to items k v; loop its
         end) items
  | _ => raise (AttributeError "iteritems")
  end
with MergeLists_ (to : nat) (fro : val) (is_paths append : bool) {struct fro} : M unit :=
  match fro with
  | VList items =>
      (fix loop (its : list val) (prepend_index : nat) : M unit :=
         match its with
         | [] => mret tt
         | item :: its =>
             to_item ← merge_item MergeDicts_ MergeLists_ is_paths item;
             l ← read_list to;
             let '(l, prepend_index) := put_item append (singleton_item item) to_item (l, prepend_index) in
             _ ← write_list to l;
             loop its prepend_index
         end) items 0
  | _ => raise (TypeError "not iterable")
  end.
End HeapMerge.

(** The two loops *)
Section MergeEquations.
Context (cwd : string) (path_sections : gset string) (to_file fro_file : string).
Abbreviation dicts_ := (MergeDicts_ cwd path_sections to_file fro_file).
Abbreviation lists_ := (MergeLists_ cwd path_sections to_file fro_file).

Definition put_merged (to : nat) (is_paths append : bool) (prepend_index : nat) (item : val) : M nat :=
  to_item ← merge_item cwd to_file fro_file dicts_ lists_ is_paths item;
  l ← read_list to;
  let '(l, prepend_index) := put_item append (singleton_item item) to_item (l, prepend_index) in
  _ ← write_list to l; mret prepend_index.

Lemma MergeDicts_each to d s : dicts_ to (VDict d) s =
  each (fun kv => merge_key cwd path_sections to_file fro_file dicts_ lists_ to d kv.1 kv.2) d s.
Proof.
  unfold each. change (dicts_ to (VDict d)) with
    ((fix loop (its : dict) : M unit :=
        match its with
        | [] => mret tt
        | (k, v) :: its =>
            _ ← merge_key cwd path_sections to_file fro_file dicts_ lists_ to d k v; loop its
        end) d).
  generalize d at 2 4. intros its; revert s. induction its as [|[k v] its IH]; intros s; [done|].
  cbn [loop fst snd]. unfold mbind, M_bind. destruct (merge_key _ _ _ _ _ _ _ _ _ _ s) as [[[] s1]| |]; auto.
Qed.

Lemma MergeLists_loop to l is_paths append s : lists_ to (VList l) is_paths append s =
  (_ ← loop (put_merged to is_paths append) 0 l; mret tt) s.
Proof.
  change (lists_ to (VList l) is_paths append) with
    ((fix loop (its : list val) (prepend_index : nat) : M unit :=
        match its with
        | [] => mret tt
        | item :: its =>
            to_item ← merge_item cwd to_file fro_file dicts_ lists_ is_paths item;
            l ← read_list to;
            let '(l, prepend_index) := put_item append (singleton_item item) to_item (l, prepend_index) in
            _ ← write_list to l;
            loop its prepend_index
        end) l 0).
  generalize 0. revert s. induction l as [|item l IH]; intros s i; [done|].
  assert (Hput : put_merged to is_paths append i item s =
    match merge_item cwd to_file fro_file dicts_ lists_ is_paths item s with
    | Ok (to_item, s1) =>
        let '(l, i') := put_item append (singleton_item item) to_item (list_at to s1, i) in
        Ok (i', set_lists (insert to l) s1)
    | Err e => Err e
    | NoFuel => NoFuel
    end).
  { unfold put_merged. rewrite M_bind_at. destruct (merge_item _ _ _ _ _ _ _ s) as [[to_item s1]| |]; [|done..].
    rewrite M_bind_at. cbn [read_list]. by destruct (put_item _ _ _ _). }
  cbn [loop]. rewrite !M_bind_at, Hput.
  destruct (merge_item _ _ _ _ _ _ _ s) as [[to_item s1]| |]; [|done..].
  rewrite M_bind_at. cbn [read_list]. destruct (put_item _ _ _ _) as [l' i']. apply IH.
Qed.
End MergeEquations.

(** ** Loops *)
Lemma M_bind_ok {A B} (m : M A) (f : A -> M B) s b s' :
  (m ≫= f) s = Ok (b, s') <-> exists a s1, m s = Ok (a, s1) /\ f a s1 = Ok (b, s').
Proof.
  rewrite M_bind_at. split; [|by intros (a & s1 & -> & H)].
  destruct (m s) as [[a s1]| |]; [|done..]. by exists a, s1.
Qed.
Lemma lift_ok {A} (r : res A) s a s' : lift r s = Ok (a, s') <-> r = Ok a /\ s' = s.
Proof. unfold lift. destruct r; naive_solver. Qed.

Lemma reraise_ok {A} f (m : M A) s a s' : reraise f m s = Ok (a, s') <-> m s = Ok (a, s').
Proof. unfold reraise. by destruct (m s). Qed.
Lemma reraise_no_fuel {A} f (m : M A) s : reraise f m s = NoFuel <-> m s = NoFuel.
Proof. unfold reraise. by destruct (m s). Qed.

Section Loops.
Context {A B : Type} (P : B -> Prop) (body : B -> A -> M B).
Context (Hbody : forall acc x s acc' s', P acc -> body acc x s = Ok (acc', s') -> P acc').

Lemma loop_inv acc l s acc' s' : P acc -> loop body acc l s = Ok (acc', s') -> P acc'.
Proof using Hbody.
  revert acc s; induction l as [|x l IH]; intros acc s Hp; cbn [loop]; [by intros [= <- _]|].
  intros (acc1 & s1 & H1 & H)%M_bind_ok. eapply IH; [|done]. by eapply Hbody.
Qed.
Lemma loop_no_fuel acc l s : P acc -> loop body acc l s = NoFuel ->
  exists acc1 x s1, P acc1 /\ body acc1 x s1 = NoFuel.
Proof using Hbody.
  revert acc s; induction l as [|x l IH]; intros acc s Hp; cbn [loop]; [done|].
  rewrite M_bind_at. destruct (body acc x s) as [[acc1 s1]| |] eqn:E; [|done|].
  - apply IH. by eapply Hbody.
  - intros _. by exists acc, x, s.
Qed.
End Loops.

(** ** What operations keep

    [keeps R m]: the state that [m] ends in is related to the one it starts in. *)
Definition keeps {A} (R : relation state) (m : M A) : Prop :=
  forall s a s', m s = Ok (a, s') -> R s s'.

Section Keeps.
Context (R : relation state).

Lemma keeps_ret {A} `{!PreOrder R} (a : A) : keeps R (mret a).
Proof. intros s b s' [= _ <-]. reflexivity. Qed.
Lemma keeps_bind {A B} `{!PreOrder R} (m : M A) (f : A -> M B) :
  keeps R m -> (forall a, keeps R (f a)) -> keeps R (m ≫= f).
Proof.
  intros Hm Hf s b s'. unfold mbind, M_bind. destruct (m s) as [[a s1]| |] eqn:E; [|done..].
  intros H. etransitivity; [by eapply Hm|by eapply Hf].
Qed.
Lemma keeps_lift {A} `{!PreOrder R} (r : res A) : keeps R (lift r).
Proof. intros s a s'. unfold lift. destruct r; [intros [= _ <-]; reflexivity|done..]. Qed.
Lemma keeps_raise {A} e : keeps R (raise (A := A) e).
Proof. done. Qed.
Lemma keeps_no_fuel {A} : keeps R (no_fuel (A := A)).
Proof. done. Qed.
Lemma keeps_reraise {A} f (m : M A) : keeps R m -> keeps R (reraise f m).
Proof. intros Hm s a s'. unfold reraise. destruct (m s) as [[b s1]| |] eqn:E; [|done..]. by intros [= -> ->]; eapply Hm. Qed.
Lemma keeps_loop {A B} `{!PreOrder R} (body : B -> A -> M B) acc l :
  (forall acc x, keeps R (body acc x)) -> keeps R (loop body acc l).
Proof.
  intros Hb. revert acc; induction l as [|x l IH]; intros acc; cbn [loop].
  - apply keeps_ret.
  - apply keeps_bind; [apply Hb|done].
Qed.
Lemma keeps_each {A} `{!PreOrder R} (body : A -> M unit) l : (forall x, keeps R (body x)) -> keeps R (each body l).
Proof. intros Hb. apply keeps_loop. auto. Qed.
End Keeps.
Create HintDb keeps.
#[export] Hint Resolve keeps_ret keeps_lift keeps_raise keeps_no_fuel : keeps.
