(* ===== verification/DepGraph.v ===== *)
(** * The dependency graph of targets ([gyp/input.py])

    [DependencyGraphNode], [BuildDependencyList] and
    [VerifyNoGYPFileCircularDependencies].  A node is named by its [ref]; the
    root node has [ref] [None].  The targets are a dictionary in iteration order;
    [pop] is [set.pop], which takes an arbitrary element.  An [OrderedSet] is its
    list of elements here, see [Ordered.OrderedSet_refines]. *)
From S2P Require Import Prelude PyStr Common Ordered GypValue.
From stdpp Require Import options.

(** ** Graphs *)
Record graph_node := { n_dependencies : list (option string); n_dependents : list string }.
Record graph := { nodes : gmap string graph_node; root_dependents : list string }.

Definition new_node : graph_node := {| n_dependencies := []; n_dependents := [] |}.
(** References to nodes never dangle. *)
Definition node_of (g : graph) (r : string) : graph_node := default new_node (nodes g !! r).
Definition dependencies_of (g : graph) (r : string) : list (option string) :=
  n_dependencies (node_of g r).
Definition dependents_of (g : graph) (r : option string) : list string :=
  match r with None => root_dependents g | Some r => n_dependents (node_of g r) end.

(** [node.dependencies = dependencies], [node.dependencies.append(dependency)],
    [node.dependents.append(target)] *)
Definition set_dependencies (target : string) (dependencies : list (option string)) (g : graph)
    : graph := {|
  nodes := <[target := {| n_dependencies := dependencies;
                          n_dependents := n_dependents (node_of g target) |}]> (nodes g);
  root_dependents := root_dependents g |}.
Definition add_dependency (target : string) (dependency : option string) (g : graph) : graph :=
  set_dependencies target (dependencies_of g target ++ [dependency])%list g.
Definition add_dependent (node : option string) (target : string) (g : graph) : graph :=
  match node with
  | None => {| nodes := nodes g; root_dependents := (root_dependents g ++ [target])%list |}
  | Some n => {|
      nodes := <[n := {| n_dependencies := n_dependencies (node_of g n);
                         n_dependents := (n_dependents (node_of g n) ++ [target])%list |}]> (nodes g);
      root_dependents := root_dependents g |}
  end.
(** [target_node.dependencies.append(node); node.dependents.append(target_node)] *)
Definition connect (target : string) (node : option string) (g : graph) : graph :=
  add_dependent node target (add_dependency target node g).

(** ** [FlattenToList] *)
Section Flatten.
Context (pop : gset string -> option string) (g : graph).

Definition is_in_degree_zero (flat_list : list string) (node_dependent : string) : bool :=
  forallb (fun d => match d with Some r => bool_decide (r ∈ flat_list) | None => false end)
    (dependencies_of g node_dependent).
Fixpoint flatten_loop (fuel : nat) (flat_list : list string) (in_degree_zeros : gset string)
    : res (list string) :=
  match fuel with
  | 0 => NoFuel
  | S fuel =>
      match pop in_degree_zeros with
      | None => Ok flat_list
      | Some node =>
          let flat_list := OrderedSet.spec_add node flat_list in
          let in_degree_zeros :=
            foldl (fun zeros d => if is_in_degree_zero flat_list d then zeros ∪ {[d]} else zeros)
              (in_degree_zeros ∖ {[node]}) (dependents_of g (Some node)) in
          flatten_loop fuel flat_list in_degree_zeros
      end
  end.
Definition FlattenToList : res (list string) :=
  flatten_loop (S (size (nodes g))) [] (list_to_set (root_dependents g)).
End Flatten.

(** ** [FindCycles], from a node ([None] is the root) *)
Section Cycles.
Context (g : graph).

(** [path[:path.index(child) + 1]] *)
Fixpoint path_upto (child : option string) (path : list (option string)) : list (option string) :=
  match path with
  | [] => []
  | x :: path => if decide (x = child) then [x] else x :: path_upto child path
  end.
Fixpoint Visit (fuel : nat) (node : option string) (path : list (option string))
    (st : gset (option string) * list (list (option string)))
    : res (gset (option string) * list (list (option string))) :=
  match fuel with
  | 0 => NoFuel
  | S fuel =>
      foldM (fun st child =>
               let '(visited, results) := st in
               if decide (Some child ∈ path) then
                 Ok (visited, (results ++ [Some child :: path_upto (Some child) path])%list)
               else if decide (Some child ∈ visited) then Ok st
               else Visit fuel (Some child) (Some child :: path)
                      (visited ∪ {[Some child]}, results))
            st (dependents_of g node)
  end.
Definition FindCycles (self : option string) : res (list (list (option string))) :=
  st ← Visit (S (S (size (nodes g)))) self [self] ({[self]}, []);
  Ok st.2.
End Cycles.

(** ** Direct, imported and deep dependencies *)
Section Dependencies.
Context (targets : list (string * dict)) (g : graph).

Definition target_dict (t : string) : res dict :=
  of_option (KeyError t) (OrderedDict.assoc t targets).
(** [d.get(k, [])] as a list of target names *)
Definition get_names (k : string) (d : dict) : res (list string) :=
  l ← get_list k d;
  foldM (fun acc v => s ← as_key v; Ok (acc ++ [s])%list) [] l.

Definition DirectDependencies (node : string) (dependencies : list string) : list string :=
  foldl (fun deps d => match d with
           | Some r => if decide (r ∈ deps) then deps else (deps ++ [r])%list
           | None => deps
           end) dependencies (dependencies_of g node).

Definition insert_at {A} (i : nat) (x : A) (l : list A) : list A :=
  (take i l ++ x :: drop i l)%list.
(** One round of the [while] loop: the imports of the entry at [index]. *)
Definition import_step (index : nat) (dependencies : list string) (exports : list string)
    : list string :=
  (foldl (fun st d =>
            let '(deps, add_index) := st in
            if decide (d ∈ deps) then st
            else (insert_at (index + add_index) d deps, S add_index))
         (dependencies, 1) exports).1.
Fixpoint import_loop (fuel index : nat) (dependencies : list string) : res (list string) :=
  match fuel with
  | 0 => NoFuel
  | S fuel =>
      match dependencies !! index with
      | None => Ok dependencies
      | Some dependency =>
          dependency_dict ← target_dict dependency;
          exports ← get_names "export_dependent_settings" dependency_dict;
          import_loop fuel (S index) (import_step index dependencies exports)
      end
  end.
(** Every round passes one entry, and the entries are targets. *)
Definition AddImportedDependencies (dependencies : list string) : res (list string) :=
  import_loop (S (length dependencies + length targets)) 0 dependencies.
Definition DirectAndImportedDependencies (node : string) : res (list string) :=
  AddImportedDependencies (DirectDependencies node []).

Fixpoint deep_dependencies (fuel : nat) (node : string) (dependencies : list string)
    : res (list string) :=
  match fuel with
  | 0 => NoFuel
  | S fuel =>
      foldM (fun deps d => match d with
               | None => Ok deps
               | Some r =>
                   if decide (r ∈ deps) then Ok deps
                   else deep_dependencies fuel r (deps ++ [r])%list
               end) dependencies (dependencies_of g node)
  end.
Definition DeepDependencies (node : string) : res (list string) :=
  deep_dependencies (S (size (nodes g))) node [].

(** [_LinkDependenciesInternal] *)
Definition linkable_types : list string := ["executable"; "shared_library"; "loadable_module"].
Definition type_is (d : dict) (t : string) : bool :=
  match dget "type" d with Some (VStr s) => String.eqb s t | _ => false end.
Definition is_linkable (d : dict) : bool := existsb (type_is d) linkable_types.
(** [d.get(k, True)] *)
Definition get_default_true (k : string) (d : dict) : bool :=
  match dget k d with Some v => val_truthy v | None => true end.
Definition name_text (v : val) : string :=
  match v with VStr s => s | VInt n => string_of_int n | _ => type_name v end.

Fixpoint LinkDependenciesInternal (fuel : nat) (self : option string)
    (include_shared_libraries : bool) (dependencies : list string) (initial : bool)
    : res (list string) :=
  match fuel with
  | 0 => NoFuel
  | S fuel =>
      match self with
      | None => Ok dependencies
      | Some ref =>
          d ← target_dict ref;
          match dget "target_name" d with
          | None => Err (GypError "Missing 'target_name' field in target.")
          | Some name =>
              if negb (dmem "type" d) then
                Err (GypError ("Missing 'type' field in target " +:+ name_text name))
              else
                let linkable := is_linkable d in
                if initial && negb linkable then Ok dependencies
                else if type_is d "none" && negb (get_default_true "dependencies_traverse" d) then
                  Ok (OrderedSet.spec_add ref dependencies)
                else if negb initial && (type_is d "executable" || type_is d "loadable_module") then
                  Ok dependencies
                else if negb initial && type_is d "shared_library" && negb include_shared_libraries
                then Ok dependencies
                else if decide (ref ∈ dependencies) then Ok dependencies
                else
                  let dependencies := (dependencies ++ [ref])%list in
                  if initial || negb linkable then
                    foldM (fun deps dep =>
                             LinkDependenciesInternal fuel dep include_shared_libraries deps false)
                      dependencies (dependencies_of g ref)
                  else Ok dependencies
          end
      end
  end.
Definition link_fuel : nat := S (S (length targets)).
Definition DependenciesForLinkSettings (node : string) : res (list string) :=
  d ← target_dict node;
  LinkDependenciesInternal link_fuel (Some node)
    (get_default_true "allow_sharedlib_linksettings_propagation" d) [] true.
Definition DependenciesToLinkAgainst (node : string) : res (list string) :=
  LinkDependenciesInternal link_fuel (Some node) true [] true.
End Dependencies.

(** ** [BuildDependencyList] *)
Section Build.
Context (pop : gset string -> option string).

Definition connect_target (g : graph) (target : string) (spec : dict) : res graph :=
  if negb (get_truthy "dependencies" spec) then
    Ok (add_dependent None target (set_dependencies target [None] g))
  else
    dependencies ← get_names "dependencies" spec;
    foldM (fun g dependency =>
             if decide (is_Some (nodes g !! dependency)) then Ok (connect target (Some dependency) g)
             else Err (GypError ("Dependency '" +:+ dependency +:+ "' not found while " +:+
                                 "trying to load target " +:+ target))) g dependencies.
Definition build_graph (targets : list (string * dict)) : res graph :=
  foldM (fun g kv => connect_target g kv.1 kv.2)
    {| nodes := list_to_map (map (fun kv => (kv.1, new_node)) targets); root_dependents := [] |}
    targets.

Definition cycle_error (g : graph) (first : string) : res (graph * list string) :=
  let g := if decide (root_dependents g = []) then connect first None g else g in
  cycles ← FindCycles g None;
  Err (CircularException (map (map (default "None")) cycles)).

Definition BuildDependencyList (targets : list (string * dict)) : res (graph * list string) :=
  g ← build_graph targets;
  flat_list ← FlattenToList pop g;
  if negb (length flat_list =? length targets) then
    match targets with
    | [] => Err IndexError
    | (first, _) :: _ => cycle_error g first
    end
  else Ok (g, flat_list).

(** [VerifyNoGYPFileCircularDependencies]: the same over build files. *)
Definition build_file_of (target : string) : string := default "None" (BuildFile target).
Definition connect_build_file (g : graph) (build_file dependency : string) : res graph :=
  let dependency_build_file := build_file_of dependency in
  if String.eqb dependency_build_file build_file then Ok g
  else if decide (is_Some (nodes g !! dependency_build_file)) then
    if decide (Some dependency_build_file ∈ dependencies_of g build_file) then Ok g
    else Ok (connect build_file (Some dependency_build_file) g)
  else Err (GypError ("Dependancy '" +:+ dependency_build_file +:+ "' not found")).
Definition build_file_graph (targets : list (string * dict)) : res graph :=
  let files := uniquer (map (fun kv => build_file_of kv.1) targets) in
  g ← foldM (fun g kv =>
               target_dependencies ← get_names "dependencies" kv.2;
               foldM (fun g d => connect_build_file g (build_file_of kv.1) d) g target_dependencies)
        {| nodes := list_to_map (map (fun f => (f, new_node)) files); root_dependents := [] |}
        targets;
  Ok (foldl (fun g f => if decide (dependencies_of g f = []) then connect f None g else g) g files).
Definition VerifyNoGYPFileCircularDependencies (targets : list (string * dict)) : res unit :=
  g ← build_file_graph targets;
  flat_list ← FlattenToList pop g;
  if negb (length flat_list =? size (nodes g)) then
    match targets with
    | [] => Err IndexError
    | (first, _) :: _ => r ← cycle_error g (build_file_of first); Ok tt
    end
  else Ok tt.
End Build.

(** ** Reading a graph after an update *)
Lemma dependencies_of_set t l g x :
  dependencies_of (set_dependencies t l g) x = if decide (x = t) then l else dependencies_of g x.
Proof.
  unfold dependencies_of, set_dependencies, node_of at 1. simpl.
  case_decide as H; [subst x|]; by rewrite ?lookup_insert_eq, ?lookup_insert_ne by congruence.
Qed.
Lemma dependents_of_set t l g r :
  dependents_of (set_dependencies t l g) r = dependents_of g r.
Proof.
  destruct r as [r|]; [|done]. unfold dependents_of, set_dependencies, node_of at 1. simpl.
  destruct (decide (r = t)) as [->|]; by rewrite ?lookup_insert_eq, ?lookup_insert_ne by congruence.
Qed.
Lemma dependencies_of_add_dependent n t g x :
  dependencies_of (add_dependent n t g) x = dependencies_of g x.
Proof.
  destruct n as [n|]; [|done]. unfold dependencies_of, add_dependent, node_of at 1. simpl.
  destruct (decide (x = n)) as [->|]; by rewrite ?lookup_insert_eq, ?lookup_insert_ne by congruence.
Qed.
Lemma dependents_of_add_dependent n t g r :
  dependents_of (add_dependent n t g) r =
  if decide (r = n) then (dependents_of g n ++ [t])%list else dependents_of g r.
Proof.
  destruct (decide (r = n)) as [->|H]; destruct n as [n|]; try destruct r as [r|]; try done;
    unfold dependents_of at 1, node_of at 1; simpl;
    by rewrite ?lookup_insert_eq, ?lookup_insert_ne by congruence.
Qed.

(** [a]'s list of dependencies and the dependents it gives rise to: the graph
    built so far covers the targets of [done]. *)
Section Built.
Context (deps : string -> list string) (names : gset string).

Definition node_deps (t : string) : list (option string) :=
  match deps t with [] => [None] | l => map Some l end.

Record built (covered : gset string) (g : graph) : Prop := {
  built_nodes : dom (nodes g) = names;
  built_deps t : dependencies_of g t = if decide (t ∈ covered) then node_deps t else [];
  built_dependents r x : x ∈ dependents_of g r <-> x ∈ covered /\ r ∈ node_deps x }.

(** One target's loop over its dependencies, a prefix of them done. *)
Record half_built (covered : gset string) (t : string) (l : list string) (g : graph) : Prop := {
  half_nodes : dom (nodes g) = names;
  half_deps x : dependencies_of g x =
    if decide (x = t) then map Some l else if decide (x ∈ covered) then node_deps x else [];
  half_dependents r x : x ∈ dependents_of g r <->
    (x ∈ covered /\ r ∈ node_deps x) \/ (x = t /\ r ∈ map Some l) }.

Lemma half_built_start covered t g : built covered g -> t ∉ covered -> half_built covered t [] g.
Proof.
  intros [H1 H2 H3] Ht. split; [done| |].
  - intros x. rewrite H2. destruct (decide (x = t)) as [->|]; [|done]. by rewrite decide_False.
  - intros r x. rewrite H3. set_solver.
Qed.
Lemma half_built_step covered t l d g : half_built covered t l g -> t ∈ names -> d ∈ names ->
  half_built covered t (l ++ [d])%list (connect t (Some d) g).
Proof.
  intros [H1 H2 H3] Ht Hd. unfold connect, add_dependency. split.
  - simpl. rewrite !dom_insert_L. set_solver.
  - intros x. rewrite dependencies_of_add_dependent, dependencies_of_set, !H2.
    destruct (decide (x = t)) as [->|]; [|done]. rewrite decide_True by done. by rewrite map_app.
  - intros r x. rewrite dependents_of_add_dependent, !dependents_of_set, map_app.
    case_decide as Hr; [subst r|]; rewrite ?elem_of_app, ?H3; set_solver.
Qed.
Lemma half_built_end covered t l g : half_built covered t l g -> l = deps t -> l <> [] ->
  built (covered ∪ {[t]}) g.
Proof.
  intros [H1 H2 H3] Hl Hne. assert (Hn : node_deps t = map Some l).
  { unfold node_deps. rewrite <- Hl. by destruct l. }
  split; [done| |].
  - intros x. rewrite H2. destruct (decide (x = t)) as [->|Hx].
    + by rewrite decide_True by set_solver.
    + apply decide_ext. set_solver.
  - intros r x. rewrite H3, <- Hn. set_solver.
Qed.

Lemma built_root covered t g : built covered g -> t ∉ covered -> t ∈ names -> deps t = [] ->
  built (covered ∪ {[t]}) (add_dependent None t (set_dependencies t [None] g)).
Proof.
  intros [H1 H2 H3] Ht Hin Hd. assert (Hn : node_deps t = [None]) by (unfold node_deps; by rewrite Hd).
  split.
  - simpl. rewrite dom_insert_L. set_solver.
  - intros x. rewrite dependencies_of_add_dependent, dependencies_of_set, H2.
    destruct (decide (x = t)) as [->|Hx]; [by rewrite decide_True by set_solver|].
    apply decide_ext. set_solver.
  - intros r x. rewrite dependents_of_add_dependent, !dependents_of_set.
    rewrite elem_of_union, elem_of_singleton.
    destruct (decide (x = t)) as [->|Hx]; [rewrite Hn|]; destruct (decide (r = None)) as [->|Hr];
      rewrite ?elem_of_app, H3, ?list_elem_of_singleton; naive_solver.
Qed.
End Built.

(** The names a target depends on; an absent or false entry is no dependency. *)
Definition dependency_names (spec : dict) : res (list string) :=
  if get_truthy "dependencies" spec then get_names "dependencies" spec else Ok [].

Lemma names_length acc l r :
  foldM (fun acc v => s ← as_key v; Ok (acc ++ [s])%list) acc l = Ok r ->
  length r = length acc + length l.
Proof.
  revert acc; induction l as [|v l IH]; intros acc; cbn [foldM].
  - intros [= <-]. simpl. lia.
  - intros (acc' & (s & _ & [= <-])%bind_ok & H)%bind_ok. apply IH in H.
    rewrite length_app in H. simpl in *. lia.
Qed.
Lemma iterate_truthy v l : val_truthy v = true -> iterate v = Ok l -> l <> [].
Proof.
  destruct v as [n|s|l'|d]; simpl; try done.
  - destruct s; [done|]. by intros _ [= <-].
  - destruct l'; [done|]. by intros _ [= <-].
  - destruct d; [done|]. by intros _ [= <-].
Qed.
Lemma dependency_names_nil spec l : dependency_names spec = Ok l ->
  (get_truthy "dependencies" spec = false /\ l = []) \/
  (get_truthy "dependencies" spec = true /\ get_names "dependencies" spec = Ok l /\ l <> []).
Proof.
  unfold dependency_names, get_truthy, get_names, get_list.
  destruct (dget "dependencies" spec) as [v|]; [|intros [= <-]; auto].
  destruct (val_truthy v) eqn:Hv; [|intros [= <-]; auto].
  intros H. right. split_and!; [done|done|]. apply bind_ok in H as (l0 & H0 & H).
  apply (iterate_truthy _ _ Hv) in H0. apply names_length in H as Hl. destruct l; [|done].
  destruct l0; [done|]. simpl in Hl. lia.
Qed.

Section BuildSpec.
Context (targets : list (string * dict)) (deps : string -> list string).
Abbreviation names := (list_to_set targets.*1 : gset string).

Definition missing_dependency (m : res graph) : Prop :=
  exists t d msg, t ∈ names /\ d ∈ deps t /\ (d ∉ names) /\ m = Err (GypError msg).

Lemma connect_all covered t l1 l2 g :
  half_built deps names covered t l1 g -> t ∈ names -> deps t = (l1 ++ l2)%list ->
  (l2 ⊆ targets.*1 /\ exists g',
     foldM (fun g dependency =>
             if decide (is_Some (nodes g !! dependency)) then Ok (connect t (Some dependency) g)
             else Err (GypError ("Dependency '" +:+ dependency +:+ "' not found while " +:+
                                 "trying to load target " +:+ t))) g l2 = Ok g' /\
     half_built deps names covered t (deps t) g') \/
  missing_dependency (foldM (fun g dependency =>
             if decide (is_Some (nodes g !! dependency)) then Ok (connect t (Some dependency) g)
             else Err (GypError ("Dependency '" +:+ dependency +:+ "' not found while " +:+
                                 "trying to load target " +:+ t))) g l2).
Proof.
  revert l1 g; induction l2 as [|d l2 IH]; intros l1 g Hg Ht Hd; cbn [foldM].
  - left. split; [set_solver|]. exists g. split; [done|]. rewrite app_nil_r in Hd. by rewrite Hd.
  - case_decide as Hin; rewrite <- elem_of_dom, (half_nodes _ _ _ _ _ _ Hg) in Hin.
    + cbn [mbind res_bind]. destruct (IH (l1 ++ [d])%list (connect t (Some d) g)) as [[H1 H2]|H];
        [by apply half_built_step|done|by rewrite <- app_assoc|left|by right].
      split; [|done]. set_solver.
    + right. exists t, d. eexists. split_and!; [done|rewrite Hd; set_solver|done|done].
Qed.

Lemma connect_target_spec covered g t spec :
  built deps names covered g -> t ∈ names -> t ∉ covered -> dependency_names spec = Ok (deps t) ->
  (deps t ⊆ targets.*1 /\ exists g', connect_target g t spec = Ok g' /\
     built deps names (covered ∪ {[t]}) g') \/
  missing_dependency (connect_target g t spec).
Proof.
  intros Hg Hin Hnew Hd. unfold connect_target.
  destruct (dependency_names_nil _ _ Hd) as [[-> Hnil]|(-> & -> & Hne)]; cbn [negb mbind res_bind].
  - left. rewrite Hnil. split; [set_solver|]. eexists. split; [done|]. by apply built_root.
  - destruct (connect_all covered t [] (deps t) g) as [[H1 (g' & H2 & H3)]|H];
      [by apply half_built_start|done|done|left|by right].
    split; [done|]. exists g'. split; [done|]. by eapply half_built_end.
Qed.

Lemma build_from covered g l :
  built deps names covered g -> l.*1 ⊆ targets.*1 -> NoDup l.*1 ->
  (forall t, t ∈ l.*1 -> t ∉ covered) ->
  Forall (fun kv => dependency_names kv.2 = Ok (deps kv.1)) l ->
  ((forall t, t ∈ l.*1 -> deps t ⊆ targets.*1) /\ exists g',
     foldM (fun g kv => connect_target g kv.1 kv.2) g l = Ok g' /\
     built deps names (covered ∪ list_to_set l.*1) g') \/
  missing_dependency (foldM (fun g kv => connect_target g kv.1 kv.2) g l).
Proof.
  revert covered g; induction l as [|[t spec] l IH]; intros covered g Hg Hsub Hnd Hnew Hd; cbn [foldM].
  - left. split; [set_solver|]. exists g. split; [done|]. simpl. by rewrite (right_id_L ∅ (∪)).
  - apply list.Forall_cons in Hd as [Hd Hds]. simpl in *. apply list.NoDup_cons in Hnd as [Ht Hnd].
    destruct (connect_target_spec covered g t spec) as [[H1 (g' & H2 & H3)]|(t' & d & msg & H1 & H2 & H3 & H4)];
      [done|set_solver|set_solver|done|rewrite H2; cbn [mbind res_bind]|
       right; rewrite H4; by exists t', d, msg].
    destruct (IH (covered ∪ {[t]}) g' H3) as [[H4 (g2 & H5 & H6)]|H];
      [set_solver|done|set_solver|done|left|by right].
    split; [set_solver|]. exists g2. split; [done|].
    by rewrite (assoc_L (∪)).
Qed.

Definition empty_graph (names : list string) : graph :=
  {| nodes := list_to_map (map (fun n => (n, new_node)) names); root_dependents := [] |}.
Lemma empty_graph_built : built deps names ∅ (empty_graph targets.*1).
Proof.
  assert (Hdef : forall x, node_of (empty_graph targets.*1) x = new_node).
  { intros x. unfold node_of. destruct (_ !! x) as [n|] eqn:Hx; [|done].
    apply elem_of_list_to_map_2, list_elem_of_In, in_map_iff in Hx as (? & [= <- <-] & _). done. }
  split.
  - unfold empty_graph. cbn [nodes]. rewrite dom_list_to_map_L. f_equal.
    generalize targets.*1 as l. induction l as [|x l IH]; [done|]. simpl. by f_equal.
  - intros t. unfold dependencies_of. by rewrite Hdef, decide_False by set_solver.
  - intros [r|] x; unfold dependents_of; [rewrite Hdef|]; set_solver.
Qed.

Lemma build_graph_spec : NoDup targets.*1 ->
  Forall (fun kv => dependency_names kv.2 = Ok (deps kv.1)) targets ->
  ((forall t, t ∈ targets.*1 -> deps t ⊆ targets.*1) /\ exists g, build_graph targets = Ok g /\
     built deps names names g) \/
  missing_dependency (build_graph targets).
Proof.
  intros Hnd Hd. unfold build_graph.
  replace (map _ targets) with (map (fun n => (n, new_node)) targets.*1)
    by (clear; induction targets as [|kv l IH]; simpl; [done|by rewrite <- IH]).
  fold (empty_graph targets.*1).
  destruct (build_from ∅ (empty_graph targets.*1) targets) as [[H1 (g & H2 & H3)]|H];
    [apply empty_graph_built|done|done|set_solver|done|left|by right].
  split; [done|]. exists g. split; [done|]. by rewrite (left_id_L ∅ (∪)) in H3.
Qed.
End BuildSpec.

(** ** [FlattenToList] *)

(** Every target stands behind the targets it depends on. *)
Definition dependencies_first (deps : string -> list string) (flat : list string) : Prop :=
  forall i t d, flat !! i = Some t -> d ∈ deps t -> d ∈ take i flat.

Lemma dependencies_first_snoc deps flat t :
  dependencies_first deps flat -> deps t ⊆ flat -> dependencies_first deps (flat ++ [t]).
Proof.
  intros H Ht i x d Hi Hd. rewrite take_app, elem_of_app.
  apply lookup_app_Some in Hi as [Hi|[Hlen Hi]]; [left; eauto|].
  apply list_lookup_singleton_Some in Hi as [_ ->]. left.
  rewrite take_ge by done. by apply Ht.
Qed.

Lemma zeros_spec g flat l (zeros : gset string) x :
  x ∈ foldl (fun (zeros : gset string) d => if is_in_degree_zero g flat d then zeros ∪ {[d]} else zeros) zeros l <->
  x ∈ zeros \/ (x ∈ l /\ is_in_degree_zero g flat x = true).
Proof.
  revert zeros; induction l as [|d l IH]; intros zeros; simpl; [set_solver|].
  rewrite IH, elem_of_cons. destruct (is_in_degree_zero g flat d) eqn:Hd;
    rewrite ?elem_of_union, ?elem_of_singleton; clear IH; (destruct (decide (x = d)) as [->|]; [rewrite Hd|]); intuition congruence.
Qed.

Section FlattenSpec.
Context (deps : string -> list string) (names : gset string) (g : graph).
Context (Hg : built deps names names g).

Lemma is_in_degree_zero_spec flat x : x ∈ names ->
  is_in_degree_zero g flat x = true <-> deps x <> [] /\ deps x ⊆ flat.
Proof using Hg.
  intros Hx. unfold is_in_degree_zero. rewrite (built_deps _ _ _ _ Hg), decide_True by done.
  rewrite forallb_forall. unfold node_deps. destruct (deps x) as [|d l].
  - split; [|by intros []]. intros H. by specialize (H None (or_introl eq_refl)).
  - split; [|intros [_ H] o Ho].
    + intros H. split; [done|]. intros y Hy. specialize (H (Some y)).
      rewrite bool_decide_eq_true in H. apply H, in_map. by apply list_elem_of_In.
    + apply in_map_iff in Ho as (y & <- & Hy). apply bool_decide_eq_true, H. by apply list_elem_of_In.
Qed.

Lemma dependents_spec d x : x ∈ dependents_of g (Some d) <-> x ∈ names /\ d ∈ deps x.
Proof using Hg.
  rewrite (built_dependents _ _ _ _ Hg). unfold node_deps.
  destruct (deps x) as [|y l]; [set_solver|]. set_solver.
Qed.
Lemma roots_spec x : x ∈ root_dependents g <-> x ∈ names /\ deps x = [].
Proof using Hg.
  change (root_dependents g) with (dependents_of g None).
  rewrite (built_dependents _ _ _ _ Hg). unfold node_deps. destruct (deps x); set_solver.
Qed.

Record flat_inv (flat : list string) (zeros : gset string) : Prop := {
  flat_nodup : NoDup flat;
  flat_names x : x ∈ flat \/ x ∈ zeros -> x ∈ names;
  flat_order : dependencies_first deps flat;
  flat_zeros z : z ∈ zeros -> (z ∉ flat) /\ deps z ⊆ flat;
  flat_complete x : x ∈ names -> deps x ⊆ flat -> x ∈ flat \/ x ∈ zeros }.

Lemma flat_inv_start : flat_inv [] (list_to_set (root_dependents g)).
Proof using Hg.
  split; [constructor| |by intros i t d Hi| |].
  - intros x [Hx|Hx%elem_of_list_to_set]; [set_solver|]. by apply roots_spec in Hx as [? _].
  - intros z Hz%elem_of_list_to_set. apply roots_spec in Hz as [_ Hz]. rewrite Hz. set_solver.
  - intros x Hx Hd. right. apply elem_of_list_to_set, roots_spec. split; [done|].
    destruct (deps x) as [|d l]; [done|]. set_solver.
Qed.

Lemma flat_inv_step flat zeros n : flat_inv flat zeros -> n ∈ zeros ->
  let flat' := OrderedSet.spec_add n flat in
  flat' = (flat ++ [n])%list /\
  flat_inv flat' (foldl (fun zeros d => if is_in_degree_zero g flat' d then zeros ∪ {[d]} else zeros)
                    (zeros ∖ {[n]}) (dependents_of g (Some n))).
Proof using Hg.
  intros [H1 H2 H3 H4 H5] Hn flat'. destruct (H4 n Hn) as [Hnew Hdeps].
  assert (Hflat : flat' = (flat ++ [n])%list) by (unfold flat', OrderedSet.spec_add; by rewrite decide_False).
  split; [done|]. rewrite Hflat. split.
  - by apply NoDup_snoc.
  - intros x [Hx|Hx]; [set_solver|]. apply zeros_spec in Hx as [Hx|[Hx _]]; [set_solver|].
    by apply dependents_spec in Hx as [? _].
  - by apply dependencies_first_snoc.
  - intros z Hz. apply zeros_spec in Hz as [Hz|[Hz Hzero]].
    + destruct (H4 z); set_solver.
    + apply dependents_spec in Hz as [Hz Hnz].
      apply is_in_degree_zero_spec in Hzero as [_ Hz2]; [|done]. split; [|done].
      rewrite elem_of_app, list_elem_of_singleton. intros [Hin| ->]; [|set_solver].
      apply list_elem_of_lookup in Hin as [i Hi]. apply Hnew.
      eapply subseteq_take. by eapply H3.
  - intros x Hx Hd. rewrite zeros_spec. destruct (decide (n ∈ deps x)) as [Hin|Hin].
    + right; right. split; [by apply dependents_spec|]. apply is_in_degree_zero_spec; [done|].
      split; [|done]. intros He. rewrite He in Hin. set_solver.
    + destruct (H5 x Hx) as [?|?]; [|set_solver|].
      * intros d Hdx. specialize (Hd d Hdx). rewrite elem_of_app, list_elem_of_singleton in Hd.
        destruct Hd as [?| ->]; done.
      * destruct (decide (x = n)); set_solver.
Qed.

Context (pop : gset string -> option string) `{!SetPop pop}.

Lemma flatten_loop_spec fuel flat zeros : flat_inv flat zeros ->
  size names < fuel + length flat ->
  exists flat', flatten_loop pop g fuel flat zeros = Ok flat' /\ flat_inv flat' ∅.
Proof using All.
  revert flat zeros; induction fuel as [|fuel IH]; intros flat zeros Hinv Hf; cbn [flatten_loop].
  - exfalso. assert (Hl : length flat <= size names); [|lia].
    rewrite <- (size_list_to_set (C := gset string) flat) by apply Hinv.
    apply subseteq_size. intros x Hx%elem_of_list_to_set. eapply flat_names; eauto.
  - destruct (pop zeros) as [n|] eqn:Hpop.
    + apply set_pop_some in Hpop. destruct (flat_inv_step _ _ _ Hinv Hpop) as [Hflat Hinv'].
      apply IH; [done|]. rewrite Hflat, length_app. simpl. lia.
    + apply set_pop_none in Hpop as ->. eauto.
Qed.

Lemma FlattenToList_spec :
  exists flat, FlattenToList pop g = Ok flat /\ flat_inv flat ∅.
Proof using All.
  apply flatten_loop_spec; [apply flat_inv_start|].
  rewrite <- (built_nodes _ _ _ _ Hg). rewrite size_dom. simpl. lia.
Qed.

Context (Hclosed : forall t d, t ∈ names -> d ∈ deps t -> d ∈ names).
(** What is left over depends on something left over, hence is on a cycle. *)
Lemma leftover_cycle flat : flat_inv flat ∅ -> length flat <> size names ->
  exists t, t ∈ names /\ tc (fun a b => b ∈ deps a) t t.
Proof using Hclosed.
  intros [H1 H2 H3 H4 H5] Hlen.
  destruct (finite_cycle (names ∖ list_to_set flat) (fun a b => b ∈ deps a)) as (t & Ht & Hc).
  - intros Hempty. apply Hlen. rewrite <- (size_list_to_set (C := gset string) flat) by done.
    f_equal. apply set_eq. intros x. rewrite elem_of_list_to_set. split; [auto|]. intros Hx.
    destruct (decide (x ∈ flat)) as [|Hn]; [done|]. clear -Hempty Hx Hn. set_solver.
  - intros x [Hx Hnot]%elem_of_difference. rewrite elem_of_list_to_set in Hnot.
    destruct (decide (Exists (fun d => d ∉ flat) (deps x))) as [He|He].
    + apply list.Exists_exists in He as (d & Hd & Hnd). exists d. split; [|done].
      rewrite elem_of_difference, elem_of_list_to_set. split; [by eapply Hclosed|done].
    + destruct (H5 x Hx) as [?|?%elem_of_empty]; [|done..]. intros d Hd.
      destruct (decide (d ∈ flat)) as [|Hn]; [done|]. destruct He.
      apply list.Exists_exists. eauto.
  - exists t. apply elem_of_difference in Ht as [Ht _]. done.
Qed.
End FlattenSpec.

(** ** [FindCycles] *)

(** [b] is a dependent of [a]. *)
Definition dependent_edge (g : graph) (a b : option string) : Prop :=
  exists c, b = Some c /\ c ∈ dependents_of g a.
(** Each element but the last is a dependent of the next one. *)
Fixpoint chain (g : graph) (path : list (option string)) : Prop :=
  match path with
  | x :: ((y :: _) as path') => dependent_edge g y x /\ chain g path'
  | _ => True
  end.

Lemma path_upto_spec c path : c ∈ path -> list.last (path_upto c path) = Some c /\
  path_upto c path ⊆ path.
Proof.
  induction path as [|x path IH]; [set_solver|]. intros Hin. simpl.
  case_decide as Hx; [subst; simpl; split; [done|set_solver]|].
  destruct IH as [IH1 IH2]; [set_solver|]. split; [|set_solver].
  destruct (path_upto c path) eqn:He; [done|]. exact IH1.
Qed.
Lemma path_upto_chain g c path : chain g path -> chain g (path_upto c path).
Proof.
  induction path as [|x path IH]; [done|]. intros H. simpl.
  case_decide; [done|]. destruct path as [|y path]; [done|]. destruct H as [H1 H2].
  specialize (IH H2). simpl in *. case_decide; [done|]. split; [done|exact IH].
Qed.
Lemma path_upto_head c y path : exists l, path_upto c (y :: path) = y :: l.
Proof. simpl. case_decide; eauto. Qed.

Section CyclesSpec.
Context (g : graph) (names : gset string) (self : option string).
Abbreviation edge := (dependent_edge g).

(** A reported cycle: a walk along dependencies from a node to itself, every
    node of which can be reached from the start of the search. *)
Definition is_cycle (l : list (option string)) : Prop :=
  exists c m, l = Some c :: m /\ list.last m = Some (Some c) /\ chain g l /\
    forall x, x ∈ l -> rtc edge self x.

Definition places : gset (option string) := {[self]} ∪ set_map Some names.
Lemma places_size : size places <= S (size names).
Proof.
  unfold places. pose proof (size_union_alt {[self]} (set_map (D := gset (option string)) Some names)) as H.
  rewrite size_singleton in H.
  pose proof (subseteq_size (set_map (D := gset (option string)) Some names ∖ {[self]})
    (set_map Some names) ltac:(set_solver)) as H1.
  assert (H2 : size (set_map (D := gset (option string)) Some names) = size names).
  { unfold set_map. rewrite size_list_to_set by (apply (NoDup_fmap_2 _), NoDup_elements).
    by rewrite length_fmap. }
  lia.
Qed.

Definition visit_post (st st' : gset (option string) * list (list (option string))) : Prop :=
  st.1 ⊆ st'.1 /\ st'.1 ⊆ places /\ exists new, st'.2 = (st.2 ++ new)%list /\ Forall is_cycle new.

Lemma visit_post_trans st1 st2 st3 : visit_post st1 st2 -> visit_post st2 st3 -> visit_post st1 st3.
Proof.
  intros (H1 & _ & new & H2 & H3) (H4 & H5 & new' & H6 & H7).
  split; [set_solver|split; [done|]]. exists (new ++ new')%list.
  rewrite H6, H2, (assoc_L (++)%list). split; [done|]. by apply Forall_app.
Qed.

Context (Hdom : forall r c, c ∈ dependents_of g r -> c ∈ names).
Lemma Visit_cycles fuel node path st :
  chain g (node :: path) -> (forall x, x ∈ node :: path -> rtc edge self x) ->
  st.1 ⊆ places -> S (S (size names)) < fuel + size st.1 ->
  exists st', Visit g fuel node (node :: path) st = Ok st' /\ visit_post st st'.
Proof using Hdom.
  revert node path st; induction fuel as [|fuel IH]; intros node path st Hc Hr Hv Hf.
  { exfalso. apply subseteq_size in Hv. pose proof places_size. simpl in Hf. lia. }
  cbn [Visit]. apply (foldM_total (visit_post st)).
  { split_and!; [done|done|]. exists []. rewrite app_nil_r. split; [done|constructor]. }
  intros [visited results] child Hchild Hpost.
  assert (Hedge : edge node (Some child)) by (by exists child).
  case_decide as Hin; [|case_decide as Hvis].
  - eexists. split; [done|]. eapply visit_post_trans; [exact Hpost|]. destruct Hpost as (_ & Hp & _).
    split_and!; [done|done|]. eexists. split; [done|]. apply list.Forall_singleton.
    destruct (path_upto_spec _ _ Hin) as [Hlast Hsub].
    exists child, (path_upto (Some child) (node :: path)). split_and!; [done|done| |].
    + pose proof (path_upto_chain g (Some child) _ Hc) as Hch.
      destruct (path_upto_head (Some child) node path) as [l Hl]. rewrite Hl in *. done.
    + intros x [->|Hx]%elem_of_cons; auto.
  - eexists. split; [done|exact Hpost].
  - assert (Hplace : Some child ∈ places).
    { unfold places. apply elem_of_union_r, elem_of_map. exists child. split; [done|by eapply Hdom]. }
    destruct (IH (Some child) (node :: path) (visited ∪ {[Some child]}, results)) as (st' & Hst & Hp).
    + split; [done|exact Hc].
    + intros x [->|Hx]%elem_of_cons; [|auto]. eapply rtc_r; [|exact Hedge]. apply Hr. left.
    + destruct Hpost as (_ & Hp & _). simpl in *. set_solver.
    + simpl in *. destruct Hpost as (Hsub & _ & _). simpl in Hsub.
      rewrite size_union, size_singleton by set_solver. apply subseteq_size in Hsub. lia.
    + exists st'. split; [done|]. eapply visit_post_trans; [exact Hpost|].
      destruct Hp as (H1 & H2 & H3). simpl in *. split; [set_solver|done].
Qed.

Lemma FindCycles_spec : size (nodes g) = size names ->
  exists cycles, FindCycles g self = Ok cycles /\ Forall is_cycle cycles.
Proof using Hdom.
  intros Hsize. unfold FindCycles.
  destruct (Visit_cycles (S (S (size (nodes g)))) self [] ({[self]}, [])) as (st' & -> & _ & _ & new & Hnew & Hall).
  - done.
  - intros x ->%list_elem_of_singleton. constructor.
  - unfold places. set_solver.
  - cbn [fst]. rewrite size_singleton. lia.
  - exists new. cbn [mbind res_bind]. by rewrite Hnew.
Qed.
End CyclesSpec.

(** ** The exception that names the cycles *)
Definition depends (deps : string -> list string) (a b : string) : Prop := b ∈ deps a.
(** Each element but the last depends on the next one. *)
Fixpoint dep_walk (deps : string -> list string) (l : list string) : Prop :=
  match l with
  | a :: ((b :: _) as l') => depends deps a b /\ dep_walk deps l'
  | _ => True
  end.
Definition circular (deps : string -> list string) (l : list string) : Prop :=
  exists c m, l = c :: m /\ list.last m = Some c /\ dep_walk deps l.

Section NamedCycles.
Context (deps : string -> list string) (g : graph).
Context (Hedge : forall d x, x ∈ dependents_of g (Some d) -> d ∈ deps x).

Lemma chain_walk l c : chain g l -> list.last l = Some (Some c) ->
  dep_walk deps (map (default "None") l) /\ Forall is_Some l.
Proof using Hedge.
  induction l as [|x l IH]; [done|]. intros Hc Hl. destruct l as [|y l].
  - injection Hl as ->. split; [done|]. by apply list.Forall_singleton.
  - destruct Hc as [(x' & -> & Hx) Hc]. destruct (IH Hc Hl) as [IH1 IH2].
    split; [|by apply list.Forall_cons]. split; [|exact IH1].
    apply list.Forall_cons in IH2 as [[y' ->] _]. by apply Hedge.
Qed.

Lemma rtc_dependents a t : rtc (dependent_edge g) a (Some t) ->
  match a with
  | Some r => rtc (depends deps) t r
  | None => exists r, r ∈ root_dependents g /\ rtc (depends deps) t r
  end.
Proof using Hedge.
  intros H. remember (Some t) as b eqn:Hb. revert t Hb.
  induction H as [b|a b b' (c & -> & Hc) _ IH]; intros t ->; [constructor|].
  specialize (IH t eq_refl). cbn in IH. destruct a as [a|].
  - eapply rtc_r; [exact IH|]. by apply Hedge.
  - by exists c.
Qed.

Lemma is_cycle_circular l : is_cycle g None l ->
  circular deps (map (default "None") l) /\
  forall x, x ∈ map (default "None") l ->
    exists r, r ∈ root_dependents g /\ rtc (depends deps) x r.
Proof using Hedge.
  intros (c & m & -> & Hlast & Hc & Hr).
  assert (Hl : list.last (Some c :: m) = Some (Some c)) by (by destruct m).
  destruct (chain_walk _ _ Hc Hl) as [Hw Hs]. split.
  - exists c, (map (default "None") m). split_and!; [done| |exact Hw].
    change (map (default "None") m) with (default "None" <$> m). by rewrite fmap_last, Hlast.
  - intros x Hx%list_elem_of_In%in_map_iff. destruct Hx as (o & <- & Ho%list_elem_of_In).
    rewrite list.Forall_forall in Hs. destruct (Hs o Ho) as [t ->]. simpl.
    apply (rtc_dependents None). by apply Hr.
Qed.
End NamedCycles.

Lemma cycle_error_spec deps names g first :
  built deps names names g -> first ∈ names ->
  exists cycles, cycle_error g first = Err (CircularException cycles) /\
    Forall (fun l => circular deps l /\
      ((exists t, t ∈ names /\ deps t = []) ->
       forall x, x ∈ l -> exists r, (r ∈ names /\ deps r = []) /\ rtc (depends deps) x r)) cycles.
Proof.
  intros Hg Hf. unfold cycle_error.
  set (g' := if decide (root_dependents g = []) then connect first None g else g).
  assert (Hsize : size (nodes g') = size names).
  { transitivity (size (dom (nodes g'))); [by rewrite size_dom|]. f_equal. unfold g'.
    pose proof (built_nodes _ _ _ _ Hg) as Hn. case_decide; [|done]. simpl.
    rewrite dom_insert_L, Hn. set_solver. }
  assert (Hsome : forall d, dependents_of g' (Some d) = dependents_of g (Some d)).
  { intros d. unfold g'. case_decide; [|done]. unfold connect, add_dependency.
    by rewrite dependents_of_add_dependent, decide_False, dependents_of_set by done. }
  assert (Hnone : forall r, r ∈ dependents_of g' None -> r ∈ names).
  { intros r. unfold g'. case_decide as He.
    - unfold connect, add_dependency. rewrite dependents_of_add_dependent, decide_True by done.
      rewrite dependents_of_set. simpl. rewrite He. by intros ->%list_elem_of_singleton.
    - intros Hr. by apply (roots_spec _ _ _ Hg) in Hr as [? _]. }
  destruct (FindCycles_spec g' names None) as (cycles & -> & Hall); [|done|].
  { intros [d|] c Hc; [|by apply Hnone]. rewrite Hsome in Hc.
    by apply (dependents_spec _ _ _ Hg) in Hc as [? _]. }
  eexists. split; [done|]. apply list.Forall_fmap. eapply list.Forall_impl; [exact Hall|].
  intros l Hl. apply (is_cycle_circular deps) in Hl as [Hcirc Hreach].
  - split; [exact Hcirc|]. intros (t & Ht & Hnil) x Hx. destruct (Hreach x Hx) as (r & Hr & Hxr).
    exists r. split; [|done]. apply (roots_spec _ _ _ Hg). unfold g' in Hr.
    rewrite decide_False in Hr; [done|]. intros He.
    assert (Hin : t ∈ root_dependents g) by (by apply (roots_spec _ _ _ Hg)). rewrite He in Hin.
    set_solver.
  - intros d x Hd. rewrite Hsome in Hd. by apply (dependents_spec _ _ _ Hg) in Hd as [_ ?].
Qed.

Lemma FlattenToList_all deps (targets : list (string * dict)) flat :
  NoDup targets.*1 -> flat_inv deps (list_to_set targets.*1) flat ∅ -> length flat = length targets ->
  flat ≡ₚ targets.*1.
Proof.
  intros Hnd Hflat Hlen. apply NoDup_incl_Permutation; [apply Hflat|done| |by rewrite length_fmap].
  intros x Hx. apply (elem_of_list_to_set (C := gset string)). eapply flat_names; eauto.
Qed.

(** What a successful call leaves behind. *)
Lemma BuildDependencyList_ok pop targets deps g flat :
  SetPop pop -> NoDup targets.*1 ->
  Forall (fun kv => dependency_names kv.2 = Ok (deps kv.1)) targets ->
  BuildDependencyList pop targets = Ok (g, flat) ->
  built deps (list_to_set targets.*1) (list_to_set targets.*1) g /\
  (forall t d, t ∈ targets.*1 -> d ∈ deps t -> d ∈ targets.*1) /\
  flat_inv deps (list_to_set targets.*1) flat ∅ /\ flat ≡ₚ targets.*1.
Proof.
  intros Hpop Hnd Hd. unfold BuildDependencyList.
  destruct (build_graph_spec targets deps Hnd Hd) as [[Hclosed (g' & -> & Hg)]|(t & d & msg & _ & _ & _ & ->)];
    [|done]. cbn [mbind res_bind].
  destruct (FlattenToList_spec deps _ g' Hg pop) as (flat' & -> & Hflat). cbn [mbind res_bind].
  destruct (length flat' =? length targets) eqn:Hlen; cbn [negb]; reflect.
  - intros [= <- <-]. split_and!; [done| |done|by eapply FlattenToList_all].
    intros t d Ht Hdt. by apply (Hclosed t).
  - destruct targets as [|[first spec] l]; [done|].
    destruct (cycle_error_spec deps _ g' first Hg) as (cycles & -> & _); [|done].
    simpl. set_solver.
Qed.

(** C14. Whatever order [set.pop] takes: either the flat list is the targets,
    each once and each behind its dependencies, and the graph has exactly the
    dependencies as its edges, both ways; or some target names a dependency that
    is not a target; or the dependencies are circular. *)
Theorem BuildDependencyList_spec pop targets deps :
  SetPop pop -> NoDup targets.*1 ->
  Forall (fun kv => dependency_names kv.2 = Ok (deps kv.1)) targets ->
  match BuildDependencyList pop targets with
  | Ok (g, flat) =>
      flat ≡ₚ targets.*1 /\ dependencies_first deps flat /\
      built deps (list_to_set targets.*1) (list_to_set targets.*1) g
  | Err (GypError _) => exists t d, t ∈ targets.*1 /\ d ∈ deps t /\ d ∉ targets.*1
  | Err (CircularException _) =>
      (forall t, t ∈ targets.*1 -> deps t ⊆ targets.*1) /\
      exists t, t ∈ targets.*1 /\ tc (depends deps) t t
  | _ => False
  end.
Proof.
  intros Hpop Hnd Hd. unfold BuildDependencyList.
  destruct (build_graph_spec targets deps Hnd Hd) as [[Hclosed (g & -> & Hg)]|(t & d & msg & Ht & Hdt & Hn & ->)].
  2: { cbn. exists t, d. rewrite elem_of_list_to_set in Ht, Hn. done. }
  cbn [mbind res_bind].
  destruct (FlattenToList_spec deps _ g Hg pop) as (flat & -> & Hflat). cbn [mbind res_bind].
  destruct (length flat =? length targets) eqn:Hlen; cbn [negb]; reflect.
  - split_and!; [by eapply FlattenToList_all|apply Hflat|done].
  - destruct targets as [|[first spec] l] eqn:Ht; [|rewrite <- Ht in *].
    + exfalso. apply Hlen. destruct flat as [|x flat]; [done|].
      assert (Hx : x ∈ (∅ : gset string)) by (eapply flat_names; [exact Hflat|left; left]). set_solver.
    + destruct (cycle_error_spec deps _ g first Hg) as (cycles & -> & _);
        [rewrite Ht; simpl; set_solver|]. cbn. split; [done|].
      destruct (leftover_cycle deps _ ltac:(intros t d H1%elem_of_list_to_set H2;
        apply elem_of_list_to_set; by apply (Hclosed t)) flat Hflat) as (t & Ht' & Hc);
        [by rewrite size_list_to_set, length_fmap|].
      exists t. rewrite elem_of_list_to_set in Ht'. done.
Qed.
Definition target_on (l : list string) : dict := [("dependencies", VList (map VStr l))].
Definition graph_example (deps : string -> list string) (l : list string) : list (string * dict) :=
  map (fun t => (t, target_on (deps t))) l.
Lemma BuildDependencyList_spec_witness :
  let deps t := if String.eqb t "b" then ["a"] else if String.eqb t "c" then ["a"; "b"] else [] in
  let targets := graph_example deps ["c"; "b"; "a"] in
  match BuildDependencyList pop_first targets with
  | Ok (g, flat) =>
      flat ≡ₚ targets.*1 /\ dependencies_first deps flat /\
      built deps (list_to_set targets.*1) (list_to_set targets.*1) g
  | Err (GypError _) => exists t d, t ∈ targets.*1 /\ d ∈ deps t /\ d ∉ targets.*1
  | Err (CircularException _) =>
      (forall t, t ∈ targets.*1 -> deps t ⊆ targets.*1) /\
      exists t, t ∈ targets.*1 /\ tc (depends deps) t t
  | _ => False
  end.
Proof.
  intros deps targets. apply (BuildDependencyList_spec pop_first targets deps).
  - exact pop_first_ok.
  - decided.
  - repeat constructor.
Defined.

Lemma walk_tc deps a m b : dep_walk deps (a :: m) -> list.last m = Some b -> tc (depends deps) a b.
Proof.
  revert a; induction m as [|x m IH]; intros a Hw Hl; [done|]. destruct Hw as [Hax Hw].
  destruct m as [|y m]; [injection Hl as <-; by constructor|].
  eapply tc_l; [exact Hax|]. by apply IH.
Qed.

(** C15. The cycles the exception names are real ones.  But the search starts at
    the targets without dependencies, if there are any, so a cycle is named only
    if it depends on one of those: otherwise the exception says that there are
    cycles and names none. *)
Theorem BuildDependencyList_cycles pop targets deps cycles :
  SetPop pop -> NoDup targets.*1 ->
  Forall (fun kv => dependency_names kv.2 = Ok (deps kv.1)) targets ->
  BuildDependencyList pop targets = Err (CircularException cycles) ->
  Forall (circular deps) cycles /\
  ((exists t, t ∈ targets.*1 /\ deps t = []) ->
   (forall l x, l ∈ cycles -> x ∈ l ->
      exists r, (r ∈ targets.*1 /\ deps r = []) /\ rtc (depends deps) x r) /\
   ((forall t r, tc (depends deps) t t -> rtc (depends deps) t r -> deps r <> []) -> cycles = [])).
Proof.
  intros Hpop Hnd Hd. unfold BuildDependencyList.
  destruct (build_graph_spec targets deps Hnd Hd) as [[Hclosed (g & -> & Hg)]|(t & d & msg & _ & _ & _ & ->)];
    [|done]. cbn [mbind res_bind].
  destruct (FlattenToList_spec deps _ g Hg pop) as (flat & -> & _). cbn [mbind res_bind].
  case_match; [|done]. destruct targets as [|[first spec] l] eqn:Ht; [done|rewrite <- Ht in *].
  destruct (cycle_error_spec deps _ g first Hg) as (cycles' & -> & Hall); [rewrite Ht; simpl; set_solver|].
  cbn. intros [= ->]. rewrite list.Forall_forall in Hall.
  assert (Hreach : (exists t, t ∈ targets.*1 /\ deps t = []) -> forall l x, l ∈ cycles -> x ∈ l ->
    exists r, (r ∈ targets.*1 /\ deps r = []) /\ rtc (depends deps) x r).
  { intros (t & Hin & Hnil) l' x Hl Hx. destruct (Hall l' Hl) as [_ Hr].
    setoid_rewrite elem_of_list_to_set in Hr. apply Hr; eauto. }
  split; [apply list.Forall_forall; intros l' Hl; by apply Hall|].
  intros Hind. split; [by apply Hreach|]. intros Hno. destruct cycles as [|l' cycles]; [done|]. exfalso.
  destruct (Hall l') as [(c & m & -> & Hlast & Hw) _]; [left|].
  destruct (Hreach Hind (c :: m) c) as (r & [_ Hr] & Hcr); [left|left|].
  eapply Hno; [|exact Hcr|exact Hr]. by eapply walk_tc.
Qed.
Lemma BuildDependencyList_cycles_witness :
  let deps t := if String.eqb t "b" then ["c"] else if String.eqb t "c" then ["b"] else [] in
  let targets := graph_example deps ["a"; "b"; "c"] in
  BuildDependencyList pop_first targets = Err (CircularException []) /\
  Forall (circular deps) [].
Proof.
  intros deps targets. assert (H : BuildDependencyList pop_first targets = Err (CircularException [])).
  { vm_compute. reflexivity. }
  split; [exact H|].
  refine (proj1 (BuildDependencyList_cycles pop_first targets deps [] pop_first_ok _ _ H)).
  - decided.
  - repeat constructor.
Defined.

(** ** Deep dependencies *)
Section DeepSpec.
Context (deps : string -> list string) (names : gset string) (g : graph).

Record deep_post (node : string) (ds ds' : list string) : Prop := {
  dp_nodup : NoDup ds';
  dp_names : forall x, x ∈ ds' -> x ∈ names;
  dp_mono : ds ⊆ ds';
  dp_length : length ds <= length ds';
  dp_closed : forall x d, x ∈ ds' -> x ∉ ds -> d ∈ deps x -> d ∈ ds';
  dp_reach : forall x, x ∈ ds' -> x ∉ ds -> tc (depends deps) node x }.

Lemma deep_post_refl node ds : NoDup ds -> (forall x, x ∈ ds -> x ∈ names) -> deep_post node ds ds.
Proof. intros H1 H2. by split. Qed.

(** One dependency [r] of [node]: visited already, or entered and explored. *)
Lemma deep_post_enter node r ds ds1 ds2 :
  deep_post node ds ds1 -> r ∈ deps node ->
  deep_post r (ds1 ++ [r]) ds2 -> (forall d, d ∈ deps r -> d ∈ ds2) -> deep_post node ds ds2.
Proof.
  intros [A1 A2 A3 A4 A5 A6] Hr [B1 B2 B3 B4 B5 B6] Hd.
  assert (Hsub : forall x, x ∈ ds1 -> x ∈ ds2) by (intros x Hx; apply B3; set_solver).
  rewrite length_app in B4. split; [done|done|intros x Hx; by apply Hsub, A3|lia| |].
  - intros x d Hx Hn Hdx. destruct (decide (x ∈ ds1)) as [H1|H1]; [by apply Hsub; eapply A5|].
    destruct (decide (x = r)) as [->|Hxr]; [by apply Hd|]. eapply B5; [exact Hx|set_solver|done].
  - intros x Hx Hn. destruct (decide (x ∈ ds1)) as [H1|H1]; [by apply A6|].
    destruct (decide (x = r)) as [->|Hxr]; [by constructor|].
    eapply tc_l; [exact Hr|]. apply B6; [done|set_solver].
Qed.

Context (Hg : built deps names names g).
Lemma node_deps_names node : node ∈ names ->
  forall o, o ∈ dependencies_of g node -> match o with Some r => r ∈ deps node | None => True end.
Proof using Hg.
  intros Hn o Ho. rewrite (built_deps _ _ _ _ Hg), decide_True in Ho by done.
  unfold node_deps in Ho. destruct o as [r|]; [|done]. destruct (deps node); set_solver.
Qed.
Lemma deps_node_deps node r : node ∈ names -> r ∈ deps node -> Some r ∈ dependencies_of g node.
Proof using Hg.
  intros Hn Hr. rewrite (built_deps _ _ _ _ Hg), decide_True by done. unfold node_deps.
  destruct (deps node); [set_solver|]. by apply list_elem_of_fmap_2.
Qed.

Context (Hclosed : forall t d, t ∈ names -> d ∈ deps t -> d ∈ names).
Lemma deep_dependencies_spec fuel node ds :
  node ∈ names -> NoDup ds -> (forall x, x ∈ ds -> x ∈ names) -> size names < fuel + length ds ->
  exists ds', deep_dependencies g fuel node ds = Ok ds' /\ deep_post node ds ds' /\
    forall d, d ∈ deps node -> d ∈ ds'.
Proof using Hg Hclosed.
  revert node ds; induction fuel as [|fuel IH]; intros node ds Hn Hnd Hsub Hf.
  { exfalso. assert (Hl : length ds <= size names); [|simpl in Hf; lia].
    rewrite <- (size_list_to_set (C := gset string) ds) by done. apply subseteq_size.
    intros x Hx%elem_of_list_to_set. by apply Hsub. }
  cbn [deep_dependencies].
  pose proof (node_deps_names node Hn) as Hsound. pose proof (deps_node_deps node) as Hall.
  assert (Hloop : forall l ds1, deep_post node ds ds1 -> l ⊆ dependencies_of g node -> exists ds',
    foldM (fun deps d => match d with None => Ok deps | Some r => if decide (r ∈ deps) then Ok deps
             else deep_dependencies g fuel r (deps ++ [r])%list end) ds1 l = Ok ds' /\
    deep_post node ds ds' /\ ds1 ⊆ ds' /\ forall d, Some d ∈ l -> d ∈ ds').
  { induction l as [|o l IHl]; intros ds1 Hds1 Hl; cbn [foldM].
    - exists ds1. split_and!; [done..|set_solver].
    - pose proof (Hsound o ltac:(set_solver)) as Ho.
      assert (Hstep : exists ds2, match o with None => Ok ds1 | Some r => if decide (r ∈ ds1) then Ok ds1
          else deep_dependencies g fuel r (ds1 ++ [r])%list end = Ok ds2 /\ deep_post node ds ds2 /\
          ds1 ⊆ ds2 /\ match o with Some d => d ∈ ds2 | None => True end).
      { destruct o as [r|]; [|by exists ds1]. case_decide as Hin; [by exists ds1|].
        destruct Hds1 as [A1 A2 A3 A4 A5 A6].
        destruct (IH r (ds1 ++ [r])%list) as (ds2 & -> & Hp & Hd).
        - by eapply Hclosed.
        - by apply NoDup_snoc.
        - intros x [Hx| ->%list_elem_of_singleton]%elem_of_app; [by apply A2|by eapply Hclosed].
        - rewrite length_app. simpl. lia.
        - exists ds2. split; [done|]. destruct Hp as [B1 B2 B3 B4 B5 B6].
          split_and!; [|set_solver|apply B3; set_solver]. apply (deep_post_enter node r ds ds1 ds2); [by split|exact Ho|by split|exact Hd]. }
      destruct Hstep as (ds2 & -> & Hds2 & Hsub2 & Ho2). cbn [mbind res_bind].
      destruct (IHl ds2 Hds2) as (ds' & -> & Hp & Hsub' & Hin); [set_solver|].
      exists ds'. split_and!; [done|done|set_solver|]. intros d [<-|Hd]%elem_of_cons; [|by apply Hin].
      by apply Hsub'. }
  destruct (Hloop (dependencies_of g node) ds) as (ds' & -> & Hp & _ & Hd);
    [by apply deep_post_refl|done|].
  exists ds'. split_and!; [done|done|]. intros d Hdn. apply Hd. by apply Hall.
Qed.

Lemma DeepDependencies_tc node : node ∈ names ->
  exists l, DeepDependencies g node = Ok l /\ NoDup l /\ forall x, x ∈ l <-> tc (depends deps) node x.
Proof using Hg Hclosed.
  intros Hn. unfold DeepDependencies.
  destruct (deep_dependencies_spec (S (size (nodes g))) node []) as (l & -> & [A1 A2 A3 A4 A5 A6] & Hd);
    [done|constructor|set_solver| |].
  { rewrite <- (built_nodes _ _ _ _ Hg), size_dom. simpl. lia. }
  exists l. split_and!; [done|done|]. intros x. split; [intros Hx; apply A6; [done|set_solver]|].
  intros Hx.
  assert (Hgen : forall a b, tc (depends deps) a b -> (forall d, d ∈ deps a -> d ∈ l) -> b ∈ l).
  { induction 1 as [a b Hab|a b c Hab _ IH]; intros Ha; [by apply Ha|].
    apply IH. intros d Hdb. eapply A5; [by apply Ha|set_solver|done]. }
  by eapply Hgen.
Qed.
End DeepSpec.

Lemma dependencies_first_tc deps flat a b : dependencies_first deps flat -> tc (depends deps) a b ->
  forall i, flat !! i = Some a -> b ∈ take i flat.
Proof.
  intros Hfirst. induction 1 as [a b Hab|a b c Hab _ IH]; intros i Hi; [by eapply Hfirst|].
  pose proof (Hfirst i a b Hi Hab) as Hb. apply list_elem_of_lookup in Hb as [j Hj].
  apply lookup_take_Some in Hj as [Hj Hlt]. specialize (IH j Hj).
  apply list_elem_of_lookup in IH as [k Hk]. apply lookup_take_Some in Hk as [Hk Hkj].
  apply list_elem_of_lookup. exists k. apply lookup_take_Some. split; [done|lia].
Qed.

(** In a graph that was built without error, the deep dependencies of a
    target are exactly the targets it depends on in one or more steps, each once;
    they all stand before it in the flat list, so it is not one of them. *)
Theorem DeepDependencies_reachable pop targets deps g flat node :
  SetPop pop -> NoDup targets.*1 ->
  Forall (fun kv => dependency_names kv.2 = Ok (deps kv.1)) targets ->
  BuildDependencyList pop targets = Ok (g, flat) -> node ∈ targets.*1 ->
  exists l i, DeepDependencies g node = Ok l /\ NoDup l /\
    (forall x, x ∈ l <-> tc (depends deps) node x) /\
    flat !! i = Some node /\ (forall x, x ∈ l -> x ∈ take i flat) /\ node ∉ l.
Proof.
  intros Hpop Hnd Hd Hb Hn. destruct (BuildDependencyList_ok _ _ _ _ _ Hpop Hnd Hd Hb) as (Hg & Hc & Hf & Hp).
  destruct (DeepDependencies_tc deps _ g Hg) with (node := node) as (l & Hl & Hndl & Hin).
  { intros t d Ht%elem_of_list_to_set Hdt. apply elem_of_list_to_set. by apply (Hc t). }
  { by apply elem_of_list_to_set. }
  rewrite <- Hp in Hn. apply list_elem_of_lookup in Hn as [i Hi]. exists l, i.
  assert (Hbefore : forall x, x ∈ l -> x ∈ take i flat).
  { intros x Hx%Hin. eapply dependencies_first_tc; [apply Hf|exact Hx|done]. }
  split_and!; [done..|]. intros Hself%Hbefore. apply list_elem_of_lookup in Hself as [j Hj].
  apply lookup_take_Some in Hj as [Hj Hlt].
  assert (i = j); [|lia]. eapply NoDup_lookup; [apply Hf|done|done].
Qed.
Lemma DeepDependencies_reachable_witness :
  let deps t := if String.eqb t "b" then ["a"] else if String.eqb t "c" then ["a"; "b"] else [] in
  let targets := graph_example deps ["c"; "b"; "a"] in
  match BuildDependencyList pop_first targets with
  | Ok (g, flat) => exists l i, DeepDependencies g "c" = Ok l /\ NoDup l /\
      (forall x, x ∈ l <-> tc (depends deps) "c" x) /\
      flat !! i = Some "c" /\ (forall x, x ∈ l -> x ∈ take i flat) /\ "c" ∉ l
  | _ => False
  end.
Proof.
  intros deps targets. destruct (BuildDependencyList pop_first targets) as [[g flat]|e|] eqn:Hb.
  - apply (DeepDependencies_reachable pop_first targets deps g flat "c" pop_first_ok).
    + decided.
    + repeat constructor.
    + exact Hb.
    + vm_compute. left.
  - vm_compute in Hb. discriminate Hb.
  - vm_compute in Hb. discriminate Hb.
Defined.

(** ** Imported dependencies *)
Lemma assoc_member (targets : list (string * dict)) t spec :
  OrderedDict.assoc t targets = Some spec -> (t, spec) ∈ targets.
Proof.
  induction targets as [|[k v] l IH]; simpl; [done|]. case_decide as Hk; [|set_solver].
  intros [= ->]. subst k. left.
Qed.

(** The round at [index] puts the new exports, once each, right behind the entry. *)
Lemma import_fold_spec index (exports dependencies : list string) k :
  index + k <= length dependencies -> NoDup dependencies ->
  exists new, (foldl (fun st d => let '(deps, add_index) := st in
      if decide (d ∈ deps) then st else (insert_at (index + add_index) d deps, S add_index))
      (dependencies, k) exports).1 =
      (take (index + k) dependencies ++ new ++ drop (index + k) dependencies)%list /\
    NoDup (take (index + k) dependencies ++ new ++ drop (index + k) dependencies) /\
    (forall x, x ∈ new -> x ∈ exports) /\
    (forall x, x ∈ exports -> x ∈ dependencies \/ x ∈ new).
Proof.
  revert dependencies k; induction exports as [|d exports IH]; intros deps k Hk Hnd; cbn [foldl].
  - exists []. simpl. rewrite take_drop. split_and!; [done|done|set_solver|set_solver].
  - case_decide as Hin.
    + destruct (IH deps k Hk Hnd) as (new & -> & H1 & H2 & H3). exists new. set_solver.
    + assert (Hlen : length (take (index + k) deps) = index + k) by (rewrite length_take; lia).
      assert (Hins : insert_at (index + k) d deps ≡ₚ d :: deps).
      { unfold insert_at. rewrite <- Permutation_middle, take_drop. done. }
      destruct (IH (insert_at (index + k) d deps) (S k)) as (new & -> & H1 & H2 & H3).
      { rewrite Hins. simpl. lia. }
      { rewrite Hins. by apply list.NoDup_cons. }
      assert (Ht : take (index + S k) (insert_at (index + k) d deps) = (take (index + k) deps ++ [d])%list).
      { unfold insert_at. replace (index + S k) with (length (take (index + k) deps) + 1) by lia.
        by rewrite take_app_add. }
      assert (Hdr : drop (index + S k) (insert_at (index + k) d deps) = drop (index + k) deps).
      { unfold insert_at. replace (index + S k) with (length (take (index + k) deps) + 1) by lia.
        by rewrite drop_app_add. }
      rewrite Ht, Hdr in *. exists (d :: new). rewrite <- (assoc_L (++)%list) in *. simpl in *.
      split_and!; [done|done|set_solver|]. intros x Hx. destruct (decide (x = d)) as [->|Hxd]; [set_solver|].
      destruct (H3 x) as [Hx'|Hx']; [set_solver| |set_solver]. rewrite Hins in Hx'. set_solver.
Qed.

Section Imports.
Context (targets : list (string * dict)) (exports : string -> list string) (direct : list string).
Abbreviation imported x := (exists d, d ∈ direct /\ rtc (depends exports) d x).

Record import_inv (index : nat) (l : list string) : Prop := {
  imp_nodup : NoDup l;
  imp_sublist : direct `sublist_of` l;
  imp_sound x : x ∈ l -> imported x;
  imp_passed x : x ∈ take index l -> x ∈ targets.*1 /\ exports x ⊆ l }.

Lemma import_inv_step index l t : import_inv index l -> l !! index = Some t -> t ∈ targets.*1 ->
  import_inv (S index) (import_step index l (exports t)).
Proof.
  intros [H1 H2 H3 H4] Ht Hin. unfold import_step. apply lookup_lt_Some in Ht as Hlt.
  destruct (import_fold_spec index (exports t) l 1) as (new & -> & N1 & N2 & N3); [lia|done|].
  replace (index + 1) with (S index) in * by lia.
  assert (Hlen : length (take (S index) l) = S index) by (rewrite length_take; lia).
  assert (Hsub : forall x, x ∈ l -> x ∈ (take (S index) l ++ new ++ drop (S index) l)%list).
  { intros x Hx. rewrite <- (take_drop (S index) l) in Hx. set_solver. }
  split; [done| | |].
  - etransitivity; [exact H2|]. rewrite <- (take_drop (S index) l) at 1.
    apply sublist_app; [done|]. by apply sublist_inserts_l.
  - intros x Hx. destruct (decide (x ∈ l)) as [Hl|Hl]; [by apply H3|].
    assert (Hnew : x ∈ exports t).
    { apply N2. pose proof (take_drop (S index) l). set_unfold. destruct Hx as [Hx|[Hx|Hx]]; [|done|];
        exfalso; apply Hl; [by eapply subseteq_take|by eapply subseteq_drop]. }
    destruct (H3 t) as (d & Hd & Hdt); [by eapply list_elem_of_lookup_2|].
    exists d. split; [done|]. eapply rtc_r; [exact Hdt|done].
  - intros x Hx. rewrite take_app_le, take_take, Nat.min_id in Hx by lia.
    assert (Hcase : x ∈ take index l \/ x = t).
    { rewrite (take_S_r l index t), elem_of_app, list_elem_of_singleton in Hx by done. done. }
    destruct Hcase as [Hx'| ->].
    + destruct (H4 x Hx') as [Hx1 Hx2]. split; [done|]. intros y Hy. by apply Hsub, Hx2.
    + split; [done|]. intros y Hy. destruct (N3 y Hy) as [?|?]; [by apply Hsub|set_solver].
Qed.

Context (Hexp : Forall (fun kv => get_names "export_dependent_settings" kv.2 = Ok (exports kv.1)) targets).
Lemma import_loop_spec fuel index l : import_inv index l -> index <= length l ->
  length targets < fuel + index ->
  (exists l', import_loop targets fuel index l = Ok l' /\ NoDup l' /\ direct `sublist_of` l' /\
     forall x, x ∈ l' <-> imported x) \/
  (exists k, import_loop targets fuel index l = Err (KeyError k) /\ (k ∉ targets.*1) /\ imported k).
Proof using Hexp.
  revert index l; induction fuel as [|fuel IH]; intros index l Hinv Hle Hf.
  { exfalso. assert (Hlen : length (take index l) <= length targets.*1).
    - apply submseteq_length, NoDup_submseteq; [eapply sublist_NoDup; [apply Hinv|apply sublist_take]|].
      intros x Hx. by apply (imp_passed _ _ Hinv).
    - rewrite length_take, length_fmap in Hlen. simpl in Hf. lia. }
  cbn [import_loop]. destruct (l !! index) as [t|] eqn:Ht.
  - unfold target_dict. destruct (OrderedDict.assoc t targets) as [spec|] eqn:Hs; cbn [of_option mbind res_bind].
    + apply assoc_member in Hs. rewrite list.Forall_forall in Hexp. pose proof (Hexp _ Hs) as He. cbn [fst snd] in He. rewrite He. cbn [mbind res_bind fst].
      apply lookup_lt_Some in Ht as Hlt.
      apply IH; [apply import_inv_step; [done|done|by apply (list_elem_of_fmap_2 fst) in Hs]| |lia].
      unfold import_step. destruct (import_fold_spec index (exports t) l 1) as (new & -> & _); [lia|apply Hinv|].
      rewrite !length_app, length_take. lia.
    + right. exists t. split_and!; [done| |apply Hinv; by eapply list_elem_of_lookup_2].
      clear -Hs. induction targets as [|[k v] l IH]; [set_solver|]. simpl in *.
      case_decide; [done|]. set_solver.
  - left. apply lookup_ge_None in Ht. exists l. destruct Hinv as [H1 H2 H3 H4].
    split_and!; [done..|]. intros x. split; [apply H3|]. intros (d & Hd & Hdx).
    assert (Hin : d ∈ l) by (by eapply elem_of_submseteq, sublist_submseteq).
    clear Hd. induction Hdx as [|a b c Hab _ IHx]; [done|]. apply IHx.
    destruct (H4 a) as [_ Ha]; [by rewrite take_ge|]. by apply Ha.
Qed.
End Imports.

(** C16. Adding the imported dependencies ends, and answers each target that the
    given ones lead to by exports, once, the given ones still in their order; or
    it raises [KeyError] on an export that is not a target.  Targets that export
    each other are no obstacle. *)
Theorem AddImportedDependencies_closure targets exports direct :
  Forall (fun kv => get_names "export_dependent_settings" kv.2 = Ok (exports kv.1)) targets ->
  NoDup direct ->
  let imported x := exists d, d ∈ direct /\ rtc (depends exports) d x in
  (exists l, AddImportedDependencies targets direct = Ok l /\ NoDup l /\ direct `sublist_of` l /\
     forall x, x ∈ l <-> imported x) \/
  (exists k, AddImportedDependencies targets direct = Err (KeyError k) /\
     (k ∉ targets.*1) /\ imported k).
Proof.
  intros Hexp Hnd imported. apply (import_loop_spec targets exports direct Hexp); [|lia|lia].
  split; [done|done| |simpl; set_solver]. intros x Hx. by exists x.
Qed.
Lemma AddImportedDependencies_closure_witness :
  let exports t := if String.eqb t "a" then ["b"; "c"] else if String.eqb t "b" then ["a"] else [] in
  let targets := map (fun t => (t, [("export_dependent_settings", VList (map VStr (exports t)))]))
                   ["a"; "b"; "c"; "d"] in
  AddImportedDependencies targets ["a"; "d"] = Ok ["a"; "b"; "c"; "d"] /\
  ((exists l, AddImportedDependencies targets ["a"; "d"] = Ok l /\ NoDup l /\
      ["a"; "d"] `sublist_of` l /\
      forall x, x ∈ l <-> exists d, d ∈ ["a"; "d"] /\ rtc (depends exports) d x) \/
   (exists k, AddImportedDependencies targets ["a"; "d"] = Err (KeyError k) /\
      (k ∉ targets.*1) /\ exists d, d ∈ ["a"; "d"] /\ rtc (depends exports) d k)).
Proof.
  intros exports targets. split; [vm_compute; reflexivity|].
  refine (AddImportedDependencies_closure targets exports ["a"; "d"] _ _).
  - repeat constructor.
  - decided.
Defined.
