(* ===== verification/Targets.v ===== *)
(** * Passes over the targets ([gyp/input.py])

    From [BuildTargetsDict] to [AdjustStaticLibraryDependencies], with
    [PruneUnwantedTargets], the validations and [SetGeneratorGlobals].  [targets]
    is the dictionary from qualified names to target dictionaries in iteration
    order, [data] the one from build file names to build files.  In Python the
    dictionaries of [targets] are those in [data]; the passes read from [data]
    only entries that they do not change, so [targets] carries the state. *)
From stdpp Require Import sorting.
From S2P Require Import Prelude PyStr PyPath Common Ordered GypValue Merge DepGraph.
From stdpp Require Import options.

Definition dependency_sections : list string := ["dependencies"; "export_dependent_settings"].

(** The two ways the code uses a value as a string: a string method is called on
    it, or it is concatenated. *)
Definition as_string (attr : string) (v : val) : res string :=
  match v with VStr s => Ok s | _ => Err (AttributeError attr) end.
Definition as_text (v : val) : res string :=
  match v with
  | VStr s => Ok s
  | _ => Err (TypeError ("cannot concatenate 'str' and '" +:+ type_name v +:+ "' objects"))
  end.
(** [d.get(k, [])] as a list that is read and written by index. *)
Definition get_seq (k : string) (d : dict) : res (list val) :=
  match dget k d with
  | None => Ok []
  | Some (VList l) => Ok l
  | Some v => Err (TypeError ("'" +:+ type_name v +:+ "' object does not support item assignment"))
  end.
(** [for k, d in targets.iteritems(): ...], where the body changes [d]. *)
Fixpoint map_targets (f : string -> dict -> res dict) (targets : list (string * dict))
    : res (list (string * dict)) :=
  match targets with
  | [] => Ok []
  | (k, d) :: targets =>
      d ← f k d;
      targets ← map_targets f targets;
      Ok ((k, d) :: targets)
  end.
(** The body for each key of a list of keys *)
Definition each_key (f : string -> dict -> res dict) (keys : list string) (d : dict) : res dict :=
  foldM (fun d key => f key d) d keys.

(** ** [BuildTargetsDict] *)
Definition qualified_name_of (build_file : string) (target : dict) : res string :=
  target_name ← dindex "target_name" target;
  toolset ← dindex "toolset" target;
  target_name ← as_text target_name;
  toolset ← as_text toolset;
  Ok (QualifiedTarget build_file target_name (Some toolset)).
Definition add_target (build_file : string) (targets : list (string * dict)) (target : val)
    : res (list (string * dict)) :=
  target ← as_dict "__getitem__" target;
  target_name ← qualified_name_of build_file target;
  match OrderedDict.assoc target_name targets with
  | Some _ => Err (GypError ("Duplicate target definitions for " +:+ target_name))
  | None => Ok (targets ++ [(target_name, target)])%list
  end.
(** [target_build_files] is the set [data['target_build_files']], in the order
    in which it is iterated. *)
Definition BuildTargetsDict (target_build_files : list string) (data : list (string * dict))
    : res (list (string * dict)) :=
  foldM (fun targets build_file =>
           contents ← of_option (KeyError build_file) (OrderedDict.assoc build_file data);
           l ← get_list "targets" contents;
           foldM (add_target build_file) targets l) [] target_build_files.

(** ** [QualifyDependencies] *)
Section Qualify.
Context (cwd : string) (multiple_toolsets : bool).

Definition all_dependency_sections : list string :=
  concat (map (fun dep => map (fun op => dep +:+ op) [""; "!"; "/"]) dependency_sections).

Definition qualify_one (target : string) (toolset : string) (dependency : val) : res string :=
  dependency ← as_string "rsplit" dependency;
  let '(dep_file, dep_target, dep_toolset) :=
    ResolveTarget cwd (BuildFile target) dependency (Some toolset) in
  let dep_toolset := if multiple_toolsets then dep_toolset else Some toolset in
  match dep_file with
  | None => Err (TypeError "unsupported operand type(s) for +: 'NoneType' and 'str'")
  | Some dep_file => Ok (QualifiedTarget dep_file dep_target dep_toolset)
  end.
Definition qualify_section (target dependency_key : string) (target_dict : dict) : res dict :=
  toolset ← dindex "toolset" target_dict;
  dependencies ← get_seq dependency_key target_dict;
  qualified ← foldM (fun acc d =>
      toolset ← as_text toolset;
      dependency ← qualify_one target toolset d;
      if String.eqb dependency_key "dependencies" then Ok (acc ++ [VStr dependency])%list
      else
        listed ← dindex "dependencies" target_dict;
        listed ← iterate listed;
        if bool_decide (VStr dependency ∈ listed) then Ok (acc ++ [VStr dependency])%list
        else Err (GypError ("Found " +:+ dependency +:+ " in " +:+ dependency_key +:+ " of " +:+
                            target +:+ ", but not in dependencies"))) [] dependencies;
  Ok (if dmem dependency_key target_dict then dset dependency_key (VList qualified) target_dict
      else target_dict).
Definition QualifyDependencies : list (string * dict) -> res (list (string * dict)) :=
  map_targets (fun target => each_key (qualify_section target) all_dependency_sections).
End Qualify.

(** ** [ExpandWildcardDependencies] *)
Section Wildcards.
Context (data : list (string * dict)).

(** [int(v)] *)
Definition int_of_val (v : val) : res Z :=
  match v with
  | VInt n => Ok n
  | VStr s => of_option (ValueError ("invalid literal for int() with base 10: '" +:+ s +:+ "'"))
                (int_of_string s)
  | _ => Err (TypeError "int() argument must be a string or a number")
  end.
Definition suppressed (target_dict : dict) : res bool :=
  n ← match dget "suppress_wildcard" target_dict with Some v => int_of_val v | None => Ok 0%Z end;
  Ok (negb (n =? 0)%Z).

(** The dependency one target of the other build file gives rise to, if any. *)
Definition wildcard_match (build_file target : string) (toolset : option string) (other : val)
    : res (option string) :=
  other ← as_dict "get" other;
  s ← suppressed other;
  if s : bool then Ok None
  else
    target_name ← dindex "target_name" other;
    if negb (String.eqb target "*") && negb (bool_decide (VStr target = target_name)) then Ok None
    else
      other_toolset ← dindex "toolset" other;
      if negb (bool_decide (toolset = Some "*")) &&
         negb (bool_decide (VStr <$> toolset = Some other_toolset)) then Ok None
      else
        target_name ← as_text target_name;
        other_toolset ← as_text other_toolset;
        Ok (Some (QualifiedTarget build_file target_name (Some other_toolset))).

Definition wildcard_targets (build_file : option string) : res (list val) :=
  build_file ← of_option (KeyError "None") build_file;
  contents ← of_option (KeyError build_file) (OrderedDict.assoc build_file data);
  l ← dindex "targets" contents;
  iterate l.

(** One round of the [for] loop; the state is [dependencies] and [index], which
    starts at -1 when the wildcard is the first entry. *)
Definition wildcard_insert (build_file target : string) (toolset : option string)
    (st : list val * Z) (other : val) : res (list val * Z) :=
  let '(dependencies, index) := st in
  r ← wildcard_match build_file target toolset other;
  match r with
  | None => Ok st
  | Some dependency =>
      let index := (index + 1)%Z in
      Ok (insert_at (Z.to_nat index) (VStr dependency) dependencies, index)
  end.

Fixpoint wildcard_loop (fuel : nat) (key target : string) (dependencies : list val) (index : nat)
    : res (list val) :=
  match fuel with
  | 0 => NoFuel
  | S fuel =>
      match dependencies !! index with
      | None => Ok dependencies
      | Some dependency =>
          dependency ← as_string "rsplit" dependency;
          let '(dependency_build_file, dependency_target, dependency_toolset) :=
            ParseQualifiedTarget dependency in
          if negb (String.eqb dependency_target "*") &&
             negb (bool_decide (dependency_toolset = Some "*"))
          then wildcard_loop fuel key target dependencies (S index)
          else if decide (dependency_build_file = BuildFile target) then
            Err (GypError ("Found wildcard in " +:+ key +:+ " of " +:+ target +:+
                           " referring to same build file"))
          else
            let dependencies := (take index dependencies ++ drop (S index) dependencies)%list in
            others ← wildcard_targets dependency_build_file;
            st ← foldM (wildcard_insert (default "" dependency_build_file) dependency_target
                          dependency_toolset) (dependencies, (Z.of_nat index - 1)%Z) others;
            wildcard_loop fuel key target st.1 (Z.to_nat (st.2 + 1))
      end
  end.

(** A round passes one of the entries that were there at the start. *)
Definition expand_section (target key : string) (target_dict : dict) : res dict :=
  dependencies ← get_seq key target_dict;
  expanded ← wildcard_loop (S (length dependencies)) key target dependencies 0;
  Ok (if dmem key target_dict then dset key (VList expanded) target_dict else target_dict).
Definition ExpandWildcardDependencies : list (string * dict) -> res (list (string * dict)) :=
  map_targets (fun target d =>
    _ ← dindex "toolset" d; each_key (expand_section target) dependency_sections d).
End Wildcards.

(** ** [Unify] and [Filter] *)
Definition is_hashable (v : val) : bool :=
  match v with VInt _ | VStr _ => true | VList _ | VDict _ => false end.
Definition unhashable (v : val) : exn := TypeError ("unhashable type: '" +:+ type_name v +:+ "'").

(** [seen] is the list of its keys. *)
Fixpoint Unify_from (seen : list val) (l : list val) : res (list val) :=
  match l with
  | [] => Ok []
  | e :: l =>
      if negb (is_hashable e) then Err (unhashable e)
      else if decide (e ∈ seen) then Unify_from seen l
      else rest ← Unify_from (e :: seen) l; Ok (e :: rest)
  end.
Definition Unify (l : list val) : res (list val) := Unify_from [] l.

Definition Filter (l : list val) (item : val) : res (list val) :=
  foldM (fun acc e => if decide (e = item) then Ok acc
                      else if is_hashable e then Ok (acc ++ [e])%list
                      else Err (unhashable e)) [] l.

(** [for dependency_key in dependency_sections: if target_dict.get(key, []): ...] *)
Definition each_section (f : string -> val -> dict -> res dict) (d : dict) : res dict :=
  each_key (fun key d =>
    match dget key d with
    | Some v => if val_truthy v then f key v d else Ok d
    | None => Ok d
    end) dependency_sections d.

Definition RemoveDuplicateDependencies : list (string * dict) -> res (list (string * dict)) :=
  map_targets (fun _ => each_section (fun key v d =>
    l ← iterate v; l ← Unify l; Ok (dset key (VList l) d))).

(** [targets[t].get('variables', {}).get(name, 0)] *)
Definition target_variable (targets : list (string * dict)) (t : string) (name : string)
    : res bool :=
  d ← target_dict targets t;
  match dget "variables" d with
  | None => Ok false
  | Some v => v ← as_dict "get" v; Ok (get_truthy name v)
  end.

Definition RemoveSelfDependencies (targets : list (string * dict)) : res (list (string * dict)) :=
  map_targets (fun target_name => each_section (fun key v d =>
    l ← iterate v;
    foldM (fun d t =>
             if decide (t = VStr target_name) then
               prune ← target_variable targets target_name "prune_self_dependency";
               if prune : bool then l ← Filter l (VStr target_name); Ok (dset key (VList l) d)
               else Ok d
             else Ok d) d l)) targets.

Definition is_none_target (d : dict) : bool := type_is d "none".
Definition RemoveLinkDependenciesFromNoneTargets (targets : list (string * dict))
    : res (list (string * dict)) :=
  map_targets (fun target_name => each_section (fun key v d =>
    l ← iterate v;
    foldM (fun d t =>
             if is_none_target d then
               t ← as_key t;
               link ← target_variable targets t "link_dependency";
               if link : bool then
                 l ← dindex key d; l ← iterate l; l ← Filter l (VStr t); Ok (dset key (VList l) d)
               else Ok d
             else Ok d) d l)) targets.

(** ** [DoDependentSettings] *)
Section Settings.
Context (cwd : string) (path_sections : gset string) (g : graph).

Definition settings_dependencies (key : string) (targets : list (string * dict)) (target : string)
    : res (list string) :=
  if String.eqb key "all_dependent_settings" then DeepDependencies g target
  else if String.eqb key "direct_dependent_settings" then
    DirectAndImportedDependencies targets g target
  else if String.eqb key "link_settings" then DependenciesForLinkSettings targets g target
  else Err (GypError ("DoDependentSettings doesn't know how to determine dependencies for " +:+ key)).

Definition merge_settings (key build_file target : string) (targets : list (string * dict))
    (dependency : string) : res (list (string * dict)) :=
  dependency_dict ← target_dict targets dependency;
  match dget key dependency_dict with
  | None => Ok targets
  | Some settings =>
      d ← target_dict targets target;
      settings ← as_dict "iteritems" settings;
      d ← MergeDicts cwd path_sections build_file (build_file_of dependency) d settings;
      Ok (OrderedDict.assoc_set target d targets)
  end.
Definition DoDependentSettings (key : string) (flat_list : list string)
    (targets : list (string * dict)) : res (list (string * dict)) :=
  foldM (fun targets target =>
           _ ← target_dict targets target;
           dependencies ← settings_dependencies key targets target;
           foldM (merge_settings key (build_file_of target) target) targets dependencies)
    targets flat_list.

(** ** [AdjustStaticLibraryDependencies] *)
Definition is_member (dependency : string) (d : dict) : res bool :=
  l ← dindex "dependencies" d;
  l ← iterate l;
  Ok (bool_decide (VStr dependency ∈ l)).

(** The entries that are taken out of a static library's dependencies. *)
Definition drop_dependency (targets : list (string * dict)) (d : dict) (dependency : string)
    : res bool :=
  dependency_dict ← target_dict targets dependency;
  type ← dindex "type" dependency_dict;
  let static := bool_decide (type = VStr "static_library") in
  if static && negb (get_truthy "hard_dependency" dependency_dict) then Ok true
  else if static then Ok false
  else member ← is_member dependency d; Ok (negb member).
Fixpoint static_loop (fuel index : nat) (targets : list (string * dict)) (d : dict)
    (dependencies : list string) : res (list string) :=
  match fuel with
  | 0 => NoFuel
  | S fuel =>
      match dependencies !! index with
      | None => Ok dependencies
      | Some dependency =>
          dropped ← drop_dependency targets d dependency;
          if dropped : bool then
            static_loop fuel index targets d
              (take index dependencies ++ drop (S index) dependencies)%list
          else static_loop fuel (S index) targets d dependencies
      end
  end.
Definition adjust_static (targets : list (string * dict)) (target : string) (d : dict) : res dict :=
  match dget "dependencies" d with
  | None => Ok d
  | Some original =>
      let d := dset "dependencies_original" original d in
      let targets := OrderedDict.assoc_set target d targets in
      dependencies ← DirectAndImportedDependencies targets g target;
      dependencies ← static_loop (S (length dependencies)) 0 targets d dependencies;
      Ok (if 0 <? length dependencies then dset "dependencies" (VList (map VStr dependencies)) d
          else ddel "dependencies" d)
  end.

Definition add_link_dependency (target : string) (d : dict) (dependency : string) : res dict :=
  if String.eqb dependency target then Ok d
  else
    let d := if dmem "dependencies" d then d else dset "dependencies" (VList []) d in
    l ← dindex "dependencies" d;
    l ← iterate l;
    Ok (if decide (VStr dependency ∈ l) then d
        else dset "dependencies" (VList (l ++ [VStr dependency])%list) d).
Definition adjust_linkable (flat_list : list string) (sort_dependencies : bool)
    (targets : list (string * dict)) (target : string) (d : dict) : res dict :=
  link_dependencies ← DependenciesToLinkAgainst targets g target;
  d ← foldM (add_link_dependency target) d link_dependencies;
  if sort_dependencies && dmem "dependencies" d then
    l ← dindex "dependencies" d;
    l ← iterate l;
    Ok (dset "dependencies"
          (VList (filter (fun dep => dep ∈ l) (map VStr (rev flat_list)))) d)
  else Ok d.

Definition AdjustStaticLibraryDependencies (flat_list : list string) (sort_dependencies : bool)
    (targets : list (string * dict)) : res (list (string * dict)) :=
  foldM (fun targets target =>
           d ← target_dict targets target;
           target_type ← dindex "type" d;
           d ← (if bool_decide (target_type = VStr "static_library")
                then adjust_static targets target d
                else if is_linkable d
                then adjust_linkable flat_list sort_dependencies targets target d
                else Ok d);
           Ok (OrderedDict.assoc_set target d targets)) targets flat_list.
End Settings.

(** ** [PruneUnwantedTargets] *)
Section Prune.
Context (g : graph).

Definition qualified_roots (flat_list root_targets : list string) : res (list string) :=
  foldM (fun acc target =>
           let target := strip target in
           match FindQualifiedTargets target flat_list with
           | [] => Err (GypError ("Could not find target " +:+ target))
           | l => Ok (acc ++ l)%list
           end) [] root_targets.
Definition want (targets : list (string * dict)) (wanted : list (string * dict)) (target : string)
    : res (list (string * dict)) :=
  d ← target_dict targets target;
  Ok (OrderedDict.assoc_set target d wanted).
Definition prune_build_file (wanted : list (string * dict)) (data : list (string * dict))
    (build_file : string) : res (list (string * dict)) :=
  contents ← of_option (KeyError build_file) (OrderedDict.assoc build_file data);
  match dget "targets" contents with
  | None => Ok data
  | Some l =>
      l ← iterate l;
      new_targets ← foldM (fun acc target =>
          d ← as_dict "__getitem__" target;
          qualified_name ← qualified_name_of build_file d;
          Ok (if bool_decide (qualified_name ∈ wanted.*1) then acc ++ [target] else acc)%list) [] l;
      Ok (OrderedDict.assoc_set build_file (dset "targets" (VList new_targets) contents) data)
  end.
Definition PruneUnwantedTargets (targets : list (string * dict)) (flat_list root_targets : list string)
    (target_build_files : list string) (data : list (string * dict))
    : res (list (string * dict) * list string * list (string * dict)) :=
  qualified_root_targets ← qualified_roots flat_list root_targets;
  wanted ← foldM (fun wanted target =>
      wanted ← want targets wanted target;
      dependencies ← DeepDependencies g target;
      foldM (want targets) wanted dependencies) [] qualified_root_targets;
  let wanted_flat_list := filter (fun t => t ∈ wanted.*1) flat_list in
  data ← foldM (prune_build_file wanted) data target_build_files;
  Ok (wanted, wanted_flat_list, data).
End Prune.

(** ** [VerifyNoCollidingTargets] *)

(** The directory and the name that must not occur twice, and the file. *)
Definition collision_key (target : string) : res (string * string) :=
  match rsplit1 ":" target with
  | None => Err (ValueError "need more than 1 value to unpack")
  | Some (path, name) =>
      let '(subdir, gyp) := path_split path in
      let subdir := if String.eqb subdir "" then "." else subdir in
      Ok (subdir +:+ ":" +:+ name, gyp)
  end.
Definition duplicate_target (name subdir gyp other : string) : exn :=
  let q := String dquote "" in
  GypError ("Duplicate target name " +:+ q +:+ name +:+ q +:+ " in directory " +:+ q +:+ subdir +:+ q +:+
            " used both in " +:+ q +:+ gyp +:+ q +:+ " and " +:+ q +:+ other +:+ q +:+ ".").
Definition VerifyNoCollidingTargets (targets : list string) : res (gmap string string) :=
  foldM (fun (used : gmap string string) target =>
           '(key, gyp) ← collision_key target;
           match used !! key with
           | Some other =>
               let '(subdir, name) := default ("", "") (rsplit1 ":" key) in
               Err (duplicate_target name subdir gyp other)
           | None => Ok (<[key := gyp]> used)
           end) ∅ targets.

(** ** Validation *)
Definition VALID_TARGET_TYPES : list string :=
  ["executable"; "loadable_module"; "static_library"; "shared_library"; "none"].
(** [%s] of a value; lists and dictionaries print otherwise, which only shows in
    messages. *)
Definition show (v : option val) : string :=
  match v with None => "None" | Some v => name_text v end.
Definition ValidateTargetType (target : string) (d : dict) : res unit :=
  if negb (existsb (type_is d) VALID_TARGET_TYPES) then
    Err (GypError ("Target " +:+ target +:+ " has an invalid target type '" +:+ show (dget "type" d) +:+
                   "'.  Must be one of " +:+ join "/" VALID_TARGET_TYPES +:+ "."))
  else if get_truthy "standalone_static_library" d && negb (type_is d "static_library") then
    Err (GypError ("Target " +:+ target +:+ " has type " +:+ show (dget "type" d) +:+
                   " but standalone_static_library flag is only valid for static_library type."))
  else Ok tt.

Definition without_dot (extension : string) : string :=
  if startswith "." extension then str_drop 1 extension else extension.

(** The sources a rule applies to, over the keys that list sources. *)
Definition rule_sources_in (rule_extension : string) (l : list val) : res (list val) :=
  foldM (fun acc source =>
           s ← as_string "rfind" source;
           Ok (if String.eqb (without_dot (splitext s).2) rule_extension
               then acc ++ [source] else acc)%list) [] l.
Definition rule_sources (d : dict) (source_keys : list string) (rule_extension : string)
    : res (list val) :=
  foldM (fun acc key =>
           l ← get_list key d;
           m ← rule_sources_in rule_extension l;
           Ok (acc ++ m)%list) [] source_keys.

(** The state: the rules so far, the names seen, the extensions seen with the
    name of their rule. *)
Definition validate_rule (target : string) (d : dict) (source_keys : list string)
    (st : list val * list val * list (string * val)) (rule : val)
    : res (list val * list val * list (string * val)) :=
  let '(done, rule_names, rule_extensions) := st in
  rule ← as_dict "__getitem__" rule;
  rule_name ← dindex "rule_name" rule;
  if negb (is_hashable rule_name) then Err (unhashable rule_name)
  else if decide (rule_name ∈ rule_names) then
    Err (GypError ("rule " +:+ name_text rule_name +:+ " exists in duplicate, target " +:+ target))
  else
    rule_extension ← dindex "extension" rule;
    rule_extension ← as_string "startswith" rule_extension;
    let rule_extension := without_dot rule_extension in
    match dget rule_extension rule_extensions with
    | Some other =>
        Err (GypError ("extension " +:+ rule_extension +:+ " associated with multiple rules, target " +:+
                       target +:+ " rules " +:+ name_text other +:+ " and " +:+ name_text rule_name))
    | None =>
        if dmem "rule_sources" rule then
          Err (GypError ("rule_sources must not exist in input, target " +:+ target +:+ " rule " +:+
                         name_text rule_name))
        else
          sources ← rule_sources d source_keys rule_extension;
          let rule := if 0 <? length sources then dset "rule_sources" (VList sources) rule else rule in
          Ok ((done ++ [VDict rule])%list, rule_name :: rule_names,
              dset rule_extension rule_name rule_extensions)
    end.
Definition ValidateRulesInTarget (target : string) (d : dict) (extra_sources_for_rules : list string)
    : res dict :=
  rules ← get_list "rules" d;
  '(rules, _, _) ← foldM (validate_rule target d ("sources" :: extra_sources_for_rules))
                     ([], [], []) rules;
  Ok (if dmem "rules" d then dset "rules" (VList rules) d else d).

Definition ValidateRunAsInTarget (d : dict) (build_file : string) : res unit :=
  let where_ := show (dget "target_name" d) in
  match dget "run_as" d with
  | None => Ok tt
  | Some run_as =>
      if negb (val_truthy run_as) then Ok tt
      else
        match run_as with
        | VDict run_as =>
            if negb (get_truthy "action" run_as) then
              Err (GypError ("The 'run_as' in target " +:+ where_ +:+ " from file " +:+ build_file +:+
                             " must have an 'action' section."))
            else
              let is_kind k := match dget k run_as with Some v => type_name v | None => "NoneType" end in
              if negb (String.eqb (is_kind "action") "list") then
                Err (GypError ("The 'action' for 'run_as' in target " +:+ where_ +:+ " from file " +:+
                               build_file +:+ " must be a list."))
              else if get_truthy "working_directory" run_as &&
                      negb (String.eqb (is_kind "working_directory") "str") then
                Err (GypError ("The 'working_directory' for 'run_as' in target " +:+ where_ +:+
                               " in file " +:+ build_file +:+ " should be a string."))
              else if get_truthy "environment" run_as &&
                      negb (String.eqb (is_kind "environment") "dict") then
                Err (GypError ("The 'environment' for 'run_as' in target " +:+ where_ +:+
                               " in file " +:+ build_file +:+ " should be a dictionary."))
              else Ok tt
        | _ => Err (GypError ("The 'run_as' in target " +:+ where_ +:+ " from file " +:+ build_file +:+
                              " should be a dictionary."))
        end
  end.

(** [action_command[0]] is false. *)
Definition empty_command (command : val) : res bool :=
  match command with
  | VStr s => Ok (String.eqb s "")
  | VList (c :: _) => Ok (negb (val_truthy c))
  | VList [] => Err IndexError
  | VInt _ => Err (TypeError "'int' object has no attribute '__getitem__'")
  | VDict _ => Err (KeyError "0")
  end.
Definition validate_action (target_name : string) (action : val) : res unit :=
  action ← as_dict "get" action;
  if negb (get_truthy "action_name" action) then
    Err (GypError ("Anonymous action in target " +:+ target_name +:+
                   ".  An action must have an 'action_name' field."))
  else if negb (dmem "inputs" action) then
    Err (GypError ("Action in target " +:+ target_name +:+ " has no inputs."))
  else
    match dget "action" action with
    | Some command =>
        if val_truthy command then
          empty ← empty_command command;
          if empty : bool then
            Err (GypError ("Empty action as command in target " +:+ target_name +:+ "."))
          else Ok tt
        else Ok tt
    | None => Ok tt
    end.
Definition ValidateActionsInTarget (d : dict) : res unit :=
  actions ← get_list "actions" d;
  foldM (fun _ action => validate_action (show (dget "target_name" d)) action) tt actions.

(** ** [SetGeneratorGlobals] *)
Record generator_globals := {
  path_sections : gset string;
  non_configuration_keys : list string;
  multiple_toolsets : bool }.
Definition base_non_configuration_keys : list string :=
  ["actions"; "configurations"; "copies"; "default_configuration"; "dependencies";
   "dependencies_original"; "libraries"; "postbuilds"; "product_dir"; "product_extension";
   "product_name"; "product_prefix"; "rules"; "run_as"; "sources"; "standalone_static_library";
   "suppress_wildcard"; "target_name"; "toolset"; "toolsets"; "type"; "variables"].
Definition SetGeneratorGlobals (path_sections_ : list string) (non_configuration_keys_ : list string)
    (supports_multiple_toolsets : bool) : generator_globals := {|
  path_sections := list_to_set base_path_sections ∪ list_to_set path_sections_;
  non_configuration_keys := (base_non_configuration_keys ++ non_configuration_keys_)%list;
  multiple_toolsets := supports_multiple_toolsets |}.

(** ** Wildcards: every entry is replaced by what it stands for *)
Section Expansion.
Context (data : list (string * dict)).

(** The dependencies that a wildcard stands for, in the order of the other build
    file. *)
Fixpoint matches (build_file target : string) (toolset : option string) (others : list val)
    : res (list val) :=
  match others with
  | [] => Ok []
  | other :: others =>
      r ← wildcard_match build_file target toolset other;
      rest ← matches build_file target toolset others;
      Ok (match r with Some d => VStr d :: rest | None => rest end)
  end.
Definition expansion (key target : string) (dependency : val) : res (list val) :=
  dependency ← as_string "rsplit" dependency;
  let '(file, name, toolset) := ParseQualifiedTarget dependency in
  if negb (String.eqb name "*") && negb (bool_decide (toolset = Some "*")) then Ok [VStr dependency]
  else if decide (file = BuildFile target) then
    Err (GypError ("Found wildcard in " +:+ key +:+ " of " +:+ target +:+
                   " referring to same build file"))
  else
    others ← wildcard_targets data file;
    matches (default "" file) name toolset others.
Fixpoint expand_each (key target : string) (dependencies : list val) : res (list val) :=
  match dependencies with
  | [] => Ok []
  | d :: ds =>
      l ← expansion key target d;
      rest ← expand_each key target ds;
      Ok (l ++ rest)%list
  end.

Lemma insert_matches build_file name toolset others pre rest :
  foldM (wildcard_insert build_file name toolset)
    ((pre ++ rest)%list, (Z.of_nat (length pre) - 1)%Z) others =
  (new ← matches build_file name toolset others;
   Ok ((pre ++ new ++ rest)%list, (Z.of_nat (length (pre ++ new)) - 1)%Z)).
Proof.
  revert pre; induction others as [|o others IH]; intros pre; cbn [foldM matches].
  - cbn [mbind res_bind]. by rewrite app_nil_r.
  - cbn [wildcard_insert]. destruct (wildcard_match build_file name toolset o) as [[d|]|e|];
      cbn [mbind res_bind]; [| |done|done].
    + replace (Z.of_nat (length pre) - 1 + 1)%Z with (Z.of_nat (length pre)) by lia.
      unfold insert_at. rewrite Nat2Z.id, take_app_length, drop_app_length.
      replace (pre ++ VStr d :: rest)%list with ((pre ++ [VStr d]) ++ rest)%list
        by (by rewrite <- app_assoc).
      replace (Z.of_nat (length pre)) with (Z.of_nat (length (pre ++ [VStr d])) - 1)%Z
        by (rewrite length_app; simpl; lia).
      rewrite IH. destruct (matches _ _ _ others); cbn [mbind res_bind]; [|done..].
      by rewrite <- !app_assoc.
    + rewrite IH. by destruct (matches _ _ _ others).
Qed.

Lemma wildcard_loop_expands fuel key target pre rest : length rest < fuel ->
  wildcard_loop data fuel key target (pre ++ rest) (length pre) =
  (l ← expand_each key target rest; Ok (pre ++ l)%list).
Proof.
  revert pre rest; induction fuel as [|fuel IH]; intros pre rest Hf; [lia|].
  cbn [wildcard_loop]. destruct rest as [|d rest].
  { rewrite app_nil_r, (proj2 (lookup_ge_None _ _)) by done. cbn. by rewrite app_nil_r. }
  rewrite list_lookup_middle by done. cbn [expand_each]. unfold expansion. simpl in Hf.
  destruct (as_string "rsplit" d) as [s|e|] eqn:Hs; cbn [mbind res_bind]; [|done..].
  assert (Hd : d = VStr s) by (destruct d; simpl in Hs; congruence).
  destruct (ParseQualifiedTarget s) as [[file name] toolset].
  destruct (negb _ && negb _); cbn [mbind res_bind].
  - subst d. replace (pre ++ VStr s :: rest)%list with ((pre ++ [VStr s]) ++ rest)%list
      by (by rewrite <- app_assoc).
    replace (S (length pre)) with (length (pre ++ [VStr s])) by (rewrite length_app; simpl; lia).
    rewrite IH by lia. destruct (expand_each key target rest); cbn [mbind res_bind]; [|done..].
    by rewrite <- app_assoc.
  - case_decide; [done|]. destruct (wildcard_targets data file) as [others|e|]; cbn [mbind res_bind]; [|done..].
    rewrite take_app_length, cons_middle, (app_assoc pre), drop_app_length'
      by (rewrite length_app; simpl; lia).
    rewrite insert_matches.
    destruct (matches _ _ _ others) as [new|e|]; cbn [mbind res_bind fst snd]; [|done..].
    replace (Z.to_nat _) with (length (pre ++ new)) by lia.
    rewrite app_assoc, IH by lia.
    destruct (expand_each key target rest); cbn [mbind res_bind]; [|done..]. by rewrite !app_assoc.
Qed.
End Expansion.

(** The index loop that expands wildcards ends, and what it leaves is each
    entry, in its place, replaced by what it stands for: a plain entry by itself,
    a wildcard by the names of the targets of the other build file that match it
    and are not suppressed, in their order; the first entry that cannot be
    expanded raises. *)
Theorem ExpandWildcard_expands data key target target_dict :
  expand_section data target key target_dict =
  (dependencies ← get_seq key target_dict;
   expanded ← expand_each data key target dependencies;
   Ok (if dmem key target_dict then dset key (VList expanded) target_dict else target_dict)).
Proof.
  unfold expand_section. destruct (get_seq key target_dict) as [l|e|]; cbn [mbind res_bind]; [|done..].
  pose proof (wildcard_loop_expands data (S (length l)) key target [] l ltac:(lia)) as H.
  simpl in H. simpl. rewrite H. by destruct (expand_each data key target l).
Qed.
