(* ===== verification/ListFilters.v ===== *)
(** * Exclusion and regular-expression filters on lists ([gyp/input.py])

    [ProcessListFiltersInDict] and [ProcessListFiltersInList].  The regular
    expressions are Python's: [search pattern item] is
    [re.compile(pattern).search(item)], an argument of the model. *)
From S2P Require Import Prelude PyStr Ordered GypValue Targets.
From stdpp Require Import options.

Section Filters.
Context (search : string -> string -> res bool).

(** ** The lists to be filtered *)

(** The state: the lists to filter, the filters without a list. *)
Definition scan_item (name : string) (the_dict : dict) (st : list string * list string)
    (kv : string * val) : res (list string * list string) :=
  let '(lists, del_lists) := st in
  let '(key, value) := kv in
  match str_last 1 key with
  | "" => Err IndexError
  | operation =>
      if negb (String.eqb operation "!") && negb (String.eqb operation "/") then Ok st
      else
        match value with
        | VList _ =>
            let list_key := str_init 1 key in
            match dget list_key the_dict with
            | None => Ok (lists, (del_lists ++ [key])%list)
            | Some (VList _) =>
                Ok (if decide (list_key ∈ lists) then lists else (lists ++ [list_key])%list, del_lists)
            | Some value =>
                Err (ValueError (name +:+ " key " +:+ list_key +:+ " must be list, not " +:+
                     type_name value +:+ " when applying " +:+
                     (if String.eqb operation "!" then "exclusion" else "regex")))
            end
        | _ => Err (ValueError (name +:+ " key " +:+ key +:+ " must be list, not " +:+ type_name value))
        end
  end.

(** ** One list: -1 is untouched, 0 excluded, 1 included *)
Definition exclude_actions (the_list : list val) (actions : list Z) (exclude_item : val) : list Z :=
  zip_with (fun item action => if decide (exclude_item = item) then 0%Z else action) the_list actions.

Fixpoint regex_actions (pattern : string) (action_value : Z) (the_list : list val)
    (actions : list Z) : res (list Z) :=
  match the_list, actions with
  | item :: the_list, action :: actions =>
      action ← (if (action =? action_value)%Z then Ok action
                else
                  s ← match item with VStr s => Ok s
                      | _ => Err (TypeError "expected string or buffer") end;
                  found ← search pattern s;
                  Ok (if found : bool then action_value else action));
      actions ← regex_actions pattern action_value the_list actions;
      Ok (action :: actions)
  | _, _ => Ok []
  end.
(** [[action, pattern] = regex_item] and the loop over the list. *)
Definition regex_filter (name regex_key : string) (the_list : list val) (actions : list Z)
    (regex_item : val) : res (list Z) :=
  parts ← iterate regex_item;
  match parts with
  | [action; pattern] =>
      pattern ← match pattern with VStr p => Ok p
                | _ => Err (TypeError "first argument must be string or compiled pattern") end;
      if bool_decide (action = VStr "exclude") then regex_actions pattern 0 the_list actions
      else if bool_decide (action = VStr "include") then regex_actions pattern 1 the_list actions
      else
        action ← as_text action;
        Err (ValueError ("Unrecognized action " +:+ action +:+ " in " +:+ name +:+ " key " +:+ regex_key))
  | _ => Err (ValueError "need 2 values to unpack")
  end.

(** [for index in xrange(len(list_actions) - 1, -1, -1)]: [index] counts down to
    the entry before it. *)
Fixpoint dump_excluded (index : nat) (actions : list Z) (the_list excluded_list : list val)
    : list val * list val :=
  match index with
  | 0 => (the_list, excluded_list)
  | S index =>
      match actions !! index, the_list !! index with
      | Some 0%Z, Some item =>
          dump_excluded index actions (take index the_list ++ drop (S index) the_list)%list
            (item :: excluded_list)
      | _, _ => dump_excluded index actions the_list excluded_list
      end
  end.

(** The filters stored under [key], if there are any. *)
Definition filters_under (key : string) (d : dict) : res (list val) := get_list key d.

Definition filter_list (name : string) (the_dict : dict) (list_key : string) : res dict :=
  the_list ← dindex list_key the_dict;
  the_list ← iterate the_list;
  let list_actions := replicate (length the_list) (-1)%Z in
  excludes ← filters_under (list_key +:+ "!") the_dict;
  let list_actions := foldl (exclude_actions the_list) list_actions excludes in
  let the_dict := ddel (list_key +:+ "!") the_dict in
  regexes ← filters_under (list_key +:+ "/") the_dict;
  list_actions ← foldM (regex_filter name (list_key +:+ "/") the_list) list_actions regexes;
  let the_dict := ddel (list_key +:+ "/") the_dict in
  let excluded_key := list_key +:+ "_excluded" in
  if dmem excluded_key the_dict then
    Err (GypError (name +:+ " key " +:+ excluded_key +:+ " must not be present prior " +:+
                   " to applying exclusion/regex filters for " +:+ list_key))
  else
    let '(the_list, excluded_list) := dump_excluded (length list_actions) list_actions the_list [] in
    let the_dict := dset list_key (VList the_list) the_dict in
    Ok (if 0 <? length excluded_list then dset excluded_key (VList excluded_list) the_dict
        else the_dict).

Definition filter_lists (name : string) (the_dict : dict) : res dict :=
  '(lists, del_lists) ← foldM (scan_item name the_dict) ([], []) the_dict;
  let the_dict := foldl (fun d k => ddel k d) the_dict del_lists in
  foldM (filter_list name) the_dict lists.

(** ** The whole tree; [fuel] bounds its depth *)
Fixpoint ProcessListFiltersInDict (fuel : nat) (name : string) (the_dict : dict) : res dict :=
  match fuel with
  | 0 => NoFuel
  | S fuel =>
      the_dict ← filter_lists name the_dict;
      foldM (fun acc (kv : string * val) =>
               v ← match kv.2 with
                   | VDict d => d ← ProcessListFiltersInDict fuel kv.1 d; Ok (VDict d)
                   | VList l => l ← ProcessListFiltersInList fuel kv.1 l; Ok (VList l)
                   | v => Ok v
                   end;
               Ok (acc ++ [(kv.1, v)])%list) [] the_dict
  end
with ProcessListFiltersInList (fuel : nat) (name : string) (the_list : list val) : res (list val) :=
  match fuel with
  | 0 => NoFuel
  | S fuel =>
      foldM (fun acc item =>
               v ← match item with
                   | VDict d => d ← ProcessListFiltersInDict fuel name d; Ok (VDict d)
                   | VList l => l ← ProcessListFiltersInList fuel name l; Ok (VList l)
                   | v => Ok v
                   end;
               Ok (acc ++ [v])%list) [] the_list
  end.
End Filters.

(** The depth of a value, a budget for the recursion. *)
Fixpoint depth (v : val) : nat :=
  match v with
  | VInt _ | VStr _ => 0
  | VList l => S (foldr (fun v n => depth v `max` n) 0 l)
  | VDict d => S (foldr (fun kv n => depth kv.2 `max` n) 0 d)
  end.

(** ** What the filters do to a list of strings *)
(** The countdown keeps the items whose action is not 0 and moves the others, in
    their order. *)
Lemma dump_excluded_filter (f : string -> Z) done_ todo kept excluded :
  dump_excluded (length done_) (map f (done_ ++ todo))
    (map VStr (done_ ++ kept)) excluded =
  (map VStr (filter (fun s => f s <> 0%Z) done_ ++ kept),
   (map VStr (filter (fun s => f s = 0%Z) done_) ++ excluded)%list).
Proof.
  revert todo kept excluded; induction done_ as [|s l IH] using rev_ind; intros todo kept excluded; [done|].
  rewrite length_app, Nat.add_comm. cbn [length plus dump_excluded]. rewrite <- !(app_assoc l).
  assert (Hat : forall {A} (g : string -> A) r, map g (l ++ [s] ++ r) !! length l = Some (g s)).
  { intros A g r. rewrite map_app, lookup_app_r by (by rewrite length_map).
    by rewrite length_map, Nat.sub_diag. }
  rewrite !Hat, !list.filter_app. destruct (decide (f s = 0%Z)) as [Hs|Hs].
  - rewrite Hs. assert (Hcut : (take (length l) (map VStr (l ++ [s] ++ kept)) ++
      drop (S (length l)) (map VStr (l ++ [s] ++ kept)))%list = map VStr (l ++ kept)).
    { rewrite !map_app, take_app_length' by (by rewrite length_map). f_equal.
      rewrite app_assoc, drop_app_length'; [done|]. rewrite length_app, length_map. simpl. lia. }
    rewrite Hcut. change (map f (l ++ [s] ++ todo)) with (map f (l ++ (s :: todo))). rewrite IH.
    rewrite list.filter_cons_False, list.filter_cons_True, !list.filter_nil by tauto.
    rewrite app_nil_r. f_equal. rewrite (map_app VStr _ [s]). by rewrite <- (app_assoc _ _ excluded).
  - assert (Hif : forall (x y : list val * list val),
      match f s with 0%Z => x | _ => y end = y) by (intros; destruct (f s); done).
    rewrite (list.filter_cons_True _ s), (list.filter_cons_False _ s), !list.filter_nil, app_nil_r by tauto.
    transitivity (dump_excluded (length l) (map f (l ++ (s :: todo))) (map VStr (l ++ (s :: kept))) excluded).
    + by destruct (f s).
    + rewrite IH. by rewrite <- app_assoc.
Qed.

Section FilterSpec.
Context (found : string -> string -> bool).
Abbreviation search := (fun pattern item => Ok (found pattern item)).

(** The filters on one list: the texts of the exclusion list, and the regular
    expressions with [true] for an include. *)
Context (excludes : list val) (regexes : list (bool * string)).

(** The last regular expression that matches decides; if none does, the
    exclusion list. *)
Definition stays (s : string) : bool :=
  match list.last (filter (fun f => found f.2 s = true) regexes) with
  | Some (included, _) => included
  | None => negb (bool_decide (VStr s ∈ excludes))
  end.
Definition regex_value (f : bool * string) : val :=
  VList [VStr (if f.1 then "include" else "exclude"); VStr f.2].

(** The action of one item *)
Definition excluded_action (l : list val) (s : string) : Z :=
  if bool_decide (VStr s ∈ l) then 0 else -1.
Definition regex_step (s : string) (a : Z) (f : bool * string) : Z :=
  if found f.2 s then (if f.1 then 1 else 0)%Z else a.

Lemma exclude_actions_all items l :
  foldl (exclude_actions (map VStr items)) (replicate (length (map VStr items)) (-1)%Z) l =
  map (excluded_action l) items.
Proof.
  assert (Hgen : forall (l0 : list val),
    foldl (exclude_actions (map VStr items)) (map (excluded_action l0) items) l =
    map (excluded_action (rev_append l l0)) items).
  { induction l as [|e l IH]; intros l0; [done|]. simpl. rewrite <- IH. f_equal.
    clear. induction items as [|s items IH]; [done|]. simpl. f_equal; [|exact IH].
    unfold excluded_action. repeat case_bool_decide; case_decide; set_solver. }
  transitivity (map (excluded_action (rev_append l [])) items).
  - rewrite <- Hgen. f_equal. clear. induction items as [|s items IH]; [done|].
    cbn [map length replicate]. f_equal. exact IH.
  - apply map_ext. intros s. unfold excluded_action.
    by rewrite (bool_decide_ext _ _ (elem_of_reverse (VStr s) l)).
Qed.

Lemma regex_actions_all pattern (action_value : Z) items (f : string -> Z) :
  regex_actions search pattern action_value (map VStr items) (map f items) =
  Ok (map (fun s => if found pattern s then action_value else f s) items).
Proof.
  induction items as [|s items IH]; [done|]. cbn [map regex_actions].
  destruct (f s =? action_value)%Z eqn:Hf; cbn [mbind res_bind]; rewrite IH; cbn [mbind res_bind].
  - apply Z.eqb_eq in Hf. do 2 f_equal. rewrite Hf. by case_match.
  - done.
Qed.
Lemma regex_filters_all name key items (f : string -> Z) :
  foldM (regex_filter search name key (map VStr items)) (map f items) (map regex_value regexes) =
  Ok (map (fun s => foldl (regex_step s) (f s) regexes) items).
Proof.
  revert f; induction regexes as [|[b p] l IH]; intros f; [done|]. cbn [map foldM].
  assert (H : regex_filter search name key (map VStr items) (map f items) (regex_value (b, p)) =
    Ok (map (fun s => regex_step s (f s) (b, p)) items)).
  { unfold regex_filter, regex_value. cbn [iterate fst snd mbind res_bind].
    destruct b; [rewrite bool_decide_false, bool_decide_true by done|rewrite bool_decide_true by done];
      by rewrite regex_actions_all. }
  rewrite H. cbn [mbind res_bind]. exact (IH (fun s => regex_step s (f s) (b, p))).
Qed.

(** The folded actions agree with [stays]. *)
Lemma regex_step_stays s :
  foldl (regex_step s) (excluded_action excludes s) regexes = 0%Z <-> stays s = false.
Proof.
  unfold stays. induction regexes as [|f l IH] using rev_ind; simpl.
  - unfold excluded_action. case_bool_decide; simpl; split; intros; congruence.
  - rewrite foldl_app. simpl. unfold regex_step at 1. rewrite list.filter_app.
    destruct (found f.2 s) eqn:Hf.
    + rewrite list.filter_cons_True, list.filter_nil by done. rewrite last_snoc. destruct f as [[] p]; simpl; split; congruence.
    + rewrite list.filter_cons_False, list.filter_nil, app_nil_r by (by rewrite Hf). exact IH.
Qed.

Lemma suffixed_key k x y : x <> y -> k +:+ x <> k +:+ y.
Proof. intros H He. by apply append_inj_l in He. Qed.
Lemma suffixed_key_ne k x : x <> "" -> k +:+ x <> k.
Proof. intros H He. rewrite <- (append_nil_r k) in He at 2. by apply append_inj_l in He. Qed.

Lemma filter_actions items :
  dump_excluded (length items)
    (map (fun s => foldl (regex_step s) (excluded_action excludes s) regexes) items)
    (map VStr items) [] =
  (map VStr (filter (fun s => stays s = true) items),
   map VStr (filter (fun s => stays s = false) items)).
Proof.
  pose proof (dump_excluded_filter
    (fun s => foldl (regex_step s) (excluded_action excludes s) regexes) items [] [] []) as H.
  rewrite !app_nil_r in H. rewrite H. f_equal; f_equal; apply list_filter_iff; intros s.
  - rewrite regex_step_stays. destruct (stays s); split; congruence.
  - apply regex_step_stays.
Qed.

Lemma filter_list_spec name d list_key items :
  dget list_key d = Some (VList (map VStr items)) ->
  get_list (list_key +:+ "!") d = Ok excludes ->
  get_list (list_key +:+ "/") d = Ok (map regex_value regexes) ->
  dmem (list_key +:+ "_excluded") d = false ->
  let excluded := filter (fun s => stays s = false) items in
  exists d', filter_list search name d list_key = Ok d' /\
    forall k, dget k d' =
      if decide (k = list_key) then Some (VList (map VStr (filter (fun s => stays s = true) items)))
      else if decide (k = list_key +:+ "_excluded") then
        (if decide (excluded = []) then None else Some (VList (map VStr excluded)))
      else if decide (k = list_key +:+ "!" \/ k = list_key +:+ "/") then None
      else dget k d.
Proof.
  intros Hl He Hr Hx excluded. unfold filter_list, dindex, filters_under. rewrite Hl.
  cbn [of_option iterate mbind res_bind]. rewrite He. cbn [mbind res_bind].
  assert (Hr' : get_list (list_key +:+ "/") (ddel (list_key +:+ "!") d) = Ok (map regex_value regexes)).
  { unfold get_list in *. rewrite OrderedDict.assoc_del_lookup, decide_False; [exact Hr|].
    by apply suffixed_key. }
  rewrite Hr'. cbn [mbind res_bind]. rewrite exclude_actions_all, regex_filters_all. cbn [mbind res_bind].
  assert (Hmem : dmem (list_key +:+ "_excluded") (ddel (list_key +:+ "/") (ddel (list_key +:+ "!") d)) = false).
  { apply bool_decide_eq_false in Hx. apply bool_decide_eq_false.
    apply OrderedDict.assoc_None. rewrite !OrderedDict.assoc_del_lookup.
    repeat case_decide; try done. by apply OrderedDict.assoc_None. }
  rewrite Hmem, length_map, filter_actions. fold excluded.
  eexists. split; [reflexivity|]. intros k.
  assert (Hlen : (0 <? length (map VStr excluded)) = negb (bool_decide (excluded = []))).
  { by destruct excluded. }
  apply bool_decide_eq_false in Hx. unfold dmem in Hx. rewrite <- OrderedDict.assoc_None in Hx.
  pose proof (suffixed_key_ne list_key "_excluded" ltac:(done)) as H1.
  pose proof (suffixed_key list_key "_excluded" "!" ltac:(done)) as H2.
  pose proof (suffixed_key list_key "_excluded" "/" ltac:(done)) as H3.
  rewrite Hlen. case_bool_decide as Hnil; cbn [negb];
    rewrite ?OrderedDict.assoc_set_lookup, !OrderedDict.assoc_del_lookup;
    repeat case_decide; subst; try done; naive_solver.
Qed.
End FilterSpec.

(** ** The recursion ends: the depth of the dictionary is budget enough *)
Definition within (n : nat) (d : dict) : Prop := Forall (fun kv => depth kv.2 <= n) d.

Lemma depth_list n l : depth (VList l) <= S n <-> Forall (fun v => depth v <= n) l.
Proof.
  simpl. rewrite <- Nat.succ_le_mono. induction l as [|v l IH]; simpl; [split; [done|lia]|].
  rewrite Nat.max_lub_iff, IH, list.Forall_cons. done.
Qed.
Lemma depth_dict n d : depth (VDict d) <= S n <-> within n d.
Proof.
  unfold within. simpl. rewrite <- Nat.succ_le_mono. induction d as [|kv d IH]; simpl; [split; [done|lia]|].
  rewrite Nat.max_lub_iff, IH, list.Forall_cons. done.
Qed.
Lemma within_set n k v d : within n d -> depth v <= n -> within n (dset k v d).
Proof.
  intros Hd Hv. induction Hd as [|[k' v'] d H Hd IH]; simpl.
  - by apply list.Forall_singleton.
  - case_decide; apply list.Forall_cons; auto.
Qed.
Lemma within_del n k d : within n d -> within n (ddel k d).
Proof.
  unfold within. rewrite !list.Forall_forall. intros H x [_ Hx]%list_elem_of_filter. auto.
Qed.
Lemma within_get n k v d : within n d -> dget k d = Some v -> depth v <= n.
Proof.
  intros H (l1 & l2 & -> & _)%OrderedDict.assoc_Some. unfold within in H.
  apply list.Forall_app in H as [_ [Hv _]%list.Forall_cons]. exact Hv.
Qed.

Lemma dump_excluded_sub (P : val -> Prop) index actions the_list excluded :
  Forall P the_list -> Forall P excluded ->
  Forall P (dump_excluded index actions the_list excluded).1 /\
  Forall P (dump_excluded index actions the_list excluded).2.
Proof.
  revert the_list excluded; induction index as [|i IH]; intros l e Hl He; simpl; [done|].
  repeat case_match; try by apply IH. apply IH.
  - apply list.Forall_app. split; [by apply Forall_take|by apply Forall_drop].
  - apply list.Forall_cons. split; [|done]. eapply (list.Forall_lookup_1 _ l); eassumption.
Qed.

Section Ends.
Context (search : string -> string -> res bool) (Hsearch : forall p s, search p s <> NoFuel).

Lemma regex_actions_fuel p a l actions : regex_actions search p a l actions <> NoFuel.
Proof using Hsearch.
  revert actions; induction l as [|v l IH]; intros [|x actions]; cbn [regex_actions]; [done..|].
  apply bind_fuel; [|intros x' _; apply bind_fuel; [apply IH|discriminate]].
  case_match; [discriminate|]. apply bind_fuel; [by destruct v|]. intros s _.
  apply bind_fuel; [apply Hsearch|]. intros [] _; discriminate.
Qed.
Lemma regex_filter_fuel name key l actions item :
  regex_filter search name key l actions item <> NoFuel.
Proof using Hsearch.
  unfold regex_filter. apply bind_fuel; [destruct item; discriminate|intros parts _].
  destruct parts as [|action [|pattern [|]]]; try discriminate.
  apply bind_fuel; [by destruct pattern|]. intros p _.
  repeat (case_match; [apply regex_actions_fuel|]). apply bind_fuel; [by destruct action|discriminate].
Qed.

(** The keys collected by the scan name lists, or nothing any more. *)
Definition list_entries (keys : list string) (d : dict) : Prop :=
  forall k v, k ∈ keys -> dget k d = Some v -> exists l, v = VList l.
Lemma list_entries_set keys d k l : list_entries keys d -> list_entries keys (dset k (VList l) d).
Proof.
  intros H k' v Hk'. rewrite OrderedDict.assoc_set_lookup. case_decide; [|by apply H].
  intros [= <-]. eauto.
Qed.
Lemma list_entries_del keys d k : list_entries keys d -> list_entries keys (ddel k d).
Proof. intros H k' v Hk'. rewrite OrderedDict.assoc_del_lookup. case_decide; [done|by apply H]. Qed.

Lemma scan_lists name d st : foldM (scan_item name d) ([], []) d = Ok st -> list_entries st.1 d.
Proof.
  apply (foldM_inv (fun st => list_entries st.1 d)); [by intros k v Hk%elem_of_nil|].
  intros [lists dels] [key value] st' _ H. unfold scan_item. simpl in H.
  repeat case_match; try done; intros [= <-]; simpl; try exact H.
  intros k0 v0 Hk. case_decide; [by apply H|]. apply elem_of_app in Hk as [Hk| ->%list_elem_of_singleton]; [by apply H|].
  intros Hv. simplify_eq. eauto.
Qed.

Lemma get_list_fuel k d : get_list k d <> NoFuel.
Proof. unfold get_list. destruct (dget k d) as [[]|]; discriminate. Qed.

Lemma filter_list_within n name keys d key : key ∈ keys -> list_entries keys d -> within n d ->
  filter_list search name d key <> NoFuel /\
  forall d', filter_list search name d key = Ok d' -> list_entries keys d' /\ within n d'.
Proof using Hsearch.
  intros Hk Hl Hd. split.
  - unfold filter_list, filters_under, dindex. no_fuel; try apply get_list_fuel.
    + destruct (dget key d); discriminate.
    + destruct a; discriminate.
    + apply (foldM_fuel (fun _ => True)); [done|]. split; [apply regex_filter_fuel|done].
  - unfold filter_list. intros d' (v & Hv & H)%bind_ok.
    unfold dindex in Hv. apply of_option_ok in Hv. destruct (Hl key v Hk Hv) as [l ->].
    cbn [iterate mbind res_bind] in H. apply bind_ok in H as (ex & _ & H).
    apply bind_ok in H as (re & _ & H). apply bind_ok in H as (acts & _ & H).
    apply (within_get n) in Hv as Hdl; [|done]. destruct n as [|n]; [simpl in Hdl; lia|].
    apply depth_list in Hdl. case_match; [done|].
    pose proof (dump_excluded_sub _ (length acts) acts l [] Hdl ltac:(constructor)) as [H1 H2].
    destruct (dump_excluded _ _ _ _) as [kept gone]. apply depth_list in H1, H2. cbn [fst snd] in *.
    injection H as <-. case_match.
    + split; [by do 2 apply list_entries_set; do 2 apply list_entries_del|].
      by do 2 (apply within_set; [|done]); do 2 apply within_del.
    + split; [by apply list_entries_set; do 2 apply list_entries_del|].
      by apply within_set; [|done]; do 2 apply within_del.
Qed.

Lemma filter_lists_within n name d : within n d ->
  filter_lists search name d <> NoFuel /\
  forall d', filter_lists search name d = Ok d' -> within n d'.
Proof using Hsearch.
  intros Hd. unfold filter_lists.
  assert (Hdels : forall ks d0, within n d0 -> within n (foldl (fun d k => ddel k d) d0 ks)).
  { induction ks as [|k ks IH]; intros d0 H; simpl; [done|]. by apply IH, within_del. }
  assert (Hdelk : forall keys ks d0, list_entries keys d0 ->
    list_entries keys (foldl (fun d k => ddel k d) d0 ks)).
  { induction ks as [|k ks IH]; intros d0 H; simpl; [done|]. by apply IH, list_entries_del. }
  destruct (foldM (scan_item name d) ([], []) d) as [[lists dels]|e|] eqn:Hscan; cbn [mbind res_bind].
  - apply scan_lists in Hscan. cbn [fst] in Hscan.
    set (P d := list_entries lists d /\ within n d).
    assert (HP : P (foldl (fun d k => ddel k d) d dels)) by (split; auto).
    split.
    + apply (foldM_fuel P); [exact HP|]. intros d0 key Hk [H1 H2]. by apply filter_list_within with (keys := lists).
    + intros d' H. eapply (foldM_inv P) in H as [_ H]; [exact H|exact HP|].
      intros d0 key d1 Hk [H1 H2] H3.
      destruct (filter_list_within n name lists d0 key Hk H1 H2) as [_ H4]. by apply H4.
  - done.
  - exfalso. revert Hscan. apply (foldM_fuel (fun _ => True)); [done|].
    intros [lists dels] [key value] _ _. split; [|done]. unfold scan_item.
    destruct (str_last 1 key); [discriminate|]. case_match; [discriminate|].
    destruct value; try discriminate. destruct (dget _ d) as [[]|]; discriminate.
Qed.

(** A tree no deeper than the budget is processed to the end. *)
Lemma ProcessListFilters_fuel fuel :
  (forall n name d, n < fuel -> within n d -> ProcessListFiltersInDict search fuel name d <> NoFuel) /\
  (forall n name l, n < fuel -> Forall (fun v => depth v <= n) l ->
     ProcessListFiltersInList search fuel name l <> NoFuel).
Proof using Hsearch.
  induction fuel as [|fuel [IHd IHl]]; [split; intros; lia|].
  assert (Hval : forall n name v, n < S fuel -> depth v <= n ->
    match v with
    | VDict d => ProcessListFiltersInDict search fuel name d <> NoFuel
    | VList l => ProcessListFiltersInList search fuel name l <> NoFuel
    | _ => True
    end).
  { intros [|n] name [| |l|d] Hn Hv; try done; try (simpl in Hv; lia).
    - apply depth_list in Hv. apply (IHl n); [lia|done].
    - apply depth_dict in Hv. apply (IHd n); [lia|done]. }
  split; intros n name x Hn Hx.
  - cbn [ProcessListFiltersInDict]. destruct (filter_lists_within n name x Hx) as [H1 H2].
    apply bind_fuel; [exact H1|]. intros d Hd. specialize (H2 d Hd). unfold within in H2.
    rewrite list.Forall_forall in H2. apply (foldM_fuel (fun _ => True)); [done|].
    intros acc kv Hkv _. split; [|done]. specialize (Hval n kv.1 kv.2 Hn (H2 kv Hkv)).
    destruct (kv.2); no_fuel; done.
  - cbn [ProcessListFiltersInList]. rewrite list.Forall_forall in Hx.
    apply (foldM_fuel (fun _ => True)); [done|]. intros acc v Hv _. split; [|done].
    specialize (Hval n name v Hn (Hx v Hv)). destruct v; no_fuel; done.
Qed.
End Ends.

(** C17. Filtering a list of strings keeps an item exactly when the last regular
    expression that matches it is an include or, if none matches, when it is not
    in the exclusion list.  The others are moved, in their order, to the excluded
    list, which exists only if there are any; the filters are used up and the
    rest of the dictionary is as it was. *)
Theorem ProcessListFilters_spec found name d list_key items excludes regexes :
  dget list_key d = Some (VList (map VStr items)) ->
  get_list (list_key +:+ "!") d = Ok excludes ->
  get_list (list_key +:+ "/") d = Ok (map regex_value regexes) ->
  dmem (list_key +:+ "_excluded") d = false ->
  let stays := stays found excludes regexes in
  let excluded := filter (fun s => stays s = false) items in
  exists d', filter_list (fun p s => Ok (found p s)) name d list_key = Ok d' /\
    forall k, dget k d' =
      if decide (k = list_key) then Some (VList (map VStr (filter (fun s => stays s = true) items)))
      else if decide (k = list_key +:+ "_excluded") then
        (if decide (excluded = []) then None else Some (VList (map VStr excluded)))
      else if decide (k = list_key +:+ "!" \/ k = list_key +:+ "/") then None
      else dget k d.
Proof. apply filter_list_spec. Qed.
Lemma ProcessListFilters_spec_witness :
  let found p s := contains p s in
  let items := ["a_win.cc"; "a_mac.cc"; "b.cc"; "c.cc"] in
  let regexes := [(false, "_"); (true, "_mac")] in
  let d := [("sources", VList (map VStr items)); ("sources!", VList [VStr "c.cc"]);
            ("sources/", VList (map regex_value regexes))] in
  filter (fun s => stays found [VStr "c.cc"] regexes s = true) items = ["a_mac.cc"; "b.cc"] /\
  exists d', filter_list (fun p s => Ok (found p s)) "t" d "sources" = Ok d' /\
    forall k, dget k d' =
      if decide (k = "sources") then
        Some (VList (map VStr (filter (fun s => stays found [VStr "c.cc"] regexes s = true) items)))
      else if decide (k = "sources_excluded") then
        (if decide (filter (fun s => stays found [VStr "c.cc"] regexes s = false) items = []) then None
         else Some (VList (map VStr (filter (fun s => stays found [VStr "c.cc"] regexes s = false) items))))
      else if decide (k = "sources!" \/ k = "sources/") then None
      else dget k d.
Proof.
  intros found items regexes d. split; [vm_compute; reflexivity|].
  apply (ProcessListFilters_spec found "t" d "sources" items [VStr "c.cc"] regexes).
  - reflexivity.
  - reflexivity.
  - reflexivity.
  - vm_compute. reflexivity.
Defined.
