(* ===== verification/Expand.v ===== *)
(** * Variable expansion and conditions ([gyp/input.py])

    [ExpandVariables], [EvalCondition] and [ProcessVariablesAndConditionsInDict]/
    [InList], on the store of [Heap].  Commands are run by [popen] and [do_main],
    which may answer differently each time they are called; [eval_list] is [eval] of
    the argument list of a command, [eval_condition] that of a condition over the
    variables.  The recursion takes a budget: a chain of variables that leads back
    to itself exhausts Python's stack, too. *)
From S2P Require Import Prelude PyStr PyPath Common Ordered GypValue Merge Heap ListFilters.
From stdpp Require Import options.

(** ** Python texts *)

(** [s[i:j]] for integers of any sign *)
Definition slice_bound (n : nat) (i : Z) : nat :=
  Z.to_nat (Z.min (Z.of_nat n) (if (i <? 0)%Z then i + Z.of_nat n else i))%Z.
Definition py_slice (i j : Z) (s : string) : string :=
  let n := String.length s in str_slice (slice_bound n i) (slice_bound n j) s.

(** ** References in a text *)
Inductive PHASE := PHASE_EARLY | PHASE_LATE | PHASE_LATELATE.
#[global] Instance PHASE_eq_dec : EqDecision PHASE.
Proof. solve_decision. Defined.
Definition expansion_symbol (phase : PHASE) : ascii :=
  match phase with PHASE_EARLY => "<" | PHASE_LATE => ">" | PHASE_LATELATE => "^" end%char.

(** What a match of [early_variable_re] and its two variants says: where it starts,
    the characters [!], [@], [|] of its type, and the groups that are used. *)
Record reference := Reference {
  r_start : nat; r_run : bool; r_list : bool; r_file : bool;
  command_string : string; is_array : bool }.

(** The bracket that ends a match: the first one, on the same line. *)
Fixpoint close_paren (s : string) : option nat :=
  match s with
  | "" => None
  | String c s => if Ascii.eqb c ")" then Some 0
                  else if Ascii.eqb c newline then None else S <$> close_paren s
  end.
Definition command_char (c : ascii) : bool :=
  isalpha c || isdigit c || str_mem c "-_.".
(** A character that may be there *)
Definition optional (c : ascii) (s : string) : bool * string :=
  match s with String d s' => if Ascii.eqb c d then (true, s') else (false, s) | "" => (false, s) end.

(** A match at the beginning of [s], with its length; no part of the pattern can match
    in another way when what follows it fails. *)
Definition match_reference (symbol : ascii) (start : nat) (s : string) : option (reference * nat) :=
  match optional symbol s with
  | (false, _) => None
  | (true, s1) =>
      let '(file, s2) := optional "|" s1 in
      let '(run, s2) := if file : bool then (false, s2) else optional "!" s2 in
      let '(to_list, s2) := if file : bool then (false, s2) else optional "@" s2 in
      let '(command, s3) := span command_char s2 in
      match optional "(" s3 with
      | (false, _) => None
      | (true, s4) =>
          let '(_, s5) := optional "[" (lstrip_of isspace s4) in
          match close_paren s5 with
          | None => None
          | Some n =>
              Some (Reference start run to_list file command (String.length s5 <? String.length s4),
                    String.length s - String.length s5 + S n)
          end
      end
  end.
(** [finditer]: [skip] counts the characters of the last match still to pass. *)
Fixpoint find_references (symbol : ascii) (start skip : nat) (s : string) : list reference :=
  match s with
  | "" => []
  | String _ s' =>
      match skip with
      | S skip => find_references symbol (S start) skip s'
      | 0 =>
          match match_reference symbol start s with
          | Some (r, n) => r :: find_references symbol (S start) (n - 1) s'
          | None => find_references symbol (S start) 0 s'
          end
      end
  end.

(** ** The world outside *)
Inductive command := Shell (cmd : string) | Exec (argv : val).
Record process_result := { p_stdout : string; p_stderr : string; returncode : Z }.
Record filelist_paths := { toplevel : string; qualified_out_dir : string }.

Section Expand.
Context (cwd : string) (path_sections : gset string) (search : string -> string -> res bool).
Context (windows : bool) (generator_filelist_paths : option filelist_paths).
(** The number is that of the commands that were run before. *)
Context (popen : nat -> command -> option string -> process_result).
Context (do_main : nat -> list string -> option string -> res string).
Context (eval_list : string -> res val) (eval_condition : string -> dict -> res bool).

Definition FixupPlatformCommand (cmd : command) : res command :=
  let fix_cat (s : string) := if startswith "cat " s then "type " +:+ str_drop 4 s else s in
  if windows then
    match cmd with
    | Shell s => Ok (Shell (fix_cat s))
    | Exec (VList (VStr s :: args)) => Ok (Exec (VList (VStr (fix_cat s) :: args)))
    | Exec (VList []) => Err IndexError
    | Exec (VStr s) => Ok (Shell (fix_cat s))
    | Exec _ => Err (TypeError "expected string or buffer")
    end
  else Ok cmd.

Definition state_count : M nat := fun s => Ok (length (executed s), s).
Definition cached_result (key : command_key) : M (option string) := fun s =>
  Ok (cached_command_results s !! key, s).
Definition record_command (key : command_key) : M unit := fun s =>
  Ok (tt, State (lists s) (dicts s) (next s) (cached_command_results s) (key :: executed s) (written s)).
Definition record_result (key : command_key) (replacement : string) : M unit := fun s =>
  Ok (tt, State (lists s) (dicts s) (next s)
            (<[key := replacement]> (cached_command_results s)) (executed s) (written s)).
Definition write_file (path content : string) : M unit := fun s =>
  Ok (tt, State (lists s) (dicts s) (next s) (cached_command_results s) (executed s)
            (written s ++ [(path, content)])%list).

(** [<|(name items...)]: the file's path, from the directory of the build file *)
Definition write_filelist (contents build_file : string) : M string :=
  let build_file_dir := dirname build_file in
  let contents_list := split_char " " contents in
  let replacement := hd "" contents_list in
  if isabs replacement then
    raise (GypError ("| cannot handle absolute paths, got " +:+ repr_str replacement))
  else
    let path :=
      match generator_filelist_paths with
      | None => path_join2 build_file_dir replacement
      | Some paths =>
          let rel_build_file_dir :=
            if isabs build_file_dir then RelativePath cwd build_file_dir (toplevel paths)
            else build_file_dir in
          path_join (qualified_out_dir paths) [rel_build_file_dir; replacement]
      end in
    _ ← write_file path (join "" (map (fun i => i +:+ nl) (tl contents_list)));
    mret (RelativePath cwd path build_file_dir).

Definition execute (name text : string) (contents : command) (key : command_key) : M string :=
  n ← state_count;
  if String.eqb name "pymod_do_main" then
    s ← match contents with
        | Shell s | Exec (VStr s) => mret s
        | Exec _ => raise (AttributeError "read")
        end;
    parsed_contents ← lift (shlex_split s);
    match parsed_contents with
    | [] => raise IndexError
    | _ =>
        _ ← record_command key;
        replacement ← lift (do_main n parsed_contents key.2);
        mret (rstrip replacement)
    end
  else if negb (String.eqb name "") then
    raise (GypError ("Unknown command string '" +:+ name +:+ "' in '" +:+ text +:+ "'."))
  else
    cmd ← lift (FixupPlatformCommand contents);
    _ ← record_command key;
    let p := popen n cmd key.2 in
    if negb (returncode p =? 0)%Z || negb (String.eqb (p_stderr p) "") then
      raise (GypError ("Call to '" +:+ text +:+ "' returned exit status " +:+
                       string_of_int (returncode p) +:+ "."))
    else mret (rstrip (p_stdout p)).
(** The result is cached under the text of the command and its directory. *)
Definition run_command (r : reference) (contents build_file : string) : M string :=
  let build_file_dir := dirname build_file in
  contents ← (if is_array r then v ← lift (eval_list contents); mret (Exec v)
              else mret (Shell contents));
  let text := match contents with Shell s => s | Exec v => py_str v end in
  let key := (text, if String.eqb build_file_dir "" then None else Some build_file_dir) in
  cached_value ← cached_result key;
  match cached_value with
  | Some replacement => mret replacement
  | None =>
      replacement ← execute (command_string r) text contents key;
      _ ← record_result key replacement;
      mret replacement
  end.

(** ** [ExpandVariables] *)
Definition type_of (v : hval) : string := type_name (shape v).
Definition last_char (s : string) : M string :=
  match str_last 1 s with "" => raise IndexError | c => mret c end.
Definition str_of (v : hval) : M string :=
  match v with HStr s => mret s | _ => v ← frozen v; mret (py_str v) end.
Definition canonical (v : hval) : hval :=
  match v with
  | HStr s => if IsStrCanonicalInt s then HInt (default 0%Z (int_of_string s)) else v
  | _ => v
  end.

Inductive output := OStr (s : string) | OList (items : list hval).

Section Step.
Context (phase : PHASE) (build_file : string).
(** [ExpandVariables] and [ProcessVariablesAndConditionsInList] inside *)
Context (expand : hval -> hdict -> M hval) (process_list : nat -> hdict -> M unit).

Definition reference_contents (r : reference) (contents : string) (variables : hdict) : M string :=
  variables ← (if r_file r then
                 copy ← frozen_dict variables;
                 processed ← lift (ProcessListFiltersInDict search (S (depth (VDict copy))) contents copy);
                 processed_variables ← thaw (VDict processed);
                 match processed_variables with HDict d => read_dict d | _ => mret [] end
               else mret variables);
  v ← expand (HStr contents) variables;
  match v with HStr s => mret (strip s) | _ => raise (AttributeError "strip") end.

Definition variable_value (contents : string) (variables : hdict) : M hval :=
  match hget contents variables with
  | Some v => mret v
  | None =>
      c ← last_char contents;
      if String.eqb c "!" || String.eqb c "/" then l ← new_list []; mret (HList l)
      else raise (GypError ("Undefined variable " +:+ contents +:+ " in " +:+ build_file))
  end.

(** A variable is a text, an integer, or a list, which is processed in place. *)
Definition check_value (contents : string) (replacement : hval) (variables : hdict) : M unit :=
  let bad what := GypError ("Variable " +:+ contents +:+
                            " must expand to a string or list of strings; " +:+ what) in
  match replacement with
  | HList l =>
      items ← read_list l;
      _ ← each (fun item =>
                  c ← last_char contents;
                  if String.eqb c "/" then mret tt
                  else match item with
                       | HInt _ | HStr _ => mret tt
                       | _ => raise (bad ("list contains a " +:+ type_of item))
                       end) items;
      process_list l variables
  | HDict _ => raise (bad "found a dict")
  | _ => mret tt
  end.

(** The output: the list that the reference stands for, or the text with the
    reference replaced *)
Definition put_replacement (expand_to_list : bool) (replacement : hval) (input_str : string)
    (replace_start replace_end : Z) : M output :=
  if expand_to_list then
    match replacement with
    | HList l => items ← read_list l; mret (OList items)
    | _ =>
        s ← str_of replacement;
        words ← lift (shlex_split s);
        mret (OList (map HStr words))
    end
  else
    encoded_replacement ←
      match replacement with
      | HList l =>
          items ← read_list l;
          items ← loop (fun acc item => s ← str_of item; mret (acc ++ [s])%list) [] items;
          mret (EncodePOSIXShellList items)
      | _ => str_of replacement
      end;
    mret (OStr (py_slice 0 replace_start input_str +:+ encoded_replacement +:+
                py_slice replace_end (Z.of_nat (String.length input_str)) input_str)).

Definition expand_reference (variables : hdict) (input_str : string) (r : reference) : M output :=
  let replace_start := Z.of_nat (r_start r) in
  let '(c_start, c_end) :=
    match FindEnclosingBracketGroup (str_drop (r_start r) input_str) with
    | Some (i, j) => (Z.of_nat i, Z.of_nat j)
    | None => (-1, -1)%Z
    end in
  let replace_end := (replace_start + c_end)%Z in
  let replacement := py_slice replace_start replace_end input_str in
  contents ← reference_contents r
    (py_slice (replace_start + c_start + 1) (replace_end - 1) input_str) variables;
  let expand_to_list := r_list r && String.eqb input_str replacement in
  replacement ← (if r_file r then s ← write_filelist contents build_file; mret (HStr s)
                 else if r_run r then s ← run_command r contents build_file; mret (HStr s)
                 else variable_value contents variables);
  _ ← check_value contents replacement variables;
  put_replacement expand_to_list replacement input_str replace_start replace_end.

(** The references from the right.  Only one that is the whole text, and so the last
    of them, becomes a list. *)
Fixpoint expand_references (variables : hdict) (input_str : string) (refs : list reference)
    : M output :=
  match refs with
  | [] => mret (OStr input_str)
  | r :: refs =>
      output ← expand_reference variables input_str r;
      match output with
      | OStr input_str => expand_references variables input_str refs
      | OList _ => mret output
      end
  end.

(** What was replaced is expanded again. *)
Definition expand_again (input : hval) (variables : hdict) (output : output) : M hval :=
  match output with
  | OStr s =>
      v ← (if decide (HStr s = input) then mret input else expand (HStr s) variables);
      match v with
      | HList l => items ← read_list l; _ ← write_list l (map canonical items); mret v
      | _ => mret (canonical v)
      end
  | OList items =>
      new_output ← match items with
                   | HList _ :: _ => mret items
                   | _ => loop (fun acc item => v ← expand item variables; mret (acc ++ [v])%list) [] items
                   end;
      l ← new_list (map canonical new_output);
      mret (HList l)
  end.

Definition expand_body (input : hval) (variables : hdict) : M hval :=
  input_str ← str_of input;
  if IsStrCanonicalInt input_str then mret (canonical (HStr input_str))
  else if negb (str_mem (expansion_symbol phase) input_str) then mret (HStr input_str)
  else
    match find_references (expansion_symbol phase) 0 0 input_str with
    | [] => mret (HStr input_str)
    | matches =>
        output ← expand_references variables input_str (rev matches);
        expand_again input variables output
    end.
End Step.

(** ** Conditions *)
Section Conditions.
Context (conditions_key : string) (build_file : string).
Context (expand : hval -> hdict -> M hval) (process_dict : nat -> hdict -> option string -> M unit).

Definition EvalSingleCondition (cond_expr : hval) (true_dict : nat) (false_dict : option nat)
    (variables : hdict) : M (option nat) :=
  cond_expr_expanded ← expand cond_expr variables;
  match cond_expr_expanded with
  | HStr s =>
      values ← frozen_dict variables;
      b ← reraise (fun e =>
            match e with
            | NameError e => GypError (e +:+ " while evaluating condition '" +:+ s +:+ "' in " +:+ build_file)
            | _ => e
            end) (lift (eval_condition s values));
      mret (if b : bool then Some true_dict else false_dict)
  | HInt _ => raise (TypeError "compile() arg 1 must be a string")
  | v => raise (ValueError ("Variable expansion in this context permits str and int only, found "
                            +:+ type_of v))
  end.

(** The loop over a condition, two or three items at a time; [result] is [None] until
    a dictionary is found. *)
Fixpoint condition_loop (condition : list hval) (variables : hdict) (result : option nat)
    : M (option nat) :=
  match condition with
  | [] => mret result
  | [_] => raise IndexError
  | cond_expr :: HDict true_dict :: rest =>
      let eval_to false_dict :=
        match result with
        | None => EvalSingleCondition cond_expr true_dict false_dict variables
        | Some _ => mret result
        end in
      match rest with
      | HDict false_dict :: trailing =>
          match trailing with
          | [] => eval_to (Some false_dict)
          | _ =>
              text ← str_of cond_expr;
              raise (GypError (conditions_key +:+ " " +:+ text +:+ " has " +:+
                               string_of_int (Z.of_nat (length trailing)) +:+ " unexpected trailing items"))
          end
      | _ => result ← eval_to None; condition_loop rest variables result
      end
  | cond_expr :: v :: _ =>
      text ← str_of cond_expr;
      raise (GypError (conditions_key +:+ " " +:+ text +:+ " must be followed by a dictionary, not "
                       +:+ type_of v))
  end.

Definition EvalCondition (condition : hval) (variables : hdict) : M (option nat) :=
  match condition with
  | HList l =>
      condition ← read_list l;
      match condition with
      | [] => raise IndexError
      | [HStr s] => raise (GypError (conditions_key +:+ " " +:+ s +:+ " must be at least length 2, not 1"))
      | [_] => raise (TypeError "cannot concatenate 'str' and other objects")
      | _ => condition_loop condition variables None
      end
  | _ => raise (GypError (conditions_key +:+ " must be a list"))
  end.

(** [for x in v] on a value of the store *)
Definition iterate_h (v : hval) : M (list hval) :=
  match v with
  | HList l => read_list l
  | HDict d => items ← read_dict d; mret (map (fun kv => HStr kv.1) items)
  | HStr s => mret (map scalar (chars s))
  | HInt _ => raise (TypeError "'int' object is not iterable")
  end.

Definition process_conditions (the_dict : nat) (variables : hdict) : M unit :=
  items ← read_dict the_dict;
  match hget conditions_key items with
  | None => mret tt
  | Some conditions_list =>
      _ ← write_dict the_dict (OrderedDict.assoc_del conditions_key items);
      conditions ← iterate_h conditions_list;
      each (fun condition =>
              merge_dict ← EvalCondition condition variables;
              match merge_dict with
              | None => mret tt
              | Some merge_dict =>
                  _ ← process_dict merge_dict variables None;
                  fro ← frozen (HDict merge_dict);
                  MergeDicts_ cwd path_sections build_file build_file the_dict fro
              end) conditions
  end.
End Conditions.

Definition conditions_key (phase : PHASE) : option string :=
  match phase with
  | PHASE_EARLY => Some "conditions"
  | PHASE_LATE => Some "target_conditions"
  | PHASE_LATELATE => None
  end.

(** ** Variables of a dictionary *)
Definition is_variable_value (v : hval) : bool :=
  match v with HDict _ => false | _ => true end.
Definition LoadAutomaticVariablesFromDict (variables the_dict : hdict) : hdict :=
  foldl (fun variables kv =>
           if is_variable_value kv.2 then hset ("_" +:+ kv.1) kv.2 variables else variables)
        variables the_dict.

Definition load_variable (the_dict : hdict) (the_dict_key : option string) (variables : hdict)
    (kv : string * hval) : hdict :=
  let '(key, value) := kv in
  if negb (is_variable_value value) then variables
  else if endswith "%" key then
    let variable_name := str_init 1 key in
    if hmem variable_name variables then variables
    else
      let value :=
        if bool_decide (the_dict_key = Some "variables")
        then default value (hget variable_name the_dict) else value in
      hset variable_name value variables
  else hset key value variables.
Definition LoadVariablesFromVariablesDict (variables the_dict : hdict) (the_dict_key : option string)
    : M hdict :=
  match hget "variables" the_dict with
  | None => mret variables
  | Some (HDict v) =>
      items ← read_dict v; mret (foldl (load_variable the_dict the_dict_key) variables items)
  | Some _ => raise (AttributeError "iteritems")
  end.

Section DictAndList.
Context (phase : PHASE) (build_file : string).
Context (expand : hval -> hdict -> M hval) (process_list : nat -> hdict -> M unit).
Context (process_dict : nat -> hdict -> option string -> M unit).

Definition load_variables (variables_in : hdict) (the_dict : nat) (the_dict_key : option string)
    : M hdict :=
  items ← read_dict the_dict;
  LoadVariablesFromVariablesDict (LoadAutomaticVariablesFromDict variables_in items) items the_dict_key.

(** The [variables] section comes first; its entries are variables while it is
    processed, and stay so, expanded, for the strings of the dictionary. *)
Definition first_variables (variables_in : hdict) (the_dict : nat) (the_dict_key : option string)
    : M hdict :=
  items ← read_dict the_dict;
  let variables := LoadAutomaticVariablesFromDict variables_in items in
  variables ← match hget "variables" items with
              | None => mret variables
              | Some (HDict v) =>
                  local ← read_dict v;
                  let variables := foldl (fun vs kv => hset kv.1 kv.2 vs) variables local in
                  _ ← process_dict v variables (Some "variables");
                  mret variables
              | Some _ => raise (AttributeError "iteritems")
              end;
  items ← read_dict the_dict;
  LoadVariablesFromVariablesDict variables items the_dict_key.

Definition expand_item (the_dict : nat) (variables : hdict) (kv : string * hval) : M unit :=
  match kv.2 with
  | HStr s =>
      if String.eqb kv.1 "variables" then mret tt
      else
        expanded ← expand (HStr s) variables;
        match expanded with
        | HStr _ | HInt _ => set_item the_dict kv.1 expanded
        | v => raise (ValueError ("Variable expansion in this context permits str and int only, found "
                                  +:+ type_of v +:+ " for " +:+ kv.1))
        end
  | _ => mret tt
  end.

Definition process_item (variables : hdict) (kv : string * hval) : M unit :=
  if String.eqb kv.1 "variables" then mret tt
  else match kv.2 with
       | HDict d => process_dict d variables (Some kv.1)
       | HList l => process_list l variables
       | HStr _ | HInt _ => mret tt
       end.

Definition dict_body (the_dict : nat) (variables_in : hdict) (the_dict_key : option string) : M unit :=
  variables ← first_variables variables_in the_dict the_dict_key;
  items ← read_dict the_dict;
  _ ← each (expand_item the_dict variables) items;
  variables ← load_variables variables_in the_dict the_dict_key;
  _ ← match conditions_key phase with
      | None => mret tt
      | Some key => process_conditions key build_file expand process_dict the_dict variables
      end;
  variables ← load_variables variables_in the_dict the_dict_key;
  items ← read_dict the_dict;
  each (process_item variables) items.

(** The list may grow while the index runs over it. *)
Fixpoint list_loop (fuel : nat) (the_list : nat) (index : nat) (variables : hdict) : M unit :=
  match fuel with
  | 0 => no_fuel
  | S fuel =>
      items ← read_list the_list;
      match items !! index with
      | None => mret tt
      | Some (HDict d) =>
          _ ← process_dict d variables None; list_loop fuel the_list (S index) variables
      | Some (HList l) =>
          _ ← process_list l variables; list_loop fuel the_list (S index) variables
      | Some (HStr s) =>
          expanded ← expand (HStr s) variables;
          items ← read_list the_list;
          match expanded with
          | HList l =>
              new ← read_list l;
              _ ← write_list the_list (take index items ++ new ++ drop (S index) items)%list;
              list_loop fuel the_list (index + length new) variables
          | v =>
              _ ← (if index <? length items then write_list the_list (<[index := v]> items)
                   else raise IndexError);
              list_loop fuel the_list (S index) variables
          end
      | Some (HInt _) => list_loop fuel the_list (S index) variables
      end
  end.
End DictAndList.

(** ** The recursion: [fuel] bounds its depth, and the turns of a list's loop *)
Fixpoint ExpandVariables (fuel : nat) (phase : PHASE) (build_file : string)
    (input : hval) (variables : hdict) : M hval :=
  match fuel with
  | 0 => no_fuel
  | S fuel =>
      expand_body phase build_file (ExpandVariables fuel phase build_file)
        (ProcessVariablesAndConditionsInList fuel phase build_file) input variables
  end
with ProcessVariablesAndConditionsInList (fuel : nat) (phase : PHASE) (build_file : string)
    (the_list : nat) (variables : hdict) : M unit :=
  match fuel with
  | 0 => no_fuel
  | S fuel =>
      list_loop (ExpandVariables fuel phase build_file)
        (ProcessVariablesAndConditionsInList fuel phase build_file)
        (ProcessVariablesAndConditionsInDict fuel phase build_file) fuel the_list 0 variables
  end
with ProcessVariablesAndConditionsInDict (fuel : nat) (phase : PHASE) (build_file : string)
    (the_dict : nat) (variables_in : hdict) (the_dict_key : option string) : M unit :=
  match fuel with
  | 0 => no_fuel
  | S fuel =>
      dict_body phase build_file (ExpandVariables fuel phase build_file)
        (ProcessVariablesAndConditionsInList fuel phase build_file)
        (ProcessVariablesAndConditionsInDict fuel phase build_file) the_dict variables_in the_dict_key
  end.
End Expand.
