(* ===== verification/ExpandProps.v ===== *)
(** * What variable expansion does

    On [Expand]: a command is run once ([commands_run_once]); a [conditions] entry is
    an if-elif-else chain ([EvalCondition_chain]); references to text variables are
    replaced until none is left ([ExpandVariables_substitutes]), and only a cycle of
    references keeps the expansion from ending ([circular_variables]). *)
From S2P Require Import Prelude PyStr PyPath Common Ordered GypValue Merge Heap ListFilters Expand.
From stdpp Require Import options.

(** ** Commands *)
Section Commands.
(** Every command that was run is cached, and was run once. *)
Definition run_once (s : state) : Prop :=
  NoDup (executed s) /\ forall key, key ∈ executed s <-> is_Some (cached_command_results s !! key).
(** What was run stays so; what was cached stays, with its result. *)
Definition commands_grow (s s' : state) : Prop :=
  cached_command_results s ⊆ cached_command_results s' /\
  (exists new, executed s' = (new ++ executed s)%list) /\ (run_once s -> run_once s').

#[export] Instance commands_grow_preorder : PreOrder commands_grow.
Proof.
  split.
  - intros s. split_and!; [done|by exists []|done].
  - intros s1 s2 s3 (H1 & [n1 H2] & H3) (K1 & [n2 K2] & K3). split_and!; [by etrans| |auto].
    exists (n2 ++ n1)%list. by rewrite K2, H2, app_assoc.
Qed.

Lemma grow_same {A} (m : M A) :
  (forall s a s', m s = Ok (a, s') ->
     cached_command_results s' = cached_command_results s /\ executed s' = executed s) ->
  keeps commands_grow m.
Proof.
  intros H s a s' Hm. destruct (H s a s' Hm) as [H1 H2]. unfold commands_grow, run_once.
  rewrite H1, H2. split_and!; [done|by exists []|done].
Qed.
Ltac same := intros; apply grow_same; intros s a s' H; injection H as <- <-; done.
Lemma grow_read_list l : keeps commands_grow (read_list l). Proof. same. Qed.
Lemma grow_read_dict d : keeps commands_grow (read_dict d). Proof. same. Qed.
Lemma grow_write_list l x : keeps commands_grow (write_list l x). Proof. same. Qed.
Lemma grow_write_dict d x : keeps commands_grow (write_dict d x). Proof. same. Qed.
Lemma grow_new_list x : keeps commands_grow (new_list x). Proof. same. Qed.
Lemma grow_new_dict x : keeps commands_grow (new_dict x). Proof. same. Qed.
Lemma grow_write_file p c : keeps commands_grow (write_file p c). Proof. same. Qed.
Lemma grow_frozen v : keeps commands_grow (frozen v).
Proof.
  apply grow_same. intros s a s'. unfold frozen. by destruct (freeze _ _ _); intros [= _ <-].
Qed.
End Commands.
#[export] Hint Resolve grow_read_list grow_read_dict grow_write_list grow_write_dict
  grow_new_list grow_new_dict grow_write_file grow_frozen : keeps.

(** Splits a computation into its operations. *)
Ltac keeps_step :=
  match goal with
  | |- keeps _ (mbind _ _) => apply keeps_bind
  | |- keeps _ (loop _ _ _) => apply keeps_loop
  | |- keeps _ (each _ _) => apply keeps_each
  | |- keeps _ (reraise _ _) => apply keeps_reraise
  | |- keeps _ (match ?x with _ => _ end) => destruct x
  | |- keeps _ (let '(_, _) := ?x in _) => destruct x
  | |- forall _, _ => intro
  end.
Ltac keeps_auto := repeat (first [solve [eauto with keeps typeclass_instances] | keeps_step]).

Section CommandLemmas.
Context (cwd : string) (path_sections : gset string) (windows : bool).
Context (popen : nat -> command -> option string -> process_result).
Context (do_main : nat -> list string -> option string -> res string).
Context (eval_list : string -> res val).

Lemma grow_thaw v : keeps commands_grow (thaw v).
Proof.
  induction v as [n|s|l IH|d IH] using val_ind'; cbn [thaw]; [keeps_auto..| |].
  - apply keeps_bind; [apply _| |keeps_auto]. induction IH as [|v l Hv _ IH]; keeps_auto.
  - apply keeps_bind; [apply _| |keeps_auto]. induction IH as [|[k v] d Hv _ IH]; keeps_auto.
Qed.
Hint Resolve grow_thaw : keeps.

Lemma grow_merge_key to_file fro_file rec_dicts rec_lists to fro k v :
  (forall to, keeps commands_grow (rec_dicts to v)) ->
  (forall to p a, keeps commands_grow (rec_lists to v p a)) ->
  keeps commands_grow (merge_key cwd path_sections to_file fro_file rec_dicts rec_lists to fro k v).
Proof. intros Hd Hl. unfold merge_key, set_item. keeps_auto. Qed.
Lemma grow_merge_item to_file fro_file rec_dicts rec_lists p v :
  (forall to, keeps commands_grow (rec_dicts to v)) ->
  (forall to p a, keeps commands_grow (rec_lists to v p a)) ->
  keeps commands_grow (merge_item cwd to_file fro_file rec_dicts rec_lists p v).
Proof. intros Hd Hl. unfold merge_item. keeps_auto. Qed.

Lemma grow_merge to_file fro_file fro :
  (forall to, keeps commands_grow (MergeDicts_ cwd path_sections to_file fro_file to fro)) /\
  (forall to p a, keeps commands_grow (MergeLists_ cwd path_sections to_file fro_file to fro p a)).
Proof.
  induction fro as [n|s|l IH|d IH] using val_ind'; (split; [intros to|intros to p a]); try apply keeps_raise.
  - intros s b s'. rewrite MergeLists_loop. apply keeps_bind; [apply _| |keeps_auto].
    generalize 0. induction IH as [|v l [Hd Hl] _ IH]; intros i; cbn [loop]; [keeps_auto|].
    apply keeps_bind; [apply _| |done]. unfold put_merged.
    apply keeps_bind; [apply _|by apply grow_merge_item|keeps_auto].
  - intros s b s'. rewrite MergeDicts_each. revert s b s'. generalize d at 1. intros items. unfold each.
    induction IH as [|[k v] d [Hd Hl] _ IH]; cbn [loop]; [apply keeps_ret, _|].
    apply keeps_bind; [apply _|by apply grow_merge_key|]. by intros [].
Qed.

Lemma grow_execute name text contents key s a s' :
  execute windows popen do_main name text contents key s = Ok (a, s') ->
  cached_command_results s' = cached_command_results s /\ executed s' = key :: executed s.
Proof.
  unfold execute. rewrite M_bind_at. cbn [state_count].
  destruct (String.eqb name "pymod_do_main").
  - assert (H : forall t,
      (parsed ← lift (shlex_split t);
       match parsed with
       | [] => raise IndexError
       | _ => _ ← record_command key;
              replacement ← lift (do_main (length (executed s)) parsed key.2);
              mret (rstrip replacement)
       end) s = Ok (a, s') ->
      cached_command_results s' = cached_command_results s /\ executed s' = key :: executed s).
    { intros t. unfold lift. rewrite M_bind_at. destruct (shlex_split t) as [[|w ws]| |]; [done| |done..].
      cbn. destruct (do_main _ _ _); [|done..]. by intros [= _ <-]. }
    destruct contents as [t|[]]; try done; apply H.
  - destruct (String.eqb name ""); [|done]. cbn [negb]. rewrite M_bind_at. unfold lift.
    destruct (FixupPlatformCommand _ _) as [cmd| |]; [|done..].
    rewrite M_bind_at. cbn [record_command]. destruct (_ || _); [done|]. by intros [= _ <-].
Qed.

Lemma grow_run_command r contents build_file :
  keeps commands_grow (run_command windows popen do_main eval_list r contents build_file).
Proof.
  unfold run_command. apply keeps_bind; [apply _|keeps_auto|]. intros c.
  intros s a s'. rewrite M_bind_at. cbn [cached_result].
  set (key := (_, _)) in *.
  destruct (cached_command_results s !! key) as [v|] eqn:Hkey; [intros [= _ <-]; reflexivity|].
  rewrite M_bind_at. destruct (execute _ _ _ _ _ _ _ s) as [[b s1]| |] eqn:E; [|done..].
  apply grow_execute in E as [Hc He]. rewrite M_bind_at. cbn [record_result].
  intros [= _ <-]. unfold commands_grow, run_once. cbn.
  rewrite Hc, He. split_and!; [by apply insert_subseteq|by exists [key]|]. intros [Hnd Hin]. split.
  - constructor; [|done]. rewrite Hin, Hkey. by intros [? ?].
  - intros k. rewrite lookup_insert_is_Some, <- Hin, elem_of_cons. destruct (decide (key = k)); naive_solver.
Qed.
End CommandLemmas.
#[export] Hint Resolve grow_thaw grow_run_command : keeps.

Section OnceLemmas.
Context (cwd : string) (search : string -> string -> res bool).
Context (windows : bool) (generator_filelist_paths : option filelist_paths).
Context (popen : nat -> command -> option string -> process_result).
Context (do_main : nat -> list string -> option string -> res string).
Context (eval_list : string -> res val).
Context (phase : PHASE) (build_file : string).
Context (expand : hval -> hdict -> M hval) (process_list : nat -> hdict -> M unit).
Context (Hexpand : forall v vs, keeps commands_grow (expand v vs)).
Context (Hlist : forall l vs, keeps commands_grow (process_list l vs)).
Hint Resolve Hexpand Hlist : keeps.

Lemma grow_frozen_dict d : keeps commands_grow (frozen_dict d).
Proof. unfold frozen_dict. keeps_auto. Qed.
Hint Resolve grow_frozen_dict : keeps.
Lemma grow_str_of v : keeps commands_grow (str_of v).
Proof. unfold str_of. keeps_auto. Qed.
Hint Resolve grow_str_of : keeps.
Lemma grow_last_char s : keeps commands_grow (last_char s).
Proof. unfold last_char. keeps_auto. Qed.
Hint Resolve grow_last_char : keeps.
Lemma grow_write_filelist c : keeps commands_grow (write_filelist cwd generator_filelist_paths c build_file).
Proof. unfold write_filelist. keeps_auto. Qed.
Hint Resolve grow_write_filelist : keeps.

Lemma grow_expand_reference variables input_str r :
  keeps commands_grow (expand_reference cwd search windows generator_filelist_paths popen do_main
    eval_list build_file expand process_list variables input_str r).
Proof using Hexpand Hlist.
  unfold expand_reference, reference_contents, variable_value, check_value, put_replacement. keeps_auto.
Qed.
Hint Resolve grow_expand_reference : keeps.
Lemma grow_expand_references variables refs input_str :
  keeps commands_grow (expand_references cwd search windows generator_filelist_paths popen do_main
    eval_list build_file expand process_list variables input_str refs).
Proof using Hexpand Hlist. revert input_str. induction refs as [|r refs IH]; intros input_str; cbn [expand_references]; keeps_auto. Qed.
Hint Resolve grow_expand_references : keeps.
Lemma grow_expand_body input variables :
  keeps commands_grow (expand_body cwd search windows generator_filelist_paths popen do_main
    eval_list phase build_file expand process_list input variables).
Proof using Hexpand Hlist. unfold expand_body, expand_again. keeps_auto. Qed.
End OnceLemmas.
#[export] Hint Resolve grow_frozen_dict grow_str_of grow_last_char : keeps.

Section OnceSteps.
Context (cwd : string) (path_sections : gset string).
Context (eval_condition : string -> dict -> res bool).
Context (phase : PHASE) (build_file : string).
Context (expand : hval -> hdict -> M hval) (process_list : nat -> hdict -> M unit).
Context (process_dict : nat -> hdict -> option string -> M unit).
Context (Hexpand : forall v vs, keeps commands_grow (expand v vs)).
Context (Hlist : forall l vs, keeps commands_grow (process_list l vs)).
Context (Hdict : forall d vs k, keeps commands_grow (process_dict d vs k)).
Hint Resolve Hexpand Hlist Hdict : keeps.

Lemma grow_condition_loop key condition variables result :
  keeps commands_grow (condition_loop eval_condition key build_file expand condition variables result).
Proof using Hexpand.
  revert result. assert (H : forall n l, length l <= n -> forall result,
    keeps commands_grow (condition_loop eval_condition key build_file expand l variables result)).
  { induction n as [|n IH]; intros [|c [|d rest]] Hn r; cbn [length] in Hn; try lia; cbn [condition_loop];
      try solve [keeps_auto].
    destruct d; try solve [keeps_auto]. unfold EvalSingleCondition.
    pose proof (IH rest ltac:(lia)). destruct rest as [|[] [|]]; keeps_auto. }
  by eapply H.
Qed.
Hint Resolve grow_condition_loop : keeps.

Lemma grow_merge_dicts d fro :
  keeps commands_grow (MergeDicts_ cwd path_sections build_file build_file d fro).
Proof. apply grow_merge. Qed.
Hint Resolve grow_merge_dicts : keeps.

Lemma grow_process_conditions key d variables :
  keeps commands_grow (process_conditions cwd path_sections eval_condition key build_file expand
                         process_dict d variables).
Proof using Hexpand Hdict. unfold process_conditions, EvalCondition, iterate_h. keeps_auto. Qed.
Hint Resolve grow_process_conditions : keeps.

Lemma grow_load_variables vs d k : keeps commands_grow (load_variables vs d k).
Proof. unfold load_variables, LoadVariablesFromVariablesDict. keeps_auto. Qed.
Hint Resolve grow_load_variables : keeps.

Lemma grow_dict_body d vs k :
  keeps commands_grow (dict_body cwd path_sections eval_condition phase build_file expand process_list
                         process_dict d vs k).
Proof using Hexpand Hlist Hdict.
  unfold dict_body, first_variables, LoadVariablesFromVariablesDict, expand_item, process_item, set_item.
  keeps_auto.
Qed.

Lemma grow_list_loop fuel l i vs :
  keeps commands_grow (list_loop expand process_list process_dict fuel l i vs).
Proof using Hexpand Hlist Hdict.
  revert i. induction fuel as [|fuel IH]; intros i; cbn [list_loop]; keeps_auto.
Qed.
End OnceSteps.

Section Once.
Context (cwd : string) (path_sections : gset string) (search : string -> string -> res bool).
Context (windows : bool) (generator_filelist_paths : option filelist_paths).
Context (popen : nat -> command -> option string -> process_result).
Context (do_main : nat -> list string -> option string -> res string).
Context (eval_list : string -> res val) (eval_condition : string -> dict -> res bool).

Lemma grow_all fuel phase build_file :
  (forall v vs, keeps commands_grow (ExpandVariables cwd path_sections search windows
     generator_filelist_paths popen do_main eval_list eval_condition fuel phase build_file v vs)) /\
  (forall l vs, keeps commands_grow (ProcessVariablesAndConditionsInList cwd path_sections search windows
     generator_filelist_paths popen do_main eval_list eval_condition fuel phase build_file l vs)) /\
  (forall d vs k, keeps commands_grow (ProcessVariablesAndConditionsInDict cwd path_sections search windows
     generator_filelist_paths popen do_main eval_list eval_condition fuel phase build_file d vs k)).
Proof.
  induction fuel as [|fuel (IH1 & IH2 & IH3)]; [done|]. split_and!; intros.
  - by apply grow_expand_body.
  - by apply grow_list_loop.
  - by apply grow_dict_body.
Qed.
End Once.

(** ** Conditions *)
Section Chains.
Context (eval_condition : string -> dict -> res bool) (key build_file : string).
Context (expand : hval -> hdict -> M hval) (variables : hdict).

(** A list of conditions with their dictionaries, and the last one's other dictionary *)
Definition chain_items (chain : list (hval * nat)) (els : option nat) : list hval :=
  (flat_map (fun cd => [cd.1; HDict cd.2]) chain ++
   match els with Some e => [HDict e] | None => [] end)%list.
Definition is_chain (chain : list (hval * nat)) : Prop :=
  chain <> [] /\ Forall (fun cd => forall d, cd.1 <> HDict d) (tl chain).

(** [if ... elif ... else]: the conditions behind the first true one are not looked at. *)
Fixpoint first_true (chain : list (hval * nat)) (els : option nat) : M (option nat) :=
  match chain with
  | [] => mret els
  | (c, d) :: chain =>
      b ← EvalSingleCondition eval_condition build_file expand c d None variables;
      match b with Some d => mret (Some d) | None => first_true chain els end
  end.

Abbreviation loop_ := (condition_loop eval_condition key build_file expand).

Lemma EvalSingleCondition_else c d e s :
  EvalSingleCondition eval_condition build_file expand c d (Some e) variables s =
  (b ← EvalSingleCondition eval_condition build_file expand c d None variables;
   mret (Some (default e b))) s.
Proof.
  unfold EvalSingleCondition. rewrite !M_bind_at. destruct (expand c variables s) as [[v s1]| |]; [|done..].
  destruct v; [done| |done..]. rewrite !M_bind_at. destruct (frozen_dict variables s1) as [[vs s2]| |]; [|done..].
  rewrite !M_bind_at. by destruct (reraise _ _ s2) as [[[] ?]| |].
Qed.

Lemma chain_items_cons c d chain els :
  chain_items ((c, d) :: chain) els = c :: HDict d :: chain_items chain els.
Proof. done. Qed.

Lemma condition_loop_found chain els r s :
  Forall (fun cd => forall d, cd.1 <> HDict d) (tl chain) -> (chain = [] -> els = None) ->
  loop_ (chain_items chain els) variables (Some r) s = Ok (Some r, s).
Proof.
  induction chain as [|[c d] chain IH]; intros Hc He; [by rewrite He|].
  rewrite chain_items_cons. destruct chain as [|[c' d'] chain].
  - by destruct els.
  - cbn [tl] in *. pose proof Hc as [Hc' _]%list.Forall_cons. cbn [condition_loop].
    rewrite chain_items_cons in *. destruct c' as [| | |d'']; try (apply IH; [by inversion Hc|done]).
    by destruct (Hc' d'').
Qed.

Lemma condition_loop_chain chain els s : is_chain chain ->
  loop_ (chain_items chain els) variables None s = first_true chain els s.
Proof.
  intros [Hne Hc]. revert s Hc. induction chain as [|[c d] chain IH]; intros s Hc; [done|clear Hne].
  cbn [first_true tl] in *. rewrite chain_items_cons. destruct chain as [|[c' d'] chain].
  - destruct els as [e|]; cbn [chain_items flat_map app condition_loop].
    + rewrite EvalSingleCondition_else, !M_bind_at.
      by destruct (EvalSingleCondition _ _ _ _ _ _ _ s) as [[[] ?]| |].
    + rewrite !M_bind_at. by destruct (EvalSingleCondition _ _ _ _ _ _ _ s) as [[[] ?]| |].
  - pose proof Hc as [Hc' Hc'']%list.Forall_cons. cbn [fst] in Hc'.
    assert (Hstep : loop_ (c :: HDict d :: chain_items ((c', d') :: chain) els) variables None s =
      (r ← EvalSingleCondition eval_condition build_file expand c d None variables;
       loop_ (chain_items ((c', d') :: chain) els) variables r) s).
    { rewrite chain_items_cons. cbn [condition_loop]. destruct c' as [| | |d'']; [done..|by destruct (Hc' d'')]. }
    rewrite Hstep, !M_bind_at. destruct (EvalSingleCondition _ _ _ _ _ _ _ s) as [[[r|] s1]| |]; [|  |done..].
    + apply condition_loop_found; [by cbn|done].
    + by apply IH.
Qed.

(** Lists of another shape are refused, if the expansion ends at all. *)
Lemma condition_loop_shape l r0 s r s' : l <> [] ->
  loop_ l variables r0 s = Ok (r, s') -> exists chain els, is_chain chain /\ l = chain_items chain els.
Proof.
  assert (H : forall n l, length l <= n -> l <> [] -> forall r0 s, loop_ l variables r0 s = Ok (r, s') ->
    exists chain els, is_chain chain /\ l = chain_items chain els);
    [|intros Hl; by eapply (H (length l))].
  clear. induction n as [|n IH]; intros [|c [|d rest]] Hn Hne r0 s; cbn [length] in Hn; try done; [lia|].
  assert (Hraise : forall (f : string -> exn),
    (text ← str_of c; raise (f text) : M (option nat)) s <> Ok (r, s')).
  { intros f. rewrite M_bind_at. by destruct (str_of c s) as [[? ?]| |]. }
  destruct d as [| | |d]; cbn [condition_loop]; try (intros H; by apply Hraise in H).
  assert (Hrest : forall rest' : M (option nat), rest <> [] -> (forall d l, rest <> HDict d :: l) ->
    (r1 ← rest'; loop_ rest variables r1) s = Ok (r, s') ->
    exists chain els, is_chain chain /\ c :: HDict d :: rest = chain_items chain els).
  { intros m Hr Hd. rewrite M_bind_at. destruct (m s) as [[r1 s1]| |]; [|done..]. intros H.
    destruct (IH rest ltac:(lia) Hr _ _ H) as (chain & els & [Hc1 Hc2] & ->).
    exists ((c, d) :: chain), els. split; [|done]. split; [done|]. cbn [tl].
    destruct chain as [|[c' d'] chain]; [done|]. apply list.Forall_cons. split; [|done].
    intros d'' Heq. cbn [fst] in Heq. subst c'. by apply (Hd d'' (HDict d' :: chain_items chain els)). }
  destruct rest as [|d' rest].
  - intros _. exists [(c, d)], None. done.
  - destruct d' as [| | |d']; try (apply Hrest; done).
    destruct rest; [|intros H; by apply Hraise in H]. intros _. exists [(c, d)], (Some d'). done.
Qed.
End Chains.

(** ** Texts with references to variables *)
Inductive seg := Lit (s : string) | Ref (x : string).

Section Segments.
Context (phase : PHASE).
Abbreviation symbol := (expansion_symbol phase).

Definition show_seg (g : seg) : string :=
  match g with Lit s => s | Ref x => String symbol ("(" +:+ x +:+ ")") end.
Definition show (l : list seg) : string := join "" (map show_seg l).

(** A name that is read back as it stands *)
Definition name_ok (x : string) : Prop :=
  x <> "" /\ str_forallb (fun c => no_bracket c && negb (isspace c) && negb (Ascii.eqb symbol c)) x = true /\
  IsStrCanonicalInt x = false.
Definition seg_ok (g : seg) : Prop :=
  match g with Lit s => str_mem symbol s = false | Ref x => name_ok x end.

(** What the variables are defined as *)
Context (env : string -> option (list seg)).
(** The text without references, if no chain of references is longer than [n] *)
Fixpoint full (n : nat) (l : list seg) : option string :=
  match n with
  | 0 => (fix go l := match l with
          | [] => Some ""
          | Lit s :: l => t ← go l; Some (s +:+ t)
          | Ref _ :: _ => None end) l
  | S n => (fix go l := match l with
          | [] => Some ""
          | Lit s :: l => t ← go l; Some (s +:+ t)
          | Ref x :: l => g ← env x; v ← full n g; t ← go l; Some (v +:+ t) end) l
  end.
(** Each reference replaced once *)
Definition once (l : list seg) : list seg :=
  flat_map (fun g => match g with Lit s => [Lit s] | Ref x => default [] (env x) end) l.
Definition refs (l : list seg) : list string :=
  flat_map (fun g => match g with Lit _ => [] | Ref x => [x] end) l.

Lemma show_cons g l : show (g :: l) = show_seg g +:+ show l.
Proof. unfold show, join. cbn [map String.concat]. destruct (map show_seg l); [by rewrite append_nil_r|done]. Qed.
Lemma show_app l k : show (l ++ k) = show l +:+ show k.
Proof.
  induction l as [|g l IH]; [done|]. cbn [app]. by rewrite !show_cons, IH, append_assoc.
Qed.

Lemma full_nil n : full n [] = Some "".
Proof. by destruct n. Qed.
Lemma full_lit n s l : full n (Lit s :: l) = (t ← full n l; Some (s +:+ t)).
Proof. by destruct n. Qed.
Lemma full_ref n x l : full (S n) (Ref x :: l) = (g ← env x; v ← full n g; t ← full (S n) l; Some (v +:+ t)).
Proof. done. Qed.

Lemma full_app n l k : full n (l ++ k) = (t ← full n l; u ← full n k; Some (t +:+ u)).
Proof.
  induction l as [|[s|x] l IH]; cbn [app].
  - rewrite full_nil. cbn [mbind option_bind]. by destruct (full n k).
  - rewrite !full_lit, IH. destruct (full n l); cbn [mbind option_bind]; [|done]. destruct (full n k); cbn [mbind option_bind]; [|done].
    by rewrite append_assoc.
  - destruct n as [|n]; [done|]. rewrite !full_ref, IH. destruct (env x) as [g|]; cbn [mbind option_bind]; [|done].
    destruct (full n g); cbn [mbind option_bind]; [|done]. destruct (full (S n) l); cbn [mbind option_bind]; [|done].
    destruct (full (S n) k); cbn [mbind option_bind]; [|done]. by rewrite append_assoc.
Qed.

Lemma full_mono n l t : full n l = Some t -> full (S n) l = Some t.
Proof.
  revert l t. induction n as [|n IHn]; intros l; induction l as [|[s|x] l IH]; intros t; try done.
  - rewrite !full_lit. destruct (full 0 l) as [u|]; [|done]. by rewrite (IH u).
  - rewrite !full_lit. destruct (full (S n) l) as [u|]; [|done]. by rewrite (IH u).
  - rewrite !full_ref. destruct (env x) as [g|]; [|done]. cbn [mbind option_bind].
    destruct (full n g) as [v|] eqn:E; [|done]. rewrite (IHn _ _ E). cbn [mbind option_bind].
    destruct (full (S n) l) as [u|]; [|done]. by rewrite (IH u).
Qed.

(** Replacing once takes one level off. *)
Lemma full_once n l t : full (S n) l = Some t -> full n (once l) = Some t.
Proof.
  revert t. induction l as [|[s|x] l IH]; intros t; [by destruct n| |].
  - rewrite full_lit. cbn [once flat_map]. change ([Lit s] ++ ?k)%list with (Lit s :: k).
    rewrite full_lit. destruct (full (S n) l) as [u|]; [|done]. fold (once l). by rewrite (IH u).
  - rewrite full_ref. cbn [once flat_map]. fold (once l). rewrite full_app.
    destruct (env x) as [g|]; [|done]. change (default [] (Some g)) with g. cbn [mbind option_bind].
    destruct (full n g) as [v|]; [|done]. cbn [mbind option_bind].
    destruct (full (S n) l) as [u|]; [|done]. by rewrite (IH u).
Qed.
Lemma full_lits n l t : refs l = [] -> full n l = Some t -> show l = t.
Proof.
  revert t. induction l as [|[s|x] l IH]; intros t Hr.
  - by destruct n; intros [= <-].
  - rewrite full_lit, show_cons. destruct (full n l) as [u|]; [|done]. intros [= <-]. by rewrite (IH u).
  - done.
Qed.

(** *** The names in a text *)
Fixpoint ref_names (open : option string) (s : string) : list string :=
  match s with
  | "" => []
  | String c s =>
      match open with
      | None =>
          if Ascii.eqb symbol c
          then match s with String _ s => ref_names (Some "") s | "" => [] end
          else ref_names None s
      | Some x => if Ascii.eqb c ")" then x :: ref_names None s
                  else ref_names (Some (x +:+ String c "")) s
      end
  end.

Lemma ref_names_lit s r : str_mem symbol s = false -> ref_names None (s +:+ r) = ref_names None r.
Proof.
  induction s as [|c s IH]; [done|]. rewrite str_mem_cons, append_cons. cbn [ref_names].
  intros [-> Hs]%orb_false_iff. by apply IH.
Qed.
Lemma ref_names_open x acc r : str_forallb no_bracket x = true ->
  ref_names (Some acc) (x +:+ String ")" r) = (acc +:+ x) :: ref_names None r.
Proof.
  revert acc; induction x as [|c x IH]; intros acc; [by rewrite append_nil_r|].
  cbn [str_forallb]. intros [Hc Hx]%andb_true_iff. rewrite append_cons. cbn [ref_names].
  replace (Ascii.eqb c ")") with false.
  - rewrite IH by done. by rewrite append_assoc.
  - symmetry. apply Ascii.eqb_neq. by intros ->.
Qed.
Lemma name_chars x : name_ok x -> str_forallb no_bracket x = true /\
  str_forallb (fun c => negb (isspace c)) x = true /\ str_mem symbol x = false.
Proof.
  intros (_ & H & _). induction x as [|c x IH]; [done|]. cbn [str_forallb] in *. rewrite str_mem_cons.
  apply andb_true_iff in H as [[[-> ->]%andb_true_iff Hs]%andb_true_iff Hx].
  apply negb_true_iff in Hs as ->. by apply IH in Hx as (-> & -> & ->).
Qed.
Lemma ref_names_show l : Forall seg_ok l -> ref_names None (show l) = refs l.
Proof.
  induction 1 as [|[s|x] l Hg Hl IH]; [done|..]; rewrite show_cons; cbn [show_seg refs flat_map].
  - by rewrite ref_names_lit.
  - rewrite append_cons. cbn [ref_names]. rewrite Ascii.eqb_refl.
    change ("(" +:+ x +:+ ")") with (String "(" (x +:+ ")")). rewrite append_cons, append_assoc.
    apply name_chars in Hg as [Hx _]. change (")" +:+ show l) with (String ")" (show l)).
    rewrite ref_names_open by done. cbn [append]. by rewrite IH.
Qed.

Lemma full_resolves n l : (exists t, full n l = Some t) <->
  Forall (fun x => exists m g v, n = S m /\ env x = Some g /\ full m g = Some v) (refs l).
Proof.
  induction l as [|[s|x] l IH]; cbn [refs flat_map app].
  - rewrite full_nil. split; [constructor|by eexists].
  - fold (refs l). rewrite <- IH, full_lit. split; intros [t Ht].
    + destruct (full n l); [by eexists|done].
    + rewrite Ht. by eexists.
  - fold (refs l). rewrite list.Forall_cons, <- IH. destruct n as [|m]; [split; [by intros [? ?]|]|].
    { by intros [(? & ? & ? & ? & _) _]. }
    rewrite full_ref. split.
    + intros [t Ht]. destruct (env x) as [g|]; [|done]. cbn [mbind option_bind] in Ht.
      destruct (full m g) as [v|] eqn:E; [|done]. cbn [mbind option_bind] in Ht.
      destruct (full (S m) l); [|done]. split; [by exists m, g, v|by eexists].
    + intros [(m' & g & v & [= <-] & -> & Hv) [t ->]]. cbn [mbind option_bind]. rewrite Hv. by eexists.
Qed.

(** A text without a cycle is not its own expansion. *)
Lemma once_changes n l t : full n l = Some t -> refs (once l) = refs l -> refs l = [].
Proof.
  revert l t. induction n as [|n IH]; intros l t Ht Hr.
  - assert (H : exists t, full 0 l = Some t) by by eexists. apply full_resolves in H.
    destruct (refs l) as [|x k]; [done|]. by apply list.Forall_cons in H as [(? & ? & ? & ? & _) _].
  - apply full_once in Ht. assert (H : exists t, full n (once l) = Some t) by by eexists.
    apply full_resolves in H. rewrite Hr in H. apply full_resolves in H as [u Hu]. by eapply IH.
Qed.

(** *** Their places *)
Definition plain_reference (i : nat) : reference := Reference i false false false "" false.
Fixpoint references_at (i : nat) (l : list seg) : list reference :=
  match l with
  | [] => []
  | Lit s :: l => references_at (i + String.length s) l
  | Ref x :: l => plain_reference i :: references_at (i + (String.length x + 3)) l
  end.

Lemma find_lit s i r : str_mem symbol s = false ->
  find_references symbol i 0 (s +:+ r) = find_references symbol (i + String.length s) 0 r.
Proof.
  revert i; induction s as [|c s IH]; intros i; [by rewrite Nat.add_0_r|].
  rewrite str_mem_cons, append_cons. intros [Hc Hs]%orb_false_iff. cbn [find_references].
  unfold match_reference, optional. rewrite Hc, IH by done. f_equal. simpl. lia.
Qed.
Lemma find_skip a i r :
  find_references symbol i (String.length a) (a +:+ r) = find_references symbol (i + String.length a) 0 r.
Proof.
  revert i; induction a as [|c a IH]; intros i; [by rewrite Nat.add_0_r|].
  rewrite append_cons. cbn [String.length find_references]. rewrite IH. f_equal. lia.
Qed.
Lemma close_paren_name x r : str_forallb no_bracket x = true ->
  str_forallb (fun c => negb (isspace c)) x = true ->
  close_paren (x +:+ String ")" r) = Some (String.length x).
Proof.
  induction x as [|c x IH]; [done|]. cbn [str_forallb].
  intros [Hc Hx]%andb_true_iff [Hc' Hx']%andb_true_iff. rewrite append_cons. cbn [close_paren].
  replace (Ascii.eqb c ")") with false by (symmetry; apply Ascii.eqb_neq; by intros ->).
  replace (Ascii.eqb c newline) with false by (symmetry; apply Ascii.eqb_neq; by intros ->).
  by rewrite IH.
Qed.
Lemma match_name x i r : name_ok x ->
  match_reference symbol i (String symbol (String "(" (x +:+ String ")" r))) =
  Some (plain_reference i, String.length x + 3).
Proof.
  intros Hx. destruct (name_chars x Hx) as (Hb & Hs & _). destruct Hx as [Hne _].
  destruct x as [|c x]; [done|]. pose proof Hb as [Hc _]%andb_true_iff. pose proof Hs as [Hc' _]%andb_true_iff.
  unfold match_reference, optional at 1. rewrite Ascii.eqb_refl.
  change (optional "|" (String "(" ?s)) with (false, String "(" s). cbv beta iota.
  change (optional "!" (String "(" ?s)) with (false, String "(" s). cbv beta iota.
  change (optional "@" (String "(" ?s)) with (false, String "(" s). cbv beta iota.
  change (span command_char (String "(" ?s)) with ("", String "(" s). cbv beta iota.
  change (optional "(" (String "(" ?s)) with (true, s). cbv beta iota.
  rewrite append_cons. cbn [lstrip_of]. apply negb_true_iff in Hc'. rewrite Hc'.
  assert (Hl : Ascii.eqb "[" c = false) by (apply Ascii.eqb_neq; by intros <-).
  unfold optional. rewrite Hl. rewrite <- append_cons, close_paren_name by done.
  rewrite Nat.ltb_irrefl. f_equal. f_equal. cbn [String.length]. lia.
Qed.
Lemma find_show l i : Forall seg_ok l -> find_references symbol i 0 (show l) = references_at i l.
Proof.
  intros H. revert i. induction H as [|[s|x] l Hg Hl IH]; intros i; [done|..];
    rewrite show_cons; cbn [show_seg references_at].
  - rewrite find_lit by done. apply IH.
  - rewrite append_cons. change ("(" +:+ x +:+ ")") with (String "(" (x +:+ ")")).
    rewrite append_cons, append_assoc. change (")" +:+ show l) with (String ")" (show l)).
    cbn [find_references]. rewrite match_name by done. f_equal.
    replace (String.length x + 3 - 1) with (String.length (String "(" (x +:+ ")"))) by
      (cbn [String.length]; rewrite length_append; simpl; lia).
    pose proof (find_skip (String "(" (x +:+ ")")) (S i) (show l)) as Hskip.
    rewrite append_cons, append_assoc in Hskip. change (")" +:+ show l) with (String ")" (show l)) in Hskip.
    etransitivity; [exact Hskip|]. rewrite <- IH. f_equal. cbn [String.length]. rewrite length_append. simpl. lia.
Qed.
Lemma references_refs i l : references_at i l = [] <-> refs l = [].
Proof. revert i; induction l as [|[s|x] l IH]; intros i; [done|apply IH|done]. Qed.

Lemma enclosing_name x r : str_forallb no_bracket x = true ->
  FindEnclosingBracketGroup (String symbol (String "(" (x +:+ String ")" r))) = Some (1, String.length x + 3).
Proof.
  intros Hx. unfold FindEnclosingBracketGroup.
  assert (Hsym : str_forallb no_bracket (String symbol "") = true) by by destruct phase.
  change (String symbol ?s) with (String symbol "" +:+ s). rewrite bracket_loop_plain by done.
  cbn [bracket_loop]. change (LBRACKETS "(") with true. cbv iota.
  rewrite bracket_loop_balanced.
  - cbn [bracket_loop]. change (LBRACKETS ")") with false. change (open_of ")") with (Some "("%char).
    cbn [Ascii.eqb negb]. simpl. f_equal. f_equal. lia.
  - induction x as [|c x IH]; [constructor|]. apply andb_true_iff in Hx as [Hc Hx].
    unfold no_bracket in Hc. apply andb_true_iff in Hc as [Hc Ho]. apply negb_true_iff in Hc.
    apply bal_char; [done|by destruct (open_of c)|by apply IH].
Qed.
End Segments.

Section Substitution.
Context (cwd : string) (path_sections : gset string) (search : string -> string -> res bool).
Context (windows : bool) (generator_filelist_paths : option filelist_paths).
Context (popen : nat -> command -> option string -> process_result).
Context (do_main : nat -> list string -> option string -> res string).
Context (eval_list : string -> res val) (eval_condition : string -> dict -> res bool).
Context (phase : PHASE) (build_file : string) (variables : hdict) (env : string -> option (list seg)).
Abbreviation symbol := (expansion_symbol phase).

(** A variable whose value is a text or an integer *)
Definition value_text (v : hval) (t : string) : Prop :=
  v = HStr t \/ exists n, v = HInt n /\ t = string_of_int n.
Definition defines : Prop := forall x g, env x = Some g ->
  Forall (seg_ok phase) g /\ exists v, hget x variables = Some v /\ value_text v (show phase g).

Lemma py_slice_nat i j w : i <= j -> j <= String.length w ->
  py_slice (Z.of_nat i) (Z.of_nat j) w = str_slice i j w.
Proof.
  intros Hij Hj. unfold py_slice, slice_bound.
  replace (Z.of_nat i <? 0)%Z with false by (symmetry; apply Z.ltb_ge; lia).
  replace (Z.of_nat j <? 0)%Z with false by (symmetry; apply Z.ltb_ge; lia).
  f_equal; lia.
Qed.
Lemma str_slice_app a b c : str_slice (String.length a) (String.length a + String.length b) (a +:+ b +:+ c) = b.
Proof. unfold str_slice. rewrite str_drop_app. replace (_ - _) with (String.length b) by lia. apply str_take_app. Qed.
Lemma py_slice_app a b c i j : i = Z.of_nat (String.length a) ->
  j = (i + Z.of_nat (String.length b))%Z -> py_slice i j (a +:+ b +:+ c) = b.
Proof.
  intros -> ->. rewrite <- Nat2Z.inj_add, py_slice_nat, str_slice_app; [done|lia|].
  rewrite !length_append. lia.
Qed.

Lemma str_of_value v t s : value_text v t -> str_of v s = Ok (t, s).
Proof. by intros [->|(n & -> & ->)]. Qed.

Lemma expand_plain expand process_list p x z v t s :
  name_ok phase x -> hget x variables = Some v -> value_text v t ->
  expand (HStr x) variables s = Ok (HStr x, s) ->
  expand_reference cwd search windows generator_filelist_paths popen do_main eval_list build_file expand
    process_list variables (p +:+ show_seg phase (Ref x) +:+ z) (plain_reference (String.length p)) s
  = Ok (OStr (p +:+ t +:+ z), s).
Proof.
  intros Hx Hv Ht He. destruct (name_chars phase x Hx) as (Hb & Hs & _).
  set (whole := p +:+ show_seg phase (Ref x) +:+ z).
  assert (Hw : whole = p +:+ String symbol (String "(" (x +:+ String ")" z))).
  { unfold whole. cbn [show_seg]. rewrite append_cons. f_equal. f_equal.
    change ("(" +:+ x +:+ ")") with (String "(" (x +:+ ")")). by rewrite append_cons, append_assoc. }
  unfold expand_reference. cbn [plain_reference r_start r_list r_file r_run andb].
  assert (HE : FindEnclosingBracketGroup (str_drop (String.length p) whole) = Some (1, String.length x + 3)).
  { rewrite Hw, str_drop_app. by apply enclosing_name. }
  rewrite HE. cbv beta iota zeta.
  rewrite M_bind_at. unfold reference_contents. cbn [plain_reference r_file].
  replace (py_slice _ _ whole) with x.
  2:{ symmetry. rewrite Hw.
      change (String symbol (String "(" ?y)) with (String symbol (String "(" "") +:+ y).
      rewrite <- append_assoc. change (x +:+ String ")" z) with (x +:+ ")" +:+ z).
      apply py_slice_app; rewrite ?length_append; cbn [String.length]; lia. }
  rewrite M_bind_at. cbn [mret M_ret]. rewrite M_bind_at, He. rewrite strip_spaceless by done.
  cbn [mret M_ret]. rewrite M_bind_at. unfold variable_value. rewrite Hv. cbn [mret M_ret].
  rewrite M_bind_at. replace (check_value process_list x v variables s) with (Ok (tt, s)).
  2:{ by destruct Ht as [->|(n & -> & _)]. }
  unfold put_replacement. rewrite M_bind_at.
  replace (match v with HList l => _ | _ => str_of v end s) with (Ok (t, s)).
  2:{ by destruct Ht as [->|(n & -> & ->)]. }
  assert (Hleft : py_slice 0 (Z.of_nat (String.length p)) whole = p).
  { unfold whole. change (p +:+ ?y) with ("" +:+ p +:+ y). apply py_slice_app; cbn [String.length]; lia. }
  assert (Hright : forall i, i = (Z.of_nat (String.length p) + Z.of_nat (String.length x + 3))%Z ->
    py_slice i (Z.of_nat (String.length whole)) whole = z).
  { intros i ->. pose proof (py_slice_app (p +:+ show_seg phase (Ref x)) z "") as H.
    rewrite append_nil_r, append_assoc in H. fold whole in H.
    apply H; unfold whole; rewrite !length_append; cbn [show_seg String.length];
      rewrite !length_append; simpl; lia. }
  by rewrite Hleft, Hright.
Qed.

Lemma expand_references_app expand process_list input_str l k s :
  expand_references cwd search windows generator_filelist_paths popen do_main eval_list build_file expand
    process_list variables input_str (l ++ k) s =
  (o ← expand_references cwd search windows generator_filelist_paths popen do_main eval_list build_file
         expand process_list variables input_str l;
   match o with
   | OStr w => expand_references cwd search windows generator_filelist_paths popen do_main eval_list
                 build_file expand process_list variables w k
   | OList _ => mret o
   end) s.
Proof.
  revert input_str s. induction l as [|r l IH]; intros w s; [done|]. cbn [app expand_references].
  rewrite !M_bind_at. destruct (expand_reference _ _ _ _ _ _ _ _ _ _ _ _ _ s) as [[[w'|] s']| |]; [|done..].
  by rewrite IH, M_bind_at.
Qed.

(** The references of a text, replaced from the right *)
Lemma expand_references_once expand process_list l p z s :
  defines -> Forall (seg_ok phase) l -> Forall (fun x => is_Some (env x)) (refs l) ->
  (forall x, name_ok phase x -> expand (HStr x) variables s = Ok (HStr x, s)) ->
  expand_references cwd search windows generator_filelist_paths popen do_main eval_list build_file expand
    process_list variables (p +:+ show phase l +:+ z) (rev (references_at (String.length p) l)) s
  = Ok (OStr (p +:+ show phase (once env l) +:+ z), s).
Proof.
  intros Hd Hl Hr He. revert p z. induction l as [|[t|x] l IH]; intros p z; [done|..];
    apply list.Forall_cons in Hl as [Hg Hl]; cbn [refs flat_map references_at once] in *;
    fold (refs l) in *; fold (once env l).
  - rewrite show_cons. change ([Lit t] ++ ?k)%list with (Lit t :: k). rewrite show_cons. cbn [show_seg].
    rewrite !append_assoc, <- (append_assoc p). rewrite <- length_append, IH by done.
    by rewrite !append_assoc.
  - apply list.Forall_cons in Hr as [[g Hx] Hr]. destruct (Hd x g Hx) as [_ (v & Hv & Ht)].
    cbn [rev]. rewrite expand_references_app, M_bind_at, show_cons.
    assert (Hlen : String.length p + (String.length x + 3) = String.length (p +:+ show_seg phase (Ref x))).
    { rewrite length_append. cbn [show_seg String.length]. rewrite !length_append. simpl. lia. }
    rewrite Hlen, append_assoc, <- (append_assoc p), IH by done. cbn [expand_references].
    rewrite append_assoc, M_bind_at, (expand_plain _ _ p x _ v (show phase g)) by auto.
    rewrite Hx, show_app. cbn [mret M_ret]. by rewrite !append_assoc.
Qed.

Lemma show_symbol l : Forall (seg_ok phase) l ->
  str_mem symbol (show phase l) = negb (bool_decide (refs l = [])).
Proof.
  induction 1 as [|[t|x] l Hg Hl IH]; [done|..]; rewrite show_cons, str_mem_app, IH; cbn [show_seg seg_ok] in *.
  - by rewrite Hg.
  - by rewrite str_mem_cons, Ascii.eqb_refl.
Qed.
Lemma digits_symbol w : str_forallb isdigit w = true -> str_mem symbol w = false.
Proof.
  induction w as [|c w IH]; [done|]. cbn [str_forallb]. rewrite str_mem_cons.
  intros [Hc Hw]%andb_true_iff. rewrite IH by done. rewrite orb_false_r. apply Ascii.eqb_neq.
  intros <-. by destruct phase.
Qed.
Lemma canonical_symbol w : IsStrCanonicalInt w = true -> str_mem symbol w = false.
Proof.
  unfold IsStrCanonicalInt. destruct (String.eqb_spec w ""); [done|].
  destruct (String.eqb_spec w "0") as [->|_]; [by destruct phase|].
  assert (Hw : forall u, match u with "" => false | String c _ => if in_range 49 57 c then str_forallb isdigit u else false end = true ->
    str_mem symbol u = false).
  { intros [|c u]; [done|]. destruct (in_range 49 57 c); [|done]. apply digits_symbol. }
  destruct w as [|c w]; [done|]. destruct (Ascii.eqb_spec c "-") as [->|Hc].
  - intros H%Hw. rewrite str_mem_cons, H. by destruct phase.
  - intros H. apply Hw. revert H. by destruct c as [[] [] [] [] [] [] [] []].
Qed.
Lemma canonical_idem v : canonical (canonical v) = canonical v.
Proof. destruct v as [|w| |]; try done. cbn. destruct (IsStrCanonicalInt w) eqn:E; [done|]. cbn. by rewrite E. Qed.
Lemma once_ok l : defines -> Forall (seg_ok phase) l -> Forall (seg_ok phase) (once env l).
Proof.
  intros Hd. induction 1 as [|[t|x] l Hg Hl IH]; cbn [once flat_map]; [done|..]; fold (once env l).
  - by apply list.Forall_cons.
  - apply list.Forall_app. split; [|done]. destruct (env x) as [g|] eqn:E; [by apply (Hd x g)|done].
Qed.

Abbreviation expand_ fuel := (ExpandVariables cwd path_sections search windows generator_filelist_paths popen
  do_main eval_list eval_condition fuel phase build_file).

Abbreviation process_list_ fuel := (ProcessVariablesAndConditionsInList cwd path_sections search windows
  generator_filelist_paths popen do_main eval_list eval_condition fuel phase build_file).

Lemma ExpandVariables_S fuel input vs : expand_ (S fuel) input vs =
  expand_body cwd search windows generator_filelist_paths popen do_main eval_list phase build_file
    (expand_ fuel) (process_list_ fuel) input vs.
Proof. done. Qed.

Lemma expand_name fuel x s : name_ok phase x -> expand_ (S fuel) (HStr x) variables s = Ok (HStr x, s).
Proof.
  intros Hx. destruct (name_chars phase x Hx) as (_ & _ & Hs). destruct Hx as (_ & _ & Hi).
  rewrite ExpandVariables_S. unfold expand_body. rewrite M_bind_at. cbn [str_of mret M_ret]. by rewrite Hi, Hs.
Qed.

(** One turn: every reference is replaced once, and the result is expanded. *)
Lemma expand_step fuel l s : defines -> Forall (seg_ok phase) l ->
  Forall (fun x => is_Some (env x)) (refs l) -> refs l <> [] -> refs (once env l) <> refs l ->
  expand_ (S (S fuel)) (HStr (show phase l)) variables s =
  (v ← expand_ (S fuel) (HStr (show phase (once env l))) variables;
   match v with
   | HList k => items ← read_list k; _ ← write_list k (map canonical items); mret v
   | _ => mret (canonical v)
   end) s.
Proof.
  intros Hd Hl Hres Hr Hne. rewrite ExpandVariables_S. unfold expand_body. rewrite M_bind_at.
  cbn [str_of mret M_ret]. rewrite (show_symbol l Hl), bool_decide_false by done. cbn [negb].
  destruct (IsStrCanonicalInt (show phase l)) eqn:Hi.
  { apply canonical_symbol in Hi. rewrite show_symbol in Hi by done. by rewrite bool_decide_false in Hi. }
  rewrite find_show by done. destruct (references_at 0 l) as [|r rs] eqn:Hrefs.
  { by apply references_refs in Hrefs. }
  rewrite <- Hrefs. rewrite M_bind_at.
  pose proof (expand_references_once (expand_ (S fuel)) (process_list_ (S fuel)) l "" "" s
                Hd Hl Hres (fun x Hx => expand_name fuel x s Hx)) as Honce.
  change ("" +:+ ?w) with w in Honce. rewrite !append_nil_r in Honce. cbn [String.length] in Honce.
  rewrite Honce. unfold expand_again. rewrite decide_False; [done|]. intros [= Heq]. apply Hne.
  rewrite <- !(ref_names_show phase) by (try apply once_ok; done). by rewrite Heq.
Qed.

Lemma expand_full n fuel l t s : defines -> Forall (seg_ok phase) l -> full env n l = Some t -> n < fuel ->
  expand_ fuel (HStr (show phase l)) variables s = Ok (canonical (HStr t), s).
Proof.
  intros Hd. revert fuel l. induction n as [|n IH]; intros [|fuel] l Hl Ht Hf; try lia;
    destruct (decide (refs l = [])) as [Hr|Hr].
  1,3: rewrite ExpandVariables_S; unfold expand_body; rewrite M_bind_at; cbn [str_of mret M_ret];
    rewrite (show_symbol l Hl), bool_decide_true by done; cbn [negb];
    rewrite (full_lits _ _ _ _ _ Hr Ht); cbn [canonical]; by destruct (IsStrCanonicalInt t).
  - assert (H : exists t, full env 0 l = Some t) by by eexists. apply full_resolves in H.
    destruct (refs l); [done|]. by apply list.Forall_cons in H as [(? & ? & ? & ? & _) _].
  - destruct fuel as [|fuel]; [lia|]. rewrite expand_step; [|done..| |done|].
    + rewrite M_bind_at, (IH (S fuel)); [|by apply once_ok|by apply full_once|lia].
      rewrite <- canonical_idem at 2. destruct (canonical (HStr t)) eqn:E; [done..| |];
        cbn in E; by destruct (IsStrCanonicalInt t).
    + assert (H : exists t, full env (S n) l = Some t) by by eexists. apply full_resolves in H.
      eapply list.Forall_impl; [exact H|]. intros x (m & g & v & _ & Hx & _). by exists g.
    + intros Heq. apply Hr. by eapply once_changes.
Qed.

(** Two variables that are each other's value: the expansion does not end. *)
Lemma circular_variables fuel s : defines ->
  env "a" = Some [Ref "b"] -> env "b" = Some [Ref "a"] ->
  expand_ fuel (HStr (show phase [Ref "a"])) variables s = NoFuel /\
  expand_ fuel (HStr (show phase [Ref "b"])) variables s = NoFuel.
Proof.
  intros Hd Ha Hb. destruct (Hd _ _ Ha) as [Hokb _]. destruct (Hd _ _ Hb) as [Hoka _].
  induction fuel as [|[|fuel] [IH1 IH2]]; [done|by destruct phase|].
  assert (Hstep : forall x y, env x = Some [Ref y] -> x <> y -> Forall (seg_ok phase) [Ref x] ->
    expand_ (S fuel) (HStr (show phase [Ref y])) variables s = NoFuel ->
    expand_ (S (S fuel)) (HStr (show phase [Ref x])) variables s = NoFuel).
  { intros x y Hx Hxy Hok HN. rewrite expand_step; [|done|done| |done|].
    - cbn [once flat_map]. rewrite Hx. change (default [] (Some [Ref y]) ++ [])%list with [Ref y].
      by rewrite M_bind_at, HN.
    - apply list.Forall_singleton. by eexists.
    - cbn [once flat_map refs]. rewrite Hx. cbn. by intros [= ->]. }
  split; [apply (Hstep "a" "b")|apply (Hstep "b" "a")]; done.
Qed.
End Substitution.

(** C21. A command is run at most once for its text and directory, whatever it
    answers: what is in the cache stays there, and what is run was not. *)
Theorem commands_run_once cwd path_sections search windows generator_filelist_paths popen do_main
    eval_list eval_condition fuel phase build_file the_dict variables key s s' :
  ProcessVariablesAndConditionsInDict cwd path_sections search windows generator_filelist_paths
    popen do_main eval_list eval_condition fuel phase build_file the_dict variables key s = Ok (tt, s') ->
  run_once s ->
  run_once s' /\ cached_command_results s ⊆ cached_command_results s' /\
  exists new, executed s' = (new ++ executed s)%list /\
    NoDup new /\ forall key, key ∈ new -> cached_command_results s !! key = None.
Proof.
  intros H Hs. edestruct grow_all as (_ & _ & Hd). apply Hd in H as (Hc & [new Hn] & Ho).
  destruct (Ho Hs) as [Hnd Hin]. split_and!; [by split|done|]. exists new.
  rewrite Hn in Hnd. apply list.NoDup_app in Hnd as (Hnew & Hdisj & _).
  split_and!; [done|done|]. intros k Hk. apply eq_None_not_Some. intros Hcache.
  apply (Hdisj k Hk). by apply Hs.
Qed.

Lemma commands_run_once_witness :
  let popen (n : nat) (_ : command) (_ : option string) :=
    {| p_stdout := "out" +:+ string_of_int (Z.of_nat n) +:+ nl; p_stderr := ""; returncode := 0 |} in
  let run := ProcessVariablesAndConditionsInDict "/" ∅ (fun _ _ => Ok true) false None popen
               (fun _ _ _ => Ok "") (fun _ => Ok (VInt 0)) (fun _ _ => Ok true) 9 PHASE_EARLY "a/b.gyp" in
  let s := State ∅ {[0 := [("x", HStr "<!(date)"); ("y", HStr "-<!(date)-<!(ls)")]]} 1 ∅ [] [] in
  exists s', run 0 [] None s = Ok (tt, s') /\
    dict_at 0 s' = [("x", HStr "out0"); ("y", HStr "-out0-out1")] /\
    executed s' = [("ls", Some "a"); ("date", Some "a")] /\ run_once s'.
Proof.
  intros popen run s.
  assert (Hs : run_once s).
  { split; [constructor|]. intros k. split; [by intros ?%not_elem_of_nil|by intros [? ?]]. }
  destruct (run 0 [] None s) as [[[] s']| |] eqn:E; [|by vm_compute in E..].
  exists s'. split_and!; [done|by vm_compute in E; injection E as <-..|].
  exact (proj1 (commands_run_once _ _ _ _ _ _ _ _ _ _ _ _ _ _ _ _ _ E Hs)).
Defined.

(** C22. A [conditions] entry that [EvalCondition] accepts is an [if], [elif], [else]
    chain, and it answers the dictionary of the first condition that holds, or the
    last one's second dictionary, without looking at the conditions behind; a list
    of any other shape, or another value, never gets an answer. *)
Theorem EvalCondition_chain eval_condition key build_file expand variables l s :
  let eval := EvalCondition eval_condition key build_file expand in
  (forall chain els, is_chain chain -> list_at l s = chain_items chain els ->
     eval (HList l) variables s = first_true eval_condition build_file expand variables chain els s) /\
  (forall v r s', eval v variables s = Ok (r, s') -> exists l chain els,
     v = HList l /\ is_chain chain /\ list_at l s = chain_items chain els).
Proof.
  intros eval. split.
  - intros chain els Hc Hl. rewrite <- (condition_loop_chain _ key) by done. unfold eval, EvalCondition.
    rewrite M_bind_at. cbn [read_list]. rewrite Hl. destruct Hc as [Hne _]. destruct chain as [|[c d] chain]; [done|].
    rewrite chain_items_cons. by destruct c.
  - intros v r s'. unfold eval, EvalCondition. destruct v as [| |k|]; [done..| |done].
    rewrite M_bind_at. cbn [read_list]. intros H. exists k.
    assert (Hl : exists r0, condition_loop eval_condition key build_file expand (list_at k s) variables r0 s = Ok (r, s')
      /\ list_at k s <> []).
    { destruct (list_at k s) as [|[] [|]]; try done; by exists None. }
    destruct Hl as (r0 & Hl & Hne). apply condition_loop_shape in Hl as (chain & els & Hc & Hi); [|done].
    by exists chain, els.
Qed.

Lemma EvalCondition_chain_witness :
  let expand := fun (v : hval) (_ : hdict) => (mret v : M hval) in
  let holds := fun c (_ : dict) => Ok (String.eqb c "b") : res bool in
  let chain := [(HStr "a", 1); (HStr "b", 2)] in
  let s := State {[0 := chain_items chain (Some 3)]} ∅ 4 ∅ [] [] in
  EvalCondition holds "conditions" "x.gyp" expand (HList 0) [] s = Ok (Some 2, s).
Proof.
  intros expand holds chain s.
  rewrite (proj1 (EvalCondition_chain holds "conditions" "x.gyp" expand [] 0 s) chain (Some 3));
    [reflexivity| |reflexivity].
  split; [done|]. apply list.Forall_cons. split; [|done]. intros d; discriminate.
Defined.

(** C20. A text that refers to variables with texts and integers for values is
    expanded: each reference is replaced by the expanded value, at any depth, the
    result being an integer if it is written like one; nothing else changes.  The
    budget is the length of the longest chain of references: only a cycle, where
    [full] has no answer, makes the expansion run on. *)
Theorem ExpandVariables_substitutes cwd path_sections search windows generator_filelist_paths popen
    do_main eval_list eval_condition phase build_file variables env n fuel l t s :
  defines phase variables env -> Forall (seg_ok phase) l -> full env n l = Some t -> n < fuel ->
  ExpandVariables cwd path_sections search windows generator_filelist_paths popen do_main eval_list
    eval_condition fuel phase build_file (HStr (show phase l)) variables s
  = Ok (canonical (HStr t), s).
Proof. apply expand_full. Qed.

Lemma ExpandVariables_substitutes_witness :
  let variables := [("os", HStr "lin<(v)"); ("v", HInt 12)] in
  ExpandVariables "/" ∅ (fun _ _ => Ok true) false None
    (fun _ _ _ => {| p_stdout := ""; p_stderr := ""; returncode := 0 |})
    (fun _ _ _ => Ok "") (fun _ => Ok (VInt 0)) (fun _ _ => Ok true) 3 PHASE_EARLY "a/b.gyp"
    (HStr "<(os)/x<(v)") variables empty_state = Ok (HStr "lin12/x12", empty_state).
Proof.
  set (env := fun x => if String.eqb x "os" then Some [Lit "lin"; Ref "v"]
                       else if String.eqb x "v" then Some [Lit "12"] else None).
  assert (Hv : name_ok PHASE_EARLY "v") by (split_and!; [done|by vm_compute..]).
  refine (ExpandVariables_substitutes "/" ∅ _ false None _ _ _ _ PHASE_EARLY "a/b.gyp" _ env 2 3
            [Ref "os"; Lit "/x"; Ref "v"] "lin12/x12" empty_state _ _ eq_refl ltac:(lia)).
  - intros x g. unfold env. destruct (String.eqb_spec x "os") as [->|_].
    + intros [= <-]. split; [|exists (HStr "lin<(v)"); split; [done|by left]].
      apply list.Forall_cons; split; [done|]. apply list.Forall_cons; split; done.
    + destruct (String.eqb_spec x "v") as [->|_]; [|done]. intros [= <-].
      split; [|exists (HInt 12); split; [done|right; by exists 12%Z]]. by apply list.Forall_cons.
  - apply list.Forall_cons; split; [split_and!; [done|by vm_compute..]|].
    apply list.Forall_cons; split; [done|]. by apply list.Forall_cons.
Defined.
