(* ===== verification/BuildFiles.v ===== *)
(** * Loading build files ([gyp/input.py])

    [GetIncludedBuildFiles], [LoadOneBuildFile] with the two functions that merge
    included files, [ProcessToolsetsInDict], and what [LoadTargetBuildFile] does
    besides expanding variables: the [DEPTH] variable, [included_files],
    [target_defaults] and the list of files to load next.

    [data] maps file names to the dictionaries read from them.  These dictionaries
    are changed in place while other files are being loaded, and a file that is
    being loaded can be found in [data] by an include cycle: so a dictionary is
    named by its file and the path to it, and every change is made in [data].
    A merge reads its source before it writes its destination: a file that
    includes itself is outside the model. *)
From S2P Require Import Prelude PyStr PyPath Common Ordered GypValue Merge DepGraph Targets.
From stdpp Require Import options.

(** ** [GetIncludedBuildFiles] *)
Section Included.
(** [aux_data[f]['included']]: [None] if [f] was not loaded. *)
Context (aux_data : gmap string (list string)).

Fixpoint GetIncludedBuildFiles (fuel : nat) (build_file_path : string) (included : list string)
    : res (list string) :=
  match fuel with
  | 0 => NoFuel
  | S fuel =>
      if decide (build_file_path ∈ included) then Ok included
      else
        let included := (included ++ [build_file_path])%list in
        files ← of_option (KeyError build_file_path) (aux_data !! build_file_path);
        foldM (fun included f => GetIncludedBuildFiles fuel f included) included files
  end.
(** A nested call is made with one more loaded file in [included]. *)
Definition included_fuel : nat := S (S (size aux_data)).
End Included.

(** ** Dictionaries by location *)
Inductive place := Key (k : string) | Item (i : nat).

Fixpoint value_at (path : list place) (v : val) : option val :=
  match path with
  | [] => Some v
  | Key k :: path => match v with VDict d => dget k d ≫= value_at path | _ => None end
  | Item i :: path => match v with VList l => l !! i ≫= value_at path | _ => None end
  end.
Fixpoint update_at (path : list place) (f : val -> val) (v : val) : val :=
  match path with
  | [] => f v
  | Key k :: path =>
      match v with
      | VDict d =>
          match dget k d with Some w => VDict (dset k (update_at path f w) d) | None => v end
      | _ => v
      end
  | Item i :: path => match v with VList l => VList (alter (update_at path f) i l) | _ => v end
  end.

Section Loading.
Context (cwd : string) (path_sections : gset string).
(** The file system with Python's parser, and [eval] for unchecked files. *)
Context (contents : string -> option module_ast) (eval : module_ast -> res val) (check : bool).

Record loaded := { data : list (string * val); included : gmap string (list string) }.

Definition dict_at (st : loaded) (file : string) (path : list place) : res dict :=
  match OrderedDict.assoc file (data st) ≫= value_at path with
  | Some (VDict d) => Ok d
  | _ => Err (KeyError file)
  end.
Definition set_dict (file : string) (path : list place) (d : dict) (st : loaded) : loaded := {|
  data := match OrderedDict.assoc file (data st) with
          | Some v => OrderedDict.assoc_set file (update_at path (fun _ => VDict d) v) (data st)
          | None => data st
          end;
  included := included st |}.
Definition add_included (file include : string) (st : loaded) : loaded := {|
  data := data st;
  included := <[file := (default [] (included st !! file) ++ [include])%list]> (included st) |}.

(** The files to merge in, and the dictionary without the list of them. *)
Definition includes_list (subdict_path : string) (includes : list string) (subdict : dict)
    : res (list string * dict) :=
  match dget "includes" subdict with
  | None => Ok (includes, subdict)
  | Some l =>
      l ← iterate l;
      own ← foldM (fun acc include =>
          include ← as_string "startswith" include;
          Ok (acc ++ [normpath (path_join2 (dirname subdict_path) include)])%list) [] l;
      Ok ((includes ++ own)%list, ddel "includes" subdict)
  end.

(** From here on the data are strings, integers and string keys: a file that
    has another constant is outside this model and shows as an error of its own. *)
Definition plain_data (v : pyval) : res val :=
  of_option (RuntimeError "a constant that is neither a string nor an integer") (plain v).

(** [LoadOneBuildFile] answers the dictionary as it is in [data] when it returns.
    [LoadBuildFileIncludesIntoDict] and [..IntoList] are one function on the value
    at a location. *)
Fixpoint LoadOneBuildFile (fuel : nat) (build_file_path : string) (includes : list string)
    (st : loaded) : res (val * loaded) :=
  match fuel with
  | 0 => NoFuel
  | S fuel =>
      match OrderedDict.assoc build_file_path (data st) with
      | Some v => Ok (v, st)
      | None =>
          match contents build_file_path with
          | None => Err (GypError (build_file_path +:+ " not found (cwd: " +:+ cwd +:+ ")"))
          | Some n =>
              build_file_data ← (if check then v ← CheckedEval n; plain_data v else eval n);
              match build_file_data with
              | VDict d =>
                  let st := {| data := OrderedDict.assoc_set build_file_path (VDict d) (data st);
                               included := <[build_file_path := []]> (included st) |} in
                  st ← (if get_truthy "skip_includes" d then Ok st
                        else LoadIncludes fuel build_file_path [] includes st);
                  v ← of_option (KeyError build_file_path)
                        (OrderedDict.assoc build_file_path (data st));
                  Ok (v, st)
              | _ => Err (GypError (build_file_path +:+ " does not evaluate to a dictionary."))
              end
          end
      end
  end
with LoadIncludes (fuel : nat) (file : string) (path : list place) (includes : list string)
    (st : loaded) : res loaded :=
  match fuel with
  | 0 => NoFuel
  | S fuel =>
      match OrderedDict.assoc file (data st) ≫= value_at path with
      | Some (VDict subdict) =>
          '(includes, subdict) ← includes_list file includes subdict;
          let st := set_dict file path subdict st in
          st ← foldM (fun st include =>
              let st := add_included file include st in
              '(fro, st) ← LoadOneBuildFile fuel include [] st;
              fro ← as_dict "iteritems" fro;
              d ← dict_at st file path;
              d ← MergeDicts cwd path_sections file include d fro;
              Ok (set_dict file path d st)) st includes;
          d ← dict_at st file path;
          foldM (fun st (kv : string * val) =>
                   LoadIncludes fuel file (path ++ [Key kv.1])%list [] st) st d
      | Some (VList sublist) =>
          foldM (fun st i => LoadIncludes fuel file (path ++ [Item i])%list [] st) st
            (seq 0 (length sublist))
      | _ => Ok st
      end
  end.
End Loading.

(** ** [ProcessToolsetsInDict] *)
Section Toolsets.
Context (multiple_toolsets : bool).

(** The copies of one target, the target itself last. *)
Definition toolset_targets (target : val) : res (list val) :=
  d ← as_dict "__contains__" target;
  if dmem "toolset" d && negb (dmem "toolsets" d) then Ok [target]
  else
    toolsets ← (if multiple_toolsets
                then match dget "toolsets" d with Some v => iterate v | None => Ok [VStr "target"] end
                else Ok [VStr "target"]);
    let d := ddel "toolsets" d in
    match toolsets with
    | [] => Ok []
    | first :: rest =>
        Ok (map (fun build => deepcopy (VDict (dset "toolset" build d))) rest ++
            [VDict (dset "toolset" first d)])%list
    end.

Fixpoint ProcessToolsetsInDict (fuel : nat) (d : dict) : res dict :=
  match fuel with
  | 0 => NoFuel
  | S fuel =>
      d ← match dget "targets" d with
          | None => Ok d
          | Some target_list =>
              l ← iterate target_list;
              new_target_list ← foldM (fun acc t =>
                  ts ← toolset_targets t; Ok (acc ++ ts)%list) [] l;
              Ok (dset "targets" (VList new_target_list) d)
          end;
      match dget "conditions" d with
      | None => Ok d
      | Some (VList conditions) =>
          conditions ← foldM (fun acc condition =>
              condition ← match condition with
                | VList (c :: branches) =>
                    branches ← foldM (fun acc b =>
                        b ← match b with
                            | VDict b => b ← ProcessToolsetsInDict fuel b; Ok (VDict b)
                            | b => Ok b
                            end;
                        Ok (acc ++ [b])%list) [] branches;
                    Ok (VList (c :: branches))
                | condition => Ok condition
                end;
              Ok (acc ++ [condition])%list) [] conditions;
          Ok (dset "conditions" (VList conditions) d)
      | Some v => _ ← iterate v; Ok d
      end
  end.
End Toolsets.

(** ** The rest of [LoadTargetBuildFile] *)
Section TargetFile.
Context (cwd : string) (path_sections : gset string).

(** [variables['DEPTH']]; an empty [depth] sets nothing. *)
Definition set_depth (depth build_file_path : string) (variables : dict) : dict :=
  if String.eqb depth "" then variables
  else
    let d := RelativePath cwd depth (dirname build_file_path) in
    dset "DEPTH" (VStr (if String.eqb d "" then "." else str_replace "\" "/" d)) variables.

Definition set_included_files (depth build_file_path : string) (aux_data : gmap string (list string))
    (d : dict) : res dict :=
  let d := dset "_DEPTH" (VStr depth) d in
  if dmem "included_files" d then
    Err (GypError (build_file_path +:+ " must not contain included_files key"))
  else
    included ← GetIncludedBuildFiles aux_data (included_fuel aux_data) build_file_path [];
    Ok (dset "included_files"
          (VList (map (fun f => VStr (RelativePath cwd f (dirname build_file_path))) included)) d).

(** Every target is merged into a copy of the defaults. *)
Definition merge_target_defaults (build_file_path : string) (d : dict) : res dict :=
  match dget "target_defaults" d with
  | None => Ok d
  | Some defaults =>
      if negb (dmem "targets" d) then
        Err (GypError ("Unable to find targets in build file " +:+ build_file_path))
      else
        targets ← dindex "targets" d;
        targets ← iterate targets;
        new_targets ← foldM (fun acc old_target_dict =>
            new ← as_dict "__contains__" (deepcopy defaults);
            old ← as_dict "iteritems" old_target_dict;
            new ← MergeDicts cwd path_sections build_file_path build_file_path new old;
            Ok (acc ++ [VDict new])%list) [] targets;
        Ok (ddel "target_defaults" (dset "targets" (VList new_targets) d))
  end.

(** The files that the targets' dependencies are in *)
Definition dependency_files (build_file_path : string) (d : dict) : res (list (option string)) :=
  targets ← get_list "targets" d;
  foldM (fun acc target =>
           target ← as_dict "__contains__" target;
           dependencies ← get_list "dependencies" target;
           foldM (fun acc dependency =>
                    dependency ← as_string "rsplit" dependency;
                    Ok (acc ++ [(ResolveTarget cwd (Some build_file_path) dependency None).1.1])%list)
             acc dependencies) [] targets.
End TargetFile.

(** ** Included files: lemmas *)
Section IncludedSpec.
Context (aux_data : gmap string (list string)).

(** [x] includes [y]. *)
Definition includes_file (x y : string) : Prop := exists l, aux_data !! x = Some l /\ y ∈ l.

Record included_post (f : string) (inc inc' : list string) : Prop := {
  inc_nodup : NoDup inc';
  inc_prefix : inc `prefix_of` inc';
  inc_reach x : x ∈ inc' -> x ∉ inc -> rtc includes_file f x;
  inc_closed x y : x ∈ inc' -> x ∉ inc -> includes_file x y -> y ∈ inc' }.
Definition not_loaded (m : res (list string)) (f : string) : Prop :=
  exists k, m = Err (KeyError k) /\ aux_data !! k = None /\ rtc includes_file f k.

Definition unseen (inc : list string) : nat := size (dom aux_data ∖ list_to_set inc : gset string).

Lemma prefix_elem {A} (l k : list A) x : l `prefix_of` k -> x ∈ l -> x ∈ k.
Proof. intros [m ->] Hx. apply elem_of_app. by left. Qed.
Lemma unseen_mono inc inc' : inc `prefix_of` inc' -> unseen inc' <= unseen inc.
Proof.
  intros [m ->]. unfold unseen. apply subseteq_size. intros x.
  rewrite !elem_of_difference, !elem_of_list_to_set, elem_of_app. tauto.
Qed.
Lemma unseen_snoc inc f : f ∈ dom aux_data -> f ∉ inc -> unseen (inc ++ [f]) < unseen inc.
Proof.
  intros Hf Hn. unfold unseen. apply subset_size. split.
  - intros x. rewrite !elem_of_difference, !elem_of_list_to_set, elem_of_app. tauto.
  - intros H. specialize (H f). rewrite !elem_of_difference, !elem_of_list_to_set, elem_of_app in H.
    destruct H as [_ H]; [done|]. apply H. right. left.
Qed.

(** After the included file [g] of [f] was taken from [inc1] to [inc2]. *)
Lemma included_post_step f g inc inc1 inc2 :
  included_post f inc inc1 -> rtc includes_file f g -> included_post g inc1 inc2 ->
  included_post f inc inc2.
Proof.
  intros [A1 A2 A3 A4] Hg [B1 B2 B3 B4]. split; [done|by etransitivity| |].
  - intros x Hx Hn. destruct (decide (x ∈ inc1)) as [H1|H1]; [by apply A3|].
    etransitivity; [exact Hg|by apply B3].
  - intros x y Hx Hn Hxy. destruct (decide (x ∈ inc1)) as [H1|H1]; [|by eapply B4].
    eapply prefix_elem; [exact B2|by eapply A4].
Qed.

Lemma GetIncluded_loop fuel f inc l inc1 :
  (forall g inc2, NoDup inc2 -> unseen inc2 <= unseen inc1 ->
     (exists inc', GetIncludedBuildFiles aux_data fuel g inc2 = Ok inc' /\
        included_post g inc2 inc' /\ g ∈ inc') \/
     not_loaded (GetIncludedBuildFiles aux_data fuel g inc2) g) ->
  included_post f inc inc1 -> (forall g, g ∈ l -> rtc includes_file f g) ->
  (exists inc', foldM (fun included f => GetIncludedBuildFiles aux_data fuel f included) inc1 l = Ok inc' /\
     included_post f inc inc' /\ inc1 `prefix_of` inc' /\ forall g, g ∈ l -> g ∈ inc') \/
  not_loaded (foldM (fun included f => GetIncludedBuildFiles aux_data fuel f included) inc1 l) f.
Proof.
  intros IH. revert IH. revert inc1; induction l as [|g l IHl]; intros inc1 IH Hp Hl; cbn [foldM].
  - left. exists inc1. split_and!; [done|done|done|set_solver].
  - destruct (IH g inc1) as [(inc2 & -> & Hp2 & Hg)|(k & -> & Hk & Hr)]; [apply Hp|done| |].
    + cbn [mbind res_bind]. pose proof (inc_prefix _ _ _ Hp2) as Hpre.
      destruct (IHl inc2) as [(inc' & -> & Hp' & Hpre' & Hin)|H].
      * intros g' inc3 H3 Hu. apply IH; [done|]. pose proof (unseen_mono _ _ Hpre). lia.
      * eapply included_post_step; [exact Hp|by apply Hl; left|done].
      * intros g' Hg'. apply Hl. by right.
      * left. exists inc'. split_and!; [done|done|by etransitivity|].
        intros g' [->|Hg']%elem_of_cons; [by eapply prefix_elem|by apply Hin].
      * by right.
    + right. exists k. split_and!; [done|done|]. etransitivity; [|exact Hr]. apply Hl. left.
Qed.

Lemma GetIncluded_spec fuel f inc : NoDup inc -> unseen inc < fuel ->
  (exists inc', GetIncludedBuildFiles aux_data fuel f inc = Ok inc' /\
     included_post f inc inc' /\ f ∈ inc' /\ (f ∉ inc -> (inc ++ [f])%list `prefix_of` inc')) \/
  not_loaded (GetIncludedBuildFiles aux_data fuel f inc) f.
Proof.
  revert f inc; induction fuel as [|fuel IH]; intros f inc Hnd Hf; [lia|].
  cbn [GetIncludedBuildFiles]. case_decide as Hin.
  { left. exists inc. split_and!; [done| |done|done]. by split. }
  destruct (aux_data !! f) as [l|] eqn:Hl; cbn [of_option mbind res_bind].
  - pose proof (unseen_snoc inc f) as Hlt. rewrite elem_of_dom, Hl in Hlt.
    specialize (Hlt ltac:(done) Hin).
    assert (Hstep : forall g, g ∈ l -> includes_file f g) by (intros g Hg; by exists l).
    destruct (GetIncluded_loop fuel f (inc ++ [f]) l (inc ++ [f])) as [(inc' & -> & Hp & Hpre & Hall)|H].
    + intros g inc2 H2 Hu. destruct (IH g inc2 H2) as [(inc' & H3 & H4 & H5 & _)|H3]; [lia| |by right].
      left. by exists inc'.
    + split; [by apply NoDup_snoc|done|done|done].
    + intros g Hg. apply rtc_once. by apply Hstep.
    + left. exists inc'. assert (Hfin : f ∈ inc') by (eapply prefix_elem; [exact Hpre|set_solver]).
      split_and!; [done| |done|done]. destruct Hp as [A1 A2 A3 A4]. split; [done| | |].
      * etransitivity; [|exact Hpre]. by exists [f].
      * intros x Hx Hn. destruct (decide (x = f)) as [->|Hxf]; [constructor|]. apply A3; set_solver.
      * intros x y Hx Hn Hxy. destruct (decide (x = f)) as [->|Hxf].
        -- destruct Hxy as (l' & Hl' & Hy). apply Hall. congruence.
        -- eapply A4; [exact Hx|set_solver|done].
    + by right.
  - right. exists f. split_and!; [done|done|constructor].
Qed.
End IncludedSpec.

(** Listing the included files ends, include cycles or not: it answers the
    file itself, first, and every file it includes directly or not, each once; or
    one of them was never loaded, and it raises that file's [KeyError]. *)
Theorem GetIncludedBuildFiles_reachable aux_data build_file_path :
  let m := GetIncludedBuildFiles aux_data (included_fuel aux_data) build_file_path [] in
  (exists l, m = Ok l /\ NoDup l /\ head l = Some build_file_path /\
     forall f, f ∈ l <-> rtc (includes_file aux_data) build_file_path f) \/
  (exists k, m = Err (KeyError k) /\ aux_data !! k = None /\
     rtc (includes_file aux_data) build_file_path k).
Proof.
  intros m. destruct (GetIncluded_spec aux_data (included_fuel aux_data) build_file_path [])
    as [(l & Hl & [A1 A2 A3 A4] & Hin & Hpre)|H]; [constructor| |left|by right].
  - unfold included_fuel, unseen. pose proof (subseteq_size (dom aux_data ∖ list_to_set [] : gset string) (dom aux_data)
      ltac:(set_solver)) as Hs. rewrite size_dom in Hs. lia.
  - exists l. split_and!; [done|done| |].
    + destruct Hpre as [r ->]; [set_solver|done].
    + intros f. split; [intros Hf; apply A3; [done|set_solver]|].
      revert f. apply rtc_ind_r; [done|]. intros y z _ Hyz IH. eapply A4; [exact IH|set_solver|done].
Qed.

(** ** What loading a file leaves alone *)
Section LoadingKeeps.
Context (cwd : string) (path_sections : gset string).
Context (contents : string -> option module_ast) (eval : module_ast -> res val) (check : bool).
Abbreviation load_one := (LoadOneBuildFile cwd path_sections contents eval check).
Abbreviation load_includes := (LoadIncludes cwd path_sections contents eval check).

(** Every entry but that of [file] is as it was, and that one is still there. *)
Definition keeps_but (file : string) (st st' : loaded) : Prop :=
  (forall g v, g <> file -> OrderedDict.assoc g (data st) = Some v -> OrderedDict.assoc g (data st') = Some v) /\
  (is_Some (OrderedDict.assoc file (data st)) -> is_Some (OrderedDict.assoc file (data st'))).

#[export] Instance keeps_but_preorder file : PreOrder (keeps_but file).
Proof. split; [by intros st|]. intros s1 s2 s3 [H1 H2] [K1 K2]. split; [intros; apply K1; auto|auto]. Qed.

Lemma keeps_but_set file path d st : keeps_but file st (set_dict file path d st).
Proof.
  unfold keeps_but, set_dict. cbn [data]. destruct (OrderedDict.assoc file (data st)) as [w|] eqn:E; [|done].
  split.
  - intros g v Hg Hv. rewrite OrderedDict.assoc_set_lookup. by rewrite decide_False.
  - intros _. rewrite OrderedDict.assoc_set_lookup. by rewrite decide_True.
Qed.

Lemma load_keeps fuel :
  (forall file includes st v st', load_one fuel file includes st = Ok (v, st') ->
     (forall g w, OrderedDict.assoc g (data st) = Some w -> OrderedDict.assoc g (data st') = Some w) /\
     is_Some (OrderedDict.assoc file (data st'))) /\
  (forall file path includes st st', load_includes fuel file path includes st = Ok st' ->
     keeps_but file st st').
Proof.
  induction fuel as [|fuel [IH1 IH2]]; [done|]. split.
  - intros file includes st v st'. cbn [LoadOneBuildFile].
    destruct (OrderedDict.assoc file (data st)) as [w|] eqn:E.
    { intros [= <- <-]. split; [done|]. by rewrite E. }
    destruct (contents file) as [n|]; [|done]. intros (d & _ & H)%bind_ok. destruct d as [| | |d]; try done.
    apply bind_ok in H as (st1 & Hst & H). apply bind_ok in H as (w & Hw & [= <- <-]).
    apply of_option_ok in Hw. split; [|by rewrite Hw].
    set (st0 := {| data := _; included := _ |}) in Hst.
    assert (Hk : keeps_but file st0 st1).
    { destruct (get_truthy "skip_includes" d); [by injection Hst as <-|by eapply IH2]. }
    intros g x Hg. apply (proj1 Hk); [by intros ->; rewrite E in Hg|]. cbn [data st0].
    rewrite OrderedDict.assoc_set_lookup, decide_False; [done|]. intros ->. by rewrite E in Hg.
  - intros file path includes st st'. cbn [LoadIncludes].
    destruct (OrderedDict.assoc file (data st) ≫= value_at path) as [[| |l|subdict]|]; try (by intros [= <-]).
    + intros H. revert H. apply (foldM_inv (keeps_but file st)); [done|].
      intros s1 i s2 _ Hs H. etrans; [exact Hs|]. by eapply IH2.
    + intros ([incs sub] & _ & H)%bind_ok. apply bind_ok in H as (st1 & H1 & H).
      apply bind_ok in H as (d & _ & H).
      assert (Hk : keeps_but file st st1).
      { revert H1. apply (foldM_inv (keeps_but file st)); [apply keeps_but_set|].
        intros s1 i s2 _ Hs Hstep. apply bind_ok in Hstep as ([fro s3] & H3 & Hstep).
        apply bind_ok in Hstep as (fro' & _ & Hstep). apply bind_ok in Hstep as (d' & _ & Hstep).
        apply bind_ok in Hstep as (d'' & _ & [= <-]). apply IH1 in H3 as [H3 _].
        etrans; [exact Hs|]. etrans; [|apply keeps_but_set].
        split; [intros g v _; apply H3|]. intros [v Hv]. exists v. by apply H3. }
      revert H. apply (foldM_inv (keeps_but file st)); [done|].
      intros s1 i s2 _ Hs H. etrans; [exact Hs|]. by eapply IH2.
Qed.

(** Only files that can be read are added. *)
Definition adds_readable (st st' : loaded) : Prop :=
  forall g, is_Some (OrderedDict.assoc g (data st')) -> is_Some (OrderedDict.assoc g (data st)) \/ contents g <> None.
#[export] Instance adds_readable_preorder : PreOrder adds_readable.
Proof. split; [intros st g; auto|]. intros s1 s2 s3 H K g Hg. destruct (K g Hg) as [?|?]; [by apply H|by right]. Qed.

Lemma adds_readable_set file path d st : adds_readable st (set_dict file path d st).
Proof.
  intros g. unfold set_dict. cbn [data]. destruct (OrderedDict.assoc file (data st)) as [w|] eqn:E; [|intros; by left].
  rewrite OrderedDict.assoc_set_lookup. case_decide as Hg; intros Hs; [|by left].
  left. subst g. rewrite E. by eexists.
Qed.

Lemma load_readable fuel :
  (forall file includes st v st', load_one fuel file includes st = Ok (v, st') -> adds_readable st st') /\
  (forall file path includes st st', load_includes fuel file path includes st = Ok st' -> adds_readable st st').
Proof.
  induction fuel as [|fuel [IH1 IH2]]; [done|]. split.
  - intros file includes st v st'. cbn [LoadOneBuildFile].
    destruct (OrderedDict.assoc file (data st)) as [w|]; [by intros [= <- <-]|].
    destruct (contents file) as [n|] eqn:Hc; [|done]. intros (d & _ & H)%bind_ok. destruct d as [| | |d]; try done.
    apply bind_ok in H as (st1 & Hst & H). apply bind_ok in H as (w & _ & [= <- <-]).
    set (st0 := {| data := _; included := _ |}) in Hst.
    assert (Hk : adds_readable st0 st1).
    { destruct (get_truthy "skip_includes" d); [by injection Hst as <-|by eapply IH2]. }
    etrans; [|exact Hk]. intros g. cbn [data st0]. rewrite OrderedDict.assoc_set_lookup. case_decide as Hg; intros Hs; [|by left].
    right. subst g. by rewrite Hc.
  - intros file path includes st st'. cbn [LoadIncludes].
    destruct (OrderedDict.assoc file (data st) ≫= value_at path) as [[| |l|subdict]|]; try (by intros [= <-]).
    + intros H. revert H. apply (foldM_inv (adds_readable st)); [done|].
      intros s1 i s2 _ Hs H. etrans; [exact Hs|]. by eapply IH2.
    + intros ([incs sub] & _ & H)%bind_ok. apply bind_ok in H as (st1 & H1 & H).
      apply bind_ok in H as (d & _ & H).
      assert (Hk : adds_readable st st1).
      { revert H1. apply (foldM_inv (adds_readable st)); [apply adds_readable_set|].
        intros s1 i s2 _ Hs Hstep. apply bind_ok in Hstep as ([fro s3] & H3 & Hstep).
        apply bind_ok in Hstep as (fro' & _ & Hstep). apply bind_ok in Hstep as (d' & _ & Hstep).
        apply bind_ok in Hstep as (d'' & _ & [= <-]). apply IH1 in H3.
        etrans; [exact Hs|]. etrans; [|apply adds_readable_set]. exact H3. }
      revert H. apply (foldM_inv (adds_readable st)); [done|].
      intros s1 i s2 _ Hs H. etrans; [exact Hs|]. by eapply IH2.
Qed.
End LoadingKeeps.
