(* ===== verification/Parallel.v ===== *)
(** * Loading build files in parallel ([gyp/input.py])

    [ParallelState] and the loop of [LoadTargetBuildFilesParallel], with the pool
    of worker processes as an environment that finishes jobs in any order.  The
    callback runs on a thread of its own, under the condition's lock: it can run
    while the main loop waits or has been notified but not resumed, and after the
    loop.  A step is what happens between two releases of the lock. *)
From S2P Require Import Prelude PyStr Ordered GypValue.
From stdpp Require Import options.

(** Where the main thread is: at the head of the [while] loop with the lock, in
    [condition.wait()], notified there, past the loop (in [pool.join()]), back,
    leaving the program, raising. *)
Inductive main_pc :=
  Looping | Waiting | Notified | Joining | Returned | Exited (code : Z) | Raised (e : exn).

Record ParallelState := {
  data : list (string * val);
  target_build_files : gset string;
  pending : Z;
  scheduled : gset string;
  dependencies : list string;
  error : bool;
  pool : bool;                        (* the pool was created *)
  jobs : list string;                 (* given to the pool, no callback yet *)
  main : main_pc }.

Section Load.
(** What [CallLoadTargetBuildFile] hands back for a file: nothing, or the data
    and the files it depends on. *)
Context (load : string -> option (val * list string)).

Definition schedule_new (st : gset string * list string) (new_dependency : string)
    : gset string * list string :=
  let '(scheduled, dependencies) := st in
  if decide (new_dependency ∈ scheduled) then st
  else (scheduled ∪ {[new_dependency]}, (dependencies ++ [new_dependency])%list).

Definition notify (m : main_pc) : main_pc := match m with Waiting => Notified | m => m end.
Definition remove_job (job : string) (l : list string) : list string :=
  match list_find (eq job) l with Some (i, _) => (take i l ++ drop (S i) l)%list | None => l end.

Definition LoadTargetBuildFileCallback (job : string) (s : ParallelState) : ParallelState :=
  match load job with
  | None => {|
      data := data s; target_build_files := target_build_files s; pending := pending s;
      scheduled := scheduled s; dependencies := dependencies s; error := true; pool := pool s;
      jobs := remove_job job (jobs s); main := notify (main s) |}
  | Some (build_file_data0, dependencies0) =>
      let '(scheduled', dependencies') :=
        foldl schedule_new (scheduled s, dependencies s) dependencies0 in {|
      data := OrderedDict.assoc_set job build_file_data0 (data s);
      target_build_files := target_build_files s ∪ {[job]};
      pending := pending s - 1;
      scheduled := scheduled'; dependencies := dependencies'; error := error s; pool := pool s;
      jobs := remove_job job (jobs s); main := notify (main s) |}
  end.
(** The callback needs the lock. *)
Definition lock_free (m : main_pc) : bool :=
  match m with Waiting | Notified | Joining => true | _ => false end.

Definition at_pc (m : main_pc) (s : ParallelState) : ParallelState := {|
  data := data s; target_build_files := target_build_files s; pending := pending s;
  scheduled := scheduled s; dependencies := dependencies s; error := error s; pool := pool s; jobs := jobs s;
  main := m |}.
(** [dependencies.pop()] takes the last one. *)
Definition submit (s : ParallelState) : ParallelState :=
  match list.last (dependencies s) with
  | None => s
  | Some dependency => {|
      data := data s; target_build_files := target_build_files s; pending := pending s + 1;
      scheduled := scheduled s; dependencies := take (length (dependencies s) - 1) (dependencies s);
      error := error s; pool := true; jobs := (jobs s ++ [dependency])%list; main := Looping |}
  end.

Definition main_step (s : ParallelState) : option ParallelState :=
  match main s with
  | Looping =>
      Some (if bool_decide (dependencies s = []) && (pending s =? 0)%Z then at_pc Joining s
            else if error s then at_pc Joining s
            else if bool_decide (dependencies s = []) then at_pc Waiting s
            else submit s)
  | Notified => Some (at_pc Looping s)
  | Joining =>
      if negb (pool s) then Some (at_pc (Raised (AttributeError "close")) s)
      else if bool_decide (jobs s = []) then Some (at_pc (if error s then Exited 1 else Returned) s)
      else None
  | Waiting | Returned | Exited _ | Raised _ => None
  end.

Inductive step : ParallelState -> ParallelState -> Prop :=
  | step_main s s' : main_step s = Some s' -> step s s'
  | step_callback s job :
      job ∈ jobs s -> lock_free (main s) = true -> step s (LoadTargetBuildFileCallback job s).

Definition start (build_files : list string) : ParallelState := {|
  data := []; target_build_files := ∅; pending := 0;
  scheduled := list_to_set build_files; dependencies := build_files; error := false; pool := false;
  jobs := []; main := Looping |}.
End Load.

(** ** Lemmas on the steps *)
Lemma schedule_new_spec l sched deps : exists new,
  foldl schedule_new (sched, deps) l = (sched ∪ list_to_set l, (deps ++ new)%list) /\
  NoDup new /\ (forall x, x ∈ new <-> x ∈ l /\ x ∉ sched).
Proof.
  revert sched deps; induction l as [|d l IH]; intros sched deps; cbn [foldl schedule_new].
  - exists []. split_and!; [f_equal; [set_solver|by rewrite app_nil_r]|constructor|set_solver].
  - case_decide as Hd.
    + destruct (IH sched deps) as (new & -> & H1 & H2). exists new.
      split_and!; [f_equal; set_solver|done|]. intros x. rewrite H2. set_solver.
    + destruct (IH (sched ∪ {[d]}) (deps ++ [d])%list) as (new & -> & H1 & H2). exists (d :: new).
      split_and!.
      * f_equal; [set_solver|by rewrite <- app_assoc].
      * apply list.NoDup_cons. split; [|done]. rewrite H2. set_solver.
      * intros x. rewrite elem_of_cons, H2. destruct (decide (x = d)); set_solver.
Qed.

Lemma remove_job_spec job l : job ∈ l -> exists l1 l2,
  l = (l1 ++ job :: l2)%list /\ remove_job job l = (l1 ++ l2)%list.
Proof.
  intros Hin. unfold remove_job.
  destruct (list_find_elem_of (eq job) l job Hin eq_refl) as [[i x] Hi]. rewrite Hi.
  apply list_find_Some in Hi as (Hi & <- & _). exists (take i l), (drop (S i) l).
  split; [|done]. by rewrite take_drop_middle.
Qed.

(** ** What the loop keeps *)
Section Spec.
Context (load : string -> option (val * list string)) (build_files : list string).

Definition needs (x y : string) : Prop := exists v ds, load x = Some (v, ds) /\ y ∈ ds.
Definition reached (f : string) : Prop := exists r, r ∈ build_files /\ rtc needs r f.

Record load_inv (s : ParallelState) : Prop := {
  li_nodup : NoDup (dependencies s ++ jobs s ++ (data s).*1);
  li_sched f : f ∈ dependencies s \/ f ∈ jobs s \/ f ∈ (data s).*1 -> f ∈ scheduled s;
  li_all f : error s = false -> f ∈ scheduled s ->
    f ∈ dependencies s \/ f ∈ jobs s \/ f ∈ (data s).*1;
  li_reached f : f ∈ scheduled s -> reached f;
  li_roots f : f ∈ build_files -> f ∈ scheduled s;
  li_data f : f ∈ (data s).*1 -> exists v ds, load f = Some (v, ds) /\
    OrderedDict.assoc f (data s) = Some v /\ forall d, d ∈ ds -> d ∈ scheduled s;
  li_target_files : target_build_files s = list_to_set (data s).*1;
  li_pending : error s = false -> pending s = Z.of_nat (length (jobs s));
  li_error : error s = true -> exists f, reached f /\ load f = None;
  li_pool : pool s = false -> jobs s = [] /\ data s = [] /\ error s = false;
  li_main : match main s with
    | Looping | Notified => True
    | Waiting => error s = false /\ jobs s <> []
    | Joining => error s = false -> dependencies s = [] /\ jobs s = []
    | Returned => error s = false /\ dependencies s = [] /\ jobs s = []
    | Exited code => error s = true /\ code = 1%Z
    | Raised e => e = AttributeError "close" /\ build_files = []
    end }.

Lemma load_inv_start : NoDup build_files -> load_inv (start build_files).
Proof.
  intros Hnd. split; cbn; try done; try set_solver.
  by rewrite app_nil_r.
Qed.

Lemma load_inv_at m s : load_inv s ->
  match m with
  | Looping | Notified => True
  | Waiting => error s = false /\ jobs s <> []
  | Joining => error s = false -> dependencies s = [] /\ jobs s = []
  | Returned => error s = false /\ dependencies s = [] /\ jobs s = []
  | Exited code => error s = true /\ code = 1%Z
  | Raised e => e = AttributeError "close" /\ build_files = []
  end -> load_inv (at_pc m s).
Proof. intros [] Hm. by split. Qed.

Lemma load_inv_submit s : load_inv s -> dependencies s <> [] -> load_inv (submit s).
Proof.
  intros [H1 H2 H3 H4 H5 H6 H7 H8 H9 H10 H11] Hne. unfold submit.
  destruct (list.last (dependencies s)) as [d|] eqn:Hl; [|by apply last_None in Hl].
  apply last_Some in Hl as [l Hl]. rewrite Hl in *.
  replace (take _ _) with l by (rewrite length_app, Nat.add_sub, take_app_length; done).
  assert (Hp : l ++ (jobs s ++ [d]) ++ (data s).*1 ≡ₚ (l ++ [d]) ++ jobs s ++ (data s).*1) by solve_Permutation.
  split; cbn; try done.
  - by rewrite Hp.
  - intros f Hf. apply H2. set_solver.
  - intros f He Hf. specialize (H3 f He Hf). set_solver.
  - intros He. rewrite length_app. simpl. rewrite H8 by done. lia.
Qed.

Lemma assoc_set_keys {V} k (v : V) l : k ∉ l.*1 ->
  (OrderedDict.assoc_set k v l).*1 = (l.*1 ++ [k])%list.
Proof. intros H. rewrite OrderedDict.assoc_set_new by done. by rewrite fmap_app. Qed.

Lemma load_inv_callback s job : load_inv s -> job ∈ jobs s -> lock_free (main s) = true ->
  load_inv (LoadTargetBuildFileCallback load job s).
Proof.
  intros [H1 H2 H3 H4 H5 H6 H7 H8 H9 H10 H11] Hjob Hfree.
  destruct (remove_job_spec job (jobs s) Hjob) as (l1 & l2 & Hjobs & Hrem).
  assert (Hreach : reached job) by (apply H4, H2; auto).
  unfold LoadTargetBuildFileCallback. destruct (load job) as [[v ds]|] eqn:Hload.
  - destruct (schedule_new_spec ds (scheduled s) (dependencies s)) as (new & -> & Hnd & Hnew).
    assert (Hkey : job ∉ (data s).*1).
    { rewrite Hjobs in H1. apply list.NoDup_app in H1 as (_ & _ & H1).
      apply list.NoDup_app in H1 as (_ & H1 & _). apply H1. set_solver. }
    assert (Hold : forall x, x ∈ new -> x ∉ dependencies s ++ jobs s ++ (data s).*1).
    { intros x [_ Hx]%Hnew Hin. apply Hx, H2. set_solver. }
    assert (Hp : (dependencies s ++ new) ++ (l1 ++ l2) ++ ((data s).*1 ++ [job]) ≡ₚ
      new ++ dependencies s ++ jobs s ++ (data s).*1) by (rewrite Hjobs; solve_Permutation).
    split; cbn; rewrite ?Hrem, ?(assoc_set_keys _ _ _ Hkey).
    + rewrite Hp. apply list.NoDup_app. done.
    + intros f Hf. rewrite elem_of_union, elem_of_list_to_set. destruct (decide (f ∈ ds)) as [|Hn]; [by right|left].
      destruct (decide (f ∈ new)) as [Hf'%Hnew|Hn']; [tauto|]. rewrite Hjobs in H2.
      destruct (decide (f = job)) as [->|]; [apply H2|apply H2]; set_solver.
    + intros f He Hf'%elem_of_union. specialize (H3 f He). rewrite Hjobs in H3.
      rewrite elem_of_list_to_set in Hf'. rewrite !elem_of_app, list_elem_of_singleton.
      rewrite elem_of_app, elem_of_cons in H3.
      destruct (decide (f ∈ scheduled s)) as [Hs|Hs]; [specialize (H3 Hs); tauto|].
      left; right. apply Hnew. tauto.
    + intros f [Hf|Hf%elem_of_list_to_set]%elem_of_union; [by apply H4|].
      destruct Hreach as (r & Hr & Hrj). exists r. split; [done|]. eapply rtc_r; [exact Hrj|].
      by exists v, ds.
    + intros f Hf. apply elem_of_union_l. by apply H5.
    + intros f Hf. rewrite OrderedDict.assoc_set_lookup. case_decide as Hfj.
      * subst f. exists v, ds. split_and!; [done|done|]. intros d Hd. apply elem_of_union_r.
        by apply elem_of_list_to_set.
      * destruct (H6 f) as (w & ds' & Hw & Ha & Hd); [set_solver|]. exists w, ds'.
        split_and!; [done|done|]. intros d Hdd. apply elem_of_union_l. by apply Hd.
    + rewrite H7, list_to_set_app_L. set_solver.
    + intros He. rewrite H8, Hjobs, !length_app by done. simpl. lia.
    + done.
    + intros Hp0. destruct (H10 Hp0) as [Hnil _]. rewrite Hnil in Hjob. set_solver.
    + destruct (main s); cbn in *; try done. intros He. destruct (H11 He) as [_ Hnil].
      rewrite Hnil in Hjob. set_solver.
  - assert (Hlost : dependencies s ++ (l1 ++ l2) ++ (data s).*1 `sublist_of` dependencies s ++ jobs s ++ (data s).*1).
    { rewrite Hjobs. apply sublist_app; [done|]. apply sublist_app; [|done].
      apply sublist_app; [done|]. by apply sublist_cons. }
    split; cbn; rewrite ?Hrem; try done.
    + by eapply sublist_NoDup.
    + intros f Hf. apply H2. rewrite Hjobs. set_solver.
    + intros _. by exists job.
    + intros Hp0. destruct (H10 Hp0) as [Hnil _]. rewrite Hnil in Hjob. set_solver.
    + destruct (main s); done.
Qed.

Lemma load_inv_step s s' : load_inv s -> step load s s' -> load_inv s'.
Proof.
  intros Hs Hstep. revert Hs.
  destruct Hstep as [s0 s1 Hmain|s0 job Hjob Hfree]; intros Hs; [|by apply load_inv_callback].
  unfold main_step in Hmain. destruct (main s0) eqn:Hpc; try done.
  - injection Hmain as <-. case_match; reflect; [apply load_inv_at; [done|]|].
    + intros He. reflect. rewrite (li_pending _ Hs He) in *. split; [done|]. destruct (jobs s0); [done|]. simpl in *. lia.
    + case_match; [apply load_inv_at; [done|congruence]|]. case_bool_decide as Hnil.
      * apply load_inv_at; [done|]. split; [done|]. intros Hj. 
        pose proof (li_pending _ Hs ltac:(done)) as Hp. rewrite Hj in Hp.
        rewrite Hp in H. done.
      * by apply load_inv_submit.
  - injection Hmain as <-. by apply load_inv_at.
  - case_match eqn:Hpool; reflect.
    + injection Hmain as <-. apply load_inv_at; [done|]. split; [done|].
      destruct (li_pool _ Hs Hpool) as (Hj & Hd & He). pose proof (li_main _ Hs) as Hm.
      rewrite Hpc in Hm. destruct (Hm He) as [Hdep _].
      destruct build_files as [|f l] eqn:Hb; [done|]. exfalso.
      destruct (li_all _ Hs f He) as [Hf|[Hf|Hf]]; [apply (li_roots _ Hs); rewrite Hb; left|..];
        rewrite ?Hdep, ?Hj, ?Hd in Hf; set_solver.
    + case_bool_decide as Hj; [|done]. injection Hmain as <-. apply load_inv_at; [done|].
      destruct (error s0) eqn:He; [done|]. pose proof (li_main _ Hs) as Hm. rewrite Hpc in Hm. by apply Hm in He as [? ?].
Qed.

(** A state from which nothing can happen is the end of the program. *)
Lemma stuck_is_end s : load_inv s -> ~ (exists s', step load s s') ->
  match main s with Returned | Exited _ | Raised _ => True | _ => False end.
Proof.
  intros Hs Hno. destruct (main s) eqn:Hpc; try done; apply Hno.
  - eexists. apply step_main. unfold main_step. by rewrite Hpc.
  - pose proof (li_main _ Hs) as Hm. rewrite Hpc in Hm. destruct Hm as [_ Hj].
    destruct (jobs s) as [|j l] eqn:Hjobs; [done|]. eexists. apply (step_callback _ _ j).
    + rewrite Hjobs. left.
    + by rewrite Hpc.
  - eexists. apply step_main. unfold main_step. by rewrite Hpc.
  - destruct (negb (pool s)) eqn:Hpool; [eexists; apply step_main; unfold main_step; by rewrite Hpc, Hpool|].
    destruct (jobs s) as [|j l] eqn:Hjobs.
    + eexists. apply step_main. unfold main_step. rewrite Hpc, Hpool, Hjobs. done.
    + eexists. apply (step_callback _ _ j); [rewrite Hjobs; left|by rewrite Hpc].
Qed.

Lemma returned_all s : load_inv s -> main s = Returned ->
  NoDup (data s).*1 /\ (forall f, f ∈ (data s).*1 <-> reached f) /\
  (forall f, reached f -> exists ds, load f = OrderedDict.assoc f (data s) ≫= fun v => Some (v, ds)) /\
  target_build_files s = list_to_set (data s).*1.
Proof.
  intros Hs Hpc. pose proof (li_main _ Hs) as Hm. rewrite Hpc in Hm. destruct Hm as (He & Hd & Hj).
  assert (Hall : forall f, f ∈ scheduled s -> f ∈ (data s).*1).
  { intros f Hf. destruct (li_all _ Hs f He Hf) as [H|[H|H]]; [rewrite Hd in H|rewrite Hj in H|done]; set_solver. }
  assert (Hkeys : forall f, f ∈ (data s).*1 <-> reached f).
  { intros f. split; [intros H; apply (li_reached _ Hs), (li_sched _ Hs); auto|].
    intros (r & Hr & Hrf). apply Hall. revert f Hrf. apply rtc_ind_r; [by apply (li_roots _ Hs)|].
    intros x y _ (v & ds & Hx & Hy) IH. destruct (li_data _ Hs x (Hall x IH)) as (v' & ds' & Hx' & _ & Hds).
    rewrite Hx in Hx'. injection Hx' as <- <-. by apply Hds. }
  split_and!; [|done| |by apply li_target_files].
  - pose proof (li_nodup _ Hs) as Hnd. by rewrite Hd, Hj in Hnd.
  - intros f Hf%Hkeys. destruct (li_data _ Hs f Hf) as (v & ds & Hv & -> & _). by exists ds.
Qed.

(** *** The end of every run: a weight that each step lowers *)
Context (U : gset string) (HU : forall f, reached f -> f ∈ U).

Definition pc_weight (m : main_pc) : nat :=
  match m with Notified => 4 | Looping => 3 | Waiting => 2 | Joining => 1 | _ => 0 end.
Definition weight (s : ParallelState) : nat :=
  5 * size (U ∖ scheduled s) + 4 * length (dependencies s) + 3 * length (jobs s) + pc_weight (main s).

Lemma new_weight (new : list string) (sched sched' : gset string) :
  NoDup new -> (forall x, x ∈ new -> x ∈ U /\ x ∈ sched' /\ x ∉ sched) -> sched ⊆ sched' ->
  size (U ∖ sched') + length new <= size (U ∖ sched).
Proof.
  intros Hnd Hnew Hsub. rewrite <- (size_list_to_set (C := gset string) new) by done.
  rewrite <- size_union.
  - apply subseteq_size. intros x [Hx|Hx%elem_of_list_to_set]%elem_of_union; apply elem_of_difference.
    + apply elem_of_difference in Hx as [? ?]. split; [done|]. auto.
    + destruct (Hnew x Hx) as (? & ? & ?). done.
  - intros x Hx Hn%elem_of_list_to_set. apply elem_of_difference in Hx as [_ Hx].
    destruct (Hnew x Hn) as (_ & ? & _). done.
Qed.

Lemma load_step_weight s s' : load_inv s -> step load s s' -> weight s' < weight s.
Proof using HU.
  intros Hs Hstep. revert Hs.
  destruct Hstep as [s0 s1 Hmain|s0 job Hjob Hfree]; intros Hs; unfold weight.
  - unfold main_step in Hmain. destruct (main s0) eqn:Hpc; try done.
    + injection Hmain as <-. repeat (case_match; [cbn; lia|]). unfold submit.
      reflect. destruct (list.last (dependencies s0)) as [d|] eqn:Hl; [|by apply last_None in Hl].
      apply last_Some in Hl as [l Hl]. cbn. rewrite Hl, length_take, !length_app. simpl. lia.
    + injection Hmain as <-. cbn. lia.
    + case_match; [injection Hmain as <-; cbn; lia|]. case_match; [|done]. injection Hmain as <-.
      cbn. destruct (error s0); cbn; lia.
  - destruct (remove_job_spec job (jobs s0) Hjob) as (l1 & l2 & Hjobs & Hrem).
    assert (Hnot : pc_weight (notify (main s0)) <= pc_weight (main s0) + 2) by (destruct (main s0); simpl; lia).
    unfold LoadTargetBuildFileCallback. destruct (load job) as [[v ds]|] eqn:Hload.
    + destruct (schedule_new_spec ds (scheduled s0) (dependencies s0)) as (new & -> & Hnd & Hnew).
      cbn. rewrite Hrem, Hjobs, !length_app. simpl.
      pose proof (new_weight new (scheduled s0) (scheduled s0 ∪ list_to_set ds) Hnd) as Hw.
      assert (size (U ∖ (scheduled s0 ∪ list_to_set ds)) + length new <= size (U ∖ scheduled s0)); [|lia].
      apply Hw; [|set_solver]. intros x [Hx Hn]%Hnew. split_and!; [|set_solver|done].
      apply HU. destruct (li_reached _ Hs job) as (r & Hr & Hrj); [by apply li_sched; auto|].
      exists r. split; [done|]. eapply rtc_r; [exact Hrj|]. by exists v, ds.
    + cbn. rewrite Hrem, Hjobs, !length_app. simpl. lia.
Qed.

Lemma load_inv_run s s' : load_inv s -> rtc (step load) s s' -> load_inv s'.
Proof. intros Hs. induction 1 as [|x y z Hxy _ IH]; [done|]. apply IH. by eapply load_inv_step. Qed.

Lemma step_ends s : load_inv s -> Acc (fun a b => step load b a) s.
Proof using HU.
  remember (weight s) as n eqn:Hn. revert s Hn. induction n as [n IH] using lt_wf_ind.
  intros s -> Hs. constructor. intros s' Hstep. eapply IH; [by eapply load_step_weight|done|by eapply load_inv_step].
Qed.
End Spec.

(** C18. However the worker processes are scheduled, loading in parallel ends,
    provided that only finitely many files can be reached.  It ends by returning
    with the data of exactly the files that the given ones lead to, each loaded
    once; or by leaving the program with code 1, and then some reachable file
    could not be loaded; or, if no file was given, by an [AttributeError], because
    the pool that is closed at the end was never created. *)
Theorem LoadTargetBuildFilesParallel_loads load build_files U :
  NoDup build_files -> (forall f, reached load build_files f -> f ∈ (U : gset string)) ->
  Acc (fun a b => step load b a) (start build_files) /\
  forall s, rtc (step load) (start build_files) s -> ~ (exists s', step load s s') ->
  match main s with
  | Returned =>
      NoDup (data s).*1 /\ (forall f, f ∈ (data s).*1 <-> reached load build_files f) /\
      (forall f, reached load build_files f ->
         exists ds, load f = OrderedDict.assoc f (data s) ≫= fun v => Some (v, ds)) /\
      target_build_files s = list_to_set (data s).*1
  | Exited code => code = 1%Z /\ exists f, reached load build_files f /\ load f = None
  | Raised e => e = AttributeError "close" /\ build_files = []
  | _ => False
  end.
Proof.
  intros Hnd HU. pose proof (load_inv_start load build_files Hnd) as H0. split.
  - by apply (step_ends load build_files U HU).
  - intros s Hrun Hno. apply (load_inv_run load build_files _ _ H0) in Hrun as Hs.
    pose proof (stuck_is_end load build_files s Hs Hno) as Hend. pose proof (li_main _ _ _ Hs) as Hm.
    destruct (main s) eqn:Hpc; try done.
    + by apply returned_all.
    + destruct Hm as [He ->]. split; [done|]. by apply (li_error _ _ _ Hs).
Qed.

Definition load_example (f : string) : option (val * list string) :=
  if String.eqb f "a" then Some (VInt 1, ["b"])
  else if String.eqb f "b" then Some (VInt 2, ["a"; "b"]) else None.
Lemma load_example_reached f : reached load_example ["a"] f -> f ∈ ({["a"; "b"]} : gset string).
Proof.
  intros (r & ->%list_elem_of_singleton & Hf). revert f Hf. apply rtc_ind_r; [set_solver|].
  intros x y _ (v & ds & Hx & Hy) _. unfold load_example in Hx.
  repeat case_match; simplify_eq; set_solver.
Qed.
Lemma LoadTargetBuildFilesParallel_loads_witness :
  NoDup ["a"] /\ Acc (fun a b => step load_example b a) (start ["a"]).
Proof.
  split; [decided|].
  refine (proj1 (LoadTargetBuildFilesParallel_loads load_example ["a"] {["a"; "b"]} _ _)).
  - decided.
  - exact load_example_reached.
Defined.
