(* ===== verification/Load.v ===== *)
(** * Loading and processing everything ([gyp/input.py])

    [LoadTargetBuildFile], [CallLoadTargetBuildFile] and [Load], composed of the
    other files' parts in the order of the code.  The target dictionaries are parts
    of the build files in [data]: while the passes run they are in [targets], and
    [with_targets] puts them back.  The order in which Python iterates over a set is
    [iteration]. *)
From S2P Require Import Prelude PyStr PyPath Common Ordered GypValue Merge Heap DepGraph Targets.
From S2P Require Import ListFilters Expand BuildFiles Parallel.
From stdpp Require Import options.

(** [ExceptionAppend]: the exceptions without a message keep none here. *)
Definition ExceptionAppend (msg : string) (e : exn) : exn :=
  let add s := s +:+ " " +:+ msg in
  match e with
  | GypError s => GypError (add s)
  | TypeError s => TypeError (add s)
  | ValueError s => ValueError (add s)
  | KeyError s => KeyError (add s)
  | AttributeError s => AttributeError (add s)
  | NameError s => NameError (add s)
  | RuntimeError s => RuntimeError (add s)
  | Exception_ s => Exception_ (add s)
  | e => e
  end.

(** What [generator_input_info] holds besides the module's globals *)
Record generator_input_info := {
  extra_sources_for_rules : list string;
  wants_static_library_dependencies_adjusted : bool;
  wants_sorted_dependencies : bool;
}.

(** [data] and [aux_data], the [target_build_files], and [variables], which the
    caller's dictionary is. *)
Record loading := Loading {
  files : loaded;
  target_build_files : list string;
  variables : hdict;
}.

Section Load.
Context (cwd : string) (globals : generator_globals) (gii : generator_input_info).
Context (contents : string -> option module_ast) (eval : module_ast -> res val) (check : bool).
Context (search : string -> string -> res bool) (windows : bool).
Context (filelist : option filelist_paths).
Context (popen : nat -> command -> option string -> process_result).
Context (do_main : nat -> list string -> option string -> res string).
Context (eval_list : string -> res val) (eval_condition : string -> dict -> res bool).
Context (fuel : nat) (iteration : list string -> list string).

Abbreviation sections := (Targets.path_sections globals).

(** [ProcessVariablesAndConditionsInDict] on a tree *)
Definition process_tree (phase : PHASE) (build_file : string) (vars : hdict) (d : dict) : M dict :=
  v ← thaw (VDict d);
  match v with
  | HDict the_dict =>
      _ ← ProcessVariablesAndConditionsInDict cwd sections search windows filelist popen do_main
            eval_list eval_condition fuel phase build_file the_dict vars None;
      v ← frozen (HDict the_dict);
      match v with VDict d => mret d | _ => mret [] end
  | _ => mret []
  end.

(** ** [LoadTargetBuildFile] *)
Section TargetFile.
Context (includes : list string) (depth : string).

Definition set_depth_h (build_file_path : string) (vars : hdict) : hdict :=
  match set_depth cwd depth build_file_path [] with
  | [(k, VStr d)] => hset k (HStr d) vars
  | _ => vars
  end.

(** From reading the file to its list of dependencies *)
Definition load_file (build_file_path : string) (l : loading) : M (list string * loading) :=
  '(_, st) ← lift (LoadOneBuildFile cwd sections contents eval check fuel build_file_path includes
                     (files l));
  d ← lift (BuildFiles.dict_at st build_file_path []);
  d ← lift (set_included_files cwd depth build_file_path (included st) d);
  d ← lift (ProcessToolsetsInDict (multiple_toolsets globals) fuel d);
  d ← process_tree PHASE_EARLY build_file_path (variables l) d;
  d ← lift (ProcessToolsetsInDict (multiple_toolsets globals) fuel d);
  d ← lift (merge_target_defaults cwd sections build_file_path d);
  dependencies ← lift (dependency_files cwd build_file_path d);
  dependencies ← lift (foldM (fun acc f =>
                                f ← of_option (TypeError "expected a file name") f;
                                Ok (acc ++ [f])%list) [] dependencies);
  mret (dependencies, Loading (set_dict build_file_path [] d st) (target_build_files l) (variables l)).

Fixpoint LoadTargetBuildFile (budget : nat) (build_file_path : string) (l : loading) : M loading :=
  match budget with
  | 0 => no_fuel
  | S budget =>
      let l := Loading (files l) (target_build_files l) (set_depth_h build_file_path (variables l)) in
      if decide (build_file_path ∈ target_build_files l) then mret l
      else
        let l := Loading (files l) (target_build_files l ++ [build_file_path])%list (variables l) in
        '(dependencies, l) ← load_file build_file_path l;
        loop (fun l dependency =>
                reraise (ExceptionAppend ("while loading dependencies of " +:+ build_file_path))
                  (LoadTargetBuildFile budget dependency l)) l dependencies
  end.

(** In a worker process ([load_dependencies] is false, and [data] has no
    [target_build_files]): the data of the file, which is taken out of the
    process's own data, and its dependencies; or nothing after any exception.
    The process goes on with what it has loaded and run.  After an exception it
    does so too, but then [ParallelState] has an error and nobody asks it. *)
Definition CallLoadTargetBuildFile (build_file_path : string) (vars : hdict) (per_process : loaded)
    (s : state) : option (val * list string * loaded * state) :=
  match load_file build_file_path (Loading per_process [] (set_depth_h build_file_path vars)) s with
  | Ok ((dependencies, l), s) =>
      build_file_data ← OrderedDict.assoc build_file_path (BuildFiles.data (files l));
      Some (build_file_data, dependencies,
            Build_loaded (OrderedDict.assoc_del build_file_path (BuildFiles.data (files l)))
              (included (files l)), s)
  | _ => None
  end.
End TargetFile.

(** ** [Load], once everything is loaded *)

(** The targets of a build file as they are now *)
Definition with_targets (targets : list (string * dict)) (file : string) (d : dict) : res dict :=
  match dget "targets" d with
  | None => Ok d
  | Some l =>
      l ← iterate l;
      l ← foldM (fun acc t =>
                   t ← as_dict "__getitem__" t;
                   name ← qualified_name_of file t;
                   Ok (acc ++ [VDict (default t (OrderedDict.assoc name targets))])%list) [] l;
      Ok (dset "targets" (VList l) d)
  end.
Definition with_all_targets (target_files : list string) (targets : list (string * dict))
    (data : list (string * dict)) : res (list (string * dict)) :=
  foldM (fun acc kv =>
           d ← (if bool_decide (kv.1 ∈ target_files) then with_targets targets kv.1 kv.2 else Ok kv.2);
           Ok (acc ++ [(kv.1, d)])%list) [] data.

(** The filters, on the dependency sections only *)
Definition filter_dependencies (target_name : string) (target_dict : dict) : res dict :=
  let keys := filter (fun key => dmem key target_dict) all_dependency_sections in
  let tmp_dict := omap (fun key => v ← dget key target_dict; Some (key, v)) keys in
  let target_dict := foldl (fun d key => ddel key d) target_dict keys in
  tmp_dict ← ProcessListFiltersInDict search (S (ListFilters.depth (VDict tmp_dict))) target_name tmp_dict;
  Ok (foldl (fun d kv => dset kv.1 kv.2 d) target_dict tmp_dict).

(** [for target in flat_list: targets[target] = f(target, targets[target])] *)
Definition each_flat (f : string -> dict -> M dict) (flat_list : list string)
    (targets : list (string * dict)) : M (list (string * dict)) :=
  loop (fun targets target =>
          d ← lift (of_option (KeyError target) (OrderedDict.assoc target targets));
          d ← f target d;
          mret (OrderedDict.assoc_set target d targets)) targets flat_list.
Definition build_file_of (target : string) : string := default "None" (BuildFile target).

(** The dependent settings of one type are published and then taken out. *)
Definition dependent_settings (g : graph) (flat_list : list string) (targets : list (string * dict))
    (settings_type : string) : res (list (string * dict)) :=
  targets ← DoDependentSettings cwd sections g settings_type flat_list targets;
  foldM (fun targets target =>
           d ← of_option (KeyError target) (OrderedDict.assoc target targets);
           Ok (OrderedDict.assoc_set target (ddel settings_type d) targets)) targets flat_list.

Definition validate (target : string) (d : dict) : res dict :=
  let build_file := build_file_of target in
  _ ← ValidateTargetType target d;
  d ← ValidateRulesInTarget target d (extra_sources_for_rules gii);
  _ ← ValidateRunAsInTarget d build_file;
  _ ← ValidateActionsInTarget d;
  Ok d.

Section Targets.
Context (pop : gset string -> option string) (circular_check : bool) (root_targets : list string).

(** From the loaded files to the targets in their order, before the late phase *)
Definition order_targets (target_files : list string) (data : list (string * dict))
    : res (list string * list (string * dict) * list (string * dict)) :=
  targets ← BuildTargetsDict target_files data;
  targets ← QualifyDependencies cwd (multiple_toolsets globals) targets;
  targets ← RemoveSelfDependencies targets;
  data ← with_all_targets target_files targets data;
  targets ← ExpandWildcardDependencies data targets;
  targets ← RemoveLinkDependenciesFromNoneTargets targets;
  targets ← map_targets filter_dependencies targets;
  targets ← RemoveDuplicateDependencies targets;
  _ ← (if circular_check then VerifyNoGYPFileCircularDependencies pop targets else Ok tt);
  '(dependency_nodes, flat_list) ← BuildDependencyList pop targets;
  '(targets, flat_list, data) ←
    match root_targets with
    | [] => Ok (targets, flat_list, data)
    | _ => PruneUnwantedTargets dependency_nodes targets flat_list root_targets target_files data
    end;
  _ ← VerifyNoCollidingTargets flat_list;
  targets ← foldM (dependent_settings dependency_nodes flat_list) targets
              ["all_dependent_settings"; "direct_dependent_settings"; "link_settings"];
  targets ← (if wants_static_library_dependencies_adjusted gii
             then AdjustStaticLibraryDependencies dependency_nodes flat_list
                    (wants_sorted_dependencies gii) targets
             else Ok targets);
  Ok (flat_list, targets, data).

Definition expand_targets (phase : PHASE) (vars : hdict) : list string -> list (string * dict) ->
    M (list (string * dict)) :=
  each_flat (fun target d => process_tree phase (build_file_of target) vars d).

Definition finish_targets (vars : hdict) (flat_list : list string) (targets : list (string * dict))
    : M (list (string * dict)) :=
  targets ← expand_targets PHASE_LATE vars flat_list targets;
  targets ← each_flat (fun target d =>
                lift (SetUpConfigurations cwd sections (Targets.non_configuration_keys globals) target
                        (build_file_of target) d)) flat_list targets;
  targets ← each_flat (fun target d =>
                lift (ProcessListFiltersInDict search (S (ListFilters.depth (VDict d))) target d))
              flat_list targets;
  targets ← expand_targets PHASE_LATELATE vars flat_list targets;
  each_flat (fun target d => lift (validate target d)) flat_list targets.

(** The files one after the other *)
Definition load_serial (build_files includes : list string) (depth : string) (vars : hdict) : M loading :=
  loop (fun l build_file =>
          reraise (ExceptionAppend ("while trying to load " +:+ build_file))
            (LoadTargetBuildFile includes depth fuel build_file l))
    (Loading (Build_loaded [] ∅) [] vars) (iteration (remove_dups (map normpath build_files))).
(** What the parallel loader leaves; the workers have set [DEPTH] in their own
    copies of [variables]. *)
Definition parallel_result (s : ParallelState) (vars : hdict) : loading :=
  Loading (Build_loaded (Parallel.data s) ∅) (elements (Parallel.target_build_files s)) vars.

Definition dict_data (data : list (string * val)) : list (string * dict) :=
  omap (fun kv => match kv.2 with VDict d => Some (kv.1, d) | _ => None end) data.

Definition process_loaded (l : loading) : M (list string * list (string * dict) * list (string * dict)) :=
  let target_files := iteration (target_build_files l) in
  '(flat_list, targets, data) ← lift (order_targets target_files (dict_data (BuildFiles.data (files l))));
  targets ← finish_targets (variables l) flat_list targets;
  let targets := map (fun kv => (kv.1, TurnIntIntoStrInDict kv.2)) targets in
  let data := map (fun kv => (kv.1, TurnIntIntoStrInDict kv.2)) data in
  data ← lift (with_all_targets target_files targets data);
  mret (flat_list, targets, data).

(** [Load] without [parallel] *)
Definition Load (build_files includes : list string) (depth : string) (vars : hdict)
    : M (list string * list (string * dict) * list (string * dict)) :=
  l ← load_serial build_files includes depth vars; process_loaded l.
End Targets.
End Load.

(** ** An example

    [a/a.gyp] depends on [b/c/d.gyp], which is loaded last. *)
Section DepthExample.
Definition text (s : string) : node := Const (CStr s).
Definition gyp_file (items : list (string * node)) : option module_ast :=
  Some {| doc := None; statements := [Discard (Dict (map (fun kv => (text kv.1, kv.2)) items))] |}.
Definition target (items : list (string * node)) : node :=
  Dict (map (fun kv => (text kv.1, kv.2)) items).
Definition example_contents (file : string) : option module_ast :=
  if String.eqb file "a/a.gyp" then
    gyp_file [("targets", List [target
      [("target_name", text "a"); ("type", text "none");
       ("dependencies", List [text "../b/c/d.gyp:d"]);
       ("early", text "<(DEPTH)"); ("late", text ">(DEPTH)")]])]
  else if String.eqb file "b/c/d.gyp" then
    gyp_file [("targets", List [target [("target_name", text "d"); ("type", text "none")]])]
  else None.
Definition example_load : res (list string * list (string * dict) * list (string * dict)) :=
  match Load "/w" (SetGeneratorGlobals [] [] false) (Build_generator_input_info [] false false)
          example_contents (fun _ => Ok (VInt 0)) true (fun _ _ => Ok false) false None
          (fun _ _ _ => {| p_stdout := ""; p_stderr := ""; returncode := 0 |})
          (fun _ _ _ => Ok "") (fun _ => Ok (VInt 0)) (fun _ _ => Ok true) 30 (fun l => l)
          pop_first true [] ["a/a.gyp"] [] "." [] empty_state with
  | Ok (r, _) => Ok r | Err e => Err e | NoFuel => NoFuel
  end.
End DepthExample.

(** The late phase sees the [DEPTH] of the file that was loaded last. *)
Example late_depth :
  match example_load with
  | Ok (_, targets, _) =>
      (OrderedDict.assoc "a/a.gyp:a#target" targets ≫= dget "configurations") =
      Some (VDict [("Default", VDict [("early", VStr ".."); ("late", VStr "../..")])])
  | _ => False
  end.
Proof. vm_compute. reflexivity. Qed.

(** ** What is loaded *)
Section Loaded.
Context (cwd : string).

(** [x] was loaded and has a dependency in the file [y]. *)
Definition depends_on (st : loaded) (x y : string) : Prop :=
  exists d ds, OrderedDict.assoc x (BuildFiles.data st) = Some (VDict d) /\
    dependency_files cwd x d = Ok (map Some ds) /\ y ∈ ds.
Definition has_dependencies (l : loading) (x : string) : Prop :=
  exists d ds, OrderedDict.assoc x (BuildFiles.data (files l)) = Some (VDict d) /\
    dependency_files cwd x d = Ok (map Some ds) /\ forall y, y ∈ ds -> y ∈ target_build_files l.

Definition depends_in (l : loading) (x y : string) : Prop :=
  depends_on (files l) x y /\ x ∈ target_build_files l /\ y ∈ target_build_files l.

(** From [l] to [l'], the files that [fs] lead to were loaded. *)
Record load_post (fs : list string) (l l' : loading) : Prop := {
  lp_new f : f ∈ target_build_files l -> f ∈ target_build_files l';
  lp_nodup : NoDup (target_build_files l) -> NoDup (target_build_files l');
  lp_in f : f ∈ fs -> f ∈ target_build_files l';
  lp_kept g v : g ∈ target_build_files l -> OrderedDict.assoc g (BuildFiles.data (files l)) = Some v ->
    OrderedDict.assoc g (BuildFiles.data (files l')) = Some v;
  lp_closed g : g ∈ target_build_files l' -> g ∉ target_build_files l -> has_dependencies l' g;
  lp_reach g : g ∈ target_build_files l' -> g ∉ target_build_files l ->
    exists f, f ∈ fs /\ rtc (depends_in l') f g }.

Lemma load_post_nil l : load_post [] l l.
Proof. split; try done. by intros f ?%not_elem_of_nil. Qed.

Lemma has_dependencies_mono fs l l' g : load_post fs l l' -> g ∈ target_build_files l ->
  has_dependencies l g -> has_dependencies l' g.
Proof.
  intros H Hg (d & ds & Hd & Hds & Hin). exists d, ds. split_and!; [by eapply lp_kept|done|].
  intros y Hy. eapply lp_new; eauto.
Qed.
Lemma depends_in_mono fs l l' f g : load_post fs l l' ->
  rtc (depends_in l) f g -> rtc (depends_in l') f g.
Proof.
  intros H. apply rtc_subrel. intros x y ((d & ds & Hd & Hds & Hy) & Hx & Hy').
  split_and!; [|by eapply lp_new..]. exists d, ds. split_and!; [by eapply lp_kept|done..].
Qed.

Lemma load_post_app fs gs l l1 l2 : load_post fs l l1 -> load_post gs l1 l2 -> load_post (fs ++ gs) l l2.
Proof.
  intros H K. split.
  - intros f Hf. by eapply lp_new, lp_new.
  - intros Hnd. by eapply lp_nodup, lp_nodup.
  - intros f [Hf|Hf]%elem_of_app; [by eapply lp_new, lp_in|by eapply lp_in].
  - intros g v Hg Hv. eapply lp_kept; [done|by eapply lp_new|by eapply lp_kept].
  - intros g Hg Hn. destruct (decide (g ∈ target_build_files l1)) as [Hg1|Hg1].
    + eapply has_dependencies_mono; [done..|by eapply lp_closed].
    + by eapply lp_closed.
  - intros g Hg Hn. destruct (decide (g ∈ target_build_files l1)) as [Hg1|Hg1].
    + destruct (lp_reach _ _ _ H g Hg1 Hn) as (f & Hf & Hr). exists f.
      split; [apply elem_of_app; by left|by eapply depends_in_mono].
    + destruct (lp_reach _ _ _ K g Hg Hg1) as (f & Hf & Hr). exists f.
      split; [apply elem_of_app; by right|done].
Qed.
End Loaded.

Section LoadingLemmas.
Context (cwd : string) (globals : generator_globals).
Context (contents : string -> option module_ast) (eval : module_ast -> res val) (check : bool).
Context (search : string -> string -> res bool) (windows : bool).
Context (filelist : option filelist_paths).
Context (popen : nat -> command -> option string -> process_result).
Context (do_main : nat -> list string -> option string -> res string).
Context (eval_list : string -> res val) (eval_condition : string -> dict -> res bool).
Context (fuel : nat) (includes : list string) (depth : string).

Abbreviation load_file_ := (load_file cwd globals contents eval check search windows filelist popen
  do_main eval_list eval_condition fuel includes depth).
Abbreviation load_target := (LoadTargetBuildFile cwd globals contents eval check search windows filelist
  popen do_main eval_list eval_condition fuel includes depth).

(** The state in which a file that was not loaded before is read *)
Definition entered (file : string) (l : loading) : loading :=
  Loading (files l) (target_build_files l ++ [file])%list (set_depth_h cwd depth file (variables l)).

(** Loading the files [fs] in order from [l] and [s] makes the call
    [load_file f l' s']: for the first of the files, for one that it leads to, or
    for a later one. *)
Inductive calls : list string -> loading -> state -> string -> loading -> state -> Prop :=
  | calls_first file fs l s :
      file ∉ target_build_files l -> calls (file :: fs) l s file (entered file l) s
  | calls_inside file fs l s deps l1 s1 f l' s' :
      file ∉ target_build_files l ->
      load_file_ file (entered file l) s = Ok ((deps, l1), s1) ->
      calls deps l1 s1 f l' s' -> calls (file :: fs) l s f l' s'
  | calls_later file fs l s budget l1 s1 f l' s' :
      load_target budget file l s = Ok (l1, s1) ->
      calls fs l1 s1 f l' s' -> calls (file :: fs) l s f l' s'.

Lemma file_names l acc names :
  foldM (fun acc (f : option string) => f ← of_option (TypeError "expected a file name") f;
                       Ok (acc ++ [f])%list) acc l = Ok names ->
  exists new, names = (acc ++ new)%list /\ l = map Some new.
Proof.
  revert acc; induction l as [|f l IH]; intros acc; cbn [foldM].
  - intros [= <-]. exists []. by rewrite app_nil_r.
  - intros (acc' & H & Hl)%bind_ok. apply bind_ok in H as (g & Hg & [= <-]).
    apply of_option_ok in Hg as ->. destruct (IH _ Hl) as (new & -> & ->).
    exists (g :: new). by rewrite <- app_assoc.
Qed.

Lemma load_file_spec file l s deps l' s' : load_file_ file l s = Ok ((deps, l'), s') ->
  target_build_files l' = target_build_files l /\
  (exists d, OrderedDict.assoc file (BuildFiles.data (files l')) = Some (VDict d) /\
     dependency_files cwd file d = Ok (map Some deps)) /\
  (forall g v, g <> file -> OrderedDict.assoc g (BuildFiles.data (files l)) = Some v ->
     OrderedDict.assoc g (BuildFiles.data (files l')) = Some v).
Proof.
  unfold load_file. intros ([w st] & s1 & H1 & H)%M_bind_ok. apply lift_ok in H1 as [H1 ->].
  apply load_keeps in H1 as [Hk [x Hx]].
  repeat match goal with H : (_ ≫= _) _ = Ok _ |- _ => apply M_bind_ok in H as (? & ? & ? & H) end.
  repeat match goal with H : lift _ _ = Ok _ |- _ => apply lift_ok in H as [H ->] end.
  match goal with H : foldM _ [] _ = Ok _ |- _ => apply file_names in H as (new & -> & ->) end.
  injection H as <- <- _. cbn [target_build_files files app].
  split_and!; [done| |].
  - eexists. split; [|done]. unfold set_dict. cbn [BuildFiles.data]. rewrite Hx. cbn [update_at].
    by rewrite OrderedDict.assoc_set_lookup, decide_True.
  - intros g v Hg Hv. unfold set_dict. cbn [BuildFiles.data]. rewrite Hx.
    rewrite OrderedDict.assoc_set_lookup, decide_False by done. by apply Hk.
Qed.

Lemma loop_load_post budget msg deps l1 s1 l' s' :
  (forall file l s l' s', load_target budget file l s = Ok (l', s') -> load_post cwd [file] l l') ->
  loop (fun l dependency => reraise (ExceptionAppend (msg dependency)) (load_target budget dependency l))
    l1 deps s1 = Ok (l', s') -> load_post cwd deps l1 l'.
Proof.
  intros IH. revert l1 s1. induction deps as [|dep deps IHd]; intros l1 s1; cbn [loop].
  - intros [= <- _]. apply load_post_nil.
  - intros (l2 & s2 & H2%reraise_ok & H)%M_bind_ok.
    apply (load_post_app cwd [dep] deps l1 l2); [by eapply IH|by eapply IHd].
Qed.

Lemma load_target_spec budget file l s l' s' :
  load_target budget file l s = Ok (l', s') -> load_post cwd [file] l l'.
Proof.
  revert file l s l' s'. induction budget as [|budget IH]; intros file l s l' s'; [done|].
  cbn [LoadTargetBuildFile]. set (l0 := Loading _ _ (set_depth_h _ _ _ _)).
  change (target_build_files l0) with (target_build_files l).
  destruct (decide (file ∈ target_build_files l)) as [Hin|Hin].
  { intros [= <- _]. split; try done. by intros f ->%list_elem_of_singleton. }
  intros ([deps l1] & s1 & H1 & H)%M_bind_ok. apply load_file_spec in H1 as (Ht & (d & Hd & Hdeps) & Hk).
  cbn [target_build_files files l0] in Ht, Hk.
  apply loop_load_post in H as Hp; [|done]. clear H IH.
  assert (Hfile : file ∈ target_build_files l1) by (rewrite Ht; set_solver).
  assert (Hdep : has_dependencies cwd l' file).
  { exists d, deps. split_and!; [by eapply lp_kept|done|]. intros y. by apply (lp_in _ _ _ _ Hp). }
  split.
  - intros f Hf. eapply lp_new; [done|]. rewrite Ht. set_solver.
  - intros Hnd. eapply lp_nodup; [done|]. rewrite Ht. by apply NoDup_snoc.
  - intros f ->%list_elem_of_singleton. by eapply lp_new.
  - intros g v Hg Hv. eapply lp_kept; [done|rewrite Ht; set_solver|]. apply Hk; [by intros ->|done].
  - intros g Hg Hn. destruct (decide (g = file)) as [->|Hne]; [done|].
    eapply lp_closed; [done..|]. rewrite Ht. set_solver.
  - intros g Hg Hn. exists file. split; [by left|]. destruct (decide (g = file)) as [->|Hne]; [constructor|].
    destruct (lp_reach _ _ _ _ Hp g Hg) as (f & Hf & Hr); [rewrite Ht; set_solver|].
    eapply rtc_l; [|done]. split_and!; [|by eapply lp_new|by eapply lp_in].
    exists d, deps. split_and!; [by eapply lp_kept|done..].
Qed.

(** The recursion ends: what is loaded is among the readable files, and each is
    loaded once. *)
Definition readable (U : gset string) (l : loading) : Prop :=
  forall g, is_Some (OrderedDict.assoc g (BuildFiles.data (files l))) -> g ∈ U.
Definition left_to_load (U : gset string) (l : loading) : nat :=
  size (U ∖ list_to_set (target_build_files l)).

Lemma load_file_readable (U : gset string) file l s deps l' s' :
  (forall f, contents f <> None -> f ∈ U) -> readable U l ->
  load_file_ file l s = Ok ((deps, l'), s') -> readable U l' /\ file ∈ U.
Proof.
  intros HU Hl H. pose proof (load_file_spec _ _ _ _ _ _ H) as (_ & (d & Hd & _) & _).
  assert (Hr : readable U l'); [|split; [done|apply Hr; by eexists]].
  revert H. unfold load_file. intros ([w st] & s1 & H1 & H)%M_bind_ok. apply lift_ok in H1 as [H1 ->].
  apply load_readable in H1.
  repeat match goal with H : (_ ≫= _) _ = Ok _ |- _ => apply M_bind_ok in H as (? & ? & ? & H) end.
  injection H as _ <- _. intros g Hg. cbn [files] in Hg. apply (adds_readable_set contents) in Hg as [Hg|Hg]; [|auto].
  apply H1 in Hg as [Hg|Hg]; auto.
Qed.

Lemma load_target_readable (U : gset string) budget file l s l' s' :
  (forall f, contents f <> None -> f ∈ U) -> readable U l ->
  load_target budget file l s = Ok (l', s') -> readable U l'.
Proof.
  intros HU. revert file l s l' s'. induction budget as [|budget IH]; intros file l s l' s' Hl; [done|].
  cbn [LoadTargetBuildFile]. case_decide; [by intros [= <- _]|].
  intros ([deps l1] & s1 & H1 & Hloop)%M_bind_ok. apply (load_file_readable U) in H1 as [H1 _]; [|done..].
  eapply (loop_inv (readable U)); [|exact H1|exact Hloop]. intros acc x s2 acc' s2' Hacc Hx%reraise_ok. by eapply IH.
Qed.

Lemma left_to_load_mono U l l' : (forall f, f ∈ target_build_files l -> f ∈ target_build_files l') ->
  left_to_load U l' <= left_to_load U l.
Proof. intros H. unfold left_to_load. apply subseteq_size. intros x. rewrite !elem_of_difference, !elem_of_list_to_set. intros [Hx Hn]. split; [done|]. intros Hx'. by apply Hn, H. Qed.

(** What is asked of the state that a loading starts from, for [budget] to do *)
Definition enough (U : gset string) (budget : nat) (l : loading) : Prop :=
  readable U l /\ left_to_load U l < budget.
Definition stuck_in (fs : list string) (l : loading) (s : state) : Prop :=
  exists f l' s', calls fs l s f l' s' /\ load_file_ f l' s' = NoFuel.

Lemma enough_after (U : gset string) budget n file l s l' s' :
  (forall f, contents f <> None -> f ∈ U) -> enough U n l ->
  load_target budget file l s = Ok (l', s') -> enough U n l'.
Proof.
  intros HU [Hr Hleft] H. split; [by eapply load_target_readable|].
  eapply Nat.le_lt_trans; [|exact Hleft]. apply left_to_load_mono. intros f Hf.
  apply load_target_spec in H. by eapply lp_new.
Qed.

(** Reading a file leaves one file less to load. *)
Lemma enough_entered (U : gset string) budget file l s deps l1 s1 :
  (forall f, contents f <> None -> f ∈ U) -> enough U (S budget) l ->
  file ∉ target_build_files l -> load_file_ file (entered file l) s = Ok ((deps, l1), s1) ->
  enough U budget l1.
Proof.
  intros HU [Hr Hleft] Hin E. pose proof (load_file_spec _ _ _ _ _ _ E) as (Ht & _ & _).
  apply (load_file_readable U) in E as [Hl1 Hfile]; [|done|done]. split; [done|].
  eapply Nat.lt_le_trans; [|apply Nat.lt_succ_r, Hleft]. unfold left_to_load. rewrite Ht.
  apply subset_size. cbn [target_build_files entered].
  split; [intros x; rewrite !elem_of_difference, !elem_of_list_to_set; set_solver|].
  intros Hsub. specialize (Hsub file).
  rewrite !elem_of_difference, !elem_of_list_to_set in Hsub. set_solver.
Qed.

Lemma loop_fuel (U : gset string) budget msg fs l s :
  (forall f, contents f <> None -> f ∈ U) ->
  (forall file fs l s, enough U budget l -> load_target budget file l s = NoFuel ->
     stuck_in (file :: fs) l s) ->
  enough U budget l ->
  loop (fun l file => reraise (ExceptionAppend (msg file)) (load_target budget file l)) l fs s = NoFuel ->
  stuck_in fs l s.
Proof.
  intros HU IH. revert l s. induction fs as [|file fs IHfs]; intros l s Hl; cbn [loop]; [done|].
  rewrite M_bind_at. unfold reraise at 1.
  destruct (load_target budget file l s) as [[l1 s1]|e|] eqn:E; [|done|by intros _; apply IH].
  intros H. apply IHfs in H as (f & l' & s' & Hc & Hf); [|by eapply enough_after].
  exists f, l', s'. split; [by eapply calls_later|done].
Qed.

Lemma load_target_fuel (U : gset string) budget file fs l s :
  (forall f, contents f <> None -> f ∈ U) -> enough U budget l ->
  load_target budget file l s = NoFuel -> stuck_in (file :: fs) l s.
Proof.
  intros HU. revert file fs l s.
  induction budget as [|budget IH]; intros file fs l s Hl; [destruct Hl; lia|].
  cbn [LoadTargetBuildFile]. set (l0 := Loading _ _ (set_depth_h _ _ _ _)).
  change (target_build_files l0) with (target_build_files l). case_decide as Hin; [done|].
  rewrite M_bind_at. change (Loading _ (_ ++ _) _) with (entered file l).
  destruct (load_file_ file (entered file l) s) as [[[deps l2] s2]| |] eqn:E; [|done|].
  - intros H. apply (loop_fuel U) in H as (f & l' & s' & Hc & Hf); [|done..|by eapply enough_entered].
    exists f, l', s'. split; [by eapply calls_inside|done].
  - intros _. exists file, (entered file l), s. split; [by apply calls_first|done].
Qed.
End LoadingLemmas.

(** C23. Loading one file after the other: what it returns holds, each once, exactly
    the files that the given ones lead to over the dependencies of their targets, and
    every file is there with its data.  The recursion over the files ends, on cyclic
    dependencies as well: with a budget above the number of the readable files, the
    budget is used up only if one of the calls of [load_file] that the loading makes
    uses it up within that single file; if none does, the loading returns or raises. *)
Theorem load_serial_loads cwd globals contents eval check search windows filelist popen do_main
    eval_list eval_condition fuel iteration build_files includes depth vars s :
  (forall k x, x ∈ iteration k <-> x ∈ k) ->
  match load_serial cwd globals contents eval check search windows filelist popen do_main
          eval_list eval_condition fuel iteration build_files includes depth vars s with
  | Ok (l, _) =>
      NoDup (target_build_files l) /\
      (forall f, f ∈ target_build_files l <->
         exists b, b ∈ build_files /\ rtc (depends_on cwd (files l)) (normpath b) f) /\
      (forall f, f ∈ target_build_files l -> has_dependencies cwd l f)
  | NoFuel =>
      forall U : gset string, (forall f, contents f <> None -> f ∈ U) -> size U < fuel ->
      exists f l' s',
        calls cwd globals contents eval check search windows filelist popen do_main eval_list
          eval_condition fuel includes depth (iteration (remove_dups (map normpath build_files)))
          (Loading (Build_loaded [] ∅) [] vars) s f l' s' /\
        load_file cwd globals contents eval check search windows filelist popen do_main
          eval_list eval_condition fuel includes depth f l' s' = NoFuel
  | Err _ => True
  end.
Proof.
  intros Hit. destruct (load_serial _ _ _ _ _ _ _ _ _ _ _ _ _ _ _ _ _ _ _) as [[l s']| |] eqn:E; [|done|].
  - unfold load_serial in E. eapply loop_load_post in E as Hp; [|apply load_target_spec].
    set (l0 := Loading _ _ _) in Hp. assert (Hnil : forall f, f ∉ target_build_files l0) by (intros f ?%not_elem_of_nil; done).
    assert (Hclosed : forall f, f ∈ target_build_files l -> has_dependencies cwd l f).
    { intros f Hf. by eapply lp_closed. }
    split_and!; [apply (lp_nodup _ _ _ _ Hp); constructor| |done].
    assert (Hroot : forall x, x ∈ iteration (remove_dups (map normpath build_files)) <->
      exists b, b ∈ build_files /\ x = normpath b).
    { intros x. rewrite Hit, elem_of_remove_dups, list_elem_of_fmap. naive_solver. }
    intros f. split.
    + intros Hf. destruct (lp_reach _ _ _ _ Hp f Hf (Hnil f)) as (x & Hx & Hr).
      apply Hroot in Hx as (b & Hb & ->). exists b. split; [done|].
      eapply rtc_subrel; [|exact Hr]. by intros y z [? _].
    + intros (b & Hb & Hr). assert (Hn : normpath b ∈ target_build_files l).
      { apply (lp_in _ _ _ _ Hp), Hroot. by exists b. }
      clear -Hr Hn Hclosed. induction Hr as [x|x y z Hxy _ IH]; [done|]. apply IH.
      destruct Hxy as (d & ds & Hd & Hds & Hy). destruct (Hclosed x Hn) as (d' & ds' & Hd' & Hds' & Hin).
      rewrite Hd in Hd'. injection Hd' as <-. rewrite Hds in Hds'. injection Hds' as Heq.
      apply list_fmap_eq_inj in Heq as <-; [by apply Hin|by intros ? ? [= ->]].
  - intros U HU Hsize. eapply (loop_fuel _ _ _ _ _ _ _ _ _ _ _ _ _ _ _ U); [done| | |exact E].
    + intros file fs l s1. by apply load_target_fuel.
    + split; [by intros g [v Hv]|]. eapply Nat.le_lt_trans; [|exact Hsize].
      apply subseteq_size. set_solver.
Qed.

Lemma load_serial_loads_witness :
  let serial := load_serial "/w" (SetGeneratorGlobals [] [] false) example_contents (fun _ => Ok (VInt 0)) true
    (fun _ _ => Ok false) false None
    (fun _ _ _ => {| p_stdout := ""; p_stderr := ""; returncode := 0 |}) (fun _ _ _ => Ok "")
    (fun _ => Ok (VInt 0)) (fun _ _ => Ok true) 30 (fun l => l) ["./a/a.gyp"] [] "." [] in
  exists l s, serial empty_state = Ok (l, s) /\ target_build_files l = ["a/a.gyp"; "b/c/d.gyp"] /\
    forall f, f ∈ target_build_files l -> has_dependencies "/w" l f.
Proof.
  intros serial.
  pose proof (load_serial_loads "/w" (SetGeneratorGlobals [] [] false) example_contents (fun _ => Ok (VInt 0)) true
    (fun _ _ => Ok false) false None
    (fun _ _ _ => {| p_stdout := ""; p_stderr := ""; returncode := 0 |}) (fun _ _ _ => Ok "")
    (fun _ => Ok (VInt 0)) (fun _ _ => Ok true) 30 (fun l => l) ["./a/a.gyp"] [] "." [] empty_state
    (fun k x => iff_refl _)) as H.
  fold serial in H. destruct (serial empty_state) as [[l s]| |] eqn:E; [|by vm_compute in E..].
  exists l, s. split_and!; [done| |exact (proj2 (proj2 H))].
  vm_compute in E. injection E as <- _. done.
Defined.
