(* ===== verification/Analyzer.v ===== *)
(** * Which targets a change affects ([gyp/generator/analyzer.py])

    The analyzer is a gyp generator: it reads the result of [Load] and a list of
    changed files, and says which targets depend on them and which have to be built.
    A [Target] object is named by the qualified name of its target, so the objects
    are a [gmap]; Python's sets of them are sets of names.  [iteration] is the order
    in which Python iterates over a set or over the keys of a dictionary.  What is
    printed along the way is left out. *)
From stdpp Require Import sorting.
From S2P Require Import Prelude PyStr PyPath Common Ordered GypValue DepGraph Targets.
From stdpp Require Import options.

Definition found_dependency_string : string := "Found dependency".
Definition no_dependency_string : string := "No dependencies".
Definition all_changed_string : string := "Found dependency (all)".

(** The module's tables *)
Definition generator_default_variables : dict :=
  (map (fun name => (name, VStr "!!!"))
     ["INTERMEDIATE_DIR"; "SHARED_INTERMEDIATE_DIR"; "PRODUCT_DIR"; "LIB_DIR"; "SHARED_LIB_DIR"] ++
   map (fun name => (name, VStr ""))
     ["RULE_INPUT_PATH"; "RULE_INPUT_ROOT"; "RULE_INPUT_NAME"; "RULE_INPUT_DIRNAME"; "RULE_INPUT_EXT";
      "EXECUTABLE_PREFIX"; "EXECUTABLE_SUFFIX"; "STATIC_LIB_PREFIX"; "STATIC_LIB_SUFFIX";
      "SHARED_LIB_PREFIX"; "SHARED_LIB_SUFFIX"; "CONFIGURATION_NAME"])%list.
(** [d.setdefault(k, v)], and [CalculateVariables]; [common] is what
    [msvs_emulation.CalculateCommonVariables] sets. *)
Definition setdefault (k : string) (v : val) (d : dict) : dict := if dmem k d then d else dset k v d.
Definition CalculateVariables (common : dict -> dict) (flavor : string) (default_variables : dict) : dict :=
  if String.eqb flavor "mac" then setdefault "OS" (VStr "mac") default_variables
  else if String.eqb flavor "win" then common (setdefault "OS" (VStr "win") default_variables)
  else setdefault "OS" (VStr (if String.eqb flavor "android" then "linux" else flavor)) default_variables.

Inductive MatchStatus :=
  | MATCH_STATUS_MATCHES
  | MATCH_STATUS_MATCHES_BY_DEPENDENCY
  | MATCH_STATUS_DOESNT_MATCH
  | MATCH_STATUS_TBD.

Record Target := {
  deps : gset string;
  match_status : MatchStatus;
  back_deps : gset string;
  visited : bool;
  requires_build : bool;
  added_to_compile_targets : bool;
  in_roots : bool;
  is_executable : bool;
}.
Definition Target_init : Target := {|
  deps := ∅; match_status := MATCH_STATUS_TBD; back_deps := ∅; visited := false;
  requires_build := false; added_to_compile_targets := false; in_roots := false;
  is_executable := false |}.
Abbreviation targets_map := (gmap string Target).

(** An object that a program holds is there. *)
Definition object (targets : targets_map) (name : string) : Target :=
  default Target_init (targets !! name).

Definition with_status (m : MatchStatus) (t : Target) : Target := {|
  deps := deps t; match_status := m; back_deps := back_deps t; visited := visited t;
  requires_build := requires_build t; added_to_compile_targets := added_to_compile_targets t;
  in_roots := in_roots t; is_executable := is_executable t |}.
Definition with_visited (b : bool) (t : Target) : Target := {|
  deps := deps t; match_status := match_status t; back_deps := back_deps t; visited := b;
  requires_build := requires_build t; added_to_compile_targets := added_to_compile_targets t;
  in_roots := in_roots t; is_executable := is_executable t |}.
Definition with_kind (requires executable : bool) (t : Target) : Target := {|
  deps := deps t; match_status := match_status t; back_deps := back_deps t; visited := visited t;
  requires_build := requires; added_to_compile_targets := added_to_compile_targets t;
  in_roots := in_roots t; is_executable := executable |}.
Definition with_build (added roots : bool) (t : Target) : Target := {|
  deps := deps t; match_status := match_status t; back_deps := back_deps t; visited := visited t;
  requires_build := requires_build t; added_to_compile_targets := added;
  in_roots := roots; is_executable := is_executable t |}.
Definition add_dep (d : string) (t : Target) : Target := {|
  deps := deps t ∪ {[d]}; match_status := match_status t; back_deps := back_deps t;
  visited := visited t; requires_build := requires_build t;
  added_to_compile_targets := added_to_compile_targets t; in_roots := in_roots t;
  is_executable := is_executable t |}.
Definition add_back_dep (d : string) (t : Target) : Target := {|
  deps := deps t; match_status := match_status t; back_deps := back_deps t ∪ {[d]};
  visited := visited t; requires_build := requires_build t;
  added_to_compile_targets := added_to_compile_targets t; in_roots := in_roots t;
  is_executable := is_executable t |}.
Definition update (f : Target -> Target) (name : string) (targets : targets_map) : targets_map :=
  <[name := f (object targets name)]> targets.

(** ** Paths

    [windows] says that [os.sep] is the backslash. *)
Section Paths.
Context (windows : bool).

Definition backslash : ascii := "092"%char.
Definition _ToGypPath (path : string) : string :=
  if windows then str_replace (String backslash "") "/" path else path.

(** [while path.startswith('../')]: how often, and what is left *)
Fixpoint parents (path : string) : nat * string :=
  match path with
  | String _ (String _ (String _ rest)) =>
      if startswith "../" path then let '(depth, rest) := parents rest in (S depth, rest)
      else (0, path)
  | _ => (0, path)
  end.
Definition _ResolveParent (path : string) (base_path_components : list string) : string :=
  let '(depth, path) := parents path in
  let components := length base_path_components in
  if components <? depth then ""
  else if depth =? components then path
  else join "/" (take (components - depth) base_path_components) +:+ "/" +:+ path.

(** One iteration of [_AddSources]: what is appended *)
Definition add_source (base_path : string) (base_path_components : list string) (source : val)
    : res (list string) :=
  match source with
  | VInt _ => Err (TypeError "object of type 'int' has no len()")
  | VList [] | VDict [] => Ok []
  | VList _ | VDict _ => Err (AttributeError "startswith")
  | VStr source =>
      if String.eqb source "" || startswith "!!!" source || startswith "$" source then Ok []
      else
        let source := str_take 1 source +:+ str_replace "//" "/" (str_drop 1 source) in
        if startswith "../" source then
          let source := _ResolveParent source base_path_components in
          if String.eqb source "" then Ok [] else Ok [source]
        else Ok [base_path +:+ source]
  end.
Definition _AddSources (sources : val) (base_path : string) (base_path_components : list string)
    (result : list string) : res (list string) :=
  sources ← iterate sources;
  foldM (fun result source =>
           new ← add_source base_path base_path_components source; Ok (result ++ new)%list)
    result sources.

(** ['inputs' in action] is about the characters of a text and the members of a list. *)
Definition _ExtractSourcesFromAction (action : val) (base_path : string)
    (base_path_components : list string) (results : list string) : res (list string) :=
  match action with
  | VDict d =>
      match dget "inputs" d with
      | Some inputs => _AddSources inputs base_path base_path_components results
      | None => Ok results
      end
  | VStr s => if contains "inputs" s then Err (TypeError "string indices must be integers") else Ok results
  | VList l =>
      if bool_decide (VStr "inputs" ∈ l) then Err (TypeError "list indices must be integers, not str")
      else Ok results
  | VInt _ => Err (TypeError "argument of type 'int' is not iterable")
  end.

Definition _ToLocalPath (toplevel_dir path : string) : string :=
  if String.eqb path toplevel_dir then ""
  else if startswith (toplevel_dir +:+ "/") path then
    str_drop (String.length toplevel_dir + 1) path
  else path.

Definition _ExtractSources (target : string) (target_dict : dict) (toplevel_dir : string)
    : res (list string) :=
  let base_path := dirname (_ToLocalPath toplevel_dir (_ToGypPath target)) in
  let base_path_components := split_char "/" base_path in
  let base_path := if String.eqb base_path "" then base_path else base_path +:+ "/" in
  results ← match dget "sources" target_dict with
            | Some sources => _AddSources sources base_path base_path_components []
            | None => Ok []
            end;
  results ← match dget "actions" target_dict with
            | Some actions =>
                actions ← iterate actions;
                foldM (fun results action =>
                         _ExtractSourcesFromAction action base_path base_path_components results)
                  results actions
            | None => Ok results
            end;
  match dget "rules" target_dict with
  | Some rules =>
      rules ← iterate rules;
      foldM (fun results rule =>
               _ExtractSourcesFromAction rule base_path base_path_components results)
        results rules
  | None => Ok results
  end.

(** [len(l)] and [l[1:]] of the included files *)
Definition included_tail (v : val) : res (list val) :=
  match v with
  | VList l => Ok (tail l)
  | VStr s => Ok (tail (chars s))
  | VDict d => if length d <=? 1 then Ok [] else Err (TypeError "unhashable type")
  | VInt _ => Err (TypeError "object of type 'int' has no len()")
  end.
Fixpoint any_included_in (build_file : string) (include_files : list val) (files : gset string)
    (toplevel_dir : string) : res bool :=
  match include_files with
  | [] => Ok false
  | include_file :: include_files =>
      include_file ← as_string "startswith" include_file;
      let rel_include_file := _ToGypPath (UnrelativePath include_file build_file) in
      if bool_decide (_ToLocalPath toplevel_dir rel_include_file ∈ files) then Ok true
      else any_included_in build_file include_files files toplevel_dir
  end.
Definition _WasBuildFileModified (build_file : option string) (data : list (string * dict))
    (files : gset string) (toplevel_dir : string) : res bool :=
  build_file ← of_option (AttributeError "startswith") build_file;
  if bool_decide (_ToLocalPath toplevel_dir (_ToGypPath build_file) ∈ files) then Ok true
  else
    d ← of_option (KeyError build_file) (OrderedDict.assoc build_file data);
    included_files ← dindex "included_files" d;
    include_files ← included_tail included_files;
    any_included_in build_file include_files files toplevel_dir.
End Paths.

(** ** Building the graph of targets *)
Record generated := Generated {
  targets : targets_map;
  matching_targets : list string;
  roots : gset string;
  build_file_targets : gset string;
  build_file_in_files : gmap string bool;
}.

Definition _GetOrCreateTargetByName (targets : targets_map) (target_name : string)
    : bool * targets_map :=
  match targets !! target_name with
  | Some _ => (false, targets)
  | None => (true, <[target_name := Target_init]> targets)
  end.

Definition target_type (target_dict : dict) : res val := dindex "type" target_dict.
Definition _DoesTargetTypeRequireBuild (target_dict : dict) : res bool :=
  type ← target_type target_dict;
  Ok (negb (bool_decide (type = VStr "none")) || get_truthy "actions" target_dict ||
      get_truthy "rules" target_dict).

Section Generate.
Context (windows : bool) (data : list (string * dict)) (target_dicts : list (string * dict)).
Context (toplevel_dir : string) (files : gset string) (build_files : list string).

Definition dict_of (target_name : string) : res dict :=
  of_option (KeyError target_name) (OrderedDict.assoc target_name target_dicts).
(** [target_dict.get('dependencies', [])], whose items are keys *)
Definition dependency_names (target_dict : dict) : res (list string) :=
  dependencies ← get_list "dependencies" target_dict;
  foldM (fun names dep => dep ← as_key dep; Ok (names ++ [dep])%list) [] dependencies.

(** Is the build file among the files?  It is looked at once. *)
Definition build_file_modified (build_file : option string) (known : gmap string bool)
    : res (bool * gmap string bool) :=
  match build_file ≫= fun f => known !! f with
  | Some b => Ok (b, known)
  | None =>
      b ← _WasBuildFileModified windows build_file data files toplevel_dir;
      Ok (b, match build_file with Some f => <[f := b]> known | None => known end)
  end.
(** Does the target match? *)
Definition target_matches (target_name : string) (target_dict : dict) (modified : bool) : res bool :=
  if modified then Ok true
  else
    sources ← _ExtractSources windows target_name target_dict toplevel_dir;
    Ok (existsb (fun source => bool_decide (source ∈ files)) sources).

(** A dependency is created if need be, is no root any more, and linked both ways. *)
Definition link_dep (target_name : string) (st : generated) (dep : string) : generated :=
  let '(created_dep_target, objects) := _GetOrCreateTargetByName (targets st) dep in
  Generated (update (add_back_dep target_name) dep (update (add_dep dep) target_name objects))
    (matching_targets st) (if created_dep_target then roots st else roots st ∖ {[dep]})
    (build_file_targets st) (build_file_in_files st).

(** What is noted of a target when it is visited *)
Definition mark (requires executable matches : bool) (t : Target) : Target :=
  let t := with_kind requires executable (with_visited true t) in
  if matches then with_status MATCH_STATUS_MATCHES t else t.
Definition note_visit (target_name : string) (requires executable matches in_build_files : bool)
    (known : gmap string bool) (st : generated) : generated :=
  Generated (update (mark requires executable matches) target_name (targets st))
    (if matches then matching_targets st ++ [target_name] else matching_targets st)%list
    (roots st)
    (if in_build_files then {[target_name]} ∪ build_file_targets st else build_file_targets st)
    known.
Definition in_build_files (build_file : option string) : bool :=
  match build_file with Some f => bool_decide (f ∈ build_files) | None => false end.
(** A target that was not visited: its dependencies, to be visited, and the state *)
Definition visit_target (target_name : string) (st : generated) : res (list string * generated) :=
  target_dict ← dict_of target_name;
  requires ← _DoesTargetTypeRequireBuild target_dict;
  type ← target_type target_dict;
  let build_file := BuildFile target_name in
  '(modified, known) ← build_file_modified build_file (build_file_in_files st);
  matches ← target_matches target_name target_dict modified;
  let st := note_visit target_name requires (bool_decide (type = VStr "executable")) matches
              (in_build_files build_file) known st in
  dependencies ← dependency_names target_dict;
  Ok (dependencies, foldl (link_dep target_name) st dependencies).

(** The list is popped from its end, which is the head of [targets_to_visit]. *)
Fixpoint generate_loop (fuel : nat) (targets_to_visit : list string) (st : generated) : res generated :=
  match targets_to_visit with
  | [] => Ok st
  | target_name :: targets_to_visit =>
      match fuel with
      | 0 => NoFuel
      | S fuel =>
          let '(created_target, objects) := _GetOrCreateTargetByName (targets st) target_name in
          if negb created_target && visited (object objects target_name) then
            generate_loop fuel targets_to_visit st
          else
            '(dependencies, st) ← visit_target target_name
              (Generated objects (matching_targets st)
                 (if created_target then {[target_name]} ∪ roots st else roots st)
                 (build_file_targets st) (build_file_in_files st));
            generate_loop fuel (rev dependencies ++ targets_to_visit)%list st
      end
  end.

(** Each target is visited once, so each dependency is popped once. *)
Definition dependency_count (target_dict : dict) : nat :=
  match get_list "dependencies" target_dict with Ok l => length l | _ => 0 end.
Definition generate_fuel (target_list : list string) : nat :=
  length target_list + sum_list_with (fun kv => dependency_count kv.2) target_dicts.

Definition _GenerateTargets (target_list : list string) : res (targets_map * list string * gset string) :=
  st ← generate_loop (generate_fuel target_list) (rev target_list) (Generated ∅ [] ∅ ∅ ∅);
  Ok (targets st, matching_targets st, roots st ∩ build_file_targets st).
End Generate.

(** ** Asking the graph *)
Section Search.
Context (iteration : list string -> list string).

(** Every supplied name gets the first target that has it. *)
Fixpoint find_unqualified (names : list string) (all_targets : targets_map) (to_find : gset string)
    (result : gmap string string) : gmap string string :=
  match names with
  | [] => result
  | target_name :: names =>
      let target := (ParseQualifiedTarget target_name).1.2 in
      if decide (target ∈ to_find) then
        let to_find := to_find ∖ {[target]} in
        let result := <[target := target_name]> result in
        if decide (to_find = ∅) then result
        else find_unqualified names all_targets to_find result
      else find_unqualified names all_targets to_find result
  end.
Definition _GetUnqualifiedToTargetMapping (all_targets : targets_map) (to_find : gset string)
    : gmap string string :=
  if decide (to_find = ∅) then ∅
  else find_unqualified (iteration (map_to_list all_targets).*1) all_targets to_find ∅.

(** The first dependency that [depends] settles it. *)
Fixpoint any_dep (depends : targets_map -> string -> res (bool * targets_map)) (targets : targets_map)
    (deps : list string) : res (bool * targets_map) :=
  match deps with
  | [] => Ok (false, targets)
  | dep :: deps =>
      '(found, targets) ← depends targets dep;
      if (found : bool) then Ok (true, targets) else any_dep depends targets deps
  end.
Fixpoint _DoesTargetDependOn (fuel : nat) (targets : targets_map) (target : string)
    : res (bool * targets_map) :=
  match fuel with
  | 0 => NoFuel
  | S fuel =>
      match match_status (object targets target) with
      | MATCH_STATUS_DOESNT_MATCH => Ok (false, targets)
      | MATCH_STATUS_MATCHES | MATCH_STATUS_MATCHES_BY_DEPENDENCY => Ok (true, targets)
      | MATCH_STATUS_TBD =>
          '(found, targets) ← any_dep (_DoesTargetDependOn fuel) targets
                                (iteration (elements (deps (object targets target))));
          Ok (found, update (with_status (if (found : bool) then MATCH_STATUS_MATCHES_BY_DEPENDENCY
                                          else MATCH_STATUS_DOESNT_MATCH)) target targets)
      end
  end.
Definition _GetTargetsDependingOn (fuel : nat) (targets : targets_map) (possible_targets : list string)
    : res (list string * targets_map) :=
  foldM (fun '(found, targets) target =>
           '(depends, targets) ← _DoesTargetDependOn fuel targets target;
           Ok (if (depends : bool) then found ++ [target] else found, targets)%list)
    ([], targets) possible_targets.

Section Build.
Context (roots : gset string).

(** After the back dependency [b] was added: [target.added |= b.added], and so on. *)
Definition absorb (b : string) (target : string) (targets : targets_map) : targets_map :=
  let o := object targets b in
  update (fun t => with_build (added_to_compile_targets t || added_to_compile_targets o)
                              (in_roots t || in_roots o) t) target targets.
Definition to_be_built (add_if_no_ancestor : bool) (t : Target) : bool :=
  in_roots t && (is_executable t ||
                 (negb (added_to_compile_targets t) && (add_if_no_ancestor || requires_build t))).
Fixpoint _AddBuildTargets (fuel : nat) (add_if_no_ancestor : bool) (st : targets_map * gset string)
    (target : string) : res (targets_map * gset string) :=
  match fuel with
  | 0 => NoFuel
  | S fuel =>
      let '(targets, result) := st in
      if visited (object targets target) then Ok (targets, result)
      else
        let is_root := bool_decide (back_deps (object targets target) = ∅) && bool_decide (target ∈ roots) in
        let targets := update (fun t => with_build (added_to_compile_targets t) is_root
                                          (with_visited true t)) target targets in
        '(targets, result) ← foldM (fun st back_dep_target =>
              '(targets, result) ← _AddBuildTargets fuel false st back_dep_target;
              Ok (absorb back_dep_target target targets, result))
            (targets, result) (iteration (elements (back_deps (object targets target))));
        if to_be_built add_if_no_ancestor (object targets target) then
          Ok (update (fun t => with_build true (in_roots t) t) target targets, {[target]} ∪ result)
        else Ok (targets, result)
  end.
Definition _GetBuildTargets (fuel : nat) (targets : targets_map) (matching_targets : list string)
    : res (targets_map * gset string) :=
  foldM (_AddBuildTargets fuel true) (targets, ∅) matching_targets.
End Build.

Definition _NamesNotIn (names : list string) (mapping : gmap string string) : list string :=
  filter (fun name => mapping !! name = None) names.
Definition _LookupTargets (names : list string) (mapping : gmap string string) : list string :=
  omap (fun name => mapping !! name) names.

(** ** The output *)
Record values := Values {
  v_targets : option (list string);
  v_status : option string;
  v_build_targets : option (list string);
  v_invalid_targets : option (list string);
  v_error : option string;
}.
(** What is written, to the file [analyzer_output_path] or to the standard output *)
Definition _WriteOutput (v : values) : values :=
  let sort := option_map (merge_sort string_le) in
  Values (sort (v_targets v)) (v_status v) (sort (v_build_targets v)) (sort (v_invalid_targets v))
    (v_error v).

(** The configuration file, once it was read as JSON: what it says of ["files"] and of
    ["targets"], which are lists of texts. *)
Inductive config_file :=
  | Unreadable
  | Unparsable (error : string)
  | NotADictionary
  | Config (files targets : option (list string)).
Definition Init (config_path : option string) (read : string -> config_file)
    : res (list string * gset string) :=
  match config_path with
  | None => Ok ([], ∅)
  | Some config_path =>
      if String.eqb config_path "" then Ok ([], ∅)
      else
        match read config_path with
        | Unreadable => Err (Exception_ ("Unable to open file " +:+ config_path))
        | Unparsable e => Err (Exception_ ("Unable to parse config file " +:+ config_path +:+ e))
        | NotADictionary => Err (Exception_ "config_path must be a JSON file containing a dictionary")
        | Config files targets => Ok (default [] files, list_to_set (default [] targets))
        end
  end.
End Search.

(** [str(e)], the [repr] of a key written with single quotes *)
Definition exn_text (e : exn) : string :=
  match e with
  | GypError s | TypeError s | ValueError s | RuntimeError s | Exception_ s => s
  | AttributeError s | NameError s | ScriptError s => s
  | KeyError s => "'" +:+ s +:+ "'"
  | _ => ""
  end.

Record params := {
  includes : list string;
  toplevel_dir : string;
  config_path : option string;
  build_files : list string;
}.

Section GenerateOutput.
Context (cwd : string) (windows : bool) (iteration : list string -> list string).
Context (read : string -> config_file).

Definition _WasGypIncludeFileModified (p : params) (files : list string) : bool :=
  existsb (fun include => bool_decide (_ToGypPath windows include ∈ files)) (includes p).

Definition unqualified (names : list string) : list string :=
  map (fun name => (ParseQualifiedTarget name).1.2) names.

(** The two answers, when something matched *)
Definition answer (fuel : nat) (all_targets : targets_map) (matching_targets : list string)
    (roots : gset string) (search_targets : list string) : res (list string * list string) :=
  '(matched_search_targets, all_targets) ← _GetTargetsDependingOn iteration fuel all_targets search_targets;
  let all_targets := with_visited false <$> all_targets in
  '(_, build_targets) ← _GetBuildTargets iteration roots fuel all_targets matching_targets;
  Ok (unqualified matched_search_targets, unqualified (iteration (elements build_targets))).

Definition analyze (target_list : list string) (target_dicts data : list (string * dict)) (p : params)
    : res values :=
  '(files, targets) ← Init (config_path p) read;
  _ ← (if bool_decide (files = []) then
         Err (Exception_ "Must specify files to analyze via config_path generator flag")
       else Ok tt);
  let toplevel_dir := _ToGypPath windows (abspath cwd (toplevel_dir p)) in
  if _WasGypIncludeFileModified p files then
    Ok (_WriteOutput (Values (Some (iteration (elements targets))) (Some all_changed_string) None None None))
  else
    '(all_targets, matching_targets, roots) ←
      _GenerateTargets windows data target_dicts toplevel_dir (list_to_set files) (build_files p) target_list;
    let mapping := _GetUnqualifiedToTargetMapping iteration all_targets targets in
    let names := iteration (elements targets) in
    let invalid_targets := if size mapping =? size targets then [] else _NamesNotIn names mapping in
    '(matched_search_targets, build_targets) ←
      (if bool_decide (matching_targets = []) then Ok ([], [])
       else answer (S (length target_list)) all_targets matching_targets roots
              (_LookupTargets names mapping));
    Ok (_WriteOutput (Values (Some matched_search_targets)
          (Some (if bool_decide (matching_targets = []) then no_dependency_string
                 else found_dependency_string))
          (Some build_targets)
          (if bool_decide (invalid_targets = []) then None else Some invalid_targets) None)).
Definition GenerateOutput (target_list : list string) (target_dicts data : list (string * dict))
    (p : params) : res values :=
  match analyze target_list target_dicts data p with
  | Err e => Ok (_WriteOutput (Values None None None None (Some (exn_text e))))
  | r => r
  end.
End GenerateOutput.
