(* ===== verification/AnalyzerProps.v ===== *)
(** * The analyzer's answers are right ([gyp/generator/analyzer.py])

    The graph of targets is the one of the dependencies; the search with its three
    marks decides reachability; the targets to build cover what was changed. *)
From S2P Require Import Prelude PyStr PyPath Common Ordered GypValue DepGraph Targets Analyzer.
From stdpp Require Import options.

Lemma object_update f x y targets :
  object (update f x targets) y = if decide (y = x) then f (object targets x) else object targets y.
Proof. unfold object at 1, update. case_decide; [subst; by rewrite lookup_insert_eq|by rewrite lookup_insert_ne]. Qed.

(** Two states of the objects with the same graph *)
Record same_graph (targets targets' : targets_map) : Prop := {
  same_deps x : deps (object targets' x) = deps (object targets x);
  same_back_deps x : back_deps (object targets' x) = back_deps (object targets x);
  same_requires x : requires_build (object targets' x) = requires_build (object targets x);
  same_executable x : is_executable (object targets' x) = is_executable (object targets x) }.

Lemma same_graph_refl targets : same_graph targets targets.
Proof. done. Qed.
Lemma same_graph_trans t1 t2 t3 : same_graph t1 t2 -> same_graph t2 t3 -> same_graph t1 t3.
Proof. intros [H1 H2 H3 H4] [K1 K2 K3 K4]. split; intros x; congruence. Qed.

(** ** The search *)
Section Search.
Context (iteration : list string -> list string).
Context (Hit : forall k x, x ∈ iteration k <-> x ∈ k).
Context (targets0 : targets_map).
Context (Hfresh : forall x, match_status (object targets0 x) = MATCH_STATUS_MATCHES \/
                            match_status (object targets0 x) = MATCH_STATUS_TBD).
Context (rank : string -> nat).
Context (Hrank : forall x y, y ∈ deps (object targets0 x) -> rank y < rank x).

Definition dep_edge (x y : string) : Prop := y ∈ deps (object targets0 x).
Definition matched (x : string) : Prop := match_status (object targets0 x) = MATCH_STATUS_MATCHES.
Definition affected (x : string) : Prop := exists y, rtc dep_edge x y /\ matched y.

Definition status_right (m : MatchStatus) (x : string) : Prop :=
  match m with
  | MATCH_STATUS_MATCHES | MATCH_STATUS_MATCHES_BY_DEPENDENCY => affected x
  | MATCH_STATUS_DOESNT_MATCH => ~ affected x
  | MATCH_STATUS_TBD => ~ matched x
  end.
Record search_inv (targets : targets_map) : Prop := {
  search_graph : same_graph targets0 targets;
  search_added x : added_to_compile_targets (object targets x) = added_to_compile_targets (object targets0 x);
  search_status x : status_right (match_status (object targets x)) x }.

Lemma search_inv_start : search_inv targets0.
Proof using Hfresh.
  split; [done..|]. intros x. destruct (Hfresh x) as [H|H]; rewrite H; cbn; [by exists x|].
  unfold matched. by rewrite H.
Qed.
Lemma search_inv_set targets x m :
  search_inv targets -> status_right m x -> search_inv (update (with_status m) x targets).
Proof using.
  intros [[H1 H2 H3 H4] Ha Hs] Hm. split.
  - split; intros y; rewrite object_update; case_decide; subst; cbn; done.
  - intros y. rewrite object_update, <- Ha. by case_decide; subst.
  - intros y. rewrite object_update. case_decide as Hy; [by subst|done].
Qed.
Lemma affected_step x : ~ matched x -> affected x <-> exists y, dep_edge x y /\ affected y.
Proof using.
  intros Hn. split.
  - intros (y & Hr & Hy). inversion Hr as [|? z ? Hxz Hz]; subst; [done|].
    exists z. split; [done|]. by exists y.
  - intros (z & Hz & y & Hr & Hy). exists y. split; [by eapply rtc_l|done].
Qed.

Definition search_post (x : string) (r : res (bool * targets_map)) : Prop :=
  exists b targets, r = Ok (b, targets) /\ (b = true <-> affected x) /\ search_inv targets.

Lemma any_dep_spec depends l targets :
  (forall x targets, x ∈ l -> search_inv targets -> search_post x (depends targets x)) ->
  search_inv targets ->
  exists b targets', any_dep depends targets l = Ok (b, targets') /\
    (b = true <-> exists x, x ∈ l /\ affected x) /\ search_inv targets'.
Proof using.
  intros Hl. revert targets. induction l as [|x l IH]; intros targets Hinv; cbn [any_dep].
  { exists false, targets. split_and!; [done| |done]. split; [done|]. by intros (x & ?%not_elem_of_nil & _). }
  destruct (Hl x targets) as (b & targets1 & -> & Hb & Hinv1); [by left|done|].
  cbn [mbind res_bind]. destruct b.
  - exists true, targets1. split_and!; [done| |done]. split; [|done]. intros _. exists x. split; [by left|by apply Hb].
  - destruct (IH (fun y t Hy => Hl y t (list_elem_of_further _ _ _ Hy)) targets1 Hinv1)
      as (b & targets2 & -> & Hb2 & Hinv2).
    exists b, targets2. split_and!; [done| |done]. rewrite Hb2. split.
    + intros (y & Hy & Ha). exists y. split; [by right|done].
    + intros (y & [->|Hy]%elem_of_cons & Ha); [by apply Hb in Ha|by exists y].
Qed.

Lemma _DoesTargetDependOn_spec fuel targets x :
  rank x < fuel -> search_inv targets -> search_post x (_DoesTargetDependOn iteration fuel targets x).
Proof using Hit Hrank.
  revert targets x. induction fuel as [|fuel IH]; intros targets x Hx Hinv; [lia|].
  cbn [_DoesTargetDependOn]. pose proof (search_status _ Hinv x) as Hs.
  destruct (match_status (object targets x)) eqn:E; cbn in Hs.
  - by exists true, targets.
  - by exists true, targets.
  - exists false, targets. split_and!; [done| |done]. split; [done|]. by intros ?.
  - destruct (any_dep_spec (_DoesTargetDependOn iteration fuel)
        (iteration (elements (deps (object targets x)))) targets) as (b & targets' & -> & Hb & Hinv').
    { intros y targets1 Hy Hi. apply IH; [|done]. apply Hit, elem_of_elements in Hy.
      rewrite (same_deps _ _ (search_graph _ Hinv)) in Hy. apply Hrank in Hy. lia. }
    { done. }
    cbn [mbind res_bind]. eexists b, _. split; [done|].
    assert (Ha : b = true <-> affected x).
    { rewrite Hb, affected_step by done. unfold dep_edge. setoid_rewrite Hit. setoid_rewrite elem_of_elements.
      by rewrite (same_deps _ _ (search_graph _ Hinv)). }
    split; [done|]. apply search_inv_set; [done|]. destruct b; cbn; [by apply Ha|].
    intros H. by apply Ha in H.
Qed.

Lemma _GetTargetsDependingOn_spec fuel possible :
  (forall x, x ∈ possible -> rank x < fuel) ->
  exists found targets, _GetTargetsDependingOn iteration fuel targets0 possible = Ok (found, targets) /\
    search_inv targets /\ forall x, x ∈ found <-> x ∈ possible /\ affected x.
Proof using Hit Hrank Hfresh.
  intros Hf. unfold _GetTargetsDependingOn.
  match goal with |- context [foldM ?f (?f0, targets0) possible] => set (body := f) end.
  assert (Hbody : forall found targets x, body (found, targets) x =
    _DoesTargetDependOn iteration fuel targets x ≫= fun '(depends, targets) =>
      Ok (if (depends : bool) then (found ++ [x])%list else found, targets)) by done. clearbody body.
  assert (H : forall found0 targets, search_inv targets ->
    exists found targets', foldM body (found0, targets) possible = Ok ((found0 ++ found)%list, targets') /\
      search_inv targets' /\ forall x, x ∈ found <-> x ∈ possible /\ affected x).
  { induction possible as [|x l IH]; intros found0 targets Hinv; cbn [foldM].
    { exists [], targets. rewrite app_nil_r. split_and!; [done..|]. set_solver. }
    rewrite Hbody.
    destruct (_DoesTargetDependOn_spec fuel targets x) as (b & targets1 & -> & Hb & Hinv1); [apply Hf; by left|done|].
    cbn [mbind res_bind]. destruct b.
    - destruct (IH (fun y Hy => Hf y (list_elem_of_further _ _ _ Hy)) (found0 ++ [x])%list targets1 Hinv1)
        as (found & targets2 & -> & Hinv2 & Hm).
      exists (x :: found), targets2. rewrite <- app_assoc. split_and!; [done..|]. intros y.
      rewrite !elem_of_cons, Hm. assert (affected x) by by apply Hb. naive_solver.
    - destruct (IH (fun y Hy => Hf y (list_elem_of_further _ _ _ Hy)) found0 targets1 Hinv1)
        as (found & targets2 & -> & Hinv2 & Hm).
      exists found, targets2. split_and!; [done..|]. intros y.
      rewrite elem_of_cons, Hm. assert (~ affected x) by (intros ?%Hb; done). naive_solver. }
  destruct (H [] targets0 search_inv_start) as (found & targets' & -> & Hinv & Hm).
  by exists found, targets'.
Qed.
End Search.

(** ** The targets to build *)
Section Build.
Context (iteration : list string -> list string).
Context (Hit : forall k x, x ∈ iteration k <-> x ∈ k).
Context (roots : gset string) (targets0 : targets_map).
Context (Hfresh : forall x, visited (object targets0 x) = false /\
  added_to_compile_targets (object targets0 x) = false).
Context (rank : string -> nat).
Context (Hrank : forall x y, y ∈ back_deps (object targets0 x) -> rank y < rank x).

(** [y] depends on [x]. *)
Definition back_edge (x y : string) : Prop := y ∈ back_deps (object targets0 x).
Definition is_root (x : string) : Prop := back_deps (object targets0 x) = ∅ /\ x ∈ roots.
Definition under_root (x : string) : Prop := exists r, rtc back_edge x r /\ is_root r.
Definition executable (x : string) : Prop := is_executable (object targets0 x) = true.
Definition needs_build (x : string) : Prop := requires_build (object targets0 x) = true.
(** Something that is built depends on [x], or is [x]. *)
Definition covered (result : gset string) (x : string) : Prop :=
  exists r, r ∈ result /\ rtc back_edge x r.

(** A target whose visit is over; [busy] are those whose visit is not. *)
Record done_right (targets : targets_map) (result busy : gset string) (x : string) : Prop := {
  done_above y : back_edge x y -> visited (object targets y) = true /\ y ∉ busy;
  done_roots : in_roots (object targets x) = true <-> under_root x;
  done_added : added_to_compile_targets (object targets x) = true <-> covered result x;
  done_result : x ∈ result -> under_root x /\
    (executable x \/ forall y, back_edge x y -> ~ covered result y);
  done_executable : under_root x -> executable x -> x ∈ result;
  done_needs : under_root x -> needs_build x -> covered result x }.
Record build_inv (busy : gset string) (targets : targets_map) (result : gset string) : Prop := {
  build_graph : same_graph targets0 targets;
  build_fresh x : visited (object targets x) = false ->
    added_to_compile_targets (object targets x) = false /\ x ∉ result;
  build_done x : visited (object targets x) = true -> x ∉ busy -> done_right targets result busy x;
  build_busy x : x ∈ busy -> visited (object targets x) = true /\ x ∉ result }.
(** What a call leaves alone *)
Record build_frame (targets : targets_map) (result : gset string) (targets' : targets_map)
    (result' : gset string) : Prop := {
  frame_visited x : visited (object targets x) = true -> object targets' x = object targets x;
  frame_result : result ⊆ result';
  frame_new x : x ∈ result' -> x ∉ result -> visited (object targets x) = false }.

Lemma build_frame_refl targets result : build_frame targets result targets result.
Proof. by split. Qed.
Lemma build_frame_trans t1 r1 t2 r2 t3 r3 :
  build_frame t1 r1 t2 r2 -> build_frame t2 r2 t3 r3 -> build_frame t1 r1 t3 r3.
Proof.
  intros [H1 H2 H3] [K1 K2 K3]. split.
  - intros x Hx. rewrite K1; [by apply H1|]. by rewrite H1.
  - by etrans.
  - intros x Hx Hn. destruct (decide (x ∈ r2)) as [Hin|Hin]; [by apply H3|].
    destruct (visited (object t1 x)) eqn:E; [|done].
    specialize (H1 x E). specialize (K3 x Hx Hin). congruence.
Qed.

Lemma build_inv_start : build_inv ∅ targets0 ∅.
Proof using Hfresh roots.
  clear dependent rank. clear Hit iteration. split; [done| | |set_solver].
  - intros x _. destruct (Hfresh x). set_solver.
  - intros x Hx. destruct (Hfresh x). congruence.
Qed.

(** Everything above a target that is done is done. *)
Lemma done_closed busy targets result x y : build_inv busy targets result ->
  rtc back_edge x y -> visited (object targets x) = true -> x ∉ busy ->
  visited (object targets y) = true /\ y ∉ busy.
Proof using.
  intros Hinv. induction 1 as [|x z y Hxz _ IH]; [done|]. intros Hx Hb.
  destruct (done_above _ _ _ _ (build_done _ _ _ Hinv x Hx Hb) z Hxz). by apply IH.
Qed.
Lemma covered_busy busy targets result x y : build_inv busy targets result ->
  visited (object targets x) = true -> x ∉ busy -> y ∈ busy ->
  covered ({[y]} ∪ result) x <-> covered result x.
Proof using.
  intros Hinv Hx Hb Hy. split; intros (r & Hr & Hxr); exists r; (split; [|done]); [|by apply elem_of_union_r].
  apply elem_of_union in Hr as [->%elem_of_singleton|Hr]; [|done].
  by destruct (done_closed busy targets result x y Hinv Hxr Hx Hb).
Qed.
Lemma covered_frame busy targets result targets' result' x : build_inv busy targets result ->
  build_frame targets result targets' result' ->
  visited (object targets x) = true -> x ∉ busy -> covered result' x <-> covered result x.
Proof using.
  intros Hinv Hf Hx Hb. split; intros (r & Hr & Hxr); exists r; (split; [|done]);
    [|by eapply frame_result].
  destruct (decide (r ∈ result)) as [|Hn]; [done|]. apply (frame_new _ _ _ _ Hf) in Hn; [|done].
  destruct (done_closed busy targets result x r Hinv Hxr Hx Hb). congruence.
Qed.

(** An update that the invariant does not see *)
Definition quiet (f : Target -> Target) : Prop := forall t,
  deps (f t) = deps t /\ back_deps (f t) = back_deps t /\ requires_build (f t) = requires_build t /\
  is_executable (f t) = is_executable t.
Lemma same_graph_update f x targets : quiet f -> same_graph targets0 targets ->
  same_graph targets0 (update f x targets).
Proof using.
  intros Hq [H1 H2 H3 H4]. destruct (Hq (object targets x)) as (Q1 & Q2 & Q3 & Q4).
  split; intros y; rewrite object_update; case_decide; subst; congruence.
Qed.
Lemma build_inv_touch busy f x targets result : quiet f -> (forall t, visited (f t) = visited t) ->
  x ∈ busy -> build_inv busy targets result -> build_inv busy (update f x targets) result.
Proof using.
  intros Hq Hv Hx [H1 H2 H3 H4].
  assert (Hvis : forall y, visited (object (update f x targets) y) = visited (object targets y)).
  { intros y. rewrite object_update. case_decide; subst; [apply Hv|done]. }
  split; [by apply same_graph_update| | |].
  - intros y. rewrite Hvis. intros Hy. rewrite object_update, decide_False; [by apply H2|].
    intros ->. destruct (H4 x Hx). congruence.
  - intros y. rewrite Hvis. intros Hy Hb. destruct (H3 y Hy Hb) as [D1 D2 D3 D4 D5 D6].
    assert (Heq : object (update f x targets) y = object targets y).
    { rewrite object_update, decide_False; [done|]. by intros ->. }
    split; rewrite ?Heq; [|done..]. intros z Hz. rewrite Hvis. by apply D1.
  - intros y Hy. rewrite Hvis. by apply H4.
Qed.
Lemma build_frame_touch f x targets result targets' result' : visited (object targets x) = false ->
  build_frame targets result targets' result' -> build_frame targets result (update f x targets') result'.
Proof using.
  intros Hx [H1 H2 H3]. split; [|done..]. intros y Hy. rewrite object_update, decide_False; [by apply H1|].
  intros ->. congruence.
Qed.
Lemma covered_step result x : x ∉ result -> covered result x <-> exists y, back_edge x y /\ covered result y.
Proof using.
  intros Hx. split.
  - intros (r & Hr & Hxr). inversion Hxr as [|? y ? Hxy Hyr]; subst; [done|]. exists y. split; [done|].
    by exists r.
  - intros (y & Hxy & r & Hr & Hyr). exists r. split; [done|]. by eapply rtc_l.
Qed.
Lemma under_root_step x : under_root x <-> is_root x \/ exists y, back_edge x y /\ under_root y.
Proof using.
  split.
  - intros (r & Hxr & Hr). inversion Hxr as [|? y ? Hxy Hyr]; subst; [by left|]. right. exists y.
    split; [done|]. by exists r.
  - intros [Hx|(y & Hxy & r & Hyr & Hr)]; [by exists x|]. exists r. split; [by eapply rtc_l|done].
Qed.

(** A call does its work and leaves the rest alone. *)
Definition build_post (busy : gset string) (add_if : bool) (targets : targets_map) (result : gset string)
    (x : string) (r : res (targets_map * gset string)) : Prop :=
  exists targets' result', r = Ok (targets', result') /\ build_inv busy targets' result' /\
    build_frame targets result targets' result' /\ visited (object targets' x) = true /\
    (forall y, visited (object targets' y) = true ->
       visited (object targets y) = true \/ rtc back_edge x y) /\
    (add_if = true -> visited (object targets x) = false -> under_root x -> covered result' x).

(** The loop over the back dependencies of [x]: those in [l] were added. *)
Record loop_at (busy : gset string) (x : string) (targets : targets_map) (result : gset string)
    (l : list string) (targets' : targets_map) (result' : gset string) : Prop := {
  at_inv : build_inv ({[x]} ∪ busy) targets' result';
  at_frame : build_frame targets result targets' result';
  at_roots : in_roots (object targets' x) = true <-> is_root x \/ exists b, b ∈ l /\ under_root b;
  at_added : added_to_compile_targets (object targets' x) = true <-> exists b, b ∈ l /\ covered result' b;
  at_done b : b ∈ l -> visited (object targets' b) = true /\ b ∉ ({[x]} ∪ busy : gset string);
  at_reach y : visited (object targets' y) = true ->
    visited (object targets y) = true \/ rtc back_edge x y }.

Lemma absorb_quiet (o : Target) : quiet (fun t => with_build (added_to_compile_targets t ||
  added_to_compile_targets o) (in_roots t || in_roots o) t).
Proof. by intros t. Qed.

Lemma loop_at_step busy x targets result l targets1 result1 b r :
  visited (object targets x) = false -> back_edge x b -> b ∉ ({[x]} ∪ busy : gset string) ->
  loop_at busy x targets result l targets1 result1 ->
  build_post ({[x]} ∪ busy) false targets1 result1 b r ->
  exists targets2 result2,
    (r ≫= fun '(targets, result) => Ok (absorb b x targets, result)) = Ok (targets2, result2) /\
    loop_at busy x targets result (l ++ [b]) targets2 result2.
Proof using.
  clear dependent rank. clear Hit Hfresh iteration. intros Hx Hxb Hb [L1 L2 L3 L4 L5 L6] (t2 & r2 & -> & Hinv & Hframe & Hvis & Hreach & _).
  exists (absorb b x t2), r2. split; [done|].
  assert (Hbusy : x ∈ ({[x]} ∪ busy : gset string)) by by apply elem_of_union_l, elem_of_singleton.
  destruct (build_busy _ _ _ L1 x Hbusy) as [Hx1 _].
  assert (Hxt : object t2 x = object targets1 x) by by apply (frame_visited _ _ _ _ Hframe).
  assert (Hbx : b <> x) by by intros ->.
  pose proof (build_done _ _ _ Hinv b Hvis Hb) as Db.
  unfold absorb. split.
  - apply build_inv_touch; [apply absorb_quiet|done..].
  - apply build_frame_touch; [done|]. by eapply build_frame_trans.
  - rewrite object_update, decide_True by done. cbn. rewrite orb_true_iff, Hxt, L3, (done_roots _ _ _ _ Db).
    setoid_rewrite elem_of_app. setoid_rewrite list_elem_of_singleton. naive_solver.
  - rewrite object_update, decide_True by done. cbn. rewrite orb_true_iff, Hxt, L4, (done_added _ _ _ _ Db).
    setoid_rewrite elem_of_app. setoid_rewrite list_elem_of_singleton.
    assert (Hc : forall c, c ∈ l -> covered r2 c <-> covered result1 c).
    { intros c Hc. destruct (L5 c Hc). by eapply covered_frame. }
    naive_solver.
  - intros c Hc. rewrite object_update. apply elem_of_app in Hc as [Hc| ->%list_elem_of_singleton].
    + destruct (L5 c Hc) as [Hc1 Hc2]. rewrite decide_False by (by intros ->).
      split; [|done]. by rewrite (frame_visited _ _ _ _ Hframe).
    + by rewrite decide_False.
  - intros y. rewrite object_update. case_decide as Hy; [intros _; right; by subst|].
    intros [Hy1|Hby]%Hreach; [by apply L6|]. right. by eapply rtc_l.
Qed.

Lemma loop_at_fold busy x targets result l fuel l0 targets0' result0' :
  visited (object targets x) = false ->
  (forall b, b ∈ l -> back_edge x b /\ b ∉ ({[x]} ∪ busy : gset string)) ->
  (forall b targets result, b ∈ l -> build_inv ({[x]} ∪ busy) targets result ->
     build_post ({[x]} ∪ busy) false targets result b
       (_AddBuildTargets iteration roots fuel false (targets, result) b)) ->
  loop_at busy x targets result l0 targets0' result0' ->
  exists targets' result',
    foldM (fun st back_dep_target =>
             '(targets, result) ← _AddBuildTargets iteration roots fuel false st back_dep_target;
             Ok (absorb back_dep_target x targets, result)) (targets0', result0') l = Ok (targets', result') /\
    loop_at busy x targets result (l0 ++ l) targets' result'.
Proof using.
  intros Hx. revert l0 targets0' result0'. induction l as [|b l IH]; intros l0 t1 r1 Hl Hcall Hat; cbn [foldM].
  { exists t1, r1. by rewrite app_nil_r. }
  destruct (Hl b) as [Hxb Hb]; [by left|].
  destruct (loop_at_step busy x targets result l0 t1 r1 b _ Hx Hxb Hb Hat
              (Hcall b t1 r1 (list_elem_of_here _ _) (at_inv _ _ _ _ _ _ _ Hat))) as (t2 & r2 & -> & Hat2).
  cbn [mbind res_bind]. destruct (IH (l0 ++ [b])%list t2 r2) as (t3 & r3 & -> & Hat3).
  - intros c Hc. apply Hl. by right.
  - intros c t r Hc. apply Hcall. by right.
  - done.
  - exists t3, r3. split; [done|]. by rewrite <- app_assoc in Hat3.
Qed.

Lemma loop_at_start busy x targets result : build_inv busy targets result ->
  x ∉ busy -> visited (object targets x) = false ->
  loop_at busy x targets result []
    (update (fun t => with_build (added_to_compile_targets t)
                        (bool_decide (back_deps (object targets x) = ∅) && bool_decide (x ∈ roots))
                        (with_visited true t)) x targets) result.
Proof using.
  clear dependent rank. clear Hit Hfresh iteration. intros Hinv Hxb Hx. set (f := fun t => with_build _ _ (with_visited true t)).
  destruct (build_fresh _ _ _ Hinv x Hx) as [Hadd Hres].
  assert (Hf : forall y, y <> x -> object (update f x targets) y = object targets y).
  { intros y Hy. by rewrite object_update, decide_False. }
  split.
  - split.
    + apply same_graph_update; [by intros t|by eapply build_graph].
    + intros y. rewrite object_update. case_decide; [done|]. by apply (build_fresh _ _ _ Hinv).
    + intros y Hy. rewrite not_elem_of_union, not_elem_of_singleton. intros [Hyx Hyb].
      rewrite Hf in Hy by done. destruct (build_done _ _ _ Hinv y Hy Hyb) as [D1 D2 D3 D4 D5 D6].
      split; rewrite ?Hf by done; [|done..]. intros z Hz. destruct (D1 z Hz) as [Hz1 Hz2].
      assert (z <> x) by (intros ->; congruence). rewrite Hf by done. split; [done|]. set_solver.
    + intros y [->%elem_of_singleton|Hy]%elem_of_union.
      * by rewrite object_update, decide_True.
      * destruct (build_busy _ _ _ Hinv y Hy). rewrite Hf; [done|]. by intros ->.
  - split; [|done..]. intros y Hy. apply Hf. intros ->. congruence.
  - rewrite object_update, decide_True by done. cbn. rewrite (same_back_deps _ _ (build_graph _ _ _ Hinv)).
    unfold is_root. rewrite andb_true_iff, !bool_decide_eq_true. set_solver.
  - rewrite object_update, decide_True by done. cbn. rewrite Hadd. set_solver.
  - by intros b ?%not_elem_of_nil.
  - intros y. rewrite object_update. case_decide as Hy; [intros _; right; by subst|by left].
Qed.

(** The visit of [x] ends, with all back dependencies added: the other targets *)
Lemma done_other busy x y targets result targets' result' :
  object targets' y = object targets y ->
  (forall z, visited (object targets' z) = visited (object targets z)) ->
  result ⊆ result' -> (y ∈ result' -> y ∈ result) ->
  (forall z, visited (object targets z) = true -> z ∉ ({[x]} ∪ busy : gset string) ->
     covered result' z <-> covered result z) ->
  visited (object targets y) = true -> y ∉ ({[x]} ∪ busy : gset string) ->
  done_right targets result ({[x]} ∪ busy) y -> done_right targets' result' busy y.
Proof using.
  clear dependent rank. clear Hit Hfresh iteration. intros Hf Hvis Hsub Hy Hcov Hv Hb [D1 D2 D3 D4 D5 D6].
  split; rewrite ?Hf.
  - intros z Hz. rewrite Hvis. destruct (D1 z Hz). set_solver.
  - done.
  - by rewrite Hcov.
  - intros Hin%Hy. destruct (D4 Hin) as [U V]. split; [done|]. destruct V as [V|V]; [by left|right].
    intros z Hz. destruct (D1 z Hz). rewrite Hcov by done. by apply V.
  - set_solver.
  - by rewrite Hcov.
Qed.

(** [x] itself, when it is to be built and when it is not *)
Section End.
Context (busy : gset string) (add_if : bool) (x : string) (targets1 : targets_map) (result1 : gset string).
Context (Hinv : build_inv ({[x]} ∪ busy) targets1 result1).
Context (Hroots : in_roots (object targets1 x) = true <-> under_root x).
Context (Hadded : added_to_compile_targets (object targets1 x) = true <-> covered result1 x).
Context (Hup : forall y, back_edge x y ->
  visited (object targets1 y) = true /\ y ∉ ({[x]} ∪ busy : gset string)).

Abbreviation built := (update (fun t => with_build true (in_roots t) t) x targets1).

Lemma visited_built y : visited (object built y) = visited (object targets1 y).
Proof using. rewrite object_update. by case_decide; subst. Qed.
Lemma covered_built y : visited (object targets1 y) = true -> y ∉ ({[x]} ∪ busy : gset string) ->
  covered ({[x]} ∪ result1) y <-> covered result1 y.
Proof using Hinv. intros Hy Hn. eapply covered_busy; [done..|]. by apply elem_of_union_l, elem_of_singleton. Qed.

Lemma done_built : to_be_built add_if (object targets1 x) = true ->
  done_right built ({[x]} ∪ result1) busy x.
Proof using Hinv Hroots Hadded Hup.
  destruct (build_busy _ _ _ Hinv x) as [_ Hxr]; [by apply elem_of_union_l, elem_of_singleton|].
  assert (Hc : covered ({[x]} ∪ result1) x).
  { exists x. split; [by apply elem_of_union_l, elem_of_singleton|done]. }
  intros [E1 E2]%andb_true_iff. split; rewrite ?object_update, ?decide_True by done; cbn.
  - intros z Hz. rewrite visited_built. destruct (Hup z Hz) as [? [_ ?]%not_elem_of_union]. done.
  - done.
  - by split.
  - intros _. split; [by apply Hroots|]. apply orb_true_iff in E2 as [E2|E2].
    { left. by rewrite (same_executable _ _ (build_graph _ _ _ Hinv)) in E2. }
    right. apply andb_true_iff in E2 as [E2 _]. apply negb_true_iff in E2.
    intros z Hz Hcz. destruct (Hup z Hz). apply covered_built in Hcz; [|done..].
    assert (H1 : covered result1 x) by (apply covered_step; [done|by exists z]).
    apply Hadded in H1. congruence.
  - intros _ _. by apply elem_of_union_l, elem_of_singleton.
  - done.
Qed.
Lemma done_unbuilt : to_be_built add_if (object targets1 x) = false ->
  done_right targets1 result1 busy x /\ (add_if = true -> under_root x -> covered result1 x).
Proof using Hinv Hroots Hadded Hup.
  destruct (build_busy _ _ _ Hinv x) as [_ Hxr]; [by apply elem_of_union_l, elem_of_singleton|].
  intros E.
  assert (H : under_root x -> (add_if || requires_build (object targets1 x)) = true -> covered result1 x).
  { intros Hu%Hroots Hn. apply Hadded. unfold to_be_built in E. rewrite Hu, Hn, andb_true_r in E.
    apply orb_false_iff in E as [_ E]. by apply negb_false_iff in E. }
  split; [|by intros -> Hu; apply H]. split; [|done..| | |].
  - intros z Hz. destruct (Hup z Hz) as [? [_ ?]%not_elem_of_union]. done.
  - by intros ?%Hxr.
  - intros Hu%Hroots He. unfold executable in He. rewrite <- (same_executable _ _ (build_graph _ _ _ Hinv)) in He.
    unfold to_be_built in E. by rewrite Hu, He in E.
  - intros Hu Hn. apply H; [done|]. unfold needs_build in Hn.
    rewrite <- (same_requires _ _ (build_graph _ _ _ Hinv)) in Hn. by rewrite Hn, orb_true_r.
Qed.
End End.

Lemma loop_at_end busy add_if x targets result l targets1 result1 :
  x ∉ busy -> visited (object targets x) = false -> (forall b, b ∈ l <-> back_edge x b) ->
  loop_at busy x targets result l targets1 result1 ->
  build_post busy add_if targets result x
    (if to_be_built add_if (object targets1 x) then
       Ok (update (fun t => with_build true (in_roots t) t) x targets1, {[x]} ∪ result1)
     else Ok (targets1, result1)).
Proof using.
  clear dependent rank. clear Hit Hfresh iteration. intros Hxb Hx Hl [L1 L2 L3 L4 L5 L6].
  setoid_rewrite Hl in L3. setoid_rewrite Hl in L4. setoid_rewrite Hl in L5. rewrite <- under_root_step in L3.
  destruct (build_busy _ _ _ L1 x) as [Hx1 Hxr]; [set_solver|]. rewrite <- covered_step in L4 by done.
  destruct (to_be_built add_if (object targets1 x)) eqn:E.
  - set (f := fun t => with_build true (in_roots t) t). pose proof (visited_built x targets1) as Hvis.
    assert (Hf : forall y, y <> x -> object (update f x targets1) y = object targets1 y).
    { intros y Hy. by rewrite object_update, decide_False. }
    exists (update f x targets1), ({[x]} ∪ result1). split_and!; [done|split|split|by rewrite Hvis| |].
    + apply same_graph_update; [by intros t|by eapply build_graph].
    + intros y. rewrite Hvis. intros Hy. assert (y <> x) by (intros ->; congruence).
      rewrite Hf by done. destruct (build_fresh _ _ _ L1 y Hy). set_solver.
    + intros y. rewrite Hvis. intros Hy Hyb. destruct (decide (y = x)) as [->|Hyx]; [by eapply done_built|].
      assert (Hy1 : y ∉ ({[x]} ∪ busy : gset string)) by set_solver.
      eapply (done_other busy x y targets1 result1);
        [by apply Hf|done|set_solver|set_solver| |done|done|by apply (build_done _ _ _ L1)].
      intros z. by apply covered_built.
    + intros y Hy. rewrite Hvis. destruct (build_busy _ _ _ L1 y) as [K1 K2]; [set_solver|].
      split; [done|]. assert (y <> x) by (by intros ->). set_solver.
    + intros y Hy. rewrite Hf; [by apply (frame_visited _ _ _ _ L2)|]. intros ->. congruence.
    + pose proof (frame_result _ _ _ _ L2). set_solver.
    + intros y [->%elem_of_singleton|Hin]%elem_of_union; [done|by apply (frame_new _ _ _ _ L2)].
    + intros y. rewrite Hvis. apply L6.
    + intros _ _ _. exists x. split; [set_solver|done].
  - destruct (done_unbuilt busy add_if x targets1 result1 L1 L3 L4 L5 E) as [Hdone Hadd].
    exists targets1, result1. split_and!; [done|split; [by eapply build_graph|by eapply build_fresh|..]|done..|].
    + intros y Hy Hyb. destruct (decide (y = x)) as [->|Hyx]; [done|].
      assert (Hy1 : y ∉ ({[x]} ∪ busy : gset string)) by set_solver.
      eapply (done_other busy x y targets1 result1); [done..|by apply (build_done _ _ _ L1)].
    + intros y Hy. apply (build_busy _ _ _ L1). set_solver.
    + intros Ha _ Hu. by apply Hadd.
Qed.

Lemma _AddBuildTargets_spec fuel busy add_if targets result x :
  rank x < fuel -> (forall y, y ∈ busy -> rank x < rank y) -> build_inv busy targets result ->
  build_post busy add_if targets result x (_AddBuildTargets iteration roots fuel add_if (targets, result) x).
Proof using Hit Hrank.
  revert busy add_if targets result x.
  induction fuel as [|fuel IH]; intros busy add_if targets result x Hx Hbusy Hinv; [lia|].
  cbn [_AddBuildTargets]. assert (Hxb : x ∉ busy) by (intros H%Hbusy; lia).
  destruct (visited (object targets x)) eqn:Hv.
  { exists targets, result. split_and!; [done..| |]; [by left|]. congruence. }
  set (targets1 := update _ x targets).
  assert (Hback : back_deps (object targets1 x) = back_deps (object targets0 x)).
  { unfold targets1. rewrite object_update, decide_True by done. apply (build_graph _ _ _ Hinv). }
  set (l := iteration (elements (back_deps (object targets1 x)))).
  assert (Hl : forall b, b ∈ l <-> back_edge x b).
  { intros b. unfold l. by rewrite Hit, elem_of_elements, Hback. }
  destruct (loop_at_fold busy x targets result l fuel [] targets1 result) as (t2 & r2 & -> & Hat).
  - done.
  - intros b Hb%Hl. split; [done|]. apply Hrank in Hb. intros [->%elem_of_singleton|H%Hbusy]%elem_of_union; lia.
  - intros b t r Hb%Hl%Hrank Hi. apply IH; [lia| |done].
    intros y [->%elem_of_singleton|H%Hbusy]%elem_of_union; lia.
  - by apply loop_at_start.
  - cbn [mbind res_bind]. by apply (loop_at_end busy add_if x targets result l).
Qed.

(** What is known of the targets to build *)
Lemma _GetBuildTargets_spec fuel matching : (forall x, x ∈ matching -> rank x < fuel) ->
  exists targets result, _GetBuildTargets iteration roots fuel targets0 matching = Ok (targets, result) /\
    (forall x, x ∈ result -> under_root x /\ (exists m, m ∈ matching /\ rtc back_edge m x) /\
       (executable x \/ forall y, back_edge x y -> ~ covered result y)) /\
    (forall m x, m ∈ matching -> rtc back_edge m x -> under_root x ->
       (executable x -> x ∈ result) /\ (needs_build x -> covered result x)).
Proof using Hit Hrank Hfresh.
  intros Hm. unfold _GetBuildTargets.
  assert (H : forall l targets1 result1, (forall x, x ∈ l -> rank x < fuel) -> build_inv ∅ targets1 result1 ->
    exists targets result,
      foldM (_AddBuildTargets iteration roots fuel true) (targets1, result1) l = Ok (targets, result) /\
      build_inv ∅ targets result /\ build_frame targets1 result1 targets result /\
      (forall x, x ∈ l -> visited (object targets x) = true) /\
      (forall y, visited (object targets y) = true ->
         visited (object targets1 y) = true \/ exists m, m ∈ l /\ rtc back_edge m y)).
  { induction l as [|x l IH]; intros t1 r1 Hl Hinv; cbn [foldM].
    { exists t1, r1. split_and!; [done..|by intros x ?%not_elem_of_nil|by left]. }
    destruct (_AddBuildTargets_spec fuel ∅ true t1 r1 x) as (t2 & r2 & -> & Hinv2 & F2 & V2 & R2 & _);
      [apply Hl; by left|by intros y ?%not_elem_of_empty|done|]. cbn [mbind res_bind].
    destruct (IH t2 r2) as (t3 & r3 & -> & Hinv3 & F3 & V3 & R3); [intros y Hy; apply Hl; by right|done|].
    exists t3, r3. split_and!; [done..|by eapply build_frame_trans| |].
    - intros y [->|Hy]%elem_of_cons; [by rewrite (frame_visited _ _ _ _ F3)|by apply V3].
    - intros y [Hy|(m & Hml & Hr)]%R3; [|right; exists m; split; [by right|done]].
      apply R2 in Hy as [Hy|Hy]; [by left|]. right. exists x. split; [by left|done]. }
  destruct (H matching targets0 ∅ Hm build_inv_start) as (t & r & Heq & Hinv & F & V & R).
  exists t, r. split; [done|].
  assert (Hdone : forall x, visited (object t x) = true -> done_right t r ∅ x).
  { intros x Hx. apply (build_done _ _ _ Hinv); [done|]. apply not_elem_of_empty. }
  split.
  - intros x Hx. assert (Hv : visited (object t x) = true).
    { destruct (visited (object t x)) eqn:E; [done|]. by destruct (build_fresh _ _ _ Hinv x E). }
    destruct (done_result _ _ _ _ (Hdone x Hv) Hx) as [Hu He]. split_and!; [done| |done].
    destruct (R x Hv) as [Hr|Hr]; [|done]. destruct (Hfresh x). congruence.
  - intros m x Hml Hmx Hu. assert (Hv : visited (object t x) = true).
    { by apply (done_closed ∅ t r m x Hinv Hmx (V m Hml)), not_elem_of_empty. }
    split; [by apply (done_executable _ _ _ _ (Hdone x Hv))|by apply (done_needs _ _ _ _ (Hdone x Hv))].
Qed.
End Build.

(** ** The graph that is built *)
Section Generate.
Context (windows : bool) (data : list (string * dict)) (target_dicts : list (string * dict)).
Context (toplevel_dir : string) (files : gset string) (build_files : list string).

Abbreviation visit := (visit_target windows data target_dicts toplevel_dir files build_files).
Abbreviation loop := (generate_loop windows data target_dicts toplevel_dir files build_files).

Definition target_dep (x y : string) : Prop := exists d l,
  dict_of target_dicts x = Ok d /\ dependency_names d = Ok l /\ y ∈ l.
(** The target has a changed file, or its build file has. *)
Definition changed (x : string) : Prop := exists d m,
  dict_of target_dicts x = Ok d /\
  _WasBuildFileModified windows (BuildFile x) data files toplevel_dir = Ok m /\
  target_matches windows toplevel_dir files x d m = Ok true.
Definition reached (target_list : list string) (x : string) : Prop :=
  exists t, t ∈ target_list /\ rtc target_dep t x.

(** The fields that linking does not touch *)
Definition attributes (t : Target) : MatchStatus * bool * bool * bool * bool * bool :=
  (match_status t, visited t, requires_build t, added_to_compile_targets t, in_roots t, is_executable t).

Lemma create_object objects y b objects' : _GetOrCreateTargetByName objects y = (b, objects') ->
  (forall z, object objects' z = object objects z) /\ is_Some (objects' !! y) /\
  (forall z, is_Some (objects' !! z) <-> is_Some (objects !! z) \/ z = y) /\
  (b = true <-> objects !! y = None).
Proof using.
  unfold _GetOrCreateTargetByName, object. destruct (objects !! y) as [t|] eqn:E; intros [= <- <-].
  - split_and!; [done|by eexists| |done]. intros z. split; [by left|]. intros [?| ->]; [done|by eexists].
  - split_and!; [|by rewrite lookup_insert_eq; eexists| |done].
    + intros z. destruct (decide (z = y)) as [->|Hz]; [by rewrite lookup_insert_eq, E|by rewrite lookup_insert_ne].
    + intros z. rewrite lookup_insert_is_Some'. naive_solver.
Qed.

Record linked (x : string) (l : list string) (st st' : generated) : Prop := {
  linked_matching : matching_targets st' = matching_targets st;
  linked_files : build_file_targets st' = build_file_targets st;
  linked_known : build_file_in_files st' = build_file_in_files st;
  linked_dom z : is_Some (targets st' !! z) <-> is_Some (targets st !! z) \/ z ∈ l;
  linked_attributes z : attributes (object (targets st') z) = attributes (object (targets st) z);
  linked_deps z y : y ∈ deps (object (targets st') z) <->
    y ∈ deps (object (targets st) z) \/ (z = x /\ y ∈ l);
  linked_back z y : z ∈ back_deps (object (targets st') y) <->
    z ∈ back_deps (object (targets st) y) \/ (z = x /\ y ∈ l);
  linked_roots z : z ∈ roots st' <-> z ∈ roots st /\ z ∉ l }.

Lemma link_dep_linked x y st : is_Some (targets st !! x) ->
  (forall z, z ∈ roots st -> is_Some (targets st !! z)) -> linked x [y] st (link_dep x st y).
Proof using.
  intros Hx Hroots. unfold link_dep. destruct (_GetOrCreateTargetByName (targets st) y) as [b objects] eqn:E.
  apply create_object in E as (Hobj & Hy & Hdom & Hb). split; cbn; [done..| | | | |].
  - intros z. unfold update. rewrite !lookup_insert_is_Some', Hdom, list_elem_of_singleton. naive_solver.
  - intros z. rewrite !object_update. repeat (case_decide; subst); cbn; by rewrite ?Hobj.
  - intros z w. rewrite !object_update. repeat (case_decide; subst); cbn; rewrite ?Hobj; set_solver.
  - intros z w. rewrite !object_update. repeat (case_decide; subst); cbn; rewrite ?Hobj; set_solver.
  - intros z. destruct b.
    + assert (Hy0 : targets st !! y = None) by by apply Hb. rewrite list_elem_of_singleton.
      split; [|by intros []]. intros Hz. split; [done|]. intros ->. apply Hroots in Hz. rewrite Hy0 in Hz. by destruct Hz.
    + by rewrite elem_of_difference, elem_of_singleton, list_elem_of_singleton.
Qed.
Lemma link_all x l st : is_Some (targets st !! x) ->
  (forall z, z ∈ roots st -> is_Some (targets st !! z)) -> linked x l st (foldl (link_dep x) st l).
Proof using.
  revert st. induction l as [|y l IH]; intros st Hx Hroots; cbn [foldl].
  { split; [done..| | | | |]; set_solver. }
  pose proof (link_dep_linked x y st Hx Hroots) as [H1 H2 H3 H4 H5 H6 H7 H8].
  destruct (IH (link_dep x st y)) as [K1 K2 K3 K4 K5 K6 K7 K8]; [apply H4; by left| |].
  { intros z [Hz _]%H8. apply H4. left. by apply Hroots. }
  split; [congruence..| | | | |].
  - intros z. rewrite K4, H4. set_solver.
  - intros z. by rewrite K5.
  - intros z w. rewrite K6, H6. set_solver.
  - intros z w. rewrite K7, H7. set_solver.
  - intros z. rewrite K8, H8. set_solver.
Qed.

Lemma visit_target_ok x st l st' : visit x st = Ok (l, st') ->
  exists d requires type modified known matches,
    dict_of target_dicts x = Ok d /\ _DoesTargetTypeRequireBuild d = Ok requires /\ target_type d = Ok type /\
    build_file_modified windows data toplevel_dir files (BuildFile x) (build_file_in_files st) = Ok (modified, known) /\
    target_matches windows toplevel_dir files x d modified = Ok matches /\ dependency_names d = Ok l /\
    st' = foldl (link_dep x) (note_visit x requires (bool_decide (type = VStr "executable")) matches
                                (in_build_files build_files (BuildFile x)) known st) l.
Proof using.
  unfold visit_target. intros (d & Hd & H)%bind_ok. apply bind_ok in H as (requires & Hr & H).
  apply bind_ok in H as (type & Ht & H). apply bind_ok in H as ([modified known] & Hm & H).
  apply bind_ok in H as (matches & Hma & H). apply bind_ok in H as (l' & Hl & [= <- <-]).
  by exists d, requires, type, modified, known, matches.
Qed.

(** The cache of modified build files is right. *)
Definition known_right (known : gmap string bool) : Prop := forall f b, known !! f = Some b ->
  _WasBuildFileModified windows (Some f) data files toplevel_dir = Ok b.
Lemma build_file_modified_ok build_file known modified known' :
  known_right known ->
  build_file_modified windows data toplevel_dir files build_file known = Ok (modified, known') ->
  _WasBuildFileModified windows build_file data files toplevel_dir = Ok modified /\ known_right known'.
Proof using.
  intros Hk. unfold build_file_modified. destruct (build_file ≫= _) as [b|] eqn:E.
  - intros [= <- <-]. split; [|done]. destruct build_file as [f|]; [|done]. by apply Hk.
  - intros (b & Hb & [= <- <-])%bind_ok. split; [done|]. destruct build_file as [f|]; [|done].
    intros g c. rewrite lookup_insert_Some. intros [[<- <-]|[_ ?]]; [done|by apply Hk].
Qed.

Record gen_inv (target_list stack : list string) (st : generated) : Prop := {
  gi_fresh x : visited (object (targets st) x) = false ->
    deps (object (targets st) x) = ∅ /\ match_status (object (targets st) x) = MATCH_STATUS_TBD;
  gi_visited x : visited (object (targets st) x) = true ->
    is_Some (targets st !! x) /\ (forall y, y ∈ deps (object (targets st) x) <-> target_dep x y) /\
    (match_status (object (targets st) x) = MATCH_STATUS_MATCHES /\ changed x \/
     match_status (object (targets st) x) = MATCH_STATUS_TBD /\ ~ changed x) /\
    exists d, dict_of target_dicts x = Ok d /\
      _DoesTargetTypeRequireBuild d = Ok (requires_build (object (targets st) x)) /\
      exists type, target_type d = Ok type /\
        is_executable (object (targets st) x) = bool_decide (type = VStr "executable");
  gi_unbuilt x : added_to_compile_targets (object (targets st) x) = false;
  gi_back x y : x ∈ back_deps (object (targets st) y) <-> y ∈ deps (object (targets st) x);
  gi_dom x y : y ∈ deps (object (targets st) x) -> is_Some (targets st !! y);
  gi_pending x : is_Some (targets st !! x) \/ x ∈ target_list ->
    visited (object (targets st) x) = true \/ x ∈ stack;
  gi_matching x : x ∈ matching_targets st <-> match_status (object (targets st) x) = MATCH_STATUS_MATCHES;
  gi_nodup : NoDup (matching_targets st);
  gi_roots x : x ∈ roots st <-> is_Some (targets st !! x) /\ back_deps (object (targets st) x) = ∅;
  gi_files x : x ∈ build_file_targets st <->
    visited (object (targets st) x) = true /\ in_build_files build_files (BuildFile x) = true;
  gi_known : known_right (build_file_in_files st);
  gi_reached x : is_Some (targets st !! x) \/ x ∈ stack -> reached target_list x }.

Lemma gen_inv_start target_list : gen_inv target_list (rev target_list) (Generated ∅ [] ∅ ∅ ∅).
Proof using.
  assert (Ho : forall x, object (∅ : targets_map) x = Target_init) by (intros x; unfold object; by rewrite lookup_empty).
  assert (Hn : forall x, ~ is_Some ((∅ : targets_map) !! x)) by (intros x; rewrite lookup_empty; by intros []).
  assert (Hr : forall x, x ∈ rev target_list <-> x ∈ target_list).
  { intros x. by rewrite !list_elem_of_In, <- in_rev. }
  split; cbn [targets matching_targets roots build_file_targets build_file_in_files];
    try (intros x; rewrite Ho); try done.
  - intros [H|H]; [by apply Hn in H|right; by apply Hr].
  - set_solver.
  - constructor.
  - split; [set_solver|]. by intros [?%Hn _].
  - set_solver.
  - intros x [H|H]; [by apply Hn in H|]. exists x. split; [by apply Hr|done].
Qed.

Lemma attributes_eq t t' : attributes t = attributes t' ->
  match_status t = match_status t' /\ visited t = visited t' /\ requires_build t = requires_build t' /\
  added_to_compile_targets t = added_to_compile_targets t' /\ is_executable t = is_executable t'.
Proof using. by intros [= -> -> -> -> _ ->]. Qed.

(** A target is popped that was not visited: it is created if need be. *)
Lemma gen_inv_create target_list x stack st b objects :
  gen_inv target_list (x :: stack) st ->
  _GetOrCreateTargetByName (targets st) x = (b, objects) ->
  gen_inv target_list (x :: stack)
    (Generated objects (matching_targets st) (if b then {[x]} ∪ roots st else roots st)
       (build_file_targets st) (build_file_in_files st)).
Proof using.
  intros [I1 I2 I3 I4 I5 I6 I7 I8 I9 I10 I11 I12] (Hobj & Hx & Hdom & Hb)%create_object.
  split; cbn [targets matching_targets roots build_file_targets build_file_in_files];
    try (intros y; rewrite !Hobj); [apply I1| |apply I3| | | |apply I7|done| |apply I10|done|].
  - intros Hv. destruct (I2 y Hv) as [Hy H]. split; [|done]. apply Hdom. by left.
  - intros z. rewrite Hobj. apply I4.
  - intros z Hz. apply Hdom. left. by apply (I5 y).
  - rewrite Hdom. intros [[Hy| ->]|Hy]; [apply I6; by left|right; by left|apply I6; by right].
  - rewrite Hdom. destruct b; [|rewrite I9].
    + assert (Hn : targets st !! x = None) by by apply Hb. rewrite elem_of_union, elem_of_singleton, I9.
      split; [|naive_solver]. intros [->|[Hy He]]; [|naive_solver]. split; [by right|].
      apply elem_of_equiv_empty_L. intros z Hz. apply I4, I5 in Hz. rewrite Hn in Hz. by destruct Hz.
    + assert (Hn : targets st !! x <> None) by (intros H%Hb; done). apply not_eq_None_Some in Hn. naive_solver.
  - intros y Hy. apply I12. destruct Hy as [Hy|Hy]; [|by right].
    apply Hdom in Hy as [Hy| ->]; [by left|right; by left].
Qed.

(** What a visit does, field by field *)
Record visit_effect (x : string) (l : list string) (matches requires executable : bool)
    (st st' : generated) : Prop := {
  ve_visited y : visited (object (targets st') y) = true <-> y = x \/ visited (object (targets st) y) = true;
  ve_status y : match_status (object (targets st') y) =
    if decide (y = x) then (if matches then MATCH_STATUS_MATCHES else match_status (object (targets st) x))
    else match_status (object (targets st) y);
  ve_kind y : (requires_build (object (targets st') y), is_executable (object (targets st') y)) =
    if decide (y = x) then (requires, executable)
    else (requires_build (object (targets st) y), is_executable (object (targets st) y));
  ve_added y : added_to_compile_targets (object (targets st') y) = added_to_compile_targets (object (targets st) y);
  ve_deps y z : z ∈ deps (object (targets st') y) <-> z ∈ deps (object (targets st) y) \/ (y = x /\ z ∈ l);
  ve_back y z : y ∈ back_deps (object (targets st') z) <->
    y ∈ back_deps (object (targets st) z) \/ (y = x /\ z ∈ l);
  ve_dom y : is_Some (targets st' !! y) <-> is_Some (targets st !! y) \/ y ∈ l;
  ve_roots y : y ∈ roots st' <-> y ∈ roots st /\ y ∉ l;
  ve_matching : matching_targets st' =
    if matches then (matching_targets st ++ [x])%list else matching_targets st;
  ve_files y : y ∈ build_file_targets st' <->
    (y = x /\ in_build_files build_files (BuildFile x) = true) \/ y ∈ build_file_targets st }.

Lemma visit_effects x st l requires executable matches known :
  is_Some (targets st !! x) -> (forall y, y ∈ roots st -> is_Some (targets st !! y)) ->
  visit_effect x l matches requires executable st
    (foldl (link_dep x) (note_visit x requires executable matches
                           (in_build_files build_files (BuildFile x)) known st) l).
Proof using.
  intros Hx Hr. set (st1 := note_visit _ _ _ _ _ _ st).
  assert (Hobj : forall y, object (targets st1) y =
    if decide (y = x) then mark requires executable matches (object (targets st) x)
    else object (targets st) y) by (intros y; apply object_update).
  assert (Hdom : forall y, is_Some (targets st1 !! y) <-> is_Some (targets st !! y)).
  { intros y. unfold st1, note_visit, update. cbn. rewrite lookup_insert_is_Some'. naive_solver. }
  destruct (link_all x l st1) as [K1 K2 K3 K4 K5 K6 K7 K8]; [by apply Hdom|intros y Hy; by apply Hdom, Hr|].
  assert (Hat : forall y, attributes (object (targets (foldl (link_dep x) st1 l)) y) =
    attributes (if decide (y = x) then mark requires executable matches (object (targets st) x)
                else object (targets st) y)) by (intros y; by rewrite K5, Hobj).
  split; [| | | |intros y z; rewrite K6, Hobj|intros y z; rewrite K7, Hobj|intros y; by rewrite K4, Hdom
         |intros y; by rewrite K8|by rewrite K1|].
  - intros y. destruct (attributes_eq _ _ (Hat y)) as (_ & -> & _). destruct (decide (y = x)) as [->|Hy].
    + unfold mark. destruct matches; naive_solver.
    + naive_solver.
  - intros y. destruct (attributes_eq _ _ (Hat y)) as (-> & _). case_decide; [|done]. by destruct matches.
  - intros y. destruct (attributes_eq _ _ (Hat y)) as (_ & _ & -> & _ & ->). case_decide; [|done]. by destruct matches.
  - intros y. destruct (attributes_eq _ _ (Hat y)) as (_ & _ & _ & -> & _).
    case_decide; subst; [|done]. by destruct matches.
  - case_decide; subst; [|done]. by destruct matches.
  - case_decide; subst; [|done]. by destruct matches.
  - intros y. rewrite K2. unfold st1, note_visit. cbn.
    destruct (in_build_files build_files (BuildFile x)); set_solver.
Qed.

Lemma target_dep_names x d l y : dict_of target_dicts x = Ok d -> dependency_names d = Ok l ->
  target_dep x y <-> y ∈ l.
Proof using.
  intros Hd Hl. split; [|by exists d, l]. intros (d' & l' & Hd' & Hl' & Hy).
  rewrite Hd in Hd'. injection Hd' as <-. rewrite Hl in Hl'. by injection Hl' as <-.
Qed.
Lemma changed_matches x d modified matches : dict_of target_dicts x = Ok d ->
  _WasBuildFileModified windows (BuildFile x) data files toplevel_dir = Ok modified ->
  target_matches windows toplevel_dir files x d modified = Ok matches ->
  changed x <-> matches = true.
Proof using.
  intros Hd Hm Hma. split; [|by intros ->; exists d, modified]. intros (d' & m' & Hd' & Hm' & Hma').
  rewrite Hd in Hd'. injection Hd' as <-. rewrite Hm in Hm'. injection Hm' as <-.
  rewrite Hma in Hma'. by injection Hma' as <-.
Qed.

Lemma gen_inv_effect target_list x stack st st' l d requires type modified matches :
  gen_inv target_list (x :: stack) st -> is_Some (targets st !! x) ->
  visited (object (targets st) x) = false ->
  dict_of target_dicts x = Ok d -> _DoesTargetTypeRequireBuild d = Ok requires -> target_type d = Ok type ->
  _WasBuildFileModified windows (BuildFile x) data files toplevel_dir = Ok modified ->
  target_matches windows toplevel_dir files x d modified = Ok matches -> dependency_names d = Ok l ->
  visit_effect x l matches requires (bool_decide (type = VStr "executable")) st st' ->
  known_right (build_file_in_files st') -> gen_inv target_list (rev l ++ stack) st'.
Proof using.
  intros [I1 I2 I3 I4 I5 I6 I7 I7' I8 I9 I10 I11] Hx Hv Hd Hreq Htype Hm Hma Hl [V1 V2 V3 V4 V5 V6 V7 V8 V9 V10] Hk.
  pose proof (fun y => target_dep_names x d l y Hd Hl) as Hdep.
  pose proof (changed_matches x d modified matches Hd Hm Hma) as Hch.
  destruct (I1 x Hv) as [Hd0 Hs0]. assert (Hrev : forall y, y ∈ rev l <-> y ∈ l).
  { intros y. by rewrite !list_elem_of_In, <- in_rev. }
  split.
  - intros y Hy. assert (Hyn : ~ (y = x \/ visited (object (targets st) y) = true)).
    { intros H%V1. congruence. }
    apply Decidable.not_or in Hyn as [Hyx Hyv%not_true_is_false]. destruct (I1 y Hyv) as [Hdy Hsy].
    rewrite V2, decide_False by done. split; [|done].
    apply elem_of_equiv_empty_L. intros z [Hz|[? _]]%V5; [|done]. by rewrite Hdy in Hz.
  - intros y Hy%V1. rewrite V2, V7. setoid_rewrite V5. specialize (V3 y).
    destruct (decide (y = x)) as [->|Hyx]; injection V3 as -> ->.
    + split_and!; [by left| | |by exists d; eauto]; [intros z; rewrite Hdep, Hd0; set_solver|].
      destruct matches; [left|right]; rewrite Hch; done.
    + destruct Hy as [?|Hy]; [done|]. destruct (I2 y Hy) as (J1 & J2 & J3 & J4).
      split_and!; [by left| |done..]. intros z. rewrite <- J2. naive_solver.
  - intros y. by rewrite V4.
  - intros y z. by rewrite V6, V5, I4.
  - intros y z [Hz|[_ Hz]]%V5; apply V7; [left; by eapply I5|by right].
  - intros y. rewrite V7, V1, elem_of_app, Hrev. intros [[Hy|Hy]|Hy]; [|by right; left|];
      (destruct (I6 y) as [H|[->|H]%elem_of_cons]; [auto|auto..]).
  - intros y. rewrite V9, V2. destruct matches; [rewrite elem_of_app, list_elem_of_singleton|];
      (destruct (decide (y = x)) as [->|Hy]; rewrite I7; naive_solver).
  - rewrite V9. destruct matches; [|done]. apply NoDup_snoc; [done|]. rewrite I7, Hs0. done.
  - intros y. rewrite V8, I8, V7. split.
    + intros [[Hy Hb] Hyl]. split; [by left|]. apply elem_of_equiv_empty_L.
      intros z [Hz|[_ ?]]%V6; [|done]. by rewrite Hb in Hz.
    + intros [Hy Hb]. assert (Hyl : y ∉ l).
      { intros Hyl. assert (x ∈ back_deps (object (targets st') y)) by (apply V6; by right). by rewrite Hb in H. }
      split; [split; [by destruct Hy|]|done]. apply elem_of_equiv_empty_L. intros z Hz.
      assert (z ∈ back_deps (object (targets st') y)) by (apply V6; by left). by rewrite Hb in H.
  - intros y. rewrite V10, V1, I9. naive_solver.
  - done.
  - intros y. rewrite V7, elem_of_app, Hrev.
    assert (Hyl : y ∈ l -> reached target_list y).
    { intros Hy. destruct (I11 x) as (t & Ht & Hr); [by left|]. exists t. split; [done|].
      eapply rtc_r; [done|]. by apply Hdep. }
    intros [[Hy|Hy]|[Hy|Hy]]; [apply I11; by left|auto|auto|]. apply I11. right. by right.
Qed.

Lemma gen_inv_visit target_list x stack st l st' :
  gen_inv target_list (x :: stack) st -> is_Some (targets st !! x) ->
  visited (object (targets st) x) = false -> visit x st = Ok (l, st') ->
  gen_inv target_list (rev l ++ stack) st' /\
  (forall y, visited (object (targets st') y) = true <-> y = x \/ visited (object (targets st) y) = true) /\
  exists d, dict_of target_dicts x = Ok d /\ dependency_names d = Ok l.
Proof using.
  intros Hinv Hx Hv
    (d & requires & type & modified & known & matches & Hd & Hreq & Htype & Hm & Hma & Hl & ->)%visit_target_ok.
  apply build_file_modified_ok in Hm as [Hm Hknown]; [|by eapply gi_known].
  assert (Hr : forall y, y ∈ roots st -> is_Some (targets st !! y)) by (intros y Hy; by apply (gi_roots _ _ _ Hinv)).
  pose proof (visit_effects x st l requires (bool_decide (type = VStr "executable")) matches known Hx Hr) as He.
  split_and!; [|by apply (ve_visited _ _ _ _ _ _ _ He)|by exists d].
  eapply gen_inv_effect; [done..|].
  match goal with |- known_right (build_file_in_files (foldl _ ?s _)) => rewrite (linked_known x l s); [done|] end.
  apply link_all; [unfold note_visit, update; cbn; by rewrite lookup_insert_eq; eexists|].
  intros y Hy%Hr. unfold note_visit, update. cbn. rewrite lookup_insert_is_Some'. by right.
Qed.

(** What is still to be pushed *)
Definition owed (vis : string -> bool) : nat :=
  sum_list_with (fun kv => if vis kv.1 then 0 else dependency_count kv.2) target_dicts.

Lemma dependency_count_names d l : dependency_names d = Ok l -> dependency_count d = length l.
Proof using.
  unfold dependency_names, dependency_count. intros (vs & -> & H)%bind_ok.
  assert (Hg : forall acc l, foldM (fun names dep => dep ← as_key dep; Ok (names ++ [dep])%list) acc vs = Ok l ->
    length l = length acc + length vs); [|by rewrite (Hg [] l)].
  clear H. induction vs as [|v vs IH]; intros acc l0; cbn [foldM].
  - intros [= <-]. cbn. lia.
  - intros (acc' & (k & _ & [= <-])%bind_ok & H)%bind_ok. apply IH in H. rewrite H, length_app. cbn. lia.
Qed.

Lemma owed_visit vis vis' x d : vis x = false -> (x, d) ∈ target_dicts ->
  (forall y, vis' y = true <-> y = x \/ vis y = true) ->
  owed vis' + dependency_count d <= owed vis.
Proof using.
  intros Hx Hin Hvis. unfold owed. induction target_dicts as [|[y e] l IH]; [by apply not_elem_of_nil in Hin|].
  cbn [sum_list_with fst snd].
  assert (Hle : forall k : list (string * dict), sum_list_with (fun kv => if vis' kv.1 then 0 else dependency_count kv.2) k <=
    sum_list_with (fun kv => if vis kv.1 then 0 else dependency_count kv.2) k).
  { induction k as [|[z f] k IHk]; cbn [sum_list_with fst snd]; [lia|].
    assert (vis z = true -> vis' z = true) by (intros H; apply Hvis; by right).
    destruct (vis z), (vis' z); naive_solver lia. }
  apply elem_of_cons in Hin as [[= <- <-]|Hin].
  - rewrite Hx. assert (vis' x = true) as -> by (apply Hvis; by left). specialize (Hle l). lia.
  - specialize (IH Hin). assert (vis y = true -> vis' y = true) by (intros H; apply Hvis; by right).
    destruct (vis y), (vis' y); naive_solver lia.
Qed.

Lemma iterate_fuel v : iterate v <> NoFuel.
Proof using. by destruct v. Qed.
Lemma add_sources_fuel v base_path components result : _AddSources v base_path components result <> NoFuel.
Proof using.
  unfold _AddSources. apply bind_fuel; [apply iterate_fuel|]. intros l _.
  apply (foldM_fuel (fun _ => True)); [done|]. intros r y _ _. split; [|done]. unfold add_source. no_fuel.
Qed.
Lemma extract_action_fuel v base_path components result :
  _ExtractSourcesFromAction v base_path components result <> NoFuel.
Proof using. unfold _ExtractSourcesFromAction. cases. apply add_sources_fuel. Qed.
Lemma extract_fuel x d : _ExtractSources windows x d toplevel_dir <> NoFuel.
Proof using.
  unfold _ExtractSources. cbv zeta.
  repeat first [apply add_sources_fuel|apply iterate_fuel|apply bind_fuel; [|intros ? ?]|discriminate
    |apply (foldM_fuel (fun _ => True)); [done|intros; split; [apply extract_action_fuel|done]]|case_match].
Qed.
Lemma any_included_fuel build_file l : any_included_in windows build_file l files toplevel_dir <> NoFuel.
Proof using. induction l as [|v l IH]; cbn [any_included_in]; [done|]. no_fuel; try done. by destruct v. Qed.
Lemma modified_fuel build_file : _WasBuildFileModified windows build_file data files toplevel_dir <> NoFuel.
Proof using.
  unfold _WasBuildFileModified. destruct build_file as [f|]; [|done]. cbn. no_fuel; try done.
  - by destruct (OrderedDict.assoc f data).
  - unfold dindex. by destruct (dget _ _).
  - unfold included_tail. cases.
  - apply any_included_fuel.
Qed.
Lemma visit_no_fuel x st : visit x st <> NoFuel.
Proof using.
  unfold visit_target. repeat (apply bind_fuel; [|intros ? ?]); try done.
  - unfold dict_of. by destruct (OrderedDict.assoc _ _).
  - unfold _DoesTargetTypeRequireBuild, target_type, dindex. by destruct (dget _ _).
  - unfold target_type, dindex. by destruct (dget _ _).
  - unfold build_file_modified. case_match; [done|]. apply bind_fuel; [apply modified_fuel|done].
  - case_match; subst. apply bind_fuel; [|intros ? ?; apply bind_fuel; [|done]].
    + unfold target_matches. case_match; [done|]. apply bind_fuel; [apply extract_fuel|done].
    + unfold dependency_names. apply bind_fuel; [unfold get_list; case_match; [apply iterate_fuel|done]|].
      intros vs _. apply (foldM_fuel (fun _ => True)); [done|]. intros ns v _ _. split; [|done].
      unfold as_key. by destruct v.
Qed.

Lemma generate_loop_spec target_list fuel stack st :
  gen_inv target_list stack st ->
  length stack + owed (fun x => visited (object (targets st) x)) <= fuel ->
  match loop fuel stack st with
  | Ok st' => gen_inv target_list [] st'
  | Err _ => True
  | NoFuel => False
  end.
Proof using.
  revert stack st. induction fuel as [|fuel IH]; intros [|x stack] st Hinv Hfuel; cbn [generate_loop]; try done.
  { cbn in Hfuel. lia. }
  destruct (_GetOrCreateTargetByName (targets st) x) as [b objects] eqn:E.
  pose proof (gen_inv_create _ _ _ _ _ _ Hinv E) as Hinv1. apply create_object in E as (Hobj & Hx & _ & Hb).
  destruct (negb b && visited (object objects x)) eqn:Hv.
  - apply andb_true_iff in Hv as [_ Hv]. rewrite Hobj in Hv. apply IH; [|cbn in Hfuel; lia].
    destruct Hinv as [I1 I2 I3 I4 I5 I6 I7 I7' I8 I9 I10 I11]. split; try done.
    + intros y Hy. destruct (I6 y Hy) as [?|[->|?]%elem_of_cons]; auto.
    + intros y Hy. apply I11. destruct Hy; [by left|]. right. by right.
  - assert (Hxv : visited (object objects x) = false).
    { destruct b; [|exact Hv]. rewrite Hobj. unfold object. by rewrite (proj1 Hb eq_refl). }
    match goal with |- context [visit_target _ _ _ _ _ _ x ?s] => set (st1 := s) in * end.
    destruct (visit x st1) as [[l st']| |] eqn:Ev; cbn [mbind res_bind]; [|done|].
    + apply (gen_inv_visit target_list x stack st1) in Ev as (Hinv' & Hvis & d & Hd & Hl); [|done..].
      apply IH; [done|]. apply dependency_count_names in Hl. unfold dict_of in Hd.
      apply of_option_ok, OrderedDict.assoc_Some in Hd as (l1 & l2 & Hd & _).
      assert (Ho : owed (fun y => visited (object (targets st') y)) + dependency_count d <=
                   owed (fun y => visited (object (targets st) y))).
      { apply (owed_visit _ _ x); [by rewrite <- Hobj|rewrite Hd; set_solver|]. intros y. rewrite Hvis. cbn. by rewrite Hobj. }
      rewrite length_app, length_rev. cbn in Hfuel. lia.
    + by apply visit_no_fuel in Ev.
Qed.

(** The graph of the reached targets *)
Record graph_right (target_list : list string) (objects : targets_map) (matching : list string)
    (root_targets : gset string) : Prop := {
  gr_deps x y : y ∈ deps (object objects x) <-> reached target_list x /\ target_dep x y;
  gr_back x y : x ∈ back_deps (object objects y) <-> reached target_list x /\ target_dep x y;
  gr_objects x : is_Some (objects !! x) <-> reached target_list x;
  gr_status x : match_status (object objects x) = MATCH_STATUS_MATCHES \/
    match_status (object objects x) = MATCH_STATUS_TBD;
  gr_matching x : x ∈ matching <-> match_status (object objects x) = MATCH_STATUS_MATCHES;
  gr_matches x : match_status (object objects x) = MATCH_STATUS_MATCHES <->
    reached target_list x /\ changed x;
  gr_kind x : reached target_list x -> exists d, dict_of target_dicts x = Ok d /\
    _DoesTargetTypeRequireBuild d = Ok (requires_build (object objects x)) /\
    exists type, target_type d = Ok type /\
      is_executable (object objects x) = bool_decide (type = VStr "executable");
  gr_unbuilt x : added_to_compile_targets (object objects x) = false;
  gr_roots x : x ∈ root_targets <-> reached target_list x /\
    (forall y, reached target_list y -> ~ target_dep y x) /\
    in_build_files build_files (BuildFile x) = true }.

Lemma gen_inv_end target_list st : gen_inv target_list [] st ->
  graph_right target_list (targets st) (matching_targets st) (roots st ∩ build_file_targets st).
Proof using.
  intros [I1 I2 I3 I4 I5 I6 I7 I7' I8 I9 I10 I11].
  assert (Hvis : forall x, is_Some (targets st !! x) \/ x ∈ target_list -> visited (object (targets st) x) = true).
  { intros x [H|H%not_elem_of_nil]%I6; done. }
  assert (Hdom : forall x, is_Some (targets st !! x) <-> reached target_list x).
  { intros x. split; [intros H; apply I11; by left|]. intros (t & Ht & Hr).
    assert (Hs : is_Some (targets st !! t)) by (apply I2, Hvis; by right). clear Ht.
    induction Hr as [x|x y z Hxy _ IH]; [done|]. apply IH. apply (I5 x), I2; [apply Hvis; by left|done]. }
  assert (Hv : forall x, visited (object (targets st) x) = true <-> reached target_list x).
  { intros x. rewrite <- Hdom. split; [apply I2|intros H; apply Hvis; by left]. }
  assert (Hdeps : forall x y, y ∈ deps (object (targets st) x) <-> reached target_list x /\ target_dep x y).
  { intros x y. rewrite <- Hv. destruct (visited (object (targets st) x)) eqn:E.
    - destruct (I2 x E) as (_ & -> & _). naive_solver.
    - destruct (I1 x E) as [-> _]. split; [by intros ?%not_elem_of_empty|by intros []]. }
  split; [done|by intros x y; rewrite I4|done| |done| | |done|].
  - intros x. destruct (visited (object (targets st) x)) eqn:E; [|right; by apply I1].
    destruct (I2 x E) as (_ & _ & [[]|[]] & _); auto.
  - intros x. rewrite <- Hv. destruct (visited (object (targets st) x)) eqn:E.
    + destruct (I2 x E) as (_ & _ & [[-> ?]|[-> ?]] & _); naive_solver.
    + destruct (I1 x E) as [_ ->]. naive_solver.
  - intros x Hx%Hv. by destruct (I2 x Hx) as (_ & _ & _ & H).
  - intros x. rewrite elem_of_intersection, I8, I9, Hdom, Hv. split.
    + intros [[Hr Hb] [_ Hf]]. split_and!; [done| |done]. intros y Hy Hyx.
      assert (Hin : y ∈ back_deps (object (targets st) x)) by (by apply I4, Hdeps). by rewrite Hb in Hin.
    + intros (Hr & Hn & Hf). split_and!; [done| |done..]. apply elem_of_equiv_empty_L.
      intros y [Hy Hyx]%I4%Hdeps. by eapply Hn.
Qed.

Lemma _GenerateTargets_spec target_list :
  match _GenerateTargets windows data target_dicts toplevel_dir files build_files target_list with
  | Ok (objects, matching, root_targets) => graph_right target_list objects matching root_targets
  | Err _ => True
  | NoFuel => False
  end.
Proof using.
  unfold _GenerateTargets.
  pose proof (generate_loop_spec target_list (generate_fuel target_dicts target_list) (rev target_list)
    (Generated ∅ [] ∅ ∅ ∅) (gen_inv_start target_list)) as H.
  assert (Hfuel : length (rev target_list) +
    owed (fun x => visited (object (targets (Generated ∅ [] ∅ ∅ ∅)) x)) <= generate_fuel target_dicts target_list).
  { rewrite length_rev. unfold owed, generate_fuel. apply Nat.add_le_mono_l, Nat.eq_le_incl.
    induction target_dicts as [|[y e] l IH]; cbn [sum_list_with fst]; [done|].
    by f_equal. }
  specialize (H Hfuel). destruct (loop _ _ _) as [st| |]; cbn [mbind res_bind]; [by apply gen_inv_end|done..].
Qed.
End Generate.
