(* ===== verification/AnalyzerSpec.v ===== *)
(** * What the analyzer answers ([gyp/generator/analyzer.py])

    [GenerateOutput] on the result of [Load]: the targets are listed after their
    dependencies, as [DepGraph] shows of [BuildDependencyList]. *)
From stdpp Require Import sorting.
From S2P Require Import Prelude PyStr PyPath Common Ordered GypValue DepGraph Targets Analyzer AnalyzerProps.
From stdpp Require Import options.

Section Order.
Context (target_dicts : list (string * dict)) (target_list : list string).

Definition target_deps (x : string) : list string :=
  match (d ← dict_of target_dicts x; Analyzer.dependency_names d) with Ok l => l | _ => [] end.
Lemma target_dep_in x y : target_dep target_dicts x y <-> y ∈ target_deps x.
Proof using.
  unfold target_deps. split.
  - intros (d & l & -> & Hl & Hy). cbn. by rewrite Hl.
  - destruct (dict_of target_dicts x) as [d| |] eqn:Ed; cbn; [|by intros ?%not_elem_of_nil..].
    destruct (Analyzer.dependency_names d) as [l| |] eqn:El; [|by intros ?%not_elem_of_nil..].
    intros Hy. by exists d, l.
Qed.

Context (Hfirst : dependencies_first target_deps target_list).

(** The position of a target in the list *)
Definition position (x : string) : nat :=
  match list_find (eq x) target_list with Some (i, _) => i | None => 0 end.
Lemma position_at x : x ∈ target_list ->
  target_list !! position x = Some x /\ forall i, target_list !! i = Some x -> position x <= i.
Proof using.
  intros Hx. unfold position. destruct (list_find_elem_of (eq x) target_list x Hx eq_refl) as [[i z] Hi].
  rewrite Hi. apply list_find_Some in Hi as (Hi & <- & Hmin). split; [done|].
  intros j Hj. destruct (decide (i <= j)); [done|]. destruct (Hmin j x Hj); [lia|done].
Qed.
Lemma position_bound x : x ∈ target_list -> position x < length target_list.
Proof using. intros Hx. destruct (position_at x Hx) as [H _]. by apply lookup_lt_Some in H. Qed.
Lemma position_dep x y : x ∈ target_list -> target_dep target_dicts x y ->
  y ∈ target_list /\ position y < position x.
Proof using Hfirst.
  intros Hx Hy%target_dep_in. destruct (position_at x Hx) as [Hi _].
  specialize (Hfirst _ _ _ Hi Hy). apply list_elem_of_lookup in Hfirst as [j Hj].
  apply lookup_take_Some in Hj as [Hj Hlt].
  assert (Hin : y ∈ target_list) by (apply list_elem_of_lookup; by exists j).
  split; [done|]. destruct (position_at y Hin) as [_ Hmin]. specialize (Hmin j Hj). lia.
Qed.
Lemma reached_in x : reached target_dicts target_list x <-> x ∈ target_list.
Proof using Hfirst.
  split; [|intros Hx; by exists x]. intros (t & Ht & Hr).
  induction Hr as [|x y z Hxy _ IH]; [done|]. apply IH. by eapply position_dep.
Qed.
End Order.

(** ** The supplied names *)
Definition name_of (x : string) : string := (ParseQualifiedTarget x).1.2.

Lemma find_unqualified_spec names objects to_find result :
  (forall n, n ∈ to_find -> result !! n = None) ->
  let mapping := find_unqualified names objects to_find result in
  (forall n x, mapping !! n = Some x ->
     result !! n = Some x \/ n ∈ to_find /\ x ∈ names /\ name_of x = n) /\
  (forall n, is_Some (result !! n) \/ n ∈ to_find /\ (exists x, x ∈ names /\ name_of x = n) ->
     is_Some (mapping !! n)).
Proof.
  revert to_find result. induction names as [|y names IH]; intros to_find result Hn; cbn [find_unqualified].
  { split; [auto|]. intros n [?|(_ & x & ?%not_elem_of_nil & _)]; done. }
  change (ParseQualifiedTarget y).1.2 with (name_of y). case_decide as Hy.
  - set (to_find' := to_find ∖ {[name_of y]}). set (result' := <[name_of y := y]> result).
    assert (Hr' : forall n x, result' !! n = Some x -> result !! n = Some x \/
        n ∈ to_find /\ x ∈ y :: names /\ name_of x = n).
    { intros n x [[<- <-]|[_ ?]]%lookup_insert_Some; [right|by left]. split_and!; [done|by left|done]. }
    assert (Hs' : forall n, is_Some (result !! n) \/ n = name_of y -> is_Some (result' !! n)).
    { intros n. unfold result'. rewrite lookup_insert_is_Some'. naive_solver. }
    case_decide as He.
    + split; [done|]. intros n [H|(H & _)]; [by apply Hs'; left|]. apply Hs'.
      destruct (decide (n = name_of y)); [by right|]. set_solver.
    + destruct (IH to_find' result') as [H1 H2].
      { intros n Hnn. unfold result'. rewrite lookup_insert_ne by set_solver. apply Hn. set_solver. }
      split.
      * intros n x [H|(H & Hx & Hnx)]%H1; [by apply Hr'|]. right. split_and!; [set_solver|by right|done].
      * intros n Hnn. apply H2. destruct (decide (n = name_of y)) as [->|Hne]; [left; apply Hs'; by right|].
        destruct Hnn as [H|(H & x & [->|Hx]%elem_of_cons & Hnx)]; [left; apply Hs'; by left|done|].
        right. split; [set_solver|by exists x].
  - destruct (IH to_find result Hn) as [H1 H2]. split.
    + intros n x [H|(H & Hx & Hnx)]%H1; [by left|]. right. split_and!; [done|by right|done].
    + intros n Hnn. apply H2. destruct Hnn as [H|(H & x & [->|Hx]%elem_of_cons & Hnx)]; [by left|by subst|].
      right. split; [done|by exists x].
Qed.

Section Names.
Context (iteration : list string -> list string).
Context (Hit : forall k x, x ∈ iteration k <-> x ∈ k).

Lemma mapping_spec objects to_find :
  let mapping := _GetUnqualifiedToTargetMapping iteration objects to_find in
  (forall n x, mapping !! n = Some x -> n ∈ to_find /\ is_Some (objects !! x) /\ name_of x = n) /\
  (forall n, n ∈ to_find -> (exists x, is_Some (objects !! x) /\ name_of x = n) -> is_Some (mapping !! n)).
Proof using Hit.
  unfold _GetUnqualifiedToTargetMapping. case_decide as He; [subst; set_solver|].
  assert (Hk : forall x, x ∈ iteration (map_to_list objects).*1 <-> is_Some (objects !! x)).
  { intros x. rewrite Hit, <- elem_of_dom. rewrite list_elem_of_fmap. split.
    - intros ([k t] & -> & H%elem_of_map_to_list). by eapply elem_of_dom_2.
    - intros [t Ht]%elem_of_dom. exists (x, t). split; [done|]. by apply elem_of_map_to_list. }
  destruct (find_unqualified_spec (iteration (map_to_list objects).*1) objects to_find ∅) as [H1 H2].
  { intros n _. apply lookup_empty. }
  split.
  - intros n x [H|(H & Hx%Hk & Hn)]%H1; [by rewrite lookup_empty in H|done].
  - intros n Hn (x & Hx%Hk & Hnx). apply H2. right. split; [done|by exists x].
Qed.
End Names.

(** ** The answers *)
Section Answers.
Context (windows : bool) (data target_dicts : list (string * dict)) (toplevel_dir : string).
Context (files : gset string) (build_files target_list : list string).
Context (Hfirst : dependencies_first (target_deps target_dicts) target_list).

Abbreviation depends_on := (target_dep target_dicts).
Abbreviation is_changed := (changed windows data target_dicts toplevel_dir files).

(** A dependency of [x], or [x] itself, is changed. *)
Definition is_affected (x : string) : Prop := exists y, rtc depends_on x y /\ is_changed y.
(** No target depends on [r], which is in one of the given build files. *)
Definition root_target (r : string) : Prop := r ∈ target_list /\
  (forall x, x ∈ target_list -> ~ depends_on x r) /\ in_build_files build_files (BuildFile r) = true.
Definition from_root (x : string) : Prop := exists r, rtc depends_on r x /\ root_target r.
Definition is_executable_target (x : string) : Prop := exists d,
  dict_of target_dicts x = Ok d /\ target_type d = Ok (VStr "executable").
Definition requires_build_target (x : string) : Prop := exists d,
  dict_of target_dicts x = Ok d /\ _DoesTargetTypeRequireBuild d = Ok true.

Section Graph.
Context (objects : targets_map) (matching : list string) (root_targets : gset string).
Context (Hg : graph_right windows data target_dicts toplevel_dir files build_files target_list
                objects matching root_targets).

Lemma affected_is x : x ∈ target_list -> affected objects x <-> is_affected x.
Proof using Hfirst Hg.
  assert (Hedge : forall x y, dep_edge objects x y <-> x ∈ target_list /\ depends_on x y).
  { intros y z. unfold dep_edge. by rewrite (gr_deps _ _ _ _ _ _ _ _ _ _ Hg), reached_in. }
  assert (Hmatch : forall y, matched objects y <-> y ∈ target_list /\ is_changed y).
  { intros y. unfold matched. by rewrite (gr_matches _ _ _ _ _ _ _ _ _ _ Hg), reached_in. }
  intros Hx. split.
  - intros (y & Hr & Hy%Hmatch). exists y. split; [|by destruct Hy].
    eapply rtc_subrel; [|done]. by intros u v [_ ?]%Hedge.
  - intros (y & Hr & Hy). exists y. assert (Hry : rtc (dep_edge objects) x y /\ y ∈ target_list); [|naive_solver].
    clear Hy. induction Hr as [u|u v w Huv _ IH]; [done|].
    destruct IH as [H1 H2]; [by eapply position_dep|]. split; [|done]. eapply rtc_l; [|done]. by apply Hedge.
Qed.

Lemma back_is x y : x ∈ target_list -> rtc (back_edge objects) x y <-> y ∈ target_list /\ rtc depends_on y x.
Proof using Hfirst Hg.
  assert (Hedge : forall x y, back_edge objects y x <-> x ∈ target_list /\ depends_on x y).
  { intros u v. unfold back_edge. by rewrite (gr_back _ _ _ _ _ _ _ _ _ _ Hg), reached_in. }
  intros Hx. split.
  - intros Hr. induction Hr as [u|u v w Huv _ IH]; [done|]. apply Hedge in Huv as [Hv Hvu].
    destruct (IH Hv) as [H1 H2]. split; [done|]. by eapply rtc_r.
  - intros [Hy Hr]. induction Hr as [u|u v w Huv Hr IH]; [done|].
    eapply rtc_r; [apply IH; [done|by eapply position_dep]|]. by apply Hedge.
Qed.

Definition right_build (names : list string) : Prop :=
  (forall n, n ∈ names -> exists x, name_of x = n /\ x ∈ target_list /\ from_root x /\ is_affected x) /\
  (forall x, x ∈ target_list -> is_affected x -> from_root x ->
     (is_executable_target x -> name_of x ∈ names) /\
     (requires_build_target x -> exists y, rtc depends_on y x /\ from_root y /\ name_of y ∈ names)).

Lemma kind_is x : x ∈ target_list ->
  (is_executable_target x <-> is_executable (object objects x) = true) /\
  (requires_build_target x <-> requires_build (object objects x) = true).
Proof using Hfirst Hg.
  intros Hx. destruct (gr_kind _ _ _ _ _ _ _ _ _ _ Hg x) as (d & Hd & Hr & type & Ht & He); [by apply reached_in|].
  split; split.
  - intros (d' & Hd' & Ht'). rewrite Hd in Hd'. injection Hd' as <-. rewrite Ht in Ht'. injection Ht' as ->. by rewrite He.
  - rewrite He. intros ->%bool_decide_eq_true. by exists d.
  - intros (d' & Hd' & Hr'). rewrite Hd in Hd'. injection Hd' as <-. rewrite Hr in Hr'. by injection Hr' as ->.
  - intros H. exists d. split; [done|]. by rewrite Hr, H.
Qed.

Lemma object_unvisited (targets : targets_map) x :
  object (with_visited false <$> targets) x = with_visited false (object targets x).
Proof using. unfold object. rewrite lookup_fmap. by destruct (targets !! x). Qed.

Lemma root_is x : is_root root_targets objects x <-> root_target x.
Proof using Hfirst Hg.
  unfold is_root, root_target. rewrite (gr_roots _ _ _ _ _ _ _ _ _ _ Hg), reached_in by done.
  setoid_rewrite (reached_in target_dicts target_list Hfirst). split; [naive_solver|].
  intros (H1 & H2 & H3). split; [|naive_solver]. apply elem_of_equiv_empty_L. intros y Hy.
  apply (gr_back _ _ _ _ _ _ _ _ _ _ Hg) in Hy as [Hy Hyx]. rewrite reached_in in Hy by done. by apply (H2 y).
Qed.
Lemma under_root_is x : x ∈ target_list -> under_root root_targets objects x <-> from_root x.
Proof using Hfirst Hg.
  intros Hx. unfold under_root, from_root. split.
  - intros (r & Hr & Hroot%root_is). exists r. apply back_is in Hr as [_ Hr]; [|done]. done.
  - intros (r & Hr & Hroot). exists r. split; [|by apply root_is]. apply back_is; [done|].
    by destruct Hroot as [? _].
Qed.

(** The answers, when something is changed *)
Context (iteration : list string -> list string).
Context (Hit : forall k x, x ∈ iteration k <-> x ∈ k).

(** The objects of which [_GetBuildTargets] is asked *)
Context (targets1 : targets_map) (Hinv : search_inv objects targets1).
Abbreviation objects2 := (with_visited false <$> targets1).

Lemma same_edge x y : back_edge objects2 x y <-> back_edge objects x y.
Proof using Hinv.
  unfold back_edge. rewrite object_unvisited. cbn. by rewrite (same_back_deps _ _ (search_graph _ _ Hinv)).
Qed.
Lemma same_edges x y : rtc (back_edge objects2) x y <-> rtc (back_edge objects) x y.
Proof using Hinv. split; apply rtc_subrel; intros u v; by rewrite same_edge. Qed.
Lemma same_under_root x : under_root root_targets objects2 x <-> under_root root_targets objects x.
Proof using Hinv.
  unfold under_root, is_root. setoid_rewrite same_edges. setoid_rewrite object_unvisited. cbn.
  by setoid_rewrite (same_back_deps _ _ (search_graph _ _ Hinv)).
Qed.

Lemma build_answer : exists t result,
  _GetBuildTargets iteration root_targets (S (length target_list)) objects2 matching = Ok (t, result) /\
  right_build (unqualified (iteration (elements result))).
Proof using Hfirst Hg Hit Hinv.
  assert (Hm : forall m, m ∈ matching <-> m ∈ target_list /\ is_changed m).
  { intros m. by rewrite (gr_matching _ _ _ _ _ _ _ _ _ _ Hg), (gr_matches _ _ _ _ _ _ _ _ _ _ Hg), reached_in. }
  destruct (_GetBuildTargets_spec iteration Hit root_targets objects2) with
    (rank := fun x => length target_list - position target_list x) (fuel := S (length target_list))
    (matching := matching) as (t & result & Heq & H1 & H2).
  - intros x. rewrite object_unvisited. cbn. split; [done|].
    by rewrite (search_added _ _ Hinv), (gr_unbuilt _ _ _ _ _ _ _ _ _ _ Hg).
  - intros x y Hy. change (back_edge objects2 x y) in Hy. apply same_edge in Hy.
    apply (gr_back _ _ _ _ _ _ _ _ _ _ Hg) in Hy as [Hy Hyx]. rewrite reached_in in Hy by done.
    destruct (position_dep target_dicts target_list Hfirst y x Hy Hyx). pose proof (position_bound _ y Hy). lia.
  - intros x _. lia.
  - exists t, result. split; [done|].
    assert (Hres : forall x, x ∈ iteration (elements result) <-> x ∈ result) by (intros x; by rewrite Hit, elem_of_elements).
    split.
    + intros n (x & -> & Hx%Hres)%list_elem_of_fmap. exists x. split; [done|].
      destruct (H1 x Hx) as (Hu & (m & Hmm & Hr) & _). apply Hm in Hmm as [Hml Hmc].
      apply same_edges, back_is in Hr as [Hxl Hxm]; [|done].
      split_and!; [done| |by exists m]. by apply under_root_is, same_under_root.
    + intros x Hx (m & Hxm & Hmc) Hroot. assert (Hml : m ∈ target_list).
      { clear -Hx Hxm Hfirst. induction Hxm as [|u v w Huv _ IH]; [done|]. apply IH. by eapply position_dep. }
      destruct (H2 m x) as [He Hn]; [by apply Hm|by apply same_edges, back_is|by apply same_under_root, under_root_is|].
      destruct (kind_is x Hx) as [K1 K2]. unfold executable, needs_build in He, Hn. rewrite object_unvisited in He, Hn.
      cbn in He, Hn. rewrite (same_executable _ _ (search_graph _ _ Hinv)) in He.
      rewrite (same_requires _ _ (search_graph _ _ Hinv)) in Hn. split.
      * intros H%K1%He. apply list_elem_of_fmap. exists x. split; [done|by apply Hres].
      * intros H%K2%Hn. destruct H as (y & Hy & Hr). exists y.
        destruct (H1 y Hy) as (Hu & _ & _). apply same_edges, back_is in Hr as [Hyl Hr]; [|done].
        split_and!; [done|by apply under_root_is, same_under_root|]. apply list_elem_of_fmap.
        exists y. split; [done|by apply Hres].
Qed.
End Graph.

Context (iteration : list string -> list string).
Context (Hit : forall k x, x ∈ iteration k <-> x ∈ k).

Lemma answer_right objects matching root_targets search :
  graph_right windows data target_dicts toplevel_dir files build_files target_list objects matching root_targets ->
  (forall x, x ∈ search -> x ∈ target_list) ->
  exists names built,
    answer iteration (S (length target_list)) objects matching root_targets search = Ok (names, built) /\
    (forall n, n ∈ names <-> exists x, x ∈ search /\ name_of x = n /\ is_affected x) /\ right_build built.
Proof using Hfirst Hit.
  intros Hg Hs. unfold answer.
  destruct (_GetTargetsDependingOn_spec iteration Hit objects) with (rank := position target_list)
    (fuel := S (length target_list)) (possible := search) as (found & targets1 & -> & Hinv & Hfound).
  - intros x. by apply (gr_status _ _ _ _ _ _ _ _ _ _ Hg).
  - intros x y Hy. apply (gr_deps _ _ _ _ _ _ _ _ _ _ Hg) in Hy as [Hx Hxy].
    rewrite reached_in in Hx by done. by eapply position_dep.
  - intros x Hx%Hs%position_bound. lia.
  - cbn [mbind res_bind].
    destruct (build_answer objects matching root_targets Hg iteration Hit targets1 Hinv) as (t & result & -> & Hb).
    cbn [mbind res_bind]. eexists _, _. split; [done|]. split; [|done].
    intros n. unfold unqualified. rewrite list_elem_of_fmap. split.
    + intros (x & -> & Hx). apply Hfound in Hx as [Hx Ha]. exists x. split_and!; [done..|].
      by apply (affected_is _ _ _ Hg x (Hs x Hx)).
    + intros (x & Hx & <- & Ha). exists x. split; [done|]. apply Hfound. split; [done|].
      by apply (affected_is _ _ _ Hg x (Hs x Hx)).
Qed.
Lemma nothing_affected objects root_targets :
  graph_right windows data target_dicts toplevel_dir files build_files target_list objects [] root_targets ->
  forall x, x ∈ target_list -> ~ is_affected x.
Proof using Hfirst.
  intros Hg x Hx (y & Hr & Hy). assert (Hyl : y ∈ target_list).
  { clear -Hx Hr Hfirst. induction Hr as [|u v w Huv _ IH]; [done|]. apply IH. by eapply position_dep. }
  apply (not_elem_of_nil y), (gr_matching _ _ _ _ _ _ _ _ _ _ Hg), (gr_matches _ _ _ _ _ _ _ _ _ _ Hg).
  by rewrite reached_in.
Qed.
End Answers.

(** ** [GenerateOutput] *)
Section Output.
Context (cwd : string) (windows : bool) (iteration : list string -> list string).
Context (Hit : forall k x, x ∈ iteration k <-> x ∈ k).
Context (read : string -> config_file) (target_list : list string).
Context (target_dicts data : list (string * dict)) (p : params).
Context (Hfirst : dependencies_first (target_deps target_dicts) target_list).
Context (files : list string) (targets : gset string).
Context (Hinit : Init (config_path p) read = Ok (files, targets)) (Hfiles : files <> []).
Context (Hincludes : _WasGypIncludeFileModified windows p files = false).

Definition toplevel : string := _ToGypPath windows (abspath cwd (Analyzer.toplevel_dir p)).
Abbreviation is_changed := (changed windows data target_dicts toplevel (list_to_set files)).
Abbreviation affected_by := (is_affected windows data target_dicts toplevel (list_to_set files)).

(** Which targets are listed as affected, which as not found, and the status *)
Definition right_targets (v : values) : Prop := exists names,
  v_targets v = Some names /\
  (forall n, n ∈ names -> n ∈ targets /\ exists x, x ∈ target_list /\ name_of x = n /\ affected_by x) /\
  (forall x, x ∈ target_list -> name_of x ∈ targets -> affected_by x ->
     (forall y, y ∈ target_list -> name_of y = name_of x -> y = x) -> name_of x ∈ names) /\
  (forall n, n ∈ default [] (v_invalid_targets v) <->
     n ∈ targets /\ forall x, x ∈ target_list -> name_of x <> n) /\
  (v_status v = Some found_dependency_string /\ (exists x, x ∈ target_list /\ is_changed x) \/
   v_status v = Some no_dependency_string /\ forall x, x ∈ target_list -> ~ is_changed x).
Definition right_output (v : values) : Prop :=
  v_error v = None /\ right_targets v /\
  exists built, v_build_targets v = Some built /\
    right_build windows data target_dicts toplevel (list_to_set files) (Analyzer.build_files p) target_list built.

Lemma invalid_names (mapping : gmap string string) :
  (forall n x, mapping !! n = Some x -> n ∈ targets) ->
  forall n, n ∈ (if size mapping =? size targets then [] else _NamesNotIn (iteration (elements targets)) mapping)
    <-> n ∈ targets /\ mapping !! n = None.
Proof using Hit.
  intros Hm n. destruct (size mapping =? size targets) eqn:E.
  - apply Nat.eqb_eq in E. split; [by intros ?%not_elem_of_nil|]. intros [Hn Hnone].
    assert (Hsub : dom mapping ⊆ targets).
    { intros k [x Hk]%elem_of_dom. by eapply Hm. }
    apply set_subseteq_size_equiv in Hsub; [|by rewrite size_dom, E].
    apply Hsub, elem_of_dom in Hn. rewrite Hnone in Hn. by destruct Hn.
  - unfold _NamesNotIn. rewrite list_elem_of_filter, Hit, elem_of_elements. naive_solver.
Qed.

Lemma right_targets_intro objects status names built :
  (forall x, is_Some (objects !! x) <-> x ∈ target_list) ->
  let mapping := _GetUnqualifiedToTargetMapping iteration objects targets in
  let invalid := if size mapping =? size targets then []
                 else _NamesNotIn (iteration (elements targets)) mapping in
  (forall n, n ∈ names <-> exists x,
     x ∈ _LookupTargets (iteration (elements targets)) mapping /\ name_of x = n /\ affected_by x) ->
  (status = found_dependency_string /\ (exists x, x ∈ target_list /\ is_changed x) \/
   status = no_dependency_string /\ forall x, x ∈ target_list -> ~ is_changed x) ->
  right_targets (_WriteOutput (Values (Some names) (Some status) built
                   (if bool_decide (invalid = []) then None else Some invalid) None)).
Proof using Hit.
  intros Hobj mapping invalid Hnames Hstatus. destruct (mapping_spec iteration Hit objects targets) as [M1 M2].
  fold mapping in M1, M2.
  assert (Hlook : forall x, x ∈ _LookupTargets (iteration (elements targets)) mapping <->
    exists n, n ∈ targets /\ mapping !! n = Some x).
  { intros x. unfold _LookupTargets. rewrite list_elem_of_omap. setoid_rewrite Hit.
    setoid_rewrite elem_of_elements. done. }
  assert (Hinv : forall n, n ∈ invalid <-> n ∈ targets /\ mapping !! n = None).
  { apply invalid_names. intros n x H. by apply M1 in H as [? _]. }
  eexists. split; [done|]. split_and!.
  - intros n Hn. rewrite merge_sort_Permutation in Hn. apply Hnames in Hn as (x & Hx & Hxn & Ha).
    apply Hlook in Hx as (k & Hk & Hkx). destruct (M1 k x Hkx) as (_ & Ho & Hxk). subst.
    split; [done|]. exists x. split_and!; [by apply Hobj|done..].
  - intros x Hx Hn Ha Huniq. rewrite merge_sort_Permutation. apply Hnames.
    destruct (M2 (name_of x) Hn) as [y Hy]; [exists x; split; [by apply Hobj|done]|].
    destruct (M1 _ _ Hy) as (_ & Ho & Hyx). rewrite (Huniq y) in Hy; [|by apply Hobj|done].
    exists x. split_and!; [|done..]. apply Hlook. by exists (name_of x).
  - intros n. cbn [v_invalid_targets _WriteOutput].
    assert (Hd : n ∈ default [] (option_map (merge_sort string_le)
        (if bool_decide (invalid = []) then None else Some invalid)) <-> n ∈ invalid).
    { case_bool_decide as He; cbn; [by rewrite He|by rewrite merge_sort_Permutation]. }
    rewrite Hd, Hinv. split; intros [Hn H]; (split; [done|]).
    + intros x Hx <-. destruct (M2 (name_of x) Hn) as [y Hy]; [exists x; split; [by apply Hobj|done]|congruence].
    + destruct (mapping !! n) as [x|] eqn:E; [|done]. destruct (M1 n x E) as (_ & Ho & Hxn).
      by destruct (H x); [apply Hobj|].
  - destruct Hstatus as [[-> ?]|[-> ?]]; [by left|by right].
Qed.

Lemma right_build_sorted built l :
  right_build windows data target_dicts toplevel (list_to_set files) (Analyzer.build_files p) target_list built ->
  l ≡ₚ built ->
  right_build windows data target_dicts toplevel (list_to_set files) (Analyzer.build_files p) target_list l.
Proof using. intros [H1 H2] Hl. split; setoid_rewrite Hl; done. Qed.

Lemma analyze_right :
  match analyze cwd windows iteration read target_list target_dicts data p with
  | Ok v => right_output v
  | Err _ => True
  | NoFuel => False
  end.
Proof using Hit Hfirst Hinit Hfiles Hincludes.
  unfold analyze. rewrite Hinit. cbn [mbind res_bind]. rewrite bool_decide_eq_false_2 by done.
  cbn [mbind res_bind]. rewrite Hincludes. fold toplevel.
  pose proof (_GenerateTargets_spec windows data target_dicts toplevel (list_to_set files)
                (Analyzer.build_files p) target_list) as Hg.
  destruct (_GenerateTargets _ _ _ _ _ _ _) as [[[objects matching] root_targets]| |]; [|done..].
  cbn [mbind res_bind].
  set (mapping := _GetUnqualifiedToTargetMapping iteration objects targets).
  assert (Hobj : forall x, is_Some (objects !! x) <-> x ∈ target_list).
  { intros x. by rewrite (gr_objects _ _ _ _ _ _ _ _ _ _ Hg), reached_in. }
  assert (Hm : forall x, x ∈ matching <-> x ∈ target_list /\ is_changed x).
  { intros x. by rewrite (gr_matching _ _ _ _ _ _ _ _ _ _ Hg), (gr_matches _ _ _ _ _ _ _ _ _ _ Hg), reached_in. }
  case_bool_decide as He; cbn [mbind res_bind].
  - subst matching. pose proof (nothing_affected _ _ _ _ _ _ _ Hfirst _ _ Hg) as Hno. split_and!; [done| |].
    + apply right_targets_intro; [done| |].
      * intros n. split; [by intros ?%not_elem_of_nil|]. intros (x & Hx & _ & Ha). exfalso.
        unfold _LookupTargets in Hx. apply list_elem_of_omap in Hx as (k & _ & Hk).
        destruct (mapping_spec iteration Hit objects targets) as [M1 _].
        destruct (M1 k x Hk) as (_ & Ho & _). by apply (Hno x); [apply Hobj|].
      * right. split; [done|]. intros x Hx Hc. by apply (not_elem_of_nil x), Hm.
    + eexists. split; [done|]. split; [by intros n ?%not_elem_of_nil|]. intros x Hx Ha. by apply Hno in Ha.
  - destruct (answer_right windows data target_dicts toplevel (list_to_set files) (Analyzer.build_files p)
      target_list Hfirst iteration Hit objects matching root_targets
      (_LookupTargets (iteration (elements targets)) mapping) Hg) as (names & built & -> & Hn & Hb).
    { intros x Hx. unfold _LookupTargets in Hx. apply list_elem_of_omap in Hx as (k & _ & Hk).
      destruct (mapping_spec iteration Hit objects targets) as [M1 _].
      destruct (M1 k x Hk) as (_ & Ho & _). by apply Hobj. }
    cbn [mbind res_bind]. split_and!; [done| |].
    + apply right_targets_intro; [done|done|]. left. split; [done|]. destruct matching as [|x l]; [done|].
      exists x. apply Hm. by left.
    + eexists. split; [done|]. eapply right_build_sorted; [exact Hb|]. apply merge_sort_Permutation.
Qed.
End Output.

(** C24. The analyzer on targets that are listed after their dependencies, when files
    are given and no file included everywhere is among them: it writes an error, or
    as affected only supplied names of targets that depend on a changed one, directly,
    indirectly or being it; all of those whose name is no other target's; as not found
    exactly the supplied names that no target has; and the status says whether
    anything is changed.  It always ends. *)
Theorem GenerateOutput_affected cwd windows iteration read target_list target_dicts data p files targets :
  (forall k x, x ∈ iteration k <-> x ∈ k) ->
  dependencies_first (target_deps target_dicts) target_list ->
  Init (config_path p) read = Ok (files, targets) -> files <> [] ->
  _WasGypIncludeFileModified windows p files = false ->
  exists v, GenerateOutput cwd windows iteration read target_list target_dicts data p = Ok v /\
    (v_error v <> None \/ right_targets cwd windows target_list target_dicts data p files targets v).
Proof.
  intros Hit Hfirst Hinit Hfiles Hinc. unfold GenerateOutput.
  pose proof (analyze_right cwd windows iteration Hit read target_list target_dicts data p Hfirst
                files targets Hinit Hfiles Hinc) as H.
  destruct (analyze _ _ _ _ _ _ _ _) as [v|e|]; [|by eexists; split; [done|left]|done].
  exists v. split; [done|]. right. apply H.
Qed.

(** C25. ... and as targets to build only targets that depend on a changed one (or are
    it) and that some target nothing depends on, of the given build files, depends on
    (or is).  Of those, every executable is among them, and every one that requires a
    build is, or one that depends on it is. *)
Theorem GenerateOutput_builds cwd windows iteration read target_list target_dicts data p files targets :
  (forall k x, x ∈ iteration k <-> x ∈ k) ->
  dependencies_first (target_deps target_dicts) target_list ->
  Init (config_path p) read = Ok (files, targets) -> files <> [] ->
  _WasGypIncludeFileModified windows p files = false ->
  exists v, GenerateOutput cwd windows iteration read target_list target_dicts data p = Ok v /\
    (v_error v <> None \/ exists built, v_build_targets v = Some built /\
       right_build windows data target_dicts (toplevel cwd windows p) (list_to_set files)
         (Analyzer.build_files p) target_list built).
Proof.
  intros Hit Hfirst Hinit Hfiles Hinc. unfold GenerateOutput.
  pose proof (analyze_right cwd windows iteration Hit read target_list target_dicts data p Hfirst
                files targets Hinit Hfiles Hinc) as H.
  destruct (analyze _ _ _ _ _ _ _ _) as [v|e|]; [|by eexists; split; [done|left]|done].
  exists v. split; [done|]. right. apply H.
Qed.

(** ** Examples

    [app] depends on [lib], whose source is changed. *)
Section Examples.
Definition sample_dicts : list (string * dict) :=
  [("a.gyp:lib#target", [("type", VStr "static_library"); ("sources", VList [VStr "lib.c"])]);
   ("a.gyp:app#target", [("type", VStr "executable"); ("sources", VList [VStr "app.c"]);
                         ("dependencies", VList [VStr "a.gyp:lib#target"])])].
Definition sample_data : list (string * dict) := [("a.gyp", [("included_files", VList [VStr "a.gyp"])])].
Definition sample_read (_ : string) : config_file := Config (Some ["lib.c"]) (Some ["app"; "none"]).
Definition sample_params : params :=
  {| includes := []; Analyzer.toplevel_dir := "/w"; config_path := Some "cfg"; Analyzer.build_files := ["a.gyp"] |}.
Definition sample_values : values :=
  Values (Some ["app"]) (Some found_dependency_string) (Some ["app"]) (Some ["none"]) None.

Lemma sample_first : dependencies_first (target_deps sample_dicts) ["a.gyp:lib#target"; "a.gyp:app#target"].
Proof.
  intros [|[|i]] t d; cbn; [intros [= <-]|intros [= <-]|done].
  - by intros ?%not_elem_of_nil.
  - intros ->%list_elem_of_singleton. by left.
Qed.
End Examples.

Lemma GenerateOutput_affected_witness :
  GenerateOutput "/w" false (fun l => l) sample_read ["a.gyp:lib#target"; "a.gyp:app#target"] sample_dicts
    sample_data sample_params = Ok sample_values /\
  right_targets "/w" false ["a.gyp:lib#target"; "a.gyp:app#target"] sample_dicts sample_data sample_params
    ["lib.c"] {["app"; "none"]} sample_values.
Proof.
  split; [by vm_compute|].
  destruct (GenerateOutput_affected "/w" false (fun l => l) sample_read ["a.gyp:lib#target"; "a.gyp:app#target"]
    sample_dicts sample_data sample_params ["lib.c"] {["app"; "none"]} (fun k x => iff_refl _) sample_first
    eq_refl ltac:(discriminate) eq_refl) as (v & Hv & H).
  assert (E : GenerateOutput "/w" false (fun l => l) sample_read ["a.gyp:lib#target"; "a.gyp:app#target"]
    sample_dicts sample_data sample_params = Ok sample_values) by by vm_compute.
  rewrite E in Hv. injection Hv as <-. destruct H as [H|H]; [by destruct H|exact H].
Defined.
Lemma GenerateOutput_builds_witness :
  right_build false sample_data sample_dicts "/w" {["lib.c"]} ["a.gyp"]
    ["a.gyp:lib#target"; "a.gyp:app#target"] ["app"].
Proof.
  destruct (GenerateOutput_builds "/w" false (fun l => l) sample_read ["a.gyp:lib#target"; "a.gyp:app#target"]
    sample_dicts sample_data sample_params ["lib.c"] {["app"; "none"]} (fun k x => iff_refl _) sample_first
    eq_refl ltac:(discriminate) eq_refl) as (v & Hv & H).
  assert (E : GenerateOutput "/w" false (fun l => l) sample_read ["a.gyp:lib#target"; "a.gyp:app#target"]
    sample_dicts sample_data sample_params = Ok sample_values) by by vm_compute.
  rewrite E in Hv. injection Hv as <-. destruct H as [H|(built & Hb & H)]; [by destruct H|].
  injection Hb as <-. exact H.
Defined.

(** A changed target that requires no build is left out when it is reached from a
    changed dependency first, and listed when it comes first. *)
Example order_of_matches :
  let lib := {| deps := ∅; match_status := MATCH_STATUS_MATCHES; back_deps := {["b"]}; visited := false;
    requires_build := true; added_to_compile_targets := false; in_roots := false; is_executable := false |} in
  let all := {| deps := {["a"]}; match_status := MATCH_STATUS_MATCHES; back_deps := ∅; visited := false;
    requires_build := false; added_to_compile_targets := false; in_roots := false; is_executable := false |} in
  let build matching :=
    match _GetBuildTargets (fun l => l) {["b"]} 5 {["a" := lib; "b" := all]} matching with
    | Ok (_, result) => elements result
    | _ => []
    end in
  build ["a"; "b"] = ["a"] /\ build ["b"; "a"] = ["b"].
Proof. by vm_compute. Qed.
(** At the top of the tree, a source outside of it is taken for one in it. *)
Example outside_the_tree :
  _ExtractSources false "a.gyp:t#target" [("sources", VList [VStr "../x.c"])] "/w" = Ok ["x.c"] /\
  _ExtractSources false "d/a.gyp:t#target" [("sources", VList [VStr "../../x.c"])] "/w" = Ok [].
Proof. by vm_compute. Qed.
