(* ===== verification/MsvsSettings.v ===== *)
(** * Settings of the Microsoft build tools ([gyp/MSVSSettings.py])

    The types of settings with their validation and conversion, the macros in texts,
    the registry that the declarations of the module fill, and the three functions
    that use it.  The declarations themselves are in [MsvsTables]. *)
From S2P Require Import Prelude PyStr GypValue.
From stdpp Require Import options.
#[local] Open Scope nat_scope.

(** ** Integers and texts: [int(s, base)] of Python 2, ['%04x' % n] *)
Definition digit_value (c : ascii) : option nat :=
  if isdigit c then Some (ord c - 48)
  else if in_range 65 70 c then Some (ord c - 55)
  else if in_range 97 102 c then Some (ord c - 87)
  else None.
Fixpoint digits_in (base : nat) (acc : Z) (s : string) : option Z :=
  match s with
  | "" => Some acc
  | String c s' =>
      d ← digit_value c;
      if d <? base then digits_in base (Z.of_nat base * acc + Z.of_nat d)%Z s' else None
  end.
Definition drop_0x (base : nat) (s : string) : string :=
  if (base =? 16) && (startswith "0x" s || startswith "0X" s) then str_drop 2 s else s.
(** White space around the number and behind its sign is skipped. *)
Definition parse_int (base : nat) (s : string) : option Z :=
  let s := strip s in
  let '(negative, s) := match s with
                        | String "-" s' => (true, s')
                        | String "+" s' => (false, s')
                        | _ => (false, s)
                        end in
  match drop_0x base (lstrip_of isspace s) with
  | "" => None
  | digits => (if negative : bool then Z.opp else id) <$> digits_in base 0 digits
  end.
Definition invalid_literal (base : nat) (s : string) : exn :=
  ValueError ("invalid literal for int() with base " +:+ string_of_int (Z.of_nat base) +:+ ": " +:+ repr_str s).
(** [int(value)] and, with its base given, [int(value, base)] *)
Definition int_of (value : val) : res Z :=
  match value with
  | VInt n => Ok n
  | VStr s => of_option (invalid_literal 10 s) (parse_int 10 s)
  | _ => Err (TypeError ("int() argument must be a string or a number, not '" +:+ type_name value +:+ "'"))
  end.
Definition int_of_base (base : nat) (value : val) : res Z :=
  match value with
  | VStr s => of_option (invalid_literal base s) (parse_int base s)
  | _ => Err (TypeError "int() can't convert non-string with explicit base")
  end.
(** The budget is the number of bits. *)
Fixpoint hex_loop (fuel : nat) (n : N) (acc : string) : string :=
  let acc := String (hex_digit (N.to_nat (n mod 16))) acc in
  match fuel with
  | 0 => acc
  | S fuel => if (n <? 16)%N then acc else hex_loop fuel (n / 16) acc
  end.
Definition hex (n : N) : string := hex_loop (N.to_nat (N.size n)) n "".
Definition zero_pad (width : nat) (s : string) : string := str_repeat (width - String.length s) "0" +:+ s.
Definition format_04x (n : Z) : string :=
  if (n <? 0)%Z then "-" +:+ zero_pad 3 (hex (Z.abs_N n)) else zero_pad 4 (hex (Z.abs_N n)).

(** ** Macros in texts *)
Definition fix_vc_macro_slashes_regex_list : list string := ["IntDir"; "OutDir"].
Definition is_slash (c : ascii) : bool := Ascii.eqb c "\" || Ascii.eqb c "/".
(** The slashes right behind one of the macros are dropped, the macro is kept:
    [keep] counts the characters of it still to copy. *)
Fixpoint fix_slashes (keep : nat) (after : bool) (s : string) : string :=
  match s with
  | "" => ""
  | String c s' =>
      match keep with
      | S keep => String c (fix_slashes keep (keep =? 0) s')
      | 0 =>
          if after && is_slash c then fix_slashes 0 true s'
          else
            match head (filter (fun m => startswith ("$(" +:+ m +:+ ")") s = true) fix_vc_macro_slashes_regex_list) with
            | Some m => String c (fix_slashes (String.length m + 2) false s')
            | None => String c (fix_slashes 0 false s')
            end
      end
  end.
Definition FixVCMacroSlashes (s : string) : string :=
  if str_mem "$" s then fix_slashes 0 false s else s.
Definition replace_map : list (string * string) := [
  ("$(ConfigurationName)", "$(Configuration)");
  ("$(InputDir)", "%(RelativeDir)");
  ("$(InputExt)", "%(Extension)");
  ("$(InputFileName)", "%(Filename)%(Extension)");
  ("$(InputName)", "%(Filename)");
  ("$(InputPath)", "%(Identity)");
  ("$(ParentName)", "$(ProjectFileName)");
  ("$(PlatformName)", "$(Platform)");
  ("$(SafeInputName)", "%(Filename)") ].

(** ** Types of settings *)
Inductive setting_type :=
  | String_
  | StringList
  | Boolean
  | Integer (msbuild_base : nat)
  | Enumeration (label_list : list (option string)) (new : list string).
#[global] Instance setting_type_eq_dec : EqDecision setting_type.
Proof. solve_decision. Defined.
Definition _msbuild_values (label_list : list (option string)) (new : list string) : gset string :=
  list_to_set (omap id label_list ++ new).

Section Convert.
(** The items of [replace_map], in the order in which it is iterated *)
Context (items : list (string * string)).

Definition convert_macros (s : string) : string :=
  if str_mem "$" s then
    FixVCMacroSlashes (foldl (fun s '(old, new) => str_replace old new s) s items)
  else s.
(** On other values than texts [in] looks among the elements or the keys. *)
Definition ConvertVCMacrosToMSBuild (v : val) : res val :=
  match v with
  | VStr s => Ok (VStr (convert_macros s))
  | VInt _ => Err (TypeError "argument of type 'int' is not iterable")
  | VList l => if bool_decide (VStr "$" ∈ l) then Err (AttributeError "replace") else Ok v
  | VDict d => if dmem "$" d then Err (AttributeError "replace") else Ok v
  end.

(** [ConvertToMSBuild], [ValidateMSVS] and [ValidateMSBuild] of each type *)
Definition Boolean_Validate (value : val) : res unit :=
  if bool_decide (value = VStr "true") || bool_decide (value = VStr "false") then Ok tt
  else Err (ValueError ("expected bool; got " +:+ repr value)).
Definition ConvertToMSBuild (t : setting_type) (value : val) : res val :=
  match t with
  | String_ => ConvertVCMacrosToMSBuild value
  | StringList =>
      match value with
      | VList l =>
          l ← foldM (fun acc i => i ← ConvertVCMacrosToMSBuild i; Ok (acc ++ [i])%list) [] l;
          Ok (VList l)
      | _ => ConvertVCMacrosToMSBuild value
      end
  | Boolean => _ ← Boolean_Validate value; Ok value
  | Integer msbuild_base =>
      n ← int_of value;
      Ok (VStr (if msbuild_base =? 10 then string_of_int n else "0x" +:+ format_04x n))
  | Enumeration label_list _ =>
      index ← int_of value;
      if (index <? 0)%Z || (Z.of_nat (length label_list) <=? index)%Z then
        Err (ValueError ("index value (" +:+ string_of_int index +:+ ") not in expected range [0, " +:+
               string_of_int (Z.of_nat (length label_list)) +:+ ")"))
      else
        match label_list !! Z.to_nat index with
        | Some (Some label) => Ok (VStr label)
        | _ => Err (ValueError ("converted value for " +:+ py_str value +:+ " not specified."))
        end
  end.
Definition ValidateMSVS (t : setting_type) (value : val) : res unit :=
  match t with
  | String_ =>
      match value with VStr _ => Ok tt | _ => Err (ValueError ("expected string; got " +:+ repr value)) end
  | StringList =>
      match value with
      | VStr _ | VList _ => Ok tt
      | _ => Err (ValueError ("expected string list; got " +:+ repr value))
      end
  | Boolean => Boolean_Validate value
  | Integer _ | Enumeration _ _ => _ ← ConvertToMSBuild t value; Ok tt
  end.
Definition ValidateMSBuild (t : setting_type) (value : val) : res unit :=
  match t with
  | String_ | StringList | Boolean => ValidateMSVS t value
  | Integer msbuild_base => _ ← int_of_base msbuild_base value; Ok tt
  | Enumeration label_list new =>
      match value with
      | VStr s =>
          if bool_decide (s ∈ _msbuild_values label_list new) then Ok tt
          else Err (ValueError ("unrecognized enumerated value " +:+ s))
      | VInt n => Err (ValueError ("unrecognized enumerated value " +:+ string_of_int n))
      | _ => Err (TypeError ("unhashable type: '" +:+ type_name value +:+ "'"))
      end
  end.

(** ** Converters: what the functions [_Translate] do to the settings

    An exception leaves what was done before it. *)
Abbreviation settings := (gmap string (gmap string val)).
Definition setdefault_tool (tool : string) (s : settings) : settings :=
  match s !! tool with Some _ => s | None => <[tool := ∅]> s end.
Definition put_setting (tool name : string) (value : val) (s : settings) : settings :=
  <[tool := <[name := value]> (default ∅ (s !! tool))]> s.

(** The closures, by the function that makes them; the tools are their MSBuild names. *)
Inductive translator :=
  | Renamed_Translate (msbuild_tool msbuild_name : string) (t : setting_type)
  | MSVSOnly_Translate
  | MSBuildOnly_Translate (msbuild_tool name : string)
  | AdditionalOption_Translate (msbuild_tool flag : string)
  | PreprocessedFile_Translate (msbuild_tool : string).
#[global] Instance translator_eq_dec : EqDecision translator.
Proof. solve_decision. Defined.

Definition _Translate (f : translator) (value : val) (s : settings) : settings * res unit :=
  match f with
  | Renamed_Translate tool name t =>
      let s := setdefault_tool tool s in
      match ConvertToMSBuild t value with
      | Ok v => (put_setting tool name v s, Ok tt)
      | Err e => (s, Err e)
      | NoFuel => (s, NoFuel)
      end
  | MSVSOnly_Translate => (s, Ok tt)
  | MSBuildOnly_Translate tool name => (put_setting tool name value (setdefault_tool tool s), Ok tt)
  | AdditionalOption_Translate tool flag =>
      if bool_decide (value = VStr "true") then
        let s := setdefault_tool tool s in
        let new_flags := match s !! tool ≫= lookup "AdditionalOptions" with
                         | Some flags => py_str flags +:+ " " +:+ flag
                         | None => flag
                         end in
        (put_setting tool "AdditionalOptions" (VStr new_flags) s, Ok tt)
      else (s, Ok tt)
  | PreprocessedFile_Translate tool =>
      let s := setdefault_tool tool s in
      let put a b := put_setting tool "PreprocessSuppressLineNumbers" (VStr b)
                       (put_setting tool "PreprocessToFile" (VStr a) s) in
      if bool_decide (value = VStr "0") then (put "false" "false", Ok tt)
      else if bool_decide (value = VStr "1") then (put "true" "false", Ok tt)
      else if bool_decide (value = VStr "2") then (put "true" "true", Ok tt)
      else (s, Err (ValueError ("value must be one of [0, 1, 2]; got " +:+ py_str value)))
  end.

(** ** The registry *)
Record _Tool := { msvs_name : string; msbuild_name : string }.
(** A validator is a method of the type that is kept. *)
Record registry := {
  _msvs_validators : gmap string (gmap string setting_type);
  _msbuild_validators : gmap string (gmap string setting_type);
  _msvs_to_msbuild_converters : gmap string (gmap string translator);
  _msbuild_name_of_tool : gmap string string;
}.
Definition no_tools : registry := {|
  _msvs_validators := ∅; _msbuild_validators := ∅; _msvs_to_msbuild_converters := ∅; _msbuild_name_of_tool := ∅ |}.
Definition _AddTool (tool : _Tool) (r : registry) : res registry :=
  Ok {| _msvs_validators := <[msvs_name tool := ∅]> (_msvs_validators r);
        _msbuild_validators := <[msbuild_name tool := ∅]> (_msbuild_validators r);
        _msvs_to_msbuild_converters := <[msvs_name tool := ∅]> (_msvs_to_msbuild_converters r);
        _msbuild_name_of_tool := <[msvs_name tool := msbuild_name tool]> (_msbuild_name_of_tool r) |}.
(** A tool that is found in the MSBuild settings only *)
Definition add_msbuild_tool (name : string) (r : registry) : res registry :=
  Ok {| _msvs_validators := _msvs_validators r; _msbuild_validators := <[name := ∅]> (_msbuild_validators r);
        _msvs_to_msbuild_converters := _msvs_to_msbuild_converters r;
        _msbuild_name_of_tool := _msbuild_name_of_tool r |}.

(** [table[tool][name] = value] in each of the tables *)
Definition set_in {A} (tool name : string) (value : A) (table : gmap string (gmap string A)) :
    res (gmap string (gmap string A)) :=
  settings ← of_option (KeyError tool) (table !! tool); Ok (<[tool := <[name := value]> settings]> table).
Definition set_msvs_validator (tool name : string) (t : setting_type) (r : registry) : res registry :=
  v ← set_in tool name t (_msvs_validators r);
  Ok {| _msvs_validators := v; _msbuild_validators := _msbuild_validators r;
        _msvs_to_msbuild_converters := _msvs_to_msbuild_converters r;
        _msbuild_name_of_tool := _msbuild_name_of_tool r |}.
Definition set_msbuild_validator (tool name : string) (t : setting_type) (r : registry) : res registry :=
  v ← set_in tool name t (_msbuild_validators r);
  Ok {| _msvs_validators := _msvs_validators r; _msbuild_validators := v;
        _msvs_to_msbuild_converters := _msvs_to_msbuild_converters r;
        _msbuild_name_of_tool := _msbuild_name_of_tool r |}.
Definition set_converter (tool name : string) (f : translator) (r : registry) : res registry :=
  c ← set_in tool name f (_msvs_to_msbuild_converters r);
  Ok {| _msvs_validators := _msvs_validators r; _msbuild_validators := _msbuild_validators r;
        _msvs_to_msbuild_converters := c; _msbuild_name_of_tool := _msbuild_name_of_tool r |}.

Definition _Renamed (tool : _Tool) (msvs msbuild : string) (t : setting_type) (r : registry) : res registry :=
  r ← set_msvs_validator (msvs_name tool) msvs t r;
  r ← set_msbuild_validator (msbuild_name tool) msbuild t r;
  set_converter (msvs_name tool) msvs (Renamed_Translate (msbuild_name tool) msbuild t) r.
Definition _Same (tool : _Tool) (name : string) (t : setting_type) : registry -> res registry :=
  _Renamed tool name name t.
Definition _MovedAndRenamed (tool : _Tool) (msvs_settings_name msbuild_tool_name msbuild_settings_name : string)
    (t : setting_type) (r : registry) : res registry :=
  r ← set_msvs_validator (msvs_name tool) msvs_settings_name t r;
  r ← set_msbuild_validator msbuild_tool_name msbuild_settings_name t r;
  set_converter (msvs_name tool) msvs_settings_name
    (Renamed_Translate msbuild_tool_name msbuild_settings_name t) r.
Definition _Moved (tool : _Tool) (settings_name msbuild_tool_name : string) (t : setting_type) :
    registry -> res registry :=
  _MovedAndRenamed tool settings_name msbuild_tool_name settings_name t.
Definition _MSVSOnly (tool : _Tool) (name : string) (t : setting_type) (r : registry) : res registry :=
  r ← set_msvs_validator (msvs_name tool) name t r;
  set_converter (msvs_name tool) name MSVSOnly_Translate r.
Definition _MSBuildOnly (tool : _Tool) (name : string) (t : setting_type) (r : registry) : res registry :=
  r ← set_msbuild_validator (msbuild_name tool) name t r;
  set_converter (msvs_name tool) name (MSBuildOnly_Translate (msbuild_name tool) name) r.
Definition _ConvertedToAdditionalOption (tool : _Tool) (name flag : string) (r : registry) : res registry :=
  r ← set_msvs_validator (msvs_name tool) name Boolean r;
  set_converter (msvs_name tool) name (AdditionalOption_Translate (msbuild_name tool) flag) r.
Definition _CustomGeneratePreprocessedFile (tool : _Tool) (name : string) (r : registry) : res registry :=
  r ← set_msvs_validator (msvs_name tool) name (Enumeration [Some "a"; Some "b"; Some "c"] []) r;
  r ← set_msbuild_validator (msbuild_name tool) "PreprocessToFile" Boolean r;
  r ← set_msbuild_validator (msbuild_name tool) "PreprocessSuppressLineNumbers" Boolean r;
  set_converter (msvs_name tool) name (PreprocessedFile_Translate (msbuild_name tool)) r.

(** ** The entry points

    [stderr] is the list of the lines that were printed. *)
Section Registered.
Context (r : registry).

(** The root of a name with the suffix, which may end before a last newline *)
Definition excluded_root (setting : string) : option string :=
  let body := if endswith nl setting then str_init 1 setting else setting in
  if endswith "_excluded" body && str_forallb any_char body then Some (str_init 9 body) else None.
Definition _ValidateExclusionSetting {A} (setting : string) (settings : gmap string A) (error_msg : string)
    (stderr : list string) : list string :=
  let unrecognized := match excluded_root setting with
                      | Some root_setting => bool_decide (settings !! root_setting = None)
                      | None => true
                      end in
  if unrecognized then (stderr ++ [error_msg])%list else stderr.

Definition convert_setting (msvs_tool_name : string) (msvs_tool : gmap string translator)
    (st : settings * list string) (item : string * val) : res (settings * list string) :=
  let '(msbuild_settings, stderr) := st in
  let '(msvs_setting, msvs_value) := item in
  match msvs_tool !! msvs_setting with
  | Some translate =>
      match _Translate translate msvs_value msbuild_settings with
      | (s, Ok _) => Ok (s, stderr)
      | (s, Err (ValueError e)) =>
          Ok (s, stderr ++ ["Warning: while converting " +:+ msvs_tool_name +:+ "/" +:+ msvs_setting +:+
                              " to MSBuild, " +:+ e])%list
      | (_, Err e) => Err e
      | (_, NoFuel) => NoFuel
      end
  | None =>
      Ok (msbuild_settings, _ValidateExclusionSetting msvs_setting msvs_tool
            ("Warning: unrecognized setting " +:+ msvs_tool_name +:+ "/" +:+ msvs_setting +:+
               " while converting to MSBuild.") stderr)
  end.
Definition convert_tool (st : settings * list string) (item : string * dict) :
    res (settings * list string) :=
  let '(msbuild_settings, stderr) := st in
  let '(msvs_tool_name, msvs_tool_settings) := item in
  match _msvs_to_msbuild_converters r !! msvs_tool_name with
  | Some msvs_tool => foldM (convert_setting msvs_tool_name msvs_tool) st msvs_tool_settings
  | None =>
      Ok (msbuild_settings,
          stderr ++ ["Warning: unrecognized tool " +:+ msvs_tool_name +:+ " while converting to MSBuild."])%list
  end.
Definition ConvertToMSBuildSettings (msvs_settings : list (string * dict)) :
    res (settings * list string) :=
  foldM convert_tool (∅, []) msvs_settings.

Definition validate_setting (validate : setting_type -> val -> res unit) (tool_name : string)
    (tool_validators : gmap string setting_type) (stderr : list string) (item : string * val) :
    res (list string) :=
  let '(setting, value) := item in
  match tool_validators !! setting with
  | Some t =>
      match validate t value with
      | Ok _ => Ok stderr
      | Err (ValueError e) =>
          Ok (stderr ++ ["Warning: for " +:+ tool_name +:+ "/" +:+ setting +:+ ", " +:+ e])%list
      | Err e => Err e
      | NoFuel => NoFuel
      end
  | None =>
      Ok (_ValidateExclusionSetting setting tool_validators
            ("Warning: unrecognized setting " +:+ tool_name +:+ "/" +:+ setting) stderr)
  end.
Definition _ValidateSettings (validate : setting_type -> val -> res unit)
    (validators : gmap string (gmap string setting_type)) (settings : list (string * dict)) :
    res (list string) :=
  foldM (fun stderr '(tool_name, tool_settings) =>
           match validators !! tool_name with
           | Some tool_validators => foldM (validate_setting validate tool_name tool_validators) stderr tool_settings
           | None => Ok (stderr ++ ["Warning: unrecognized tool " +:+ tool_name])%list
           end) [] settings.
Definition ValidateMSVSSettings : list (string * dict) -> res (list string) :=
  _ValidateSettings ValidateMSVS (_msvs_validators r).
Definition ValidateMSBuildSettings : list (string * dict) -> res (list string) :=
  _ValidateSettings ValidateMSBuild (_msbuild_validators r).
End Registered.
End Convert.
