(* ===== verification/MsvsTables.v ===== *)
(** * The settings of the Microsoft build tools ([gyp/MSVSSettings.py])

    The declarations of the module, in its order, and the registry they fill. *)
From S2P Require Import Prelude PyStr GypValue MsvsSettings.
From stdpp Require Import options.

(** ** The generic types *)
Definition _boolean : setting_type := Boolean.
Definition _integer : setting_type := Integer 10.
Definition _string : setting_type := String_.
Definition _file_name : setting_type := String_.
Definition _folder_name : setting_type := String_.
Definition _file_list : setting_type := StringList.
Definition _folder_list : setting_type := StringList.
Definition _string_list : setting_type := StringList.
Definition _newly_boolean : setting_type := Enumeration [Some ""; Some "false"; Some "true"] [].

(** ** The tools *)
Definition _compile : _Tool := {| msvs_name := "VCCLCompilerTool"; msbuild_name := "ClCompile" |}.
Definition _link : _Tool := {| msvs_name := "VCLinkerTool"; msbuild_name := "Link" |}.
Definition _midl : _Tool := {| msvs_name := "VCMIDLTool"; msbuild_name := "Midl" |}.
Definition _rc : _Tool := {| msvs_name := "VCResourceCompilerTool"; msbuild_name := "ResourceCompile" |}.
Definition _lib : _Tool := {| msvs_name := "VCLibrarianTool"; msbuild_name := "Lib" |}.
Definition _manifest : _Tool := {| msvs_name := "VCManifestTool"; msbuild_name := "Manifest" |}.
Definition _masm : _Tool := {| msvs_name := "MASM"; msbuild_name := "MASM" |}.
Definition tools : list (registry -> res registry) :=
  (map _AddTool [_compile; _link; _midl; _rc; _lib; _manifest; _masm] ++
   map add_msbuild_tool [""; "ProjectReference"; "ManifestResourceCompile"])%list.

(** ** The settings *)
Definition _subsystem_enumeration : setting_type :=
  Enumeration [Some "NotSet"; Some "Console"; Some "Windows"; Some "Native"; Some "EFI Application";
    Some "EFI Boot Service Driver"; Some "EFI ROM"; Some "EFI Runtime"; Some "WindowsCE"] ["POSIX"].
Definition _target_machine_enumeration : setting_type :=
  Enumeration [Some "NotSet"; Some "MachineX86"; None; Some "MachineARM"; Some "MachineEBC";
    Some "MachineIA64"; None; Some "MachineMIPS"; Some "MachineMIPS16"; Some "MachineMIPSFPU";
    Some "MachineMIPSFPU16"; None; None; None; Some "MachineSH4"; None; Some "MachineTHUMB"; Some "MachineX64"]
    [].
Definition compile_same_settings : list (registry -> res registry) := [
  _Same _compile "AdditionalIncludeDirectories" _folder_list;
  _Same _compile "AdditionalOptions" _string_list;
  _Same _compile "AdditionalUsingDirectories" _folder_list;
  _Same _compile "AssemblerListingLocation" _file_name;
  _Same _compile "BrowseInformationFile" _file_name;
  _Same _compile "BufferSecurityCheck" _boolean;
  _Same _compile "DisableLanguageExtensions" _boolean;
  _Same _compile "DisableSpecificWarnings" _string_list;
  _Same _compile "EnableFiberSafeOptimizations" _boolean;
  _Same _compile "EnablePREfast" _boolean;
  _Same _compile "ExpandAttributedSource" _boolean;
  _Same _compile "FloatingPointExceptions" _boolean;
  _Same _compile "ForceConformanceInForLoopScope" _boolean;
  _Same _compile "ForcedIncludeFiles" _file_list;
  _Same _compile "ForcedUsingFiles" _file_list;
  _Same _compile "GenerateXMLDocumentationFiles" _boolean;
  _Same _compile "IgnoreStandardIncludePath" _boolean;
  _Same _compile "MinimalRebuild" _boolean;
  _Same _compile "OmitDefaultLibName" _boolean;
  _Same _compile "OmitFramePointers" _boolean;
  _Same _compile "PreprocessorDefinitions" _string_list;
  _Same _compile "ProgramDataBaseFileName" _file_name;
  _Same _compile "RuntimeTypeInfo" _boolean;
  _Same _compile "ShowIncludes" _boolean;
  _Same _compile "SmallerTypeCheck" _boolean;
  _Same _compile "StringPooling" _boolean;
  _Same _compile "SuppressStartupBanner" _boolean;
  _Same _compile "TreatWChar_tAsBuiltInType" _boolean;
  _Same _compile "UndefineAllPreprocessorDefinitions" _boolean;
  _Same _compile "UndefinePreprocessorDefinitions" _string_list;
  _Same _compile "UseFullPaths" _boolean;
  _Same _compile "WholeProgramOptimization" _boolean;
  _Same _compile "XMLDocumentationFileName" _file_name
].
Definition compile_enumerated_settings : list (registry -> res registry) := [
  _Same _compile "AssemblerOutput" (Enumeration [Some "NoListing"; Some "AssemblyCode"; Some "All";
    Some "AssemblyAndMachineCode"; Some "AssemblyAndSourceCode"] []);
  _Same _compile "BasicRuntimeChecks" (Enumeration [Some "Default"; Some "StackFrameRuntimeCheck";
    Some "UninitializedLocalUsageCheck"; Some "EnableFastChecks"] []);
  _Same _compile "BrowseInformation" (Enumeration [Some "false"; Some "true"; Some "true"] []);
  _Same _compile "CallingConvention" (Enumeration [Some "Cdecl"; Some "FastCall"; Some "StdCall";
    Some "VectorCall"] []);
  _Same _compile "CompileAs" (Enumeration [Some "Default"; Some "CompileAsC"; Some "CompileAsCpp"] []);
  _Same _compile "DebugInformationFormat" (Enumeration [Some ""; Some "OldStyle"; None; Some "ProgramDatabase";
    Some "EditAndContinue"] []);
  _Same _compile "EnableEnhancedInstructionSet" (Enumeration [Some "NotSet"; Some "StreamingSIMDExtensions";
    Some "StreamingSIMDExtensions2"; Some "AdvancedVectorExtensions"; Some "NoExtensions";
    Some "AdvancedVectorExtensions2"] []);
  _Same _compile "ErrorReporting" (Enumeration [Some "None"; Some "Prompt"; Some "Queue"] ["Send"]);
  _Same _compile "ExceptionHandling" (Enumeration [Some "false"; Some "Sync"; Some "Async"] ["SyncCThrow"]);
  _Same _compile "FavorSizeOrSpeed" (Enumeration [Some "Neither"; Some "Speed"; Some "Size"] []);
  _Same _compile "FloatingPointModel" (Enumeration [Some "Precise"; Some "Strict"; Some "Fast"] []);
  _Same _compile "InlineFunctionExpansion" (Enumeration [Some "Default"; Some "OnlyExplicitInline";
    Some "AnySuitable"] ["Disabled"]);
  _Same _compile "Optimization" (Enumeration [Some "Disabled"; Some "MinSpace"; Some "MaxSpeed"; Some "Full"]
    []);
  _Same _compile "RuntimeLibrary" (Enumeration [Some "MultiThreaded"; Some "MultiThreadedDebug";
    Some "MultiThreadedDLL"; Some "MultiThreadedDebugDLL"] []);
  _Same _compile "StructMemberAlignment" (Enumeration [Some "Default"; Some "1Byte"; Some "2Bytes";
    Some "4Bytes"; Some "8Bytes"; Some "16Bytes"] []);
  _Same _compile "WarningLevel" (Enumeration [Some "TurnOffAllWarnings"; Some "Level1"; Some "Level2";
    Some "Level3"; Some "Level4"] ["EnableAllWarnings"])
].
Definition compile_other_settings : list (registry -> res registry) := [
  _Renamed _compile "EnableFunctionLevelLinking" "FunctionLevelLinking" _boolean;
  _Renamed _compile "EnableIntrinsicFunctions" "IntrinsicFunctions" _boolean;
  _Renamed _compile "KeepComments" "PreprocessKeepComments" _boolean;
  _Renamed _compile "ObjectFile" "ObjectFileName" _file_name;
  _Renamed _compile "OpenMP" "OpenMPSupport" _boolean;
  _Renamed _compile "PrecompiledHeaderThrough" "PrecompiledHeaderFile" _file_name;
  _Renamed _compile "PrecompiledHeaderFile" "PrecompiledHeaderOutputFile" _file_name;
  _Renamed _compile "UsePrecompiledHeader" "PrecompiledHeader" (Enumeration [Some "NotUsing"; Some "Create";
    Some "Use"] []);
  _Renamed _compile "WarnAsError" "TreatWarningAsError" _boolean;
  _ConvertedToAdditionalOption _compile "DefaultCharIsUnsigned" "/J";
  _MSVSOnly _compile "Detect64BitPortabilityProblems" _boolean;
  _MSVSOnly _compile "UseUnicodeResponseFiles" _boolean;
  _MSBuildOnly _compile "BuildingInIDE" _boolean;
  _MSBuildOnly _compile "CompileAsManaged" (Enumeration [] ["false"; "true"; "Pure"; "Safe"; "OldSyntax"]);
  _MSBuildOnly _compile "CreateHotpatchableImage" _boolean;
  _MSBuildOnly _compile "MultiProcessorCompilation" _boolean;
  _MSBuildOnly _compile "PreprocessOutputPath" _string;
  _MSBuildOnly _compile "ProcessorNumber" _integer;
  _MSBuildOnly _compile "TrackerLogDirectory" _folder_name;
  _MSBuildOnly _compile "TreatSpecificWarningsAsErrors" _string_list;
  _MSBuildOnly _compile "UseUnicodeForAssemblerListing" _boolean;
  _CustomGeneratePreprocessedFile _compile "GeneratePreprocessedFile"
].
Definition link_same_settings : list (registry -> res registry) := [
  _Same _link "AdditionalDependencies" _file_list;
  _Same _link "AdditionalLibraryDirectories" _folder_list;
  _Same _link "AdditionalManifestDependencies" _file_list;
  _Same _link "AdditionalOptions" _string_list;
  _Same _link "AddModuleNamesToAssembly" _file_list;
  _Same _link "AllowIsolation" _boolean;
  _Same _link "AssemblyLinkResource" _file_list;
  _Same _link "BaseAddress" _string;
  _Same _link "CLRUnmanagedCodeCheck" _boolean;
  _Same _link "DelayLoadDLLs" _file_list;
  _Same _link "DelaySign" _boolean;
  _Same _link "EmbedManagedResourceFile" _file_list;
  _Same _link "EnableUAC" _boolean;
  _Same _link "EntryPointSymbol" _string;
  _Same _link "ForceSymbolReferences" _file_list;
  _Same _link "FunctionOrder" _file_name;
  _Same _link "GenerateDebugInformation" _boolean;
  _Same _link "GenerateMapFile" _boolean;
  _Same _link "HeapCommitSize" _string;
  _Same _link "HeapReserveSize" _string;
  _Same _link "IgnoreAllDefaultLibraries" _boolean;
  _Same _link "IgnoreEmbeddedIDL" _boolean;
  _Same _link "ImportLibrary" _file_name;
  _Same _link "KeyContainer" _file_name;
  _Same _link "KeyFile" _file_name;
  _Same _link "ManifestFile" _file_name;
  _Same _link "MapExports" _boolean;
  _Same _link "MapFileName" _file_name;
  _Same _link "MergedIDLBaseFileName" _file_name;
  _Same _link "MergeSections" _string;
  _Same _link "MidlCommandFile" _file_name;
  _Same _link "ModuleDefinitionFile" _file_name;
  _Same _link "OutputFile" _file_name;
  _Same _link "PerUserRedirection" _boolean;
  _Same _link "Profile" _boolean;
  _Same _link "ProfileGuidedDatabase" _file_name;
  _Same _link "ProgramDatabaseFile" _file_name;
  _Same _link "RegisterOutput" _boolean;
  _Same _link "SetChecksum" _boolean;
  _Same _link "StackCommitSize" _string;
  _Same _link "StackReserveSize" _string;
  _Same _link "StripPrivateSymbols" _file_name;
  _Same _link "SupportUnloadOfDelayLoadedDLL" _boolean;
  _Same _link "SuppressStartupBanner" _boolean;
  _Same _link "SwapRunFromCD" _boolean;
  _Same _link "TurnOffAssemblyGeneration" _boolean;
  _Same _link "TypeLibraryFile" _file_name;
  _Same _link "TypeLibraryResourceID" _integer;
  _Same _link "UACUIAccess" _boolean;
  _Same _link "Version" _string;
  _Same _link "EnableCOMDATFolding" _newly_boolean;
  _Same _link "FixedBaseAddress" _newly_boolean;
  _Same _link "LargeAddressAware" _newly_boolean;
  _Same _link "OptimizeReferences" _newly_boolean;
  _Same _link "RandomizedBaseAddress" _newly_boolean;
  _Same _link "TerminalServerAware" _newly_boolean
].
Definition link_enumerated_settings : list (registry -> res registry) := [
  _Same _link "AssemblyDebug" (Enumeration [Some ""; Some "true"; Some "false"] []);
  _Same _link "CLRImageType" (Enumeration [Some "Default"; Some "ForceIJWImage"; Some "ForcePureILImage";
    Some "ForceSafeILImage"] []);
  _Same _link "CLRThreadAttribute" (Enumeration [Some "DefaultThreadingAttribute";
    Some "MTAThreadingAttribute"; Some "STAThreadingAttribute"] []);
  _Same _link "DataExecutionPrevention" (Enumeration [Some ""; Some "false"; Some "true"] []);
  _Same _link "Driver" (Enumeration [Some "NotSet"; Some "Driver"; Some "UpOnly"; Some "WDM"] []);
  _Same _link "LinkTimeCodeGeneration" (Enumeration [Some "Default"; Some "UseLinkTimeCodeGeneration";
    Some "PGInstrument"; Some "PGOptimization"; Some "PGUpdate"] []);
  _Same _link "ShowProgress" (Enumeration [Some "NotSet"; Some "LinkVerbose"; Some "LinkVerboseLib"]
    ["LinkVerboseICF"; "LinkVerboseREF"; "LinkVerboseSAFESEH"; "LinkVerboseCLR"]);
  _Same _link "SubSystem" _subsystem_enumeration;
  _Same _link "TargetMachine" _target_machine_enumeration;
  _Same _link "UACExecutionLevel" (Enumeration [Some "AsInvoker"; Some "HighestAvailable";
    Some "RequireAdministrator"] []);
  _Same _link "MinimumRequiredVersion" _string;
  _Same _link "TreatLinkerWarningAsErrors" _boolean
].
Definition link_other_settings : list (registry -> res registry) := [
  _Renamed _link "ErrorReporting" "LinkErrorReporting" (Enumeration [Some "NoErrorReport";
    Some "PromptImmediately"; Some "QueueForNextLogin"] ["SendErrorReport"]);
  _Renamed _link "IgnoreDefaultLibraryNames" "IgnoreSpecificDefaultLibraries" _file_list;
  _Renamed _link "ResourceOnlyDLL" "NoEntryPoint" _boolean;
  _Renamed _link "SwapRunFromNet" "SwapRunFromNET" _boolean;
  _Moved _link "GenerateManifest" "" _boolean;
  _Moved _link "IgnoreImportLibrary" "" _boolean;
  _Moved _link "LinkIncremental" "" _newly_boolean;
  _Moved _link "LinkLibraryDependencies" "ProjectReference" _boolean;
  _Moved _link "UseLibraryDependencyInputs" "ProjectReference" _boolean;
  _MSVSOnly _link "OptimizeForWindows98" _newly_boolean;
  _MSVSOnly _link "UseUnicodeResponseFiles" _boolean;
  _MSBuildOnly _link "BuildingInIDE" _boolean;
  _MSBuildOnly _link "ImageHasSafeExceptionHandlers" _boolean;
  _MSBuildOnly _link "LinkDLL" _boolean;
  _MSBuildOnly _link "LinkStatus" _boolean;
  _MSBuildOnly _link "PreventDllBinding" _boolean;
  _MSBuildOnly _link "SupportNobindOfDelayLoadedDLL" _boolean;
  _MSBuildOnly _link "TrackerLogDirectory" _folder_name;
  _MSBuildOnly _link "MSDOSStubFileName" _file_name;
  _MSBuildOnly _link "SectionAlignment" _integer;
  _MSBuildOnly _link "SpecifySectionAttributes" _string;
  _MSBuildOnly _link "ForceFileOutput" (Enumeration [] ["Enabled"; "MultiplyDefinedSymbolOnly";
    "UndefinedSymbolOnly"]);
  _MSBuildOnly _link "CreateHotPatchableImage" (Enumeration [] ["Enabled"; "X86Image"; "X64Image";
    "ItaniumImage"]);
  _MSBuildOnly _link "CLRSupportLastError" (Enumeration [] ["Enabled"; "Disabled"; "SystemDlls"])
].
Definition rc_settings : list (registry -> res registry) := [
  _Same _rc "AdditionalOptions" _string_list;
  _Same _rc "AdditionalIncludeDirectories" _folder_list;
  _Same _rc "Culture" (Integer 16);
  _Same _rc "IgnoreStandardIncludePath" _boolean;
  _Same _rc "PreprocessorDefinitions" _string_list;
  _Same _rc "ResourceOutputFileName" _string;
  _Same _rc "ShowProgress" _boolean;
  _Same _rc "SuppressStartupBanner" _boolean;
  _Same _rc "UndefinePreprocessorDefinitions" _string_list;
  _MSBuildOnly _rc "NullTerminateStrings" _boolean;
  _MSBuildOnly _rc "TrackerLogDirectory" _folder_name
].
Definition midl_settings : list (registry -> res registry) := [
  _Same _midl "AdditionalIncludeDirectories" _folder_list;
  _Same _midl "AdditionalOptions" _string_list;
  _Same _midl "CPreprocessOptions" _string;
  _Same _midl "ErrorCheckAllocations" _boolean;
  _Same _midl "ErrorCheckBounds" _boolean;
  _Same _midl "ErrorCheckEnumRange" _boolean;
  _Same _midl "ErrorCheckRefPointers" _boolean;
  _Same _midl "ErrorCheckStubData" _boolean;
  _Same _midl "GenerateStublessProxies" _boolean;
  _Same _midl "GenerateTypeLibrary" _boolean;
  _Same _midl "HeaderFileName" _file_name;
  _Same _midl "IgnoreStandardIncludePath" _boolean;
  _Same _midl "InterfaceIdentifierFileName" _file_name;
  _Same _midl "MkTypLibCompatible" _boolean;
  _Same _midl "OutputDirectory" _string;
  _Same _midl "PreprocessorDefinitions" _string_list;
  _Same _midl "ProxyFileName" _file_name;
  _Same _midl "RedirectOutputAndErrors" _file_name;
  _Same _midl "SuppressStartupBanner" _boolean;
  _Same _midl "TypeLibraryName" _file_name;
  _Same _midl "UndefinePreprocessorDefinitions" _string_list;
  _Same _midl "WarnAsError" _boolean;
  _Same _midl "DefaultCharType" (Enumeration [Some "Unsigned"; Some "Signed"; Some "Ascii"] []);
  _Same _midl "TargetEnvironment" (Enumeration [Some "NotSet"; Some "Win32"; Some "Itanium"; Some "X64"] []);
  _Same _midl "EnableErrorChecks" (Enumeration [Some "EnableCustom"; Some "None"; Some "All"] []);
  _Same _midl "StructMemberAlignment" (Enumeration [Some "NotSet"; Some "1"; Some "2"; Some "4"; Some "8"] []);
  _Same _midl "WarningLevel" (Enumeration [Some "0"; Some "1"; Some "2"; Some "3"; Some "4"] []);
  _Renamed _midl "DLLDataFileName" "DllDataFileName" _file_name;
  _Renamed _midl "ValidateParameters" "ValidateAllParameters" _boolean;
  _MSBuildOnly _midl "ApplicationConfigurationMode" _boolean;
  _MSBuildOnly _midl "ClientStubFile" _file_name;
  _MSBuildOnly _midl "GenerateClientFiles" (Enumeration [] ["Stub"; "None"]);
  _MSBuildOnly _midl "GenerateServerFiles" (Enumeration [] ["Stub"; "None"]);
  _MSBuildOnly _midl "LocaleID" _integer;
  _MSBuildOnly _midl "ServerStubFile" _file_name;
  _MSBuildOnly _midl "SuppressCompilerWarnings" _boolean;
  _MSBuildOnly _midl "TrackerLogDirectory" _folder_name;
  _MSBuildOnly _midl "TypeLibFormat" (Enumeration [] ["NewFormat"; "OldFormat"])
].
Definition lib_settings : list (registry -> res registry) := [
  _Same _lib "AdditionalDependencies" _file_list;
  _Same _lib "AdditionalLibraryDirectories" _folder_list;
  _Same _lib "AdditionalOptions" _string_list;
  _Same _lib "ExportNamedFunctions" _string_list;
  _Same _lib "ForceSymbolReferences" _string;
  _Same _lib "IgnoreAllDefaultLibraries" _boolean;
  _Same _lib "IgnoreSpecificDefaultLibraries" _file_list;
  _Same _lib "ModuleDefinitionFile" _file_name;
  _Same _lib "OutputFile" _file_name;
  _Same _lib "SuppressStartupBanner" _boolean;
  _Same _lib "UseUnicodeResponseFiles" _boolean;
  _Same _lib "LinkTimeCodeGeneration" _boolean;
  _Same _lib "TargetMachine" _target_machine_enumeration;
  _Moved _lib "LinkLibraryDependencies" "ProjectReference" _boolean;
  _MSBuildOnly _lib "DisplayLibrary" _string;
  _MSBuildOnly _lib "ErrorReporting" (Enumeration [] ["PromptImmediately"; "QueueForNextLogin";
    "SendErrorReport"; "NoErrorReport"]);
  _MSBuildOnly _lib "MinimumRequiredVersion" _string;
  _MSBuildOnly _lib "Name" _file_name;
  _MSBuildOnly _lib "RemoveObjects" _file_list;
  _MSBuildOnly _lib "SubSystem" _subsystem_enumeration;
  _MSBuildOnly _lib "TrackerLogDirectory" _folder_name;
  _MSBuildOnly _lib "TreatLibWarningAsErrors" _boolean;
  _MSBuildOnly _lib "Verbose" _boolean
].
Definition manifest_settings : list (registry -> res registry) := [
  _Same _manifest "AdditionalManifestFiles" _file_list;
  _Same _manifest "AdditionalOptions" _string_list;
  _Same _manifest "AssemblyIdentity" _string;
  _Same _manifest "ComponentFileName" _file_name;
  _Same _manifest "GenerateCatalogFiles" _boolean;
  _Same _manifest "InputResourceManifests" _string;
  _Same _manifest "OutputManifestFile" _file_name;
  _Same _manifest "RegistrarScriptFile" _file_name;
  _Same _manifest "ReplacementsFile" _file_name;
  _Same _manifest "SuppressStartupBanner" _boolean;
  _Same _manifest "TypeLibraryFile" _file_name;
  _Same _manifest "UpdateFileHashes" _boolean;
  _Same _manifest "UpdateFileHashesSearchPath" _file_name;
  _Same _manifest "VerboseOutput" _boolean;
  _MovedAndRenamed _manifest "ManifestResourceFile" "ManifestResourceCompile" "ResourceOutputFileName"
    _file_name;
  _Moved _manifest "EmbedManifest" "" _boolean;
  _MSVSOnly _manifest "DependencyInformationFile" _file_name;
  _MSVSOnly _manifest "UseFAT32Workaround" _boolean;
  _MSVSOnly _manifest "UseUnicodeResponseFiles" _boolean;
  _MSBuildOnly _manifest "EnableDPIAwareness" _boolean;
  _MSBuildOnly _manifest "GenerateCategoryTags" _boolean;
  _MSBuildOnly _manifest "ManifestFromManagedAssembly" _file_name;
  _MSBuildOnly _manifest "OutputResourceManifests" _string;
  _MSBuildOnly _manifest "SuppressDependencyElement" _boolean;
  _MSBuildOnly _manifest "TrackerLogDirectory" _folder_name
].
Definition masm_settings : list (registry -> res registry) := [
  _Same _masm "UseSafeExceptionHandlers" _boolean
].

(** ** The module, executed *)
Definition module_body : res registry :=
  foldM (fun r declare => declare r) no_tools
    (tools ++ compile_same_settings ++ compile_enumerated_settings ++ compile_other_settings ++
     link_same_settings ++ link_enumerated_settings ++ link_other_settings ++ rc_settings ++
     midl_settings ++ lib_settings ++ manifest_settings ++ masm_settings)%list.
Definition the_registry : registry := match module_body with Ok r => r | _ => no_tools end.
Lemma module_body_ok : module_body = Ok the_registry.
Proof. unfold the_registry. assert (H : is_ok module_body = true) by by vm_compute. by destruct module_body. Qed.
