(* ===== verification/MsvsProps.v ===== *)
(** * Converting the settings of the Microsoft build tools

    Macros: the order in which they are replaced does not matter.  Settings: what is
    valid for MSVS is converted without a warning to what is valid for MSBuild; what
    the conversion writes. *)
From S2P Require Import Prelude PyStr GypValue MsvsSettings MsvsTables.
From stdpp Require Import options.
#[local] Open Scope nat_scope.

(** ** Macros: replacing one after the other is replacing them all at once *)
Fixpoint expand_from (macros : list (string * string)) (skip : nat) (s : string) : string :=
  match s with
  | "" => ""
  | String c s' =>
      match skip with
      | S skip => expand_from macros skip s'
      | 0 =>
          match head (filter (fun m : string * string => startswith m.1 s = true) macros) with
          | Some (old, new) => new +:+ expand_from macros (String.length old - 1) s'
          | None => String c (expand_from macros 0 s')
          end
      end
  end.
Definition expand_macros (macros : list (string * string)) (s : string) : string := expand_from macros 0 s.

Abbreviation first_match macros s :=
  (head (filter (fun m : string * string => startswith m.1 s = true) macros)).

Lemma str_drop_nil n : str_drop n "" = "".
Proof. by destruct n. Qed.
Lemma str_drop_S n c s : str_drop (S n) (String c s) = str_drop n s.
Proof. done. Qed.
Lemma str_drop_0 s : str_drop 0 s = s.
Proof. by destruct s. Qed.
Lemma expand_from_skip macros n s : expand_from macros n s = expand_macros macros (str_drop n s).
Proof.
  revert n. induction s as [|c s IH]; intros n; [by rewrite str_drop_nil|].
  destruct n as [|n]; [done|]. rewrite str_drop_S, <- IH. done.
Qed.
Lemma replace_from_skip old new n s : str_replace_from old new n s = str_replace old new (str_drop n s).
Proof.
  revert n. induction s as [|c s IH]; intros n; [by rewrite str_drop_nil|].
  destruct n as [|n]; [done|]. rewrite str_drop_S, <- IH. done.
Qed.
Lemma expand_cons macros c s : expand_macros macros (String c s) =
  match first_match macros (String c s) with
  | Some (old, new) => new +:+ expand_macros macros (str_drop (String.length old - 1) s)
  | None => String c (expand_macros macros s)
  end.
Proof.
  unfold expand_macros at 1. cbn [expand_from]. destruct (first_match _ _) as [[old new]|]; [|done].
  by rewrite expand_from_skip.
Qed.
Lemma replace_cons old new c s : str_replace old new (String c s) =
  if startswith old (String c s) then new +:+ str_replace old new (str_drop (String.length old - 1) s)
  else String c (str_replace old new s).
Proof.
  unfold str_replace at 1. cbn [str_replace_from]. unfold startswith. case_match; [|done].
  by rewrite replace_from_skip.
Qed.

(** What the macros of the map have in common: they begin with a dollar and have none
    behind it, what replaces them begins with a dollar or a percent sign, and no macro
    can begin within it, or within another macro. *)
Definition marked (c : ascii) : bool := Ascii.eqb c "$" || Ascii.eqb c "%".
Definition good_macro (m : string * string) : bool :=
  match m with
  | (String c old, String d new) => Ascii.eqb c "$" && str_forallb (fun c => negb (marked c)) old && marked d
  | _ => false
  end.
Fixpoint quiet (old s : string) : bool :=
  match s with "" => true | String _ s' => negb (startswith old s) && negb (startswith s old) && quiet old s' end.
Definition apart (x y : string * string) : bool :=
  quiet y.1 x.2 && (bool_decide (x = y) || negb (startswith x.1 y.1)).
Definition compatible (macros : list (string * string)) : Prop :=
  NoDup macros /\ Forall (fun m => good_macro m = true) macros /\
  forall x y, x ∈ macros -> y ∈ macros -> apart x y = true.

Lemma replace_map_compatible : compatible replace_map.
Proof.
  split_and!; [decided|decided|]. intros x y Hx Hy.
  assert (H : forallb (fun x => forallb (apart x) replace_map) replace_map = true) by by vm_compute.
  rewrite forallb_forall in H. specialize (H x (proj1 (list_elem_of_In _ _) Hx)).
  rewrite forallb_forall in H. exact (H y (proj1 (list_elem_of_In _ _) Hy)).
Qed.
#[export] Instance compatible_perm : Proper ((≡ₚ) ==> iff) compatible.
Proof.
  intros l k Hp. unfold compatible. rewrite Hp.
  split; intros (H1 & H2 & H3); (split_and!; [done..|]); intros x y Hx Hy; apply H3; (rewrite Hp || rewrite <- Hp); done.
Qed.

(** *** Texts that begin with a macro *)
Lemma startswith_app p s t : startswith p (s +:+ t) = true -> startswith p s = true \/ startswith s p = true.
Proof.
  revert s. induction p as [|c p IH]; intros [|d s]; [by left..|by right|].
  rewrite append_cons, !startswith_cons. intros [Hc H]%andb_true_iff.
  destruct (IH _ H) as [->| ->]; [left|right].
  - by rewrite Hc.
  - apply Ascii.eqb_eq in Hc as ->. by rewrite Ascii.eqb_refl.
Qed.
Lemma startswith_both p q s : startswith p s = true -> startswith q s = true ->
  startswith p q = true \/ startswith q p = true.
Proof.
  revert q s. induction p as [|c p IH]; intros [|d q] [|e s]; try (by left; rewrite ?startswith_nil); try (by right).
  rewrite !startswith_cons. intros [<-%Ascii.eqb_eq Hp]%andb_true_iff [->%Ascii.eqb_eq Hq]%andb_true_iff.
  rewrite Ascii.eqb_refl. exact (IH _ _ Hp Hq).
Qed.
Lemma replace_quiet old new s t : quiet old s = true ->
  str_replace old new (s +:+ t) = s +:+ str_replace old new t.
Proof.
  induction s as [|c s IH]; [done|]. cbn [quiet]. intros H. reflect.
  rewrite append_cons, replace_cons, <- append_cons.
  destruct (startswith old (String c s +:+ t)) eqn:E; [|by rewrite append_cons, IH].
  apply startswith_app in E as [E|E]; congruence.
Qed.

Lemma good_macro_inv m : good_macro m = true -> exists p d new,
  m.1 = String "$" p /\ str_forallb (fun c => negb (marked c)) p = true /\ m.2 = String d new /\ marked d = true.
Proof.
  destruct m as [[|c p] [|d new]]; try done. cbn. intros H. reflect. subst. by exists p, d, new.
Qed.
Lemma first_match_some macros s m : first_match macros s = Some m -> m ∈ macros /\ startswith m.1 s = true.
Proof. intros H%head_Some_elem_of. apply list_elem_of_filter in H as []. done. Qed.
Lemma first_match_none macros s m : first_match macros s = None -> m ∈ macros -> startswith m.1 s = false.
Proof.
  intros H Hm. apply not_true_is_false. intros Hs.
  assert (Hin : m ∈ filter (fun m : string * string => startswith m.1 s = true) macros) by by apply list_elem_of_filter.
  by destruct (filter _ _); [apply not_elem_of_nil in Hin|].
Qed.
Lemma first_match_app macros m s : first_match (macros ++ [m])%list s =
  match first_match macros s with Some x => Some x | None => if startswith m.1 s then Some m else None end.
Proof.
  rewrite list.filter_app. destruct (filter _ macros); [|done]. cbn [app]. rewrite filter_cons.
  by destruct (startswith m.1 s) eqn:E; case_decide.
Qed.

Section Good.
Context (macros : list (string * string)) (Hgood : Forall (fun m => good_macro m = true) macros).

Lemma first_match_unmarked c s : marked c = false -> first_match macros (String c s) = None.
Proof using Hgood.
  intros Hc. destruct (first_match _ _) as [m|] eqn:E; [|done]. apply first_match_some in E as [Hm Hs].
  rewrite list.Forall_forall in Hgood. apply Hgood, good_macro_inv in Hm as (p & d & new & Hp & _).
  rewrite Hp, startswith_cons in Hs. apply andb_true_iff in Hs as [<-%Ascii.eqb_eq _]. done.
Qed.
Lemma expand_unmarked p s : str_forallb (fun c => negb (marked c)) p = true ->
  expand_macros macros (p +:+ s) = p +:+ expand_macros macros s.
Proof using Hgood.
  induction p as [|c p IH]; [done|]. cbn [str_forallb]. intros [Hc%negb_true_iff Hp]%andb_true_iff.
  by rewrite append_cons, expand_cons, first_match_unmarked, IH.
Qed.
(** What replaces a macro can be told from a text without marks at once. *)
Lemma startswith_expand p s : str_forallb (fun c => negb (marked c)) p = true ->
  startswith p (expand_macros macros s) = true -> startswith p s = true.
Proof using Hgood.
  revert s. induction p as [|c p IH]; intros s; [by rewrite !startswith_nil|].
  cbn [str_forallb]. intros [Hc Hp]%andb_true_iff. destruct s as [|d s]; [done|]. rewrite expand_cons.
  destruct (first_match macros (String d s)) as [[old new]|] eqn:E.
  - apply first_match_some in E as [Hm _]. rewrite list.Forall_forall in Hgood.
    apply Hgood, good_macro_inv in Hm as (? & e & new' & _ & _ & Hnew & He). cbn in Hnew. subst new.
    rewrite append_cons, startswith_cons. intros [->%Ascii.eqb_eq _]%andb_true_iff. by rewrite He in Hc.
  - rewrite !startswith_cons. intros [-> H]%andb_true_iff. exact (IH _ Hp H).
Qed.
End Good.

Lemma replace_expand macros m s : compatible (macros ++ [m])%list ->
  str_replace m.1 m.2 (expand_macros macros s) = expand_macros (macros ++ [m])%list s.
Proof.
  intros (_ & [Hgood Hm%Forall_inv]%Forall_app & Hapart).
  remember (String.length s) as n eqn:Hn. assert (Hl : String.length s <= n) by lia. clear Hn.
  revert s Hl. induction n as [|n IH]; intros [|c s] Hl; cbn in Hl; try done; try lia.
  rewrite !expand_cons, first_match_app. destruct (first_match macros (String c s)) as [[old new]|] eqn:E.
  - apply first_match_some in E as [Hin _].
    rewrite replace_quiet, IH; [done|rewrite length_str_drop; lia|].
    specialize (Hapart (old, new) m). unfold apart in Hapart. rewrite andb_true_iff in Hapart.
    apply Hapart; apply elem_of_app; [by left|right; by left].
  - rewrite replace_cons. apply good_macro_inv in Hm as (p & d & new & Hp & Hmarks & Hnew & Hd). rewrite Hp.
    rewrite !startswith_cons. destruct (startswith p s) eqn:Es.
    + apply prefix_split in Es. set (t := str_drop (String.length p) s) in Es. clearbody t. subst s. rewrite expand_unmarked, prefix_app, andb_true_r by done.
      destruct (Ascii.eqb "$" c) eqn:Ec.
      * rewrite <- Hp. destruct m as [m1 m2]. cbn [fst snd] in *.
        replace (String.length m1 - 1) with (String.length p) by (rewrite Hp; cbn; lia). rewrite !str_drop_app.
        f_equal. apply IH. rewrite length_append in Hl. lia.
      * rewrite <- Hp, <- expand_unmarked by done. f_equal. apply IH. lia.
    + rewrite andb_false_r. destruct (startswith p (expand_macros macros s)) eqn:E'.
      { apply startswith_expand in E'; [congruence|done..]. }
      rewrite andb_false_r, <- Hp. f_equal. apply IH. lia.
Qed.
Lemma compatible_app l k : compatible (l ++ k)%list -> compatible l.
Proof.
  intros ([H1 _]%list.NoDup_app & [H2 _]%Forall_app & H3). split_and!; [done..|].
  intros x y Hx Hy. apply H3; apply elem_of_app; by left.
Qed.
Lemma replace_all_expand macros s : compatible macros ->
  foldl (fun s '(old, new) => str_replace old new s) s macros = expand_macros macros s.
Proof.
  induction macros as [|m macros IH] using rev_ind; intros Hc.
  - clear Hc. cbn. induction s as [|c s IH]; [done|]. rewrite expand_cons. cbn. by f_equal.
  - rewrite foldl_snoc, IH by by eapply compatible_app. rewrite <- (replace_expand macros m) by done. by destruct m.
Qed.
(** No two of them begin a text, so that their order does not matter. *)
Lemma first_match_perm macros macros' s : compatible macros -> macros ≡ₚ macros' ->
  first_match macros s = first_match macros' s.
Proof.
  intros Hc Hp. destruct (first_match macros s) as [m|] eqn:E; destruct (first_match macros' s) as [m'|] eqn:E'; try done.
  - apply first_match_some in E as [Hm Hs], E' as [Hm' Hs']. rewrite <- Hp in Hm'. destruct Hc as (_ & _ & Ha).
    f_equal. destruct (startswith_both _ _ _ Hs Hs') as [H'|H'].
    + pose proof (Ha m m' Hm Hm') as Hmm. unfold apart in Hmm. rewrite H', orb_false_r in Hmm. by reflect.
    + pose proof (Ha m' m Hm' Hm) as Hmm. unfold apart in Hmm. rewrite H', orb_false_r in Hmm. by reflect.
  - apply first_match_some in E as [Hm Hs]. rewrite Hp in Hm. pose proof (first_match_none _ _ _ E' Hm). congruence.
  - apply first_match_some in E' as [Hm Hs]. rewrite <- Hp in Hm. pose proof (first_match_none _ _ _ E Hm). congruence.
Qed.
Lemma expand_perm macros macros' s : compatible macros -> macros ≡ₚ macros' ->
  expand_macros macros s = expand_macros macros' s.
Proof.
  intros Hc Hp. remember (String.length s) as n eqn:Hn. assert (Hl : String.length s <= n) by lia. clear Hn.
  revert s Hl. induction n as [|n IH]; intros [|c s] Hl; cbn in Hl; try done; try lia.
  rewrite !expand_cons, (first_match_perm _ _ _ Hc Hp).
  destruct (first_match macros' _) as [[old new]|]; [|by rewrite IH by lia].
  rewrite IH; [done|]. rewrite length_str_drop. lia.
Qed.
(** Without a dollar there is nothing to do. *)
Lemma expand_no_dollar macros s : compatible macros -> str_mem "$" s = false -> expand_macros macros s = s.
Proof.
  intros (_ & Hg & _). induction s as [|c s IH]; [done|]. rewrite str_mem_cons. intros [Hc Hs]%orb_false_iff.
  rewrite expand_cons. destruct (first_match _ _) as [m|] eqn:E; [|by rewrite IH].
  apply first_match_some in E as [Hm Hst]. rewrite list.Forall_forall in Hg.
  apply Hg, good_macro_inv in Hm as (p & d & new & Hp & _). rewrite Hp, startswith_cons in Hst.
  apply andb_true_iff in Hst as [Hst _]. congruence.
Qed.

(** In whatever order the dictionary of macros is iterated, a text is converted to
    the same: all its macros are replaced at once, from the left, and then the slashes
    behind [$(IntDir)] and [$(OutDir)] are dropped. *)
Theorem convert_macros_order items s : items ≡ₚ replace_map ->
  convert_macros items s = FixVCMacroSlashes (expand_macros replace_map s).
Proof.
  intros Hp. pose proof replace_map_compatible as Hc. unfold convert_macros.
  destruct (str_mem "$" s) eqn:E.
  - by rewrite replace_all_expand, (expand_perm _ _ s) by (done || by rewrite Hp).
  - rewrite expand_no_dollar by done. unfold FixVCMacroSlashes. by rewrite E.
Qed.
Lemma convert_macros_order_witness :
  rev replace_map ≡ₚ replace_map /\
  convert_macros (rev replace_map) "$(OutDir)\\$(InputName)$(InputFileName)" = "$(OutDir)%(Filename)%(Filename)%(Extension)".
Proof.
  assert (Hp : rev replace_map ≡ₚ replace_map) by apply Permutation_sym, Permutation_rev. split; [done|].
  rewrite (convert_macros_order _ "$(OutDir)\\$(InputName)$(InputFileName)" Hp). by vm_compute.
Defined.

(** ** Numbers: what is printed is read again *)
Definition is_hex (c : ascii) : bool := isdigit c || in_range 97 102 c.
(** [u] are digits that stand for [x]. *)
Definition denotes (base : nat) (u : string) (x : N) : Prop :=
  u <> "" /\ str_forallb is_hex u = true /\
  exists k, forall acc s, digits_in base acc (u +:+ s) = digits_in base (acc * Z.of_nat base ^ Z.of_nat k + Z.of_N x)%Z s.

Lemma denotes_digit base c d : is_hex c = true -> digit_value c = Some d -> d < base ->
  denotes base (String c "") (N.of_nat d).
Proof.
  intros Hh Hd Hlt. split_and!; [done|cbn; by rewrite Hh|]. exists 1. intros acc s. cbn [String.append digits_in].
  rewrite Hd. cbn [mbind option_bind]. rewrite (proj2 (Nat.ltb_lt _ _) Hlt), nat_N_Z. f_equal. lia.
Qed.
Lemma denotes_snoc base u x c d : denotes base u x -> is_hex c = true -> digit_value c = Some d -> d < base ->
  denotes base (u +:+ String c "") (N.of_nat base * x + N.of_nat d).
Proof.
  intros (Hu & Hall & k & Hk) Hh Hd Hlt. split_and!.
  - by destruct u.
  - rewrite str_forallb_app, Hall. cbn. by rewrite Hh.
  - exists (S k). intros acc s. rewrite append_assoc, Hk. cbn [String.append digits_in]. rewrite Hd.
    cbn [mbind option_bind]. rewrite (proj2 (Nat.ltb_lt _ _) Hlt). f_equal. rewrite Nat2Z.inj_succ, Z.pow_succ_r by lia. lia.
Qed.
Lemma decimal_digit d : d < 10 -> is_hex (pretty_N_char (N.of_nat d)) = true /\
  digit_value (pretty_N_char (N.of_nat d)) = Some d.
Proof. intros H. do 10 (destruct d as [|d]; [done|]). lia. Qed.
Lemma hex_digit_value d : d < 16 -> is_hex (hex_digit d) = true /\ digit_value (hex_digit d) = Some d.
Proof. intros H. do 16 (destruct d as [|d]; [done|]). lia. Qed.

Lemma pretty_N_go_denotes x : (0 < x)%N -> exists u, denotes 10 u x /\ forall s, pretty_N_go x s = u +:+ s.
Proof.
  induction (N.lt_wf_0 x) as [x _ IH]. intros Hx.
  assert (Hm : N.to_nat (x mod 10) < 10) by (pose proof (N.mod_lt x 10); lia).
  destruct (decimal_digit _ Hm) as [Hh Hd]. rewrite N2Nat.id in Hh, Hd.
  pose proof (N.div_mod x 10) as Hdm. destruct (decide (x < 10)%N) as [Hl|Hl].
  - exists (String (pretty_N_char (x mod 10)) ""). split.
    + replace x with (N.of_nat (N.to_nat (x mod 10))) at 2 by (rewrite N2Nat.id; by apply N.mod_small).
      by apply denotes_digit.
    + intros s. by rewrite pretty_N_go_step, N.div_small, pretty_N_go_0 by done.
  - destruct (IH (x / 10)%N) as (u & Hu & Hs); [apply N.div_lt; lia|apply N.div_str_pos; lia|].
    exists (u +:+ String (pretty_N_char (x mod 10)) ""). split.
    + replace x with (N.of_nat 10 * (x / 10) + N.of_nat (N.to_nat (x mod 10)))%N at 2 by lia. by apply denotes_snoc.
    + intros s. by rewrite pretty_N_go_step, Hs, append_assoc by done.
Qed.
Lemma hex_loop_denotes fuel n : (n < 2 ^ N.of_nat fuel)%N ->
  exists u, denotes 16 u n /\ forall acc, hex_loop fuel n acc = u +:+ acc.
Proof.
  revert n. induction fuel as [|fuel IH]; intros n Hf.
  { assert (n = 0%N) as -> by (cbn in Hf; lia). exists "0". split; [|done]. apply (denotes_digit 16 "0" 0); [done|done|lia]. }
  assert (Hm : N.to_nat (n mod 16) < 16) by (pose proof (N.mod_lt n 16); lia).
  destruct (hex_digit_value _ Hm) as [Hh Hd]. pose proof (N.div_mod n 16) as Hdm.
  cbn [hex_loop]. destruct (n <? 16)%N eqn:E; [apply N.ltb_lt in E|apply N.ltb_ge in E].
  - exists (String (hex_digit (N.to_nat (n mod 16))) ""). split; [|done].
    replace n with (N.of_nat (N.to_nat (n mod 16))) at 2 by (rewrite N2Nat.id; by apply N.mod_small).
    by apply denotes_digit.
  - destruct (IH (n / 16)%N) as (u & Hu & Hs).
    { apply N.Div0.div_lt_upper_bound. rewrite Nat2N.inj_succ, N.pow_succ_r' in Hf. lia. }
    exists (u +:+ String (hex_digit (N.to_nat (n mod 16))) ""). split.
    + replace n with (N.of_nat 16 * (n / 16) + N.of_nat (N.to_nat (n mod 16)))%N at 2 by lia. by apply denotes_snoc.
    + intros acc. by rewrite Hs, append_assoc.
Qed.

Lemma hex_spaceless c : is_hex c = true -> isspace c = false.
Proof. destruct c as [[] [] [] [] [] [] [] []]; done. Qed.
Lemma spaceless_hex s : str_forallb is_hex s = true -> str_forallb (fun c => negb (isspace c)) s = true.
Proof.
  induction s as [|c s IH]; [done|]. cbn. intros [Hc Hs]%andb_true_iff. by rewrite hex_spaceless, IH.
Qed.
Lemma lstrip_spaceless s : str_forallb (fun c => negb (isspace c)) s = true -> lstrip_of isspace s = s.
Proof. destruct s as [|c s]; [done|]. cbn. intros [Hc%negb_true_iff _]%andb_true_iff. by rewrite Hc. Qed.
Lemma parse_int_unsigned base c s : isdigit c = true -> str_forallb (fun c => negb (isspace c)) (String c s) = true ->
  drop_0x base (String c s) <> "" ->
  parse_int base (String c s) = digits_in base 0 (drop_0x base (String c s)).
Proof.
  intros Hc Hs Hd. unfold parse_int. rewrite strip_spaceless by done.
  assert (E : match String c s with String "-" s' => (true, s') | String "+" s' => (false, s') | _ => (false, String c s) end
              = (false, String c s)) by (destruct c as [[] [] [] [] [] [] [] []]; done).
  rewrite E, lstrip_spaceless by done. destruct (drop_0x base (String c s)) as [|d t]; [done|].
  by destruct (digits_in _ _ _).
Qed.
Lemma denotes_head base u x : denotes base u x -> exists c u', u = String c u' /\ is_hex c = true.
Proof.
  intros (Hu & Hh & _). destruct u as [|c u']; [done|]. exists c, u'. cbn in Hh. by apply andb_true_iff in Hh as [].
Qed.
Lemma digits_in_denotes base u x : denotes base u x -> digits_in base 0 u = Some (Z.of_N x).
Proof. intros (_ & _ & k & Hk). specialize (Hk 0%Z ""). rewrite append_nil_r in Hk. by rewrite Hk. Qed.
Lemma drop_0x_10 s : drop_0x 10 s = s.
Proof. done. Qed.
Lemma drop_0x_16 s : drop_0x 16 (String "0" (String "x" s)) = s.
Proof. by destruct s. Qed.
Lemma pretty_N_denotes x : exists u, denotes 10 u x /\ pretty x = u.
Proof.
  destruct (decide (x = 0)%N) as [->|Hx]; [exists "0"; split; [apply (denotes_digit 10 "0" 0); (done || lia)|done]|].
  destruct (pretty_N_go_denotes x) as (u & Hu & Hs); [lia|]. exists u. split; [done|].
  unfold pretty, pretty_N. rewrite decide_False by done. by rewrite Hs, append_nil_r.
Qed.
Lemma decimal_head base u x c u' : denotes base u x -> base <= 10 -> u = String c u' -> isdigit c = true.
Proof.
  intros Hd Hb ->. pose proof (digits_in_denotes _ _ _ Hd) as H. cbn [digits_in] in H. unfold digit_value in H.
  destruct (isdigit c) eqn:Ec; [done|]. unfold in_range in H. exfalso.
  destruct ((65 <=? ord c) && (ord c <=? 70)) eqn:E1; reflect.
  - cbn [mbind option_bind] in H. destruct (ord c - 55 <? base) eqn:E2; [|done]. reflect. lia.
  - destruct ((97 <=? ord c) && (ord c <=? 102)) eqn:E2; [|done]. reflect.
    cbn [mbind option_bind] in H. destruct (ord c - 87 <? base) eqn:E3; [|done]. reflect. lia.
Qed.
Lemma parse_decimal n : parse_int 10 (string_of_int n) = Some n.
Proof.
  unfold string_of_int. destruct n as [|p|p]; [done| |].
  - destruct (pretty_N_denotes (N.pos p)) as (u & Hu & Hp). change (pretty (Z.pos p)) with (pretty (N.pos p)).
    rewrite Hp. destruct (denotes_head _ _ _ Hu) as (c & u' & E & _). pose proof Hu as (_ & Hh & _).
    rewrite E in *. rewrite parse_int_unsigned, drop_0x_10.
    + by rewrite (digits_in_denotes _ _ _ Hu).
    + by eapply decimal_head.
    + by apply spaceless_hex.
    + done.
  - destruct (pretty_N_denotes (N.pos p)) as (u & Hu & Hp).
    change (pretty (Z.neg p)) with ("-" +:+ pretty (N.pos p)). rewrite Hp. pose proof Hu as (Hne & Hh & _).
    apply spaceless_hex in Hh. change ("-" +:+ u) with (String "-" u). unfold parse_int.
    rewrite strip_spaceless by (cbn; by rewrite Hh). rewrite lstrip_spaceless by done. rewrite drop_0x_10.
    destruct u as [|c u]; [done|]. by rewrite (digits_in_denotes _ _ _ Hu).
Qed.
Lemma zeros_denote base k u x : denotes base u x -> 0 < base -> denotes base (str_repeat k "0" +:+ u) x.
Proof.
  intros Hu Hb. induction k as [|k IH]; [done|]. destruct IH as (Hne & Hh & j & Hj).
  cbn [str_repeat]. split_and!; [done|exact Hh|]. exists (S j). intros acc s.
  change ((("0" +:+ str_repeat k "0") +:+ u) +:+ s) with (String "0" ((str_repeat k "0" +:+ u) +:+ s)).
  cbn [digits_in]. change (digit_value "0") with (Some 0). cbn [mbind option_bind].
  rewrite (proj2 (Nat.ltb_lt _ _) Hb), Hj. f_equal. rewrite Nat2Z.inj_succ, Z.pow_succ_r by lia. lia.
Qed.
Lemma parse_hex n : (0 <= n)%Z -> parse_int 16 ("0x" +:+ format_04x n) = Some n.
Proof.
  intros Hn. unfold format_04x. rewrite (proj2 (Z.ltb_ge _ _) Hn). unfold zero_pad, hex.
  destruct (hex_loop_denotes (N.to_nat (N.size (Z.abs_N n))) (Z.abs_N n)) as (u & Hu & Hs).
  { rewrite N2Nat.id. apply N.size_gt. }
  rewrite Hs, append_nil_r. set (k := 4 - String.length u).
  pose proof (zeros_denote 16 k u _ Hu ltac:(lia)) as Hz. revert Hz. generalize (str_repeat k "0" +:+ u) as w.
  intros w Hw. pose proof Hw as (Hne & Hh & _). change ("0x" +:+ w) with (String "0" (String "x" w)).
  rewrite parse_int_unsigned.
  - rewrite drop_0x_16. rewrite (digits_in_denotes _ _ _ Hw). f_equal. lia.
  - done.
  - cbn. by rewrite spaceless_hex.
  - by rewrite drop_0x_16.
Qed.

(** ** What is valid is converted to what is valid *)
Definition is_text (v : val) : bool := match v with VStr _ => true | _ => false end.
Definition texts (v : val) : bool := match v with VList l => forallb is_text l | _ => true end.
Definition not_negative (v : val) : bool := match int_of v with Ok n => (0 <=? n)%Z | _ => true end.

Lemma convert_texts items l acc : forallb is_text l = true ->
  exists l', foldM (fun acc i => i ← ConvertVCMacrosToMSBuild items i; Ok (acc ++ [i])%list) acc l = Ok l'.
Proof.
  intros Hl. destruct (foldM_total (fun _ => True)
    (fun acc i => i ← ConvertVCMacrosToMSBuild items i; Ok (acc ++ [i])%list) acc l) as (l' & H & _); [done| |eauto].
  intros s x Hx _. rewrite forallb_forall in Hl. specialize (Hl x (proj1 (list_elem_of_In _ _) Hx)).
  destruct x; [done|cbn|done..]. eauto.
Qed.
Lemma convert_valid items t v :
  (forall base, t = Integer base -> base = 10 \/ base = 16 /\ not_negative v = true) ->
  texts v = true -> ValidateMSVS items t v = Ok tt ->
  exists v', ConvertToMSBuild items t v = Ok v' /\ ValidateMSBuild items t v' = Ok tt.
Proof.
  destruct t as [| | |base|labels new]; cbn [ValidateMSVS ValidateMSBuild ConvertToMSBuild]; intros Hb Ht H.
  - destruct v; try done. by eexists.
  - destruct v as [n|s|l|d]; try done; [by eexists|]. destruct (convert_texts items l [] Ht) as [l' ->]. by eexists.
  - rewrite H. cbn. by exists v.
  - destruct (int_of v) as [n| |] eqn:En; try done. cbn [mbind res_bind] in *. eexists. split; [done|].
    unfold not_negative in Hb. rewrite En in Hb. destruct (Hb base eq_refl) as [->|[-> Hn]]; cbn [Nat.eqb int_of_base].
    + by rewrite parse_decimal.
    + rewrite parse_hex; [done|]. by apply Z.leb_le.
  - destruct (int_of v) as [n| |] eqn:En; try done. cbn [mbind res_bind] in *.
    destruct ((n <? 0)%Z || (Z.of_nat (length labels) <=? n)%Z); [done|].
    destruct (labels !! Z.to_nat n) as [[label|]|] eqn:El; [|done..]. eexists. split; [done|]. cbn.
    rewrite bool_decide_true; [done|]. apply elem_of_list_to_set, elem_of_app. left.
    apply list_elem_of_omap. exists (Some label). split; [|done]. by eapply list_elem_of_lookup_2.
Qed.

(** What the conversion leaves open: a negative culture, and the values of
    [GeneratePreprocessedFile] that are not written the usual way *)
Definition convertible (name : string) (v : val) : bool :=
  texts v && (negb (String.eqb name "Culture") || not_negative v) &&
  (negb (String.eqb name "GeneratePreprocessedFile") || bool_decide (v ∈ [VStr "0"; VStr "1"; VStr "2"])).

(** *** The tables agree *)
Definition type_in (table : gmap string (gmap string setting_type)) (tool name : string) : option setting_type :=
  table !! tool ≫= lookup name.
Definition agrees (r : registry) (tool name : string) (f : translator) : bool :=
  let msvs := type_in (_msvs_validators r) tool name in
  match f with
  | Renamed_Translate msbuild_tool msbuild_name t =>
      bool_decide (msvs = Some t /\ type_in (_msbuild_validators r) msbuild_tool msbuild_name = Some t) &&
      match t with Integer base => (base =? 10) || (base =? 16) && String.eqb name "Culture" | _ => true end
  | MSVSOnly_Translate => true
  | MSBuildOnly_Translate _ _ => bool_decide (msvs = None)
  | AdditionalOption_Translate msbuild_tool _ =>
      bool_decide (type_in (_msbuild_validators r) msbuild_tool "AdditionalOptions" = Some StringList)
  | PreprocessedFile_Translate msbuild_tool =>
      String.eqb name "GeneratePreprocessedFile" &&
      bool_decide (type_in (_msbuild_validators r) msbuild_tool "PreprocessToFile" = Some Boolean) &&
      bool_decide (type_in (_msbuild_validators r) msbuild_tool "PreprocessSuppressLineNumbers" = Some Boolean)
  end.
Definition converter_in (r : registry) (tool name : string) : option translator :=
  _msvs_to_msbuild_converters r !! tool ≫= lookup name.
Definition tables_agree (r : registry) : bool :=
  forallb (fun '(tool, names) => forallb (fun '(name, f) => agrees r tool name f && bool_decide (excluded_root name = None)) (map_to_list names))
    (map_to_list (_msvs_to_msbuild_converters r)) &&
  forallb (fun '(tool, names) =>
             forallb (fun '(name, _) => bool_decide (is_Some (converter_in r tool name))) (map_to_list names) &&
             bool_decide (is_Some (_msvs_to_msbuild_converters r !! tool)))
    (map_to_list (_msvs_validators r)).
Lemma the_tables_agree : tables_agree the_registry = true.
Proof. by vm_compute. Qed.

Section Agreeing.
Context (r : registry) (Hr : tables_agree r = true).

Lemma converters_agree tool name f : converter_in r tool name = Some f ->
  agrees r tool name f = true /\ excluded_root name = None.
Proof using Hr.
  intros (names & Ht & Hn)%bind_Some. pose proof Hr as [H _]%andb_true_iff.
  rewrite forallb_forall in H. specialize (H (tool, names) (proj1 (list_elem_of_In _ _) (proj2 (elem_of_map_to_list _ _ _) Ht))).
  cbn in H. rewrite forallb_forall in H.
  specialize (H (name, f) (proj1 (list_elem_of_In _ _) (proj2 (elem_of_map_to_list _ _ _) Hn))).
  by apply andb_true_iff in H as [? ?%bool_decide_eq_true].
Qed.
Lemma validators_converters tool names : _msvs_validators r !! tool = Some names ->
  exists converters, _msvs_to_msbuild_converters r !! tool = Some converters /\
    forall name, is_Some (names !! name) -> is_Some (converters !! name).
Proof using Hr.
  intros Ht. pose proof Hr as [_ H]%andb_true_iff. rewrite forallb_forall in H.
  specialize (H (tool, names) (proj1 (list_elem_of_In _ _) (proj2 (elem_of_map_to_list _ _ _) Ht))).
  apply andb_true_iff in H as [H Hc]. apply bool_decide_eq_true in Hc as [converters Hc]. exists converters.
  split; [done|]. intros name [t Hn]. rewrite forallb_forall in H.
  specialize (H (name, t) (proj1 (list_elem_of_In _ _) (proj2 (elem_of_map_to_list _ _ _) Hn))). cbn in H.
  apply bool_decide_eq_true in H. unfold converter_in in H. by rewrite Hc in H.
Qed.
End Agreeing.

(** *** Nothing is printed *)
Lemma foldM_silent {A B} (f : list B -> A -> res (list B)) l :
  (forall s x s', x ∈ l -> f s x = Ok s' -> exists e, s' = (s ++ e)%list) ->
  foldM f [] l = Ok [] <-> forall x, x ∈ l -> f [] x = Ok [].
Proof.
  intros Hf. split.
  - assert (Hgrow : forall k s s', k ⊆ l -> foldM f s k = Ok s' -> exists e, s' = (s ++ e)%list).
    { induction k as [|x k IH]; intros s s' Hk; cbn [foldM]; [intros [= <-]; exists []; by rewrite app_nil_r|].
      intros (s1 & H1 & H)%bind_ok. apply Hf in H1 as [e1 ->]; [|apply Hk; left].
      apply IH in H as [e2 ->]; [exists (e1 ++ e2)%list; by rewrite app_assoc|]. intros y Hy. apply Hk. by right. }
    assert (H : forall k, k ⊆ l -> foldM f [] k = Ok [] -> forall x, x ∈ k -> f [] x = Ok []).
    { induction k as [|y k IH]; intros Hk; cbn [foldM]; [by intros _ x ?%not_elem_of_nil|].
      intros (s1 & H1 & H)%bind_ok. assert (s1 = []) as ->.
      { apply Hgrow in H as [e H]; [|intros z Hz; apply Hk; by right]. by destruct s1. }
      intros x [->|Hx]%elem_of_cons; [done|]. apply IH; [|done..]. intros z Hz. apply Hk. by right. }
    by apply H.
  - intros H. clear Hf. induction l as [|x l IH]; [done|]. cbn [foldM]. rewrite H by left. apply IH.
    intros y Hy. apply H. by right.
Qed.

Section Silent.
Context (validate : setting_type -> val -> res unit).

Lemma validate_setting_grows tool names s item s' :
  validate_setting validate tool names s item = Ok s' -> exists e, s' = (s ++ e)%list.
Proof.
  destruct item as [name v]. unfold validate_setting, _ValidateExclusionSetting.
  repeat case_match; intros [= <-]; eauto; exists []; by rewrite app_nil_r.
Qed.
Lemma validate_setting_silent tool names name v : validate_setting validate tool names [] (name, v) = Ok [] <->
  match names !! name with
  | Some t => validate t v = Ok tt
  | None => exists root, excluded_root name = Some root /\ is_Some (names !! root)
  end.
Proof.
  unfold validate_setting, _ValidateExclusionSetting. destruct (names !! name) as [t|].
  - destruct (validate t v) as [[]|[]|]; done.
  - destruct (excluded_root name) as [root|].
    + case_bool_decide as Hn; split; try done.
      * intros (root' & [= <-] & []). congruence.
      * intros _. exists root. split; [done|]. by apply not_eq_None_Some.
    + split; [done|]. by intros (root & ? & _).
Qed.
Lemma ValidateSettings_silent validators settings : _ValidateSettings validate validators settings = Ok [] <->
  forall tool d, (tool, d) ∈ settings -> exists names, validators !! tool = Some names /\
    forall name v, (name, v) ∈ d ->
      match names !! name with
      | Some t => validate t v = Ok tt
      | None => exists root, excluded_root name = Some root /\ is_Some (names !! root)
      end.
Proof.
  unfold _ValidateSettings. rewrite foldM_silent.
  2:{ intros s [tool d] s' _. destruct (validators !! tool) as [names|]; [|intros [= <-]; eauto].
      intros H. eapply (foldM_inv (fun s' => exists e, s' = (s ++ e)%list)); [| |exact H]; [exists []; by rewrite app_nil_r|].
      intros s1 x s2 _ [e1 ->] [e2 ->]%validate_setting_grows. exists (e1 ++ e2)%list. by rewrite app_assoc. }
  split; intros H.
  - intros tool d Hin. specialize (H _ Hin). cbn in H. destruct (validators !! tool) as [names|]; [|done].
    exists names. split; [done|]. rewrite foldM_silent in H by (intros ? ? ? _; apply validate_setting_grows).
    intros name v Hd. apply (validate_setting_silent tool). by apply H.
  - intros [tool d] Hin. destruct (H _ _ Hin) as (names & -> & Hd).
    apply foldM_silent; [intros ? ? ? _; apply validate_setting_grows|]. intros [name v] Hx.
    apply validate_setting_silent. by apply Hd.
Qed.
End Silent.

(** *** The settings that are written are valid *)
Section Valid.
Context (items : list (string * string)) (r : registry) (Hr : tables_agree r = true).

Definition good_settings (m : gmap string (gmap string val)) : Prop :=
  forall tool names, m !! tool = Some names -> exists types, _msbuild_validators r !! tool = Some types /\
    forall name v, names !! name = Some v -> exists t, types !! name = Some t /\ ValidateMSBuild items t v = Ok tt.

Lemma good_setdefault tool m : is_Some (_msbuild_validators r !! tool) ->
  good_settings m -> good_settings (setdefault_tool tool m).
Proof.
  intros [types Ht] Hm. unfold setdefault_tool. destruct (m !! tool) eqn:E; [done|].
  intros tool' names [[<- <-]|[_ ?]]%lookup_insert_Some; [|by apply Hm]. exists types. split; [done|].
  intros name v Hv. by rewrite lookup_empty in Hv.
Qed.
Lemma good_put tool name v t m : type_in (_msbuild_validators r) tool name = Some t ->
  ValidateMSBuild items t v = Ok tt -> good_settings m -> good_settings (put_setting tool name v m).
Proof.
  intros (types & Hty & Ht)%bind_Some Hv Hm tool' names. unfold put_setting.
  intros [[<- <-]|[_ ?]]%lookup_insert_Some; [|by apply Hm]. exists types. split; [done|].
  intros name' v' [[<- <-]|[_ Hold]]%lookup_insert_Some; [by exists t|].
  destruct (m !! tool) as [names|] eqn:E; [|cbn in Hold; by rewrite lookup_empty in Hold].
  destruct (Hm _ _ E) as (types' & Hty' & H). rewrite Hty in Hty'. injection Hty' as <-. by apply H.
Qed.
Lemma type_in_tool table tool name t : type_in table tool name = Some t -> is_Some (table !! tool).
Proof. intros (types & H & _)%bind_Some. by eexists. Qed.

Lemma Translate_valid tool name f v m :
  converter_in r tool name = Some f ->
  (forall t, type_in (_msvs_validators r) tool name = Some t -> ValidateMSVS items t v = Ok tt) ->
  is_Some (type_in (_msvs_validators r) tool name) ->
  convertible name v = true -> good_settings m ->
  exists m', _Translate items f v m = (m', Ok tt) /\ good_settings m'.
Proof using Hr.
  intros Hf Hv [ty Hty] Hc Hm. destruct (converters_agree r Hr _ _ _ Hf) as [Ha _]. specialize (Hv _ Hty).
  unfold convertible in Hc. apply andb_true_iff in Hc as [[Ht Hn]%andb_true_iff Hp].
  destruct f as [tool' name' t| |tool' name'|tool' flag|tool']; cbn [agrees _Translate] in *.
  - apply andb_true_iff in Ha as [[Hms Hmb]%bool_decide_eq_true Hbase]. rewrite Hty in Hms. injection Hms as ->.
    destruct (convert_valid items t v) as (v' & -> & Hv'); [|done..|].
    + intros base ->. apply orb_true_iff in Hbase as [->%Nat.eqb_eq|Hbase]; [by left|right]. reflect. subst.
      by rewrite String.eqb_refl in Hn.
    + eexists. split; [done|]. eapply good_put; [done..|]. apply good_setdefault; [by eapply type_in_tool|done].
  - by eexists.
  - apply bool_decide_eq_true in Ha. congruence.
  - apply bool_decide_eq_true in Ha. destruct (bool_decide (v = _)); [|by eexists]. eexists. split; [done|].
    eapply good_put; [done|done|]. apply good_setdefault; [by eapply type_in_tool|done].
  - apply andb_true_iff in Ha as [[->%String.eqb_eq Ha1%bool_decide_eq_true]%andb_true_iff Ha2%bool_decide_eq_true].
    cbn in Hp. apply bool_decide_eq_true in Hp.
    assert (Hput : forall a b, a ∈ ["true"; "false"] -> b ∈ ["true"; "false"] -> good_settings
      (put_setting tool' "PreprocessSuppressLineNumbers" (VStr b)
         (put_setting tool' "PreprocessToFile" (VStr a) (setdefault_tool tool' m)))).
    { intros a b Ha Hb. repeat (eapply good_put; [done| |]); [..|apply good_setdefault; [by eapply type_in_tool|done]].
      all: cbn; unfold Boolean_Validate; by repeat (apply elem_of_cons in Ha as [->|Ha] || apply elem_of_cons in Hb as [->|Hb] || by apply not_elem_of_nil in Ha || by apply not_elem_of_nil in Hb). }
    apply elem_of_cons in Hp as [->|[->|[->|[]%not_elem_of_nil]%elem_of_cons]%elem_of_cons]; cbn;
      (eexists; split; [done|apply Hput; set_solver]).
Qed.

Lemma convert_tool_valid tool d m names : good_settings m ->
  _msvs_validators r !! tool = Some names ->
  (forall name v, (name, v) ∈ d -> convertible name v = true /\
     match names !! name with
     | Some t => ValidateMSVS items t v = Ok tt
     | None => exists root, excluded_root name = Some root /\ is_Some (names !! root)
     end) ->
  exists m', convert_tool items r (m, []) (tool, d) = Ok (m', []) /\ good_settings m'.
Proof using Hr.
  intros Hm Hn Hd. destruct (validators_converters r Hr tool names Hn) as (converters & Hc & Hsub). cbn [convert_tool].
  rewrite Hc. destruct (foldM_total (fun st => good_settings st.1 /\ st.2 = [])
    (convert_setting items tool converters) (m, []) d) as ([m' e] & -> & [Hm' He]); [done| |cbn in He; subst; eauto].
  intros [m1 e1] [name v] Hx [Hm1 He1]. cbn in Hm1, He1. subst e1. destruct (Hd _ _ Hx) as [Hcv Hv].
  assert (Hty : type_in (_msvs_validators r) tool name = names !! name) by (unfold type_in; by rewrite Hn).
  unfold convert_setting. destruct (converters !! name) as [f|] eqn:Ef.
  - assert (Hf : converter_in r tool name = Some f) by (unfold converter_in; by rewrite Hc).
    destruct (names !! name) as [t|] eqn:Et.
    + destruct (Translate_valid tool name f v m1) as (m2 & -> & Hm2); [done| | |done..|by exists (m2, [])].
      * intros t'. rewrite Hty. intros [= <-]. done.
      * by rewrite Hty.
    + destruct Hv as (root & Hroot & _). destruct (converters_agree r Hr _ _ _ Hf) as [_ Hnone]. congruence.
  - exists (m1, []). split; [|done]. destruct (names !! name) as [t|] eqn:Et.
    + destruct (Hsub name) as [f Hf]; [by rewrite Et|congruence].
    + destruct Hv as (root & Hroot & Hrt). apply Hsub in Hrt as [f Hf].
      unfold _ValidateExclusionSetting. rewrite Hroot, bool_decide_false by by rewrite Hf. done.
Qed.
End Valid.

(** C28. Settings that are valid for MSVS are converted without a warning, and whatever
    lists the result is valid for MSBuild: the two tables and the converters of all 261
    settings agree.  Excepted are values that the validation lets through: a list with
    something else than texts, a negative culture, and a number like [01] for
    [GeneratePreprocessedFile]. *)
Theorem ConvertToMSBuildSettings_valid items settings :
  (forall tool d name v, (tool, d) ∈ settings -> (name, v) ∈ d -> convertible name v = true) ->
  ValidateMSVSSettings items the_registry settings = Ok [] ->
  exists msbuild, ConvertToMSBuildSettings items the_registry settings = Ok (msbuild, []) /\
    forall listed, (forall tool d, (tool, d) ∈ listed -> exists names, msbuild !! tool = Some names /\
                      forall name v, (name, v) ∈ d -> names !! name = Some v) ->
      ValidateMSBuildSettings items the_registry listed = Ok [].
Proof.
  generalize the_tables_agree. generalize the_registry as r. intros r Hr Hc Hv.
  unfold ValidateMSVSSettings in Hv. rewrite ValidateSettings_silent in Hv. unfold ConvertToMSBuildSettings.
  destruct (foldM_total (fun st => good_settings items r st.1 /\ st.2 = [])
    (convert_tool items r) (∅, []) settings) as ([m e] & -> & [Hm He]); cbn in *.
  - split; [|done]. intros tool names H. by rewrite lookup_empty in H.
  - intros [m e] [tool d] Hin [Hm He]. cbn in Hm, He. subst e. destruct (Hv _ _ Hin) as (names & Hn & Hd).
    destruct (convert_tool_valid items r Hr tool d m names) as (m' & -> & Hm'); [done..| |by exists (m', [])].
    intros name v Hnv. split; [by eapply Hc|by apply Hd].
  - subst e. exists m. split; [done|]. intros listed Hl. apply ValidateSettings_silent.
    intros tool d Hin. destruct (Hl _ _ Hin) as (names & Hn & Hd). destruct (Hm _ _ Hn) as (types & Ht & H).
    exists types. split; [done|]. intros name v Hnv. destruct (H name v (Hd _ _ Hnv)) as (t & -> & Hval). done.
Qed.

Definition sample_settings : list (string * dict) := [
  ("VCCLCompilerTool", [("WarningLevel", VStr "4"); ("DebugInformationFormat", VInt 3);
                        ("AdditionalIncludeDirectories", VList [VStr "$(InputDir)\x"]);
                        ("AdditionalIncludeDirectories_excluded", VList []);
                        ("GeneratePreprocessedFile", VStr "2"); ("DefaultCharIsUnsigned", VStr "true")]);
  ("VCResourceCompilerTool", [("Culture", VStr "1033")]);
  ("VCManifestTool", [("EmbedManifest", VStr "true")]) ].
Lemma ConvertToMSBuildSettings_valid_witness :
  ValidateMSVSSettings replace_map the_registry sample_settings = Ok [] /\
  exists msbuild, ConvertToMSBuildSettings replace_map the_registry sample_settings = Ok (msbuild, []).
Proof.
  assert (Hv : ValidateMSVSSettings replace_map the_registry sample_settings = Ok []) by by vm_compute.
  split; [exact Hv|]. destruct (ConvertToMSBuildSettings_valid replace_map sample_settings) as (m & Hm & _).
  - assert (H : Forall (fun '(_, d) => Forall (fun '(name, v) => convertible name v = true) d) sample_settings)
      by (repeat constructor).
    intros tool d name v Hd Hn. rewrite list.Forall_forall in H. specialize (H _ Hd). cbn in H.
    rewrite list.Forall_forall in H. exact (H _ Hn).
  - exact Hv.
  - by exists m.
Defined.

(** ** What the conversion writes *)
Section Writes.
Context (items : list (string * string)) (r : registry).

Definition writes_of (f : translator) (value : val) : list (string * string * val) :=
  match f with
  | Renamed_Translate tool name t =>
      match ConvertToMSBuild items t value with Ok v => [((tool, name), v)] | _ => [] end
  | MSVSOnly_Translate => []
  | MSBuildOnly_Translate tool name => [((tool, name), value)]
  | AdditionalOption_Translate tool flag =>
      if bool_decide (value = VStr "true") then [((tool, "AdditionalOptions"), VStr flag)] else []
  | PreprocessedFile_Translate tool =>
      let both a b := [((tool, "PreprocessToFile"), VStr a); ((tool, "PreprocessSuppressLineNumbers"), VStr b)] in
      if bool_decide (value = VStr "0") then both "false" "false"
      else if bool_decide (value = VStr "1") then both "true" "false"
      else if bool_decide (value = VStr "2") then both "true" "true"
      else []
  end.
Definition setting_writes (tool : string) (item : string * val) : list (string * string * val) :=
  match converter_in r tool item.1 with Some f => writes_of f item.2 | None => [] end.
Definition tool_writes (item : string * dict) : list (string * string * val) :=
  concat (map (setting_writes item.1) item.2).
Definition all_writes (settings : list (string * dict)) : list (string * string * val) :=
  concat (map tool_writes settings).

Definition setting_at (m : gmap string (gmap string val)) (key : string * string) : option val :=
  m !! key.1 ≫= lookup key.2.
(** The settings hold the writes. *)
Definition holds (ws : list (string * string * val)) (m : gmap string (gmap string val)) : Prop :=
  forall key v, setting_at m key = Some v <-> (key, v) ∈ ws.

Lemma setting_at_setdefault tool m key : setting_at (setdefault_tool tool m) key = setting_at m key.
Proof.
  unfold setdefault_tool, setting_at. destruct (m !! tool) eqn:E; [done|].
  destruct (decide (key.1 = tool)) as [->|Hne]; [|by rewrite lookup_insert_ne].
  rewrite lookup_insert_eq, E. cbn. apply lookup_empty.
Qed.
Lemma setting_at_put tool name v m key :
  setting_at (put_setting tool name v m) key = if decide (key = (tool, name)) then Some v else setting_at m key.
Proof.
  destruct key as [t n]. unfold put_setting, setting_at. cbn [fst snd].
  destruct (decide (t = tool)) as [->|Ht].
  - rewrite lookup_insert_eq. cbn [mbind option_bind]. destruct (decide (n = name)) as [->|Hn].
    + by rewrite lookup_insert_eq, decide_True.
    + rewrite lookup_insert_ne, decide_False by congruence. destruct (m !! tool); [done|]. cbn. apply lookup_empty.
  - by rewrite lookup_insert_ne, decide_False by congruence.
Qed.
Lemma holds_put ws m tool name v : holds ws m -> NoDup (ws ++ [((tool, name), v)])%list.*1 ->
  holds (ws ++ [((tool, name), v)])%list (put_setting tool name v m).
Proof.
  intros Hm Hnd key u. rewrite setting_at_put, elem_of_app, list_elem_of_singleton. rewrite fmap_app in Hnd.
  apply list.NoDup_app in Hnd as (_ & Hnd & _). case_decide as Hk; [subst key|].
  - split; [intros [= ->]; by right|]. intros [Hin|[= ->]]; [|done]. exfalso.
    apply (Hnd (tool, name)); [|by left]. apply list_elem_of_fmap. by exists ((tool, name), u).
  - rewrite (Hm key u). split; [by left|]. by intros [?|[= -> ->]].
Qed.
Lemma holds_setdefault ws tool m : holds ws m -> holds ws (setdefault_tool tool m).
Proof. intros Hm key v. by rewrite setting_at_setdefault. Qed.
Lemma NoDup_fst_init (ws ws' : list (string * string * val)) : NoDup (ws ++ ws')%list.*1 -> NoDup ws.*1.
Proof. rewrite fmap_app. by intros [? _]%list.NoDup_app. Qed.

Lemma app_two {A} (l : list A) a b : (l ++ [a; b] = (l ++ [a]) ++ [b])%list.
Proof. by rewrite <- app_assoc. Qed.

Lemma Translate_holds f v ws m m' : holds ws m -> NoDup (ws ++ writes_of f v)%list.*1 ->
  forall o, _Translate items f v m = (m', o) -> holds (ws ++ writes_of f v)%list m'.
Proof.
  intros Hm Hnd o. destruct f as [tool name t| |tool name|tool flag|tool]; cbn [_Translate writes_of] in *.
  - destruct (ConvertToMSBuild items t v); intros [= <- _]; rewrite ?app_nil_r;
      [apply holds_put; [by apply holds_setdefault|done]|by apply holds_setdefault..].
  - intros [= <- _]. by rewrite app_nil_r.
  - intros [= <- _]. apply holds_put; [by apply holds_setdefault|done].
  - destruct (bool_decide (v = _)); intros [= <- _]; [|by rewrite app_nil_r].
    assert (E : setting_at (setdefault_tool tool m) (tool, "AdditionalOptions") = None).
    { rewrite setting_at_setdefault. destruct (setting_at m _) as [u|] eqn:E; [|done]. apply Hm in E. exfalso.
      rewrite fmap_app in Hnd. apply list.NoDup_app in Hnd as (_ & Hnd & _). eapply Hnd; [|by left].
      apply list_elem_of_fmap. by exists ((tool, "AdditionalOptions"), u). }
    unfold setting_at in E. cbn [fst snd] in E. rewrite E.
    apply holds_put; [by apply holds_setdefault|done].
  - destruct (bool_decide (v = VStr "0")), (bool_decide (v = VStr "1")), (bool_decide (v = VStr "2"));
      intros [= <- _]; rewrite ?app_nil_r; try (by apply holds_setdefault); rewrite app_two in *;
      (apply holds_put; [|done]; apply holds_put; [by apply holds_setdefault|by eapply NoDup_fst_init]).
Qed.

Lemma convert_setting_holds tool converters ws m e item m' e' :
  _msvs_to_msbuild_converters r !! tool = Some converters -> holds ws m ->
  NoDup (ws ++ setting_writes tool item)%list.*1 ->
  convert_setting items tool converters (m, e) item = Ok (m', e') -> holds (ws ++ setting_writes tool item)%list m'.
Proof.
  destruct item as [name v]. intros Hc Hm. unfold setting_writes, converter_in, convert_setting. cbn [fst snd].
  rewrite Hc. cbn [mbind option_bind]. destruct (converters !! name) as [f|]; intros Hnd.
  - destruct (_Translate items f v m) as [m1 o] eqn:E. pose proof (Translate_holds f v ws m m1 Hm Hnd o E) as H1.
    destruct o as [|[]|]; intros [= <- _]; done.
  - intros [= <- _]. by rewrite app_nil_r.
Qed.
Lemma convert_tool_holds ws m e item m' e' : holds ws m -> NoDup (ws ++ tool_writes item)%list.*1 ->
  convert_tool items r (m, e) item = Ok (m', e') -> holds (ws ++ tool_writes item)%list m'.
Proof.
  destruct item as [tool d]. unfold tool_writes, convert_tool. cbn [fst snd]. intros Hm Hnd.
  destruct (_msvs_to_msbuild_converters r !! tool) as [converters|] eqn:Ec.
  - revert ws m e Hm Hnd. induction d as [|item d IH]; intros ws m e Hm; cbn [map concat foldM].
    + intros _ [= <- _]. by rewrite app_nil_r.
    + rewrite app_assoc. intros Hnd ([m1 e1] & H1 & H)%bind_ok.
      eapply IH; [|done|exact H]. eapply convert_setting_holds; [done..| |exact H1]. by eapply NoDup_fst_init.
  - intros [= <- _]. assert (E : concat (map (setting_writes tool) d) = []); [|by rewrite E, app_nil_r].
    clear Hnd. induction d as [|[name v] d IH]; [done|]. cbn [map concat]. rewrite IH, app_nil_r.
    unfold setting_writes, converter_in. by rewrite Ec.
Qed.
Lemma convert_all_holds settings ws m e m' e' : holds ws m -> NoDup (ws ++ all_writes settings)%list.*1 ->
  foldM (convert_tool items r) (m, e) settings = Ok (m', e') -> holds (ws ++ all_writes settings)%list m'.
Proof.
  unfold all_writes. revert ws m e. induction settings as [|item settings IH]; intros ws m e Hm; cbn [map concat foldM].
  - intros _ [= <- _]. by rewrite app_nil_r.
  - rewrite app_assoc. intros Hnd ([m1 e1] & H1 & H)%bind_ok. eapply IH; [|done|exact H].
    eapply convert_tool_holds; [done| |exact H1]. by eapply NoDup_fst_init.
Qed.
End Writes.

(** When no two settings are converted to the same one, the result holds exactly
    what the settings are converted to, one by one, in whatever order the dictionaries
    are iterated.  Two settings that collide depend on that order: see below. *)
Theorem ConvertToMSBuildSettings_writes items r settings msbuild stderr :
  ConvertToMSBuildSettings items r settings = Ok (msbuild, stderr) -> NoDup (all_writes items r settings).*1 ->
  forall tool name v, msbuild !! tool ≫= lookup name = Some v <-> ((tool, name), v) ∈ all_writes items r settings.
Proof.
  intros H Hnd tool name v.
  assert (Hm : holds ([] ++ all_writes items r settings)%list msbuild).
  { eapply convert_all_holds; [|done|exact H]. intros key u. unfold setting_at. rewrite lookup_empty.
    split; [done|]. by intros ?%not_elem_of_nil. }
  exact (Hm (tool, name) v).
Qed.
Lemma silent_inv {A B} (x : res (A * list B)) :
  match x with Ok (_, []) => True | _ => False end -> exists a, x = Ok (a, []).
Proof. destruct x as [[a [|]]| |]; [|done..]. by exists a. Qed.
Lemma ConvertToMSBuildSettings_writes_witness :
  exists msbuild, ConvertToMSBuildSettings replace_map the_registry sample_settings = Ok (msbuild, []) /\
    msbuild !! "ClCompile" ≫= lookup "WarningLevel" = Some (VStr "Level4").
Proof.
  destruct (silent_inv (ConvertToMSBuildSettings replace_map the_registry sample_settings)) as [m E].
  { by vm_compute. }
  exists m. split; [exact E|].
  apply (ConvertToMSBuildSettings_writes _ _ _ _ _ E); [decided|].
  apply (bool_decide_unpack _). vm_compute. exact I.
Defined.

(** The flag of [DefaultCharIsUnsigned] is lost when [AdditionalOptions] comes later, and
    a list of options that comes earlier is printed the Python way. *)
Definition compiler_options (d : dict) : option val :=
  match ConvertToMSBuildSettings replace_map the_registry [("VCCLCompilerTool", d)] with
  | Ok (m, []) => m !! "ClCompile" ≫= lookup "AdditionalOptions"
  | _ => None
  end.
Example additional_options_order :
  let flag := ("DefaultCharIsUnsigned", VStr "true") in
  compiler_options [flag] = Some (VStr "/J") /\
  compiler_options [flag; ("AdditionalOptions", VStr "/O2")] = Some (VStr "/O2") /\
  compiler_options [("AdditionalOptions", VStr "/O2"); flag] = Some (VStr "/O2 /J") /\
  compiler_options [("AdditionalOptions", VList [VStr "/O2"]); flag] = Some (VStr "['/O2'] /J").
Proof. by vm_compute. Qed.
(** A negative culture is valid for MSVS, but what it is converted to is not valid. *)
Example negative_culture :
  ValidateMSVSSettings replace_map the_registry [("VCResourceCompilerTool", [("Culture", VStr "-1")])] = Ok [] /\
  ValidateMSBuildSettings replace_map the_registry [("ResourceCompile", [("Culture", VStr "0x-001")])]
  = Ok ["Warning: for ResourceCompile/Culture, invalid literal for int() with base 16: '0x-001'"] /\
  ConvertToMSBuild replace_map (Integer 16) (VStr "-1") = Ok (VStr "0x-001").
Proof. by vm_compute. Qed.
