(* ===== verification/GypMain.v ===== *)
(** * gyp's command line ([gyp/__init__.py])

    The parser of options with what it remembers for a regeneration, the flags that
    make gyp start again with the same options, and [gyp_main] up to the calls of [Load]
    and of the generator, which are a parameter. *)
From S2P Require Import Prelude PyStr PyPath Common Ordered GypValue MsvsSettings.
From stdpp Require Import options.
#[local] Open Scope nat_scope.

(** ** Lists of names and values *)
Inductive flag_value := Number (n : Z) | Text (s : string) | Set_.
Definition name_value (item : string) : string * flag_value :=
  match split1 "=" item with
  | Some (n, v) => (n, match parse_int 10 v with Some z => Number z | None => Text v end)
  | None => (item, Set_)
  end.
Definition NameValueListToDict (name_value_list : list string) : gmap string flag_value :=
  foldl (fun result item => let '(n, v) := name_value item in <[n := v]> result) ∅ name_value_list.

(** ** [optparse]

    An option takes a value or is a switch.  Whatever is wrong ends the program with
    code 2, a request for help with code 0. *)
Inductive action := store | append | store_true | store_false | help.
#[export] Instance action_eq_dec : EqDecision action.
Proof. solve_decision. Defined.
Inductive value := Absent | One (s : string) | Many (l : list string) | Switch (b : bool).
Record option_ := {
  opts : list string; dest : string; act : action; is_path : bool; env_name : option string; initial : value;
  regenerate : bool }.
Definition takes_value (o : option_) : bool := match act o with store | append => true | _ => false end.
Definition has_opt (opt : string) (o : option_) : bool := existsb (String.eqb opt) (opts o).

Abbreviation values := (gmap string value).

Section Optparse.
Context (table : list option_).

Definition parse_error {A} : res A := Err (SystemExit 2).
Definition find_option (opt : string) : option option_ := List.find (has_opt opt) table.
Definition set_value (o : option_) (v : string) (vals : values) : values :=
  match act o with
  | append => <[dest o := Many (match vals !! dest o with Some (Many l) => l ++ [v] | _ => [v] end)]> vals
  | _ => <[dest o := One v]> vals
  end.
Definition set_switch (o : option_) (vals : values) : res values :=
  match act o with
  | store_true => Ok (<[dest o := Switch true]> vals)
  | store_false => Ok (<[dest o := Switch false]> vals)
  | _ => Err (SystemExit 0)
  end.
(** A long option may be shortened as long as it is clear. *)
Definition long_options : list string := filter (fun s => startswith "--" s = true) (concat (map opts table)).
Definition match_abbrev (s : string) : option string :=
  if existsb (String.eqb s) long_options then Some s
  else match filter (fun o => startswith s o = true) long_options with [o] => Some o | _ => None end.
(** The letters of one argument: the option that still needs a value, if one does. *)
Fixpoint short_options (letters : string) (vals : values) : res (values * option option_) :=
  match letters with
  | "" => Ok (vals, None)
  | String c rest =>
      match find_option (String "-" (String c "")) with
      | None => parse_error
      | Some o =>
          if takes_value o then
            match rest with "" => Ok (vals, Some o) | _ => Ok (set_value o rest vals, None) end
          else vals ← set_switch o vals; short_options rest vals
      end
  end.
Definition long_option (arg : string) (vals : values) : res (values * option option_) :=
  let '(name, explicit) := match split1 "=" arg with Some (n, v) => (n, Some v) | None => (arg, None) end in
  match match_abbrev name ≫= find_option with
  | None => parse_error
  | Some o =>
      match takes_value o, explicit with
      | true, Some v => Ok (set_value o v vals, None)
      | true, None => Ok (vals, Some o)
      | false, Some _ => parse_error
      | false, None => vals ← set_switch o vals; Ok (vals, None)
      end
  end.
Fixpoint process_args (pending : option option_) (vals : values) (largs rargs : list string) : res (values * list string) :=
  match rargs with
  | [] => match pending with Some _ => parse_error | None => Ok (vals, largs) end
  | arg :: rargs =>
      match pending with
      | Some o => process_args None (set_value o arg vals) largs rargs
      | None =>
          if String.eqb arg "--" then Ok (vals, largs ++ rargs)%list
          else if startswith "--" arg then
            '(vals, pending) ← long_option arg vals; process_args pending vals largs rargs
          else if startswith "-" arg && negb (String.eqb arg "-") then
            '(vals, pending) ← short_options (str_drop 1 arg) vals; process_args pending vals largs rargs
          else process_args None vals (largs ++ [arg])%list rargs
      end
  end.
Definition defaults : values := list_to_map (map (fun o => (dest o, initial o)) (filter (fun o => act o <> help) table)).
Definition parse_args (args : list string) : res (values * list string) := process_args None defaults [] args.
End Optparse.

(** ** The options of gyp *)
Definition valued (opts : list string) (dest : string) (act : action) (is_path : bool) (env_name : option string)
    (initial : value) (regenerate : bool) : option_ :=
  {| opts := opts; dest := dest; act := act; is_path := is_path; env_name := env_name; initial := initial;
     regenerate := regenerate |}.
Definition gyp_options : list option_ :=
  [{| opts := ["-h"; "--help"]; dest := "help"; act := help; is_path := false; env_name := None; initial := Absent; regenerate := false |};
   valued ["--build"] "configs" append false None Absent true;
   valued ["--check"] "check" store_true false None Absent true;
   valued ["--config-dir"] "config_dir" store false (Some "GYP_CONFIG_DIR") Absent true;
   valued ["-d"; "--debug"] "debug" append false None (Many []) true;
   valued ["-D"] "defines" append false (Some "GYP_DEFINES") Absent true;
   valued ["--depth"] "depth" store true None Absent true;
   valued ["-f"; "--format"] "formats" append false (Some "GYP_GENERATORS") Absent false;
   valued ["-G"] "generator_flags" append false (Some "GYP_GENERATOR_FLAGS") (Many []) true;
   valued ["--generator-output"] "generator_output" store true (Some "GYP_GENERATOR_OUTPUT") Absent true;
   valued ["--ignore-environment"] "use_environment" store_false false None (Switch true) false;
   valued ["-I"; "--include"] "includes" append true None Absent true;
   valued ["--no-circular-check"] "circular_check" store_false false None (Switch true) false;
   valued ["--no-parallel"] "no_parallel" store_true false None (Switch false) false;
   valued ["-S"; "--suffix"] "suffix" store false None (One "") true;
   valued ["--toplevel-dir"] "toplevel_dir" store true None Absent true;
   valued ["-R"; "--root-target"] "root_targets" append false None Absent true].

(** Reading an option *)
Definition text_of (vals : values) (dest : string) : string := match vals !! dest with Some (One s) => s | _ => "" end.
Definition list_of (vals : values) (dest : string) : list string := match vals !! dest with Some (Many l) => l | _ => [] end.
Definition is_on (vals : values) (dest : string) : bool := match vals !! dest with Some (Switch b) => b | _ => false end.

(** ** Regeneration *)
Section Regenerate.
Context (cwd : string) (environ : string -> option string) (options : values).

Definition ShlexEnv (env_name : string) : res (list string) :=
  match environ env_name with
  | Some flags => if String.eqb flags "" then Ok [] else shlex_split flags
  | None => Ok []
  end.
Definition FormatOpt (opt value : string) : string :=
  if startswith "--" opt then opt +:+ "=" +:+ value else opt +:+ value.
(** A value that comes again moves to the end. *)
Definition again (flags : list string) (value : string) : list string :=
  ((match list_find (fun f => f = value) flags with
    | Some (i, _) => delete i flags
    | None => flags
    end) ++ [value])%list.
Definition RegenerateAppendFlag (flag : string) (values : list string) (predicate : string -> string) (env_name : option string)
    : res (list string) :=
  words ← (match env_name with
           | Some e => if is_on options "use_environment" then ShlexEnv e else Ok []
           | None => Ok []
           end);
  Ok (foldl again [] (map (fun v => FormatOpt flag (predicate v)) words)
      ++ map (fun v => FormatOpt flag (predicate v)) values)%list.
Definition FixPath (path : string) : string :=
  let path := FixIfRelativePath cwd path (text_of options "depth") in
  if String.eqb path "" then "." else path.
Definition predicate (o : option_) : string -> string := if is_path o then FixPath else id.
(** The warnings for switches with a name in the environment are not kept. *)
Definition regenerate_option (o : option_) : res (list string) :=
  let opt := default "" (head (opts o)) in
  match act o with
  | append => RegenerateAppendFlag opt (list_of options (dest o)) (predicate o) (env_name o)
  | store =>
      let value := text_of options (dest o) in
      if negb (String.eqb value "") then Ok [FormatOpt opt (predicate o value)]
      else match env_name o ≫= environ with
           | Some value =>
               if is_on options "use_environment" && negb (String.eqb value "") then Ok [FormatOpt opt (predicate o value)]
               else Ok []
           | None => Ok []
           end
  | store_true => Ok (if is_on options (dest o) then [opt] else [])
  | store_false => Ok (if is_on options (dest o) then [] else [opt])
  | help => Ok []
  end.
(** [metadata] is [_regeneration_metadata] in the order in which it is iterated. *)
Definition RegenerateFlags (metadata : list option_) : res (list string) :=
  l ← mapM regenerate_option metadata;
  Ok ("--ignore-environment" :: concat l).
Definition regeneratable : list option_ := filter (fun o => regenerate o = true) gyp_options.
End Regenerate.

(** ** [gyp_main] *)

(** What [Load] and the generator are called with for each format *)
Record params := {
  format : string; build_files : list string; cmdline_default_variables : gmap string flag_value; includes : list string;
  depth : string; toplevel_dir : string; generator_output : string; generator_flags : gmap string flag_value;
  home_dot_gyp : option string; parallel : bool; root_targets : list string; check : bool; circular_check : bool;
  target_arch : flag_value; configs : list string }.

Section Main.
(** The directory and its files, the environment, the platform, which paths exist,
    [expanduser], the order of a set of formats; what [Load] and [GenerateOutput] do for
    a format, with the configurations of the first target, and [PerformBuild]. *)
Context (cwd my_name : string) (listdir : list string) (environ : string -> option string) (platform : string)
  (path_exists : string -> bool) (expanduser : string -> string) (set_order : gset string -> list string)
  (load_and_generate : params -> res (list string)) (PerformBuild : params -> res ()).

Definition FindBuildFiles : list string := filter (fun f => endswith ".gyp" f = true) listdir.
Definition nonempty (o : option string) : option string := s ← o; if String.eqb s "" then None else Some s.
Definition on_windows : bool := existsb (String.eqb platform) ["cygwin"; "win32"].
(** The loop over the variables, up to the first directory with [.gyp] in it *)
Fixpoint home_loop (home_vars : list string) (home_dot_gyp : option string) : option string :=
  match home_vars with
  | [] => home_dot_gyp
  | v :: home_vars =>
      match environ v with
      | None => home_loop home_vars home_dot_gyp
      | Some home => let d := path_join home [".gyp"] in if path_exists d then Some d else home_loop home_vars None
      end
  end.
Definition find_home (vals : values) : option string :=
  let config_dir := text_of vals "config_dir" in
  let d := if negb (String.eqb config_dir "") then Some (expanduser config_dir)
           else
             let configured := if is_on vals "use_environment" then environ "GYP_CONFIG_DIR" else None in
             match nonempty configured with
             | Some d => Some (expanduser d)
             | None => home_loop (["HOME"] ++ if on_windows then ["USERPROFILE"] else [])%list configured
             end in
  match d with
  | Some d => if String.eqb d "" || path_exists d then Some d else None
  | None => None
  end.
Definition formats (vals : values) : list string :=
  match list_of vals "formats" with
  | [] =>
      match (if is_on vals "use_environment" then nonempty (environ "GYP_GENERATORS") else None) with
      | Some s => split_on (fun c => isspace c || Ascii.eqb c ",") s
      | None => if String.eqb platform "darwin" then ["xcode"] else if on_windows then ["msvs"] else ["make"]
      end
  | l => l
  end.
(** The components, the last one first, up to one that is [src] *)
Fixpoint from_src (components : list string) : option string :=
  match components with
  | [] => None
  | c :: l => if String.eqb c "src" then Some (join "/" (rev components)) else from_src l
  end.
Definition find_depth (vals : values) (build_files : list string) : res string :=
  let depth := text_of vals "depth" in
  if negb (String.eqb depth "") then Ok depth
  else
    of_option (GypError ("Could not automatically locate src directory.  This is" +:+
        "a temporary Chromium feature that will be removed.  Use" +:+ "--depth as a workaround."))
      (head (omap (fun b => from_src (rev (split_char "/" (abspath cwd (dirname b))))) build_files)).
(** What the environment and the command line say together *)
Definition from_both (vals : values) (env_name dest : string) : res (list string) :=
  words ← (if is_on vals "use_environment" then ShlexEnv environ env_name else Ok []);
  Ok (words ++ list_of vals dest)%list.
Definition prepare (args : list string) : res (list string * params) :=
  '(vals, build_files) ← parse_args gyp_options args;
  let home_dot_gyp := find_home vals in
  let generator_output := text_of vals "generator_output" in
  let generator_output := if String.eqb generator_output "" && is_on vals "use_environment"
                          then default "" (environ "GYP_GENERATOR_OUTPUT") else generator_output in
  let build_files := match build_files with [] => FindBuildFiles | _ => build_files end in
  _ ← (match build_files with
       | [] => Err (GypError ("usage: " +:+ my_name +:+ " [options ...] [build_file ...]" +:+ nl +:+ nl +:+ my_name +:+
                              ": error: no build_file"))
       | _ => Ok ()
       end);
  depth ← find_depth vals build_files;
  let toplevel_dir := default depth (nonempty (Some (text_of vals "toplevel_dir"))) in
  defines ← from_both vals "GYP_DEFINES" "defines";
  let cmdline_default_variables := NameValueListToDict defines in
  let includes := (match home_dot_gyp with
                   | Some d => let i := path_join d ["include.gypi"] in if path_exists i then [i] else []
                   | None => []
                   end ++ list_of vals "includes")%list in
  gen_flags ← from_both vals "GYP_GENERATOR_FLAGS" "generator_flags";
  Ok (set_order (list_to_set (formats vals)),
      {| format := ""; build_files := build_files; cmdline_default_variables := cmdline_default_variables;
         includes := includes; depth := depth; toplevel_dir := toplevel_dir; generator_output := generator_output;
         generator_flags := NameValueListToDict gen_flags; home_dot_gyp := home_dot_gyp;
         parallel := negb (is_on vals "no_parallel"); root_targets := list_of vals "root_targets";
         check := is_on vals "check"; circular_check := is_on vals "circular_check";
         target_arch := default (Text "") (cmdline_default_variables !! "target_arch"); configs := list_of vals "configs" |}).
Definition with_format (f : string) (p : params) : params :=
  {| format := f; build_files := build_files p; cmdline_default_variables := cmdline_default_variables p;
     includes := includes p; depth := depth p; toplevel_dir := toplevel_dir p; generator_output := generator_output p;
     generator_flags := generator_flags p; home_dot_gyp := home_dot_gyp p; parallel := parallel p;
     root_targets := root_targets p; check := check p; circular_check := circular_check p; target_arch := target_arch p;
     configs := configs p |}.
Definition run_format (p : params) (f : string) : res () :=
  let p := with_format f p in
  valid_configs ← load_and_generate p;
  match configs p with
  | [] => Ok ()
  | _ =>
      match List.find (fun c => negb (existsb (String.eqb c) valid_configs)) (configs p) with
      | Some conf => Err (GypError ("Invalid config specified via --build: " +:+ conf))
      | None => PerformBuild p
      end
  end.
Definition gyp_main (args : list string) : res Z :=
  '(formats, p) ← prepare args;
  _ ← foldM (fun _ f => run_format p f) () formats;
  Ok 0%Z.
(** The message that goes to the standard error is not kept. *)
Definition main (args : list string) : res Z :=
  match gyp_main args with Err (GypError _) => Ok 1%Z | r => r end.
End Main.
