(* ===== verification/GypMainProps.v ===== *)
(** * The flags of a regeneration, parsed again *)
From S2P Require Import Prelude PyStr PyPath Common Ordered GypValue MsvsSettings GypMain.
From stdpp Require Import options.
#[local] Open Scope nat_scope.

(** ** Repeated names and values *)

(** The last occurrence of each item *)
Fixpoint keep_last (l : list string) : list string :=
  match l with [] => [] | x :: l => if decide (x ∈ l) then keep_last l else x :: keep_last l end.
Lemma elem_of_keep_last l x : x ∈ keep_last l <-> x ∈ l.
Proof.
  induction l as [|y l IH]; [done|]. cbn. case_decide; rewrite ?elem_of_cons, IH; [|done].
  split; [by right|]. by intros [->|].
Qed.
Lemma NoDup_keep_last l : NoDup (keep_last l).
Proof. induction l as [|y l IH]; cbn; [constructor|]. case_decide; [done|]. constructor; [by rewrite elem_of_keep_last|done]. Qed.
Lemma keep_last_snoc l x : keep_last (l ++ [x]) = (filter (fun y => y <> x) (keep_last l) ++ [x])%list.
Proof.
  induction l as [|y l IH]; [done|]. cbn. rewrite IH. destruct (decide (y ∈ l)) as [Hy|Hy].
  - by rewrite decide_True by (apply elem_of_app; by left).
  - destruct (decide (y = x)) as [->|Hyx].
    + rewrite decide_True by (apply elem_of_app; right; left). cbn. by rewrite decide_False by naive_solver.
    + rewrite decide_False by (rewrite elem_of_app, list_elem_of_singleton; tauto). cbn. by rewrite decide_True by done.
Qed.
Lemma filter_absent (l : list string) x : x ∉ l -> filter (fun y => y <> x) l = l.
Proof.
  induction l as [|y l IH]; [done|]. intros [Hx Hl]%not_elem_of_cons. rewrite filter_cons_True by done. by rewrite IH.
Qed.
Lemma again_filter l x : NoDup l -> again l x = (filter (fun y => y <> x) l ++ [x])%list.
Proof.
  intros Hl. unfold again. f_equal. destruct (list_find _ l) as [[i y]|] eqn:E.
  - apply list_find_Some in E as (Hi & -> & _). apply list_elem_of_split_length in Hi as (l1 & l2 & -> & ->).
    rewrite delete_middle, list.filter_app, filter_cons_False by naive_solver.
    apply list.NoDup_app in Hl as (_ & H1 & [H2 _]%list.NoDup_cons).
    rewrite !filter_absent; [done|done|]. intros Hx. apply (H1 _ Hx). left.
  - rewrite filter_absent; [done|]. intros Hx. apply list_find_None in E. rewrite list.Forall_forall in E. by apply (E x).
Qed.
Lemma again_keep_last l : foldl again [] l = keep_last l.
Proof.
  induction l as [|x l IH] using rev_ind; [done|]. rewrite foldl_app, IH. cbn.
  by rewrite again_filter, keep_last_snoc by apply NoDup_keep_last.
Qed.
Lemma keep_last_map (f : string -> string) l : Inj (=) (=) f -> keep_last (map f l) = map f (keep_last l).
Proof.
  intros Hf. induction l as [|x l IH]; [done|]. cbn. rewrite IH.
  destruct (decide (x ∈ l)) as [Hx|Hx].
  - rewrite decide_True; [done|]. by apply list_elem_of_fmap_2.
  - rewrite decide_False; [done|]. intros (y & Hy & Hin)%list_elem_of_fmap. apply Hf in Hy as ->. done.
Qed.

(** Later values of a name win, so nothing is lost. *)
Definition insert_item (m : gmap string flag_value) (item : string) : gmap string flag_value :=
  <[(name_value item).1 := (name_value item).2]> m.
Lemma NameValueListToDict_items l : NameValueListToDict l = foldl insert_item ∅ l.
Proof.
  unfold NameValueListToDict. generalize (∅ : gmap string flag_value). induction l as [|x l IH]; intros m; [done|]. cbn.
  unfold insert_item at 2. by destruct (name_value x).
Qed.
Lemma insert_items_later l x m : x ∈ l -> foldl insert_item (insert_item m x) l = foldl insert_item m l.
Proof.
  revert m. induction l as [|y l IH]; intros m Hx; [set_solver|]. cbn.
  destruct (decide (x = y)) as [->|Hxy]; [unfold insert_item at 2 3; by rewrite insert_insert_eq|].
  assert (Hl : x ∈ l) by set_solver.
  destruct (decide ((name_value x).1 = (name_value y).1)) as [E|E].
  - assert (E2 : insert_item (insert_item m x) y = insert_item m y) by (unfold insert_item; by rewrite E, insert_insert_eq).
    by rewrite E2.
  - rewrite <- (IH (insert_item m y) Hl). f_equal. unfold insert_item. by apply insert_insert_ne.
Qed.
Lemma keep_last_items l m : foldl insert_item m (keep_last l) = foldl insert_item m l.
Proof.
  revert m. induction l as [|x l IH]; intros m; [done|]. cbn. case_decide; [|apply IH].
  by rewrite IH, insert_items_later.
Qed.
Lemma keep_last_dict l k : NameValueListToDict (keep_last l ++ k) = NameValueListToDict (l ++ k).
Proof. by rewrite !NameValueListToDict_items, !foldl_app, keep_last_items. Qed.

(** ** One option of a regeneration *)
Definition opt1 (o : option_) : string := default "" (head (opts o)).
Definition is_long (o : option_) : bool := startswith "--" (opt1 o).

Abbreviation process := (process_args gyp_options None).
Lemma process_value o v vals largs rest : o ∈ regeneratable -> takes_value o = true -> (is_long o = false -> v <> "") ->
  process vals largs (FormatOpt (opt1 o) v :: rest) = process (set_value o v vals) largs rest.
Proof.
  intros Ho Ht Hv. vm_compute in Ho. repeat (apply elem_of_cons in Ho as [->|Ho]); [..|by apply not_elem_of_nil in Ho];
    try discriminate Ht; clear Ht; try (clear Hv; reflexivity); specialize (Hv eq_refl); destruct v as [|c v]; try done;
    reflexivity.
Qed.
Lemma process_switch o vals largs rest : o ∈ regeneratable -> act o = store_true ->
  process vals largs (opt1 o :: rest) = process (<[dest o := Switch true]> vals) largs rest.
Proof.
  intros Ho Ht. vm_compute in Ho. by repeat (apply elem_of_cons in Ho as [->|Ho]); [..|by apply not_elem_of_nil in Ho].
Qed.
Lemma process_ignore vals largs rest :
  process vals largs ("--ignore-environment" :: rest) = process (<["use_environment" := Switch false]> vals) largs rest.
Proof. reflexivity. Qed.

Section Again.
Context (cwd : string) (environ : string -> option string) (options : values).

(** The values an option is given again *)
Definition effective_text (o : option_) : string :=
  let value := text_of options (dest o) in
  if negb (String.eqb value "") then value
  else match env_name o ≫= environ with
       | Some value => if is_on options "use_environment" then value else ""
       | None => ""
       end.
Definition env_words (o : option_) : res (list string) :=
  match env_name o with
  | Some e => if is_on options "use_environment" then ShlexEnv environ e else Ok []
  | None => Ok []
  end.
Definition words_of (o : option_) : list string := match env_words o with Ok words => words | _ => [] end.
Definition given (o : option_) : list string :=
  match act o with
  | append => keep_last (map (predicate cwd options o) (words_of o)) ++ map (predicate cwd options o) (list_of options (dest o))
  | store => if String.eqb (effective_text o) "" then [] else [predicate cwd options o (effective_text o)]
  | _ => []
  end.
Lemma FormatOpt_inj opt : Inj (=) (=) (FormatOpt opt).
Proof using.
  clear. intros a b. unfold FormatOpt. destruct (startswith "--" opt); intros H%append_inj_l; [|done]. by apply append_inj_l in H.
Qed.
Lemma regenerate_values o flags : takes_value o = true -> regenerate_option cwd environ options o = Ok flags ->
  (act o = append -> env_words o = Ok (words_of o)) /\ flags = map (FormatOpt (opt1 o)) (given o).
Proof using.
  unfold takes_value, regenerate_option, given. fold (opt1 o). destruct (act o); try done; intros _.
  - intros H. split; [done|]. unfold effective_text.
    destruct (String.eqb_spec (text_of options (dest o)) "") as [E|E]; cbn [negb] in *.
    + destruct (env_name o ≫= environ) as [v|]; [|by injection H as <-].
      destruct (is_on options "use_environment"); [|by injection H as <-]. cbn [andb] in H.
      destruct (String.eqb_spec v ""); by injection H as <-.
    + injection H as <-. by destruct (String.eqb_spec (text_of options (dest o)) "").
  - unfold RegenerateAppendFlag, words_of. fold (env_words o). intros (words & Hw & [= <-])%bind_ok. rewrite Hw. split; [done|].
    pose proof (FormatOpt_inj (opt1 o)) as Hinj.
    by rewrite map_app, again_keep_last, <- (keep_last_map (FormatOpt (opt1 o))), !map_map.
Qed.

Definition after (vals : values) (o : option_) : values :=
  if takes_value o then foldl (fun vals v => set_value o v vals) vals (given o)
  else if is_on options (dest o) then <[dest o := Switch true]> vals else vals.
Lemma process_values o vs vals largs rest : o ∈ regeneratable -> takes_value o = true ->
  (is_long o = false -> "" ∉ vs) ->
  process vals largs (map (FormatOpt (opt1 o)) vs ++ rest) = process (foldl (fun vals v => set_value o v vals) vals vs) largs rest.
Proof using.
  intros Ho Ht. revert vals. induction vs as [|v vs IH]; intros vals Hv; [done|]. cbn [map app foldl].
  rewrite process_value; [|done|done|intros Hs ->; apply (Hv Hs); left].
  apply IH. intros Hs Hin. apply (Hv Hs). by right.
Qed.
Lemma regeneratable_acts o : o ∈ regeneratable -> takes_value o = true \/ takes_value o = false /\ act o = store_true.
Proof using.
  intros Ho. vm_compute in Ho. repeat (apply elem_of_cons in Ho as [->|Ho]); [..|by apply not_elem_of_nil in Ho];
    first [by left|by right].
Qed.
(** What an option with a short name is given is not empty. *)
Definition proper (o : option_) : Prop := is_long o = false -> "" ∉ given o.
Lemma process_options metadata l : Forall (fun o => o ∈ regeneratable) metadata ->
  mapM (regenerate_option cwd environ options) metadata = Ok l -> Forall proper metadata ->
  forall vals largs, process vals largs (concat l) = process (foldl after vals metadata) largs [].
Proof using.
  intros Hm. revert l. induction Hm as [|o metadata Ho Hm IH]; intros l; cbn [mapM].
  - by intros [= <-].
  - intros (flags & Hf & (l' & Hl & [= <-])%bind_ok)%bind_ok [Hp Hps]%list.Forall_cons vals largs. cbn [concat foldl].
    assert (E : process vals largs (flags ++ concat l') = process (after vals o) largs (concat l')).
    { unfold after. destruct (regeneratable_acts o Ho) as [Ht|[Ht Ha]]; rewrite Ht.
      - destruct (regenerate_values o flags Ht Hf) as [_ ->]. by apply process_values.
      - unfold regenerate_option in Hf. rewrite Ha in Hf. fold (opt1 o) in Hf. injection Hf as <-.
        destruct (is_on options (dest o)); [|done]. by apply process_switch. }
    rewrite E. by apply IH.
Qed.

(** What an option holds afterwards *)
Lemma set_values_other o vs vals d : d <> dest o -> foldl (fun vals v => set_value o v vals) vals vs !! d = vals !! d.
Proof using.
  clear. intros Hd. revert vals. induction vs as [|v vs IH]; intros vals; [done|]. cbn. rewrite IH.
  unfold set_value. by destruct (act o); rewrite lookup_insert_ne.
Qed.
Lemma after_other o vals d : d <> dest o -> after vals o !! d = vals !! d.
Proof using.
  intros Hd. unfold after. destruct (takes_value o); [by apply set_values_other|].
  destruct (is_on options (dest o)); [by rewrite lookup_insert_ne|done].
Qed.
Lemma set_values_same o vs vals vals' : vals !! dest o = vals' !! dest o ->
  foldl (fun vals v => set_value o v vals) vals vs !! dest o = foldl (fun vals v => set_value o v vals) vals' vs !! dest o.
Proof using.
  clear. revert vals vals'. induction vs as [|v vs IH]; intros vals vals' H; [done|]. cbn. apply IH.
  unfold set_value. destruct (act o); by rewrite ?H, !lookup_insert_eq.
Qed.
Lemma after_same o vals vals' : vals !! dest o = vals' !! dest o -> after vals o !! dest o = after vals' o !! dest o.
Proof using.
  intros H. unfold after. destruct (takes_value o); [by apply set_values_same|].
  destruct (is_on options (dest o)); [by rewrite !lookup_insert_eq|done].
Qed.
Lemma after_all_other l vals d : d ∉ map dest l -> foldl after vals l !! d = vals !! d.
Proof using.
  revert vals. induction l as [|x l IH]; intros vals Hd; [done|]. cbn in *. apply not_elem_of_cons in Hd as [Hd1 Hd2].
  rewrite IH by done. by apply after_other.
Qed.
Lemma after_all metadata o vals : NoDup (map dest metadata) -> o ∈ metadata ->
  foldl after vals metadata !! dest o = after vals o !! dest o.
Proof using.
  revert vals. induction metadata as [|x metadata IH]; intros vals; [set_solver|]. cbn [map foldl].
  intros [Hx Hn]%list.NoDup_cons [->|Hin]%elem_of_cons; [by apply after_all_other|].
  rewrite IH by done. apply after_same, after_other. intros E. apply Hx. rewrite <- E. by apply list_elem_of_fmap_2.
Qed.
Lemma after_list o vals : act o = append -> list_of (after vals o) (dest o) = (list_of vals (dest o) ++ given o)%list.
Proof using.
  intros Ha. unfold after. assert (takes_value o = true) as -> by (unfold takes_value; by rewrite Ha).
  generalize (given o). intros vs. revert vals. induction vs as [|v vs IH]; intros vals; cbn [foldl]; [by rewrite app_nil_r|].
  rewrite IH. unfold set_value. rewrite Ha. unfold list_of at 1. rewrite lookup_insert_eq. unfold list_of.
  destruct (vals !! dest o) as [[]|]; try done. by rewrite <- app_assoc.
Qed.
Lemma after_text o vals : act o = store -> text_of vals (dest o) = "" ->
  text_of (after vals o) (dest o) = if String.eqb (effective_text o) "" then "" else predicate cwd options o (effective_text o).
Proof using.
  intros Ha Ht. unfold after, given. assert (takes_value o = true) as -> by (unfold takes_value; by rewrite Ha). rewrite Ha.
  destruct (String.eqb (effective_text o) ""); [done|]. cbn [foldl]. unfold set_value. rewrite Ha. unfold text_of at 1.
  by rewrite lookup_insert_eq.
Qed.

(** ** All of them *)
Definition at_start : values := <["use_environment" := Switch false]> (defaults gyp_options).
Context (metadata : list option_) (flags : list string).
Context (Hm : metadata ≡ₚ regeneratable) (Hf : RegenerateFlags cwd environ options metadata = Ok flags).
Context (Hproper : forall o, o ∈ regeneratable -> is_long o = false -> ("" ∉ list_of options (dest o)) /\ ("" ∉ words_of o)).
Definition reparsed : values := foldl after at_start metadata.

Lemma predicate_empty o v : predicate cwd options o v = "" -> v = "".
Proof using.
  unfold predicate. destruct (is_path o); [|done]. unfold FixPath.
  by destruct (String.eqb_spec (FixIfRelativePath cwd v (text_of options "depth")) "").
Qed.
Lemma all_proper o : o ∈ regeneratable -> proper o.
Proof using Hproper.
  intros Ho Hs. destruct (Hproper o Ho Hs) as [H1 H2]. unfold given. destruct (act o); try by apply not_elem_of_nil.
  - destruct (String.eqb_spec (effective_text o) "") as [|Hn]; [by apply not_elem_of_nil|].
    intros Hv%list_elem_of_singleton. by apply Hn, (predicate_empty o).
  - rewrite elem_of_app, elem_of_keep_last. intros [(v & Hv & Hin)%list_elem_of_fmap|(v & Hv & Hin)%list_elem_of_fmap];
      symmetry in Hv; apply predicate_empty in Hv as ->; done.
Qed.
Lemma parse_again : parse_args gyp_options flags = Ok (reparsed, []).
Proof using Hm Hf Hproper.
  unfold RegenerateFlags in Hf. apply bind_ok in Hf as (l & Hl & [= <-]). unfold parse_args. rewrite process_ignore.
  unfold reparsed. erewrite process_options; [done| |exact Hl|].
  - apply list.Forall_forall. intros o Ho. by rewrite Hm in Ho.
  - apply list.Forall_forall. intros o Ho. rewrite Hm in Ho. by apply all_proper.
Qed.
Lemma reparsed_at o : o ∈ regeneratable -> reparsed !! dest o = after at_start o !! dest o.
Proof using Hm.
  intros Ho. apply after_all; [|by rewrite Hm].
  assert (Hp : map dest metadata ≡ₚ map dest regeneratable) by by rewrite Hm. rewrite Hp. decided.
Qed.
Lemma reparsed_list o : o ∈ regeneratable -> act o = append -> list_of reparsed (dest o) = given o.
Proof using Hm.
  intros Ho Ha. unfold list_of. rewrite reparsed_at by done. fold (list_of (after at_start o) (dest o)).
  rewrite after_list by done.
  assert (E : list_of at_start (dest o) = []); [|by rewrite E].
  clear Ha. vm_compute in Ho. by repeat (apply elem_of_cons in Ho as [->|Ho]); [..|by apply not_elem_of_nil in Ho].
Qed.
Lemma reparsed_text o : o ∈ regeneratable -> act o = store ->
  text_of reparsed (dest o) = if String.eqb (effective_text o) "" then "" else predicate cwd options o (effective_text o).
Proof using Hm.
  intros Ho Ha. unfold text_of. rewrite reparsed_at by done. fold (text_of (after at_start o) (dest o)).
  apply after_text; [done|]. clear Ha.
  vm_compute in Ho. by repeat (apply elem_of_cons in Ho as [->|Ho]); [..|by apply not_elem_of_nil in Ho].
Qed.
Lemma words_ok o : o ∈ regeneratable -> act o = append -> env_words o = Ok (words_of o).
Proof using Hm Hf.
  intros Ho Ha. unfold RegenerateFlags in Hf. apply bind_ok in Hf as (l & Hl%mapM_ok & _). rewrite <- Hm in Ho.
  apply list_elem_of_lookup in Ho as (i & Hi). destruct (Forall2_lookup_l _ _ _ _ _ Hl Hi) as (fl & _ & Hr).
  apply regenerate_values in Hr as [Hw _]; [by apply Hw|]. unfold takes_value. by rewrite Ha.
Qed.
Lemma not_regenerated d : d ∉ map dest regeneratable -> is_on reparsed d = is_on at_start d.
Proof using Hm.
  intros Hd. unfold is_on, reparsed. rewrite after_all_other; [done|].
  assert (Hp : map dest metadata ≡ₚ map dest regeneratable) by by rewrite Hm. by rewrite Hp.
Qed.
Lemma use_environment_off : is_on reparsed "use_environment" = false.
Proof using Hm. rewrite not_regenerated; [done|]. decided. Qed.
(** An option for names and values that are not paths *)
Lemma same_dict o e environ' : o ∈ regeneratable -> act o = append -> is_path o = false -> env_name o = Some e ->
  exists l l', from_both environ options e (dest o) = Ok l /\ from_both environ' reparsed e (dest o) = Ok l' /\
    NameValueListToDict l' = NameValueListToDict l.
Proof using Hm Hf.
  intros Ho Ha Hp He. exists (words_of o ++ list_of options (dest o))%list, (given o). split_and!.
  - pose proof (words_ok o Ho Ha) as Hw. unfold env_words in Hw. rewrite He in Hw. unfold from_both. by rewrite Hw.
  - unfold from_both. by rewrite use_environment_off, reparsed_list.
  - unfold given. rewrite Ha. unfold predicate. rewrite Hp, !map_id. apply keep_last_dict.
Qed.
End Again.

Ltac in_table := vm_compute; repeat first [apply list_elem_of_here|apply list_elem_of_further].
Lemma given_list cwd environ options o : act o = append -> is_path o = false -> env_name o = None ->
  given cwd environ options o = list_of options (dest o).
Proof. intros Ha Hp He. unfold given, words_of, env_words, predicate. by rewrite Ha, Hp, He, !map_id. Qed.

Lemma reparsed_plain cwd environ options metadata d : metadata ≡ₚ regeneratable ->
  d ∈ ["configs"; "debug"; "root_targets"] ->
  list_of (reparsed cwd environ options metadata) d = list_of options d.
Proof.
  intros Hm. pose proof (reparsed_list cwd environ options metadata Hm) as Hl.
  intros [->|[->|[->|[]%not_elem_of_nil]%elem_of_cons]%elem_of_cons]%elem_of_cons.
  - etrans; [exact (Hl (valued ["--build"] "configs" append false None Absent true) ltac:(in_table) eq_refl)|by apply given_list].
  - etrans; [exact (Hl (valued ["-d"; "--debug"] "debug" append false None (Many []) true) ltac:(in_table) eq_refl)|
             by apply given_list].
  - etrans; [exact (Hl (valued ["-R"; "--root-target"] "root_targets" append false None Absent true) ltac:(in_table) eq_refl)|
             by apply given_list].
Qed.
Lemma reparsed_check cwd environ options metadata : metadata ≡ₚ regeneratable ->
  is_on (reparsed cwd environ options metadata) "check" = is_on options "check".
Proof.
  intros Hm.
  assert (H : reparsed cwd environ options metadata !! "check" =
    after cwd environ options at_start (valued ["--check"] "check" store_true false None Absent true) !! "check").
  { apply (reparsed_at cwd environ options metadata Hm (valued ["--check"] "check" store_true false None Absent true)). in_table. }
  unfold is_on at 1. rewrite H. unfold after. cbn [takes_value act valued dest]. by destruct (is_on options "check").
Qed.

(** C39. Parsed again, the flags of a regeneration give equivalent options without the
    environment, whatever it is then: variables and generator flags with the values that
    environment and command line gave together, the other lists, texts and switches as they
    were, and all paths relative to the depth.  This is for options that can be given
    again: no value of an option with a one-letter name ([-D], [-d], [-G], [-I], [-R]),
    from the command line or the environment, is empty, since the flag would take the next
    one for its value, and neither [--no-circular-check] nor [--no-parallel] was given,
    which are not regenerated.  The format is left to the caller. *)
Theorem RegenerateFlags_reparse cwd environ options metadata flags :
  metadata ≡ₚ regeneratable -> RegenerateFlags cwd environ options metadata = Ok flags ->
  (forall o, o ∈ regeneratable -> is_long o = false ->
     ("" ∉ list_of options (dest o)) /\ ("" ∉ words_of environ options o)) ->
  is_on options "circular_check" = true -> is_on options "no_parallel" = false ->
  exists vals, parse_args gyp_options flags = Ok (vals, []) /\ is_on vals "use_environment" = false /\
    (forall e d environ', (e, d) ∈ [("GYP_DEFINES", "defines"); ("GYP_GENERATOR_FLAGS", "generator_flags")] ->
       exists l l', from_both environ options e d = Ok l /\ from_both environ' vals e d = Ok l' /\
         NameValueListToDict l' = NameValueListToDict l) /\
    (forall d, d ∈ ["configs"; "debug"; "root_targets"] -> list_of vals d = list_of options d) /\
    list_of vals "includes" = map (FixPath cwd options) (list_of options "includes") /\
    (forall d, d ∈ ["check"; "circular_check"; "no_parallel"] -> is_on vals d = is_on options d) /\
    (forall o, o ∈ regeneratable -> act o = store ->
       text_of vals (dest o) =
         if String.eqb (effective_text environ options o) "" then "" else predicate cwd options o (effective_text environ options o)).
Proof.
  intros Hm Hf Hp Hcircular Hparallel. exists (reparsed cwd environ options metadata). split_and!.
  - by apply parse_again.
  - by apply use_environment_off.
  - intros e d environ' [[= -> ->]|[[= -> ->]|[]%not_elem_of_nil]%elem_of_cons]%elem_of_cons.
    + apply (same_dict cwd environ options metadata flags Hm Hf (valued ["-D"] "defines" append false (Some "GYP_DEFINES") Absent true));
        [in_table|done..].
    + apply (same_dict cwd environ options metadata flags Hm Hf
        (valued ["-G"] "generator_flags" append false (Some "GYP_GENERATOR_FLAGS") (Many []) true)); [in_table|done..].
  - intros d Hd. by apply reparsed_plain.
  - exact (reparsed_list cwd environ options metadata Hm (valued ["-I"; "--include"] "includes" append true None Absent true)
      ltac:(in_table) eq_refl).
  - intros d [->|[->|[->|[]%not_elem_of_nil]%elem_of_cons]%elem_of_cons]%elem_of_cons.
    + by apply reparsed_check.
    + rewrite Hcircular. rewrite not_regenerated by (done || decided). done.
    + rewrite Hparallel. rewrite not_regenerated by (done || decided). done.
  - intros o Ho Ha. by apply reparsed_text.
Qed.

(** A build that was configured by the environment and the command line *)
Definition some_options : values :=
  <["defines" := Many ["OS=linux"; "v8=1"]]> (<["depth" := One "."]> (<["includes" := Many ["common.gypi"]]> (defaults gyp_options))).
Definition some_environ (name : string) : option string :=
  if String.eqb name "GYP_DEFINES" then Some "v8=2 host='x 64' v8=2" else None.
Lemma RegenerateFlags_reparse_witness : exists flags vals,
  RegenerateFlags "/w" some_environ some_options regeneratable = Ok flags /\ parse_args gyp_options flags = Ok (vals, []) /\
  list_of vals "includes" = ["common.gypi"] /\
  exists l l', from_both some_environ some_options "GYP_DEFINES" "defines" = Ok l /\
    from_both (fun _ => None) vals "GYP_DEFINES" "defines" = Ok l' /\ NameValueListToDict l' = NameValueListToDict l.
Proof.
  destruct (RegenerateFlags "/w" some_environ some_options regeneratable) as [flags|x|] eqn:E; [|by vm_compute in E..].
  exists flags. destruct (RegenerateFlags_reparse "/w" some_environ some_options regeneratable flags) as
    (vals & Hv & _ & Hd & _ & Hi & _); [done|done| |reflexivity|reflexivity|].
  - assert (H : forallb (fun o => bool_decide ("" ∉ list_of some_options (dest o)) &&
                                  bool_decide ("" ∉ words_of some_environ some_options o)) regeneratable = true) by by vm_compute.
    apply forallb_Forall in H. rewrite list.Forall_forall in H. intros o Ho _.
    specialize (H o Ho). by apply andb_prop in H as [H1%bool_decide_eq_true H2%bool_decide_eq_true].
  - exists vals. split_and!; [done|done| |apply Hd; left]. rewrite Hi. by vm_compute.
Defined.
(** An empty definition takes the flag that follows for its value. *)
Example empty_definition :
  ('(vals, _) ← parse_args gyp_options [FormatOpt "-D" ""; "--check"]; Ok (list_of vals "defines", is_on vals "check")) =
  Ok (["--check"], false).
Proof. reflexivity. Qed.
(** [--no-parallel] is not given again: the docstring of [RegenerateFlags] says that the
    options are equivalent. *)
Example no_parallel_lost :
  ('(vals, _) ← parse_args gyp_options ["--no-parallel"];
   flags ← RegenerateFlags "/w" (fun _ => None) vals regeneratable;
   '(vals', _) ← parse_args gyp_options flags;
   Ok (is_on vals "no_parallel", is_on vals' "no_parallel")) = Ok (true, false).
Proof. vm_compute. reflexivity. Qed.
