(* ===== verification/EasyXml.v ===== *)
(** * XML from Python lists ([gyp/easy_xml.py])

    [XmlToString] with the contents it takes, [WriteXmlIfChanged] as what it leaves in
    the file; a reader for the part of XML 1.0 that it writes, which takes line ends,
    white space in attribute values and characters as XML says, and that it reads back
    what was to be written. *)
From S2P Require Import Prelude PyStr GypValue.
From stdpp Require Import options.
#[local] Open Scope nat_scope.

(** ** Contents

    An element is a list: its name, perhaps a dictionary of attributes, and what is
    within it, texts and lists.  [None] is a Python [None]. *)
Inductive content :=
  | Str (s : string)
  | Attrs (d : list (string * option string))
  | Node (l : list content).

Section ContentInd.
Context (P : content -> Prop).
Context (HStr : forall s, P (Str s)) (HAttrs : forall d, P (Attrs d)) (HNode : forall l, Forall P l -> P (Node l)).
Fixpoint content_ind' (c : content) : P c :=
  match c with
  | Str s => HStr s
  | Attrs d => HAttrs d
  | Node l =>
      HNode l ((fix go l := match l return Forall P l with
                | [] => List.Forall_nil _
                | c :: l => List.Forall_cons _ c l (content_ind' c) (go l) end) l)
  end.
End ContentInd.

(** [str(specification)] *)
Fixpoint str_content (c : content) : string :=
  match c with
  | Str s => repr_str s
  | Attrs d =>
      "{" +:+ join ", " (map (fun '(k, v) => repr_str k +:+ ": " +:+ match v with Some v => repr_str v | None => "None" end) d)
        +:+ "}"
  | Node l => "[" +:+ join ", " (map str_content l) +:+ "]"
  end.

(** ** Escaping *)
Definition escape_of (attr : bool) (c : ascii) : string :=
  if Ascii.eqb c dquote then "&quot;"
  else if Ascii.eqb c "'" then (if attr then String c "" else "&apos;")
  else if Ascii.eqb c "<" then "&lt;"
  else if Ascii.eqb c ">" then "&gt;"
  else if Ascii.eqb c "&" then "&amp;"
  else if Ascii.eqb c newline then "&#xA;"
  else if Ascii.eqb c carriage_return then "&#xD;"
  else String c "".
Definition _XmlEscape (attr : bool) (value : string) : string := str_subst (escape_of attr) value.

(** ** Writing *)

Definition attribute_text (item : string * option string) : res string :=
  let '(at_, val) := item in
  v ← of_option (TypeError "expected string or buffer") val;
  Ok (" " +:+ at_ +:+ "=" +:+ String dquote (_XmlEscape true v +:+ String dquote "")).
Definition attributes_text (d : list (string * option string)) : res string :=
  foldM (fun acc item => t ← attribute_text item; Ok (acc +:+ t)) "" (sorted_items d).
Definition is_str (c : content) : bool := match c with Str _ => true | _ => false end.

(** The list is the specification of an element, after its name perhaps a dictionary;
    a string among the children is a text, anything else is written in turn. *)
Definition attributes_in (l : list content) : list (string * option string) :=
  match l with Attrs d :: _ => d | _ => [] end.
Definition rest_in (l : list content) : list content := match l with Attrs _ :: l => l | _ => l end.
Definition indentation (pretty : bool) (level : nat) : string := if pretty then str_repeat level "  " else "".
Definition new_line (pretty : bool) : string := if pretty then nl else "".
Definition child_texts (f : content -> res string) : list content -> res string :=
  foldr (fun child_spec rest =>
           t ← match child_spec with Str s => Ok (_XmlEscape false s) | _ => f child_spec end;
           u ← rest;
           Ok (t +:+ u)) (Ok "").
Fixpoint _ConstructContentList (pretty : bool) (level : nat) (specification : content) : res string :=
  match specification with
  | Node (Str name :: l) =>
      attributes ← attributes_text (attributes_in l);
      let opened := indentation pretty level +:+ "<" +:+ name +:+ attributes in
      match rest_in l with
      | [] => Ok (opened +:+ "/>" +:+ new_line pretty)
      | _ =>
          let multi_line := negb (forallb is_str (rest_in l)) in
          body ← child_texts (_ConstructContentList pretty (S level)) (rest_in l);
          Ok (opened +:+ ">" +:+ (if multi_line then new_line pretty else "") +:+ body +:+
                (if multi_line then indentation pretty level else "") +:+ "</" +:+ name +:+ ">" +:+ new_line pretty)
      end
  | Node (_ :: _) =>
      Err (Exception_ ("The first item of an EasyXml specification should be a string.  Specification was " +:+
             str_content specification))
  | Node [] => Err IndexError
  | Attrs _ => Err (KeyError "0")
  | Str "" => Err IndexError
  | Str (String c "") => Ok (indentation pretty level +:+ "<" +:+ String c ("/>" +:+ new_line pretty))
  | Str (String c s) =>
      Ok (indentation pretty level +:+ "<" +:+ String c (">" +:+ _XmlEscape false s +:+ "</" +:+
            String c (">" +:+ new_line pretty)))
  end.
Definition XmlToString (l : list content) (encoding : string) (pretty : bool) : res string :=
  body ← _ConstructContentList pretty 0 (Node l);
  Ok ("<?xml version=" +:+ String dquote ("1.0" +:+ String dquote (" encoding=" +:+ String dquote (encoding +:+
        String dquote ("?>" +:+ new_line pretty)))) +:+ body).

(** What the file holds afterwards, and whether it was written; [existing] is what it
    held before, if it could be read. *)
Definition WriteXmlIfChanged (l : list content) (existing : option string) (encoding : string)
    (pretty win32 crlf : bool) : res (string * bool) :=
  xml_string ← XmlToString l encoding pretty;
  let xml_string := if win32 && negb crlf then str_replace nl (String carriage_return nl) xml_string else xml_string in
  Ok (xml_string, negb (bool_decide (existing = Some xml_string))).

(** ** Reading

    [ElementTree]'s data: the children of an element come with the text that follows
    them, and the text before the first is the element's own. *)
Inductive xml := Elem (name : string) (attributes : list (string * string)) (text : string) (children : list (xml * string)).

(** XML has no other control characters; a byte above 127 is for the encoding. *)
Definition horizontal_tab : ascii := "009"%char.
Definition xml_char (c : ascii) : bool :=
  (32 <=? ord c) || Ascii.eqb c horizontal_tab || Ascii.eqb c newline || Ascii.eqb c carriage_return.
(** A reader sees every line end as a newline, before anything else ... *)
Fixpoint line_ends (s : string) : string :=
  match s with
  | "" => ""
  | String c s =>
      if Ascii.eqb c carriage_return
      then (if startswith nl s then line_ends s else String newline (line_ends s))
      else String c (line_ends s)
  end.
(** ... and white space in an attribute's value as a space, if it is not a reference. *)
Definition text_char (c : ascii) : ascii := c.
Definition value_char (c : ascii) : ascii :=
  if Ascii.eqb c horizontal_tab || Ascii.eqb c newline then " "%char else c.

Definition entities : list (string * ascii) :=
  [("quot", dquote); ("apos", "'"%char); ("lt", "<"%char); ("gt", ">"%char); ("amp", "&"%char);
   ("#xA", newline); ("#xD", carriage_return)].
Definition entity_of (e : string) : option ascii := snd <$> List.find (fun x => String.eqb e x.1) entities.
(** The entity that is being read, if one is; [f] is for a character that is none. *)
Fixpoint unescape (f : ascii -> ascii) (entity : option string) (s : string) : option string :=
  match s, entity with
  | "", None => Some ""
  | "", Some _ => None
  | String c s, None =>
      if Ascii.eqb c "&" then unescape f (Some "") s else String (f c) <$> unescape f None s
  | String c s, Some e =>
      if Ascii.eqb c ";" then d ← entity_of e; String d <$> unescape f None s
      else unescape f (Some (e +:+ String c "")) s
  end.
Definition name_char (c : ascii) : bool := isalpha c || isdigit c || str_mem c "_-.:".
Definition valid_name (s : string) : bool :=
  match s with
  | "" => false
  | String c _ => (isalpha c || str_mem c "_:") && str_forallb name_char s
  end.
Definition read_name (s : string) : option (string * string) :=
  let '(name, s) := span name_char s in if valid_name name then Some (name, s) else None.
(** A closing angle bracket is refused in a text, which XML does after two square ones. *)
Definition read_text (s : string) : option (string * string) :=
  let '(raw, s) := span (fun c => negb (Ascii.eqb c "<")) s in
  if str_mem ">" raw then None else t ← unescape text_char None raw; Some (t, s).
Definition after (p s : string) : option string :=
  if startswith p s then Some (str_drop (String.length p) s) else None.
(** The names of an element's attributes are different. *)
Fixpoint read_attributes (fuel : nat) (s : string) : option (list (string * string) * string) :=
  match fuel, after " " s with
  | S fuel, Some s =>
      '(name, s) ← read_name s;
      s ← after (String "=" (String dquote "")) s;
      let '(raw, s) := span (fun c => negb (Ascii.eqb c dquote)) s in
      if str_mem "<" raw then None
      else
        v ← unescape value_char None raw;
        '(l, s) ← read_attributes fuel (str_drop 1 s);
        if bool_decide (name ∈ l.*1) then None else Some ((name, v) :: l, s)
  | _, _ => Some ([], s)
  end.
Definition read_element (inner : string -> option (string * list (xml * string) * string)) (s : string)
    : option (xml * string) :=
  s ← after "<" s;
  '(name, s) ← read_name s;
  '(attributes, s) ← read_attributes (String.length s) s;
  match after "/>" s with
  | Some s => Some (Elem name attributes "" [], s)
  | None =>
      s ← after ">" s;
      '(t, l, s) ← inner s;
      s ← after ("</" +:+ name +:+ ">") s;
      Some (Elem name attributes t l, s)
  end.
(** The text up to the next tag, and then the elements until a closing tag, each with
    the text that follows it. *)
Fixpoint read_nodes (fuel : nat) (s : string) : option (string * list (xml * string) * string) :=
  match fuel with
  | 0 => None
  | S fuel =>
      '(t, s) ← read_text s;
      if String.eqb s "" || startswith "</" s then Some (t, [], s)
      else
        '(e, s) ← read_element (read_nodes fuel) s;
        '(t', l, s) ← read_nodes fuel s;
        Some (t, (e, t') :: l, s)
  end.
(** The declaration that a document begins with, up to the name of the encoding *)
Definition declaration : string :=
  "<?xml version=" +:+ String dquote ("1.0" +:+ String dquote (" encoding=" +:+ String dquote "")).
Definition valid_encoding (s : string) : bool :=
  match s with
  | "" => false
  | String c s => isalpha c && str_forallb (fun c => isalpha c || isdigit c || str_mem c "._-") s
  end.
Definition read_declaration (s : string) : option string :=
  s ← after declaration s;
  let '(encoding, s) := span (fun c => negb (Ascii.eqb c dquote)) s in
  if valid_encoding encoding then after (String dquote "?>") s else None.
(** A document: the declaration, one element, and layout. *)
Definition ReadXml (s : string) : option xml :=
  if negb (str_forallb xml_char s) then None
  else
    s ← read_declaration (line_ends s);
    '(t, l, s) ← read_nodes (S (String.length s)) s;
    match l, s with
    | [(e, t')], "" => if str_forallb isspace (t +:+ t') then Some e else None
    | _, _ => None
    end.

(** ** What is to be read *)
Definition text_of (c : content) : string := match c with Str s => s | _ => "" end.
Definition attributes_of (d : list (string * option string)) : list (string * string) :=
  map (prod_map id (default "")) (sorted_items d).
Definition name_of (c : content) : string := match c with Node (Str name :: _) => name | _ => "" end.

(** The children as they lie in the file: with the layout, if there is one. *)
Definition children_of (f : content -> xml) (pretty : bool) (level : nat) (last : string)
    : list content -> string * list (xml * string) :=
  foldr (fun c '(t, ch) =>
           match c with
           | Str s => (s +:+ t, ch)
           | _ => (indentation pretty (S level), (f c, new_line pretty +:+ t) :: ch)
           end) (last, []).
Fixpoint tree (pretty : bool) (level : nat) (c : content) : xml :=
  match c with
  | Node (Str name :: l) =>
      let multi_line := negb (forallb is_str (rest_in l)) in
      let '(t, ch) := children_of (tree pretty (S level)) pretty level
                        (if multi_line then indentation pretty level else "") (rest_in l) in
      Elem name (attributes_of (attributes_in l)) ((if multi_line then new_line pretty else "") +:+ t) ch
  | _ => Elem "" [] "" []
  end.
(** The texts between elements are layout where an element has elements. *)
Fixpoint without_layout (x : xml) : xml :=
  match x with
  | Elem name attributes text [] => x
  | Elem name attributes text ch => Elem name attributes "" (map (fun '(c, _) => (without_layout c, "")) ch)
  end.

(** ** Contents that are well formed

    Names as in XML, no attribute twice, and only characters that XML has; no tab in the
    value of an attribute, since [_XmlEscape] leaves it for a reader to see as a space. *)
Definition valid_text (s : string) : bool := str_forallb xml_char s.
Definition valid_value (s : string) : bool := valid_text s && negb (str_mem horizontal_tab s).
Definition valid_attribute (item : string * option string) : bool :=
  valid_name item.1 && match item.2 with Some v => valid_value v | None => false end.
Fixpoint well_formed (c : content) : bool :=
  match c with
  | Node (Str name :: l) =>
      valid_name name && bool_decide (NoDup (attributes_in l).*1) &&
      forallb valid_attribute (attributes_in l) &&
      forallb (fun c => match c with Str s => valid_text s | _ => well_formed c end) (rest_in l)
  | _ => false
  end.
Fixpoint unmixed (c : content) : bool :=
  match c with
  | Node l => (forallb is_str (rest_in (List.tl l)) || negb (existsb is_str (rest_in (List.tl l)))) && forallb unmixed l
  | _ => true
  end.

Definition example : list content :=
  [Str "myelement"; Attrs [("b", Some (String "v" (String newline "2"))); ("a", Some (String carriage_return "it's <"))]; Node [Str "childtype"; Str "This & "; Str "is"];
   Node [Str "childtype"; Node [Str "x"]]].
Example example_read :
  (XmlToString example "utf-8" true ≫= fun s => Ok (without_layout <$> ReadXml s)) = Ok (Some (tree false 0 (Node example))).
Proof. vm_compute. reflexivity. Qed.

(** ** Escaped text *)

(** [raw] is what a file has for [t], where characters are read with [f]. *)
Definition no_bracket (c : ascii) : bool := negb (Ascii.eqb c "<" || Ascii.eqb c ">").
Definition codes (f : ascii -> ascii) (raw t : string) : Prop :=
  str_forallb no_bracket raw = true /\
  forall s, unescape f None (raw +:+ s) = String.append t <$> unescape f None s.

Lemma codes_nil f : codes f "" "".
Proof. split; [done|]. intros s. cbn [String.append]. by destruct (unescape f None s). Qed.
Lemma codes_app f raw1 t1 raw2 t2 :
  codes f raw1 t1 -> codes f raw2 t2 -> codes f (raw1 +:+ raw2) (t1 +:+ t2).
Proof.
  intros [H1 H1'] [H2 H2']. split; [by rewrite str_forallb_app, H1, H2|].
  intros s. rewrite append_assoc, H1', H2'. destruct (unescape f None s); cbn; [|done]. by rewrite append_assoc.
Qed.
Lemma codes_char (f : ascii -> ascii) c : c <> "<"%char -> c <> ">"%char -> c <> "&"%char -> f c = c ->
  codes f (String c "") (String c "").
Proof.
  intros Hlt Hgt Hamp Hf. apply Ascii.eqb_neq in Hlt, Hgt, Hamp.
  split; [cbn [str_forallb]; unfold no_bracket; by rewrite Hlt, Hgt|].
  intros s. cbn [String.append unescape]. rewrite Hamp, Hf. by destruct (unescape f None s).
Qed.
Lemma codes_entity f raw c :
  str_forallb no_bracket raw = true ->
  (forall s, unescape f None (raw +:+ s) = String c <$> unescape f None s) -> codes f raw (String c "").
Proof. intros H1 H2. split; [done|]. intros s. rewrite H2. by destruct (unescape f None s). Qed.

Definition char_of (attr : bool) : ascii -> ascii := if attr then value_char else text_char.
Lemma codes_escape_of attr c : (attr = true -> c <> horizontal_tab) ->
  codes (char_of attr) (escape_of attr c) (String c "").
Proof.
  intros Htab. unfold escape_of.
  destruct (Ascii.eqb_spec c dquote) as [->|]; [by apply codes_entity|].
  destruct (Ascii.eqb_spec c "'") as [->|]; [destruct attr; [by apply codes_char|by apply codes_entity]|].
  destruct (Ascii.eqb_spec c "<") as [->|]; [by apply codes_entity|].
  destruct (Ascii.eqb_spec c ">") as [->|]; [by apply codes_entity|].
  destruct (Ascii.eqb_spec c "&") as [->|]; [by apply codes_entity|].
  destruct (Ascii.eqb_spec c newline) as [->|Hnl]; [by apply codes_entity|].
  destruct (Ascii.eqb_spec c carriage_return) as [->|]; [by apply codes_entity|].
  apply codes_char; [done..|]. destruct attr; [|done]. cbn [char_of]. unfold value_char.
  apply Ascii.eqb_neq in Hnl as ->. specialize (Htab eq_refl). by apply Ascii.eqb_neq in Htab as ->.
Qed.
Lemma codes_escape attr s : (attr = true -> str_mem horizontal_tab s = false) ->
  codes (char_of attr) (_XmlEscape attr s) s.
Proof.
  induction s as [|c s IH]; intros Htab; [apply codes_nil|]. cbn [_XmlEscape str_subst].
  apply (codes_app _ _ (String c "") _ s).
  - apply codes_escape_of. intros Ha ->. specialize (Htab Ha). rewrite str_mem_cons in Htab.
    apply orb_false_iff in Htab as [Hc _]. by rewrite Ascii.eqb_refl in Hc.
  - apply IH. intros Ha. specialize (Htab Ha). rewrite str_mem_cons in Htab.
    by apply orb_false_iff in Htab as [_ Htab].
Qed.
Lemma codes_space s : str_forallb isspace s = true -> codes text_char s s.
Proof.
  induction s as [|c s IH]; cbn [str_forallb]; intros Hs; [apply codes_nil|]. reflect.
  apply (codes_app _ (String c "") (String c "") s s); [|by apply IH].
  by apply codes_char; [intros ->..|].
Qed.
Lemma codes_new_line pretty : codes text_char (new_line pretty) (new_line pretty).
Proof. by apply codes_space; destruct pretty. Qed.
Lemma isspace_repeat n s : str_forallb isspace s = true -> str_forallb isspace (str_repeat n s) = true.
Proof. intros Hs. induction n as [|n IH]; [done|]. cbn [str_repeat]. by rewrite str_forallb_app, Hs. Qed.
Lemma codes_indentation pretty level :
  codes text_char (indentation pretty level) (indentation pretty level).
Proof. apply codes_space. destruct pretty; [by apply isspace_repeat|done]. Qed.

(** ** Characters: what is written has no line end but newlines *)
Definition raw_char (c : ascii) : bool := xml_char c && negb (Ascii.eqb c carriage_return).
Definition clean (s : string) : Prop := str_forallb raw_char s = true.

Lemma clean_app s t : clean s -> clean t -> clean (s +:+ t).
Proof. unfold clean. rewrite str_forallb_app. by intros -> ->. Qed.
Lemma clean_cons c s : raw_char c = true -> clean s -> clean (String c s).
Proof. unfold clean. cbn [str_forallb]. by intros -> ->. Qed.
Lemma clean_escape attr s : valid_text s = true -> clean (_XmlEscape attr s).
Proof.
  unfold valid_text. induction s as [|c s IH]; [done|]. cbn [str_forallb _XmlEscape str_subst].
  intros [Hc Hs]%andb_true_iff. apply clean_app; [|by apply IH]. unfold escape_of.
  destruct (Ascii.eqb c carriage_return) eqn:Hcr; [by apply Ascii.eqb_eq in Hcr as ->; destruct attr|].
  assert (clean (String c "")) by (unfold clean; cbn [str_forallb]; unfold raw_char; by rewrite Hc, Hcr).
  by repeat case_match.
Qed.
Lemma name_char_raw c : name_char c = true -> raw_char c = true.
Proof. by destruct c as [[] [] [] [] [] [] [] []]. Qed.
Lemma clean_name s : valid_name s = true -> clean s.
Proof.
  unfold valid_name. destruct s as [|c s]; [done|]. intros [_ H]%andb_true_iff.
  unfold clean. revert H. generalize (String c s). induction s0 as [|d t IH]; cbn [str_forallb]; [done|].
  intros [Hd Ht]%andb_true_iff. by rewrite (name_char_raw d Hd), (IH Ht).
Qed.
Lemma clean_new_line pretty : clean (new_line pretty).
Proof. by destruct pretty. Qed.
Lemma clean_indentation pretty level : clean (indentation pretty level).
Proof. destruct pretty; [|done]. cbn [indentation]. induction level as [|n IH]; [done|]. by apply clean_app. Qed.
Lemma clean_line_ends s : clean s -> line_ends s = s /\ str_forallb xml_char s = true.
Proof.
  unfold clean. induction s as [|c s IH]; [done|]. cbn [str_forallb line_ends].
  intros [[Hc Hcr]%andb_true_iff Hs]%andb_true_iff. apply negb_true_iff in Hcr as ->.
  destruct (IH Hs) as [-> ->]. by rewrite Hc.
Qed.
Create HintDb clean.
#[local] Hint Resolve clean_app clean_cons clean_name clean_new_line clean_indentation : clean.
#[local] Hint Extern 0 (clean _) => reflexivity : clean.
#[local] Hint Extern 0 (raw_char _ = true) => reflexivity : clean.

Lemma no_bracket_spec raw : str_forallb no_bracket raw = true ->
  str_forallb (fun c => negb (Ascii.eqb c "<")) raw = true /\
  str_mem "<" raw = false /\ str_mem ">" raw = false.
Proof.
  induction raw as [|c raw IH]; [done|]. cbn [str_forallb]. rewrite !str_mem_cons.
  intros [[H1 H2]%negb_true_iff%orb_false_iff H]%andb_true_iff.
  destruct (IH H) as (-> & -> & ->). rewrite (Ascii.eqb_sym "<" c), (Ascii.eqb_sym ">" c).
  by rewrite H1, H2.
Qed.
Lemma read_text_codes raw t s : codes text_char raw t ->
  read_text (raw +:+ s) = '(t', s') ← read_text s; Some (t +:+ t', s').
Proof.
  intros [(Hlt & _ & Hgt)%no_bracket_spec Hraw]. unfold read_text.
  rewrite (span_shift _ _ _ Hlt). cbv iota beta.
  destruct (span (fun c => negb (Ascii.eqb c "<")) s) as [a b]. cbn [fst snd].
  rewrite str_mem_app, Hgt, Hraw. cbn [orb]. destruct (str_mem ">" a); [done|].
  by destruct (unescape text_char None a).
Qed.
Lemma read_nodes_codes n raw t s t' l r : codes text_char raw t ->
  read_nodes n s = Some (t', l, r) -> read_nodes n (raw +:+ s) = Some (t +:+ t', l, r).
Proof.
  destruct n as [|n]; [done|]. cbn [read_nodes]. intros H. rewrite (read_text_codes _ _ _ H).
  destruct (read_text s) as [[t0 s0]|]; [|done]. cbn [mbind option_bind].
  destruct (_ || _); [by intros [= -> -> ->]|].
  destruct (read_element (read_nodes n) s0) as [[x s1]|]; [|done]. cbn [mbind option_bind].
  destruct (read_nodes n s1) as [[[t1 l1] r1]|]; [|done]. cbn [mbind option_bind]. by intros [= -> -> ->].
Qed.
Lemma read_element_mono (f g : string -> option (string * list (xml * string) * string)) s x :
  (forall s y, f s = Some y -> g s = Some y) -> read_element f s = Some x -> read_element g s = Some x.
Proof.
  intros Hfg. unfold read_element. destruct (after "<" s) as [s1|]; [|done]. cbn [mbind option_bind].
  destruct (read_name s1) as [[name s2]|]; [|done]. cbn [mbind option_bind].
  destruct (read_attributes (String.length s2) s2) as [[attributes s3]|]; [|done]. cbn [mbind option_bind].
  destruct (after "/>" s3); [done|]. destruct (after ">" s3) as [s4|]; [|done]. cbn [mbind option_bind].
  destruct (f s4) as [y|] eqn:Hf; [|done]. by rewrite (Hfg _ _ Hf).
Qed.
Lemma read_nodes_mono n m s x : n <= m -> read_nodes n s = Some x -> read_nodes m s = Some x.
Proof.
  revert m s x. induction n as [|n IH]; intros m s x Hm; [done|]. destruct m as [|m]; [lia|].
  cbn [read_nodes]. destruct (read_text s) as [[t s1]|]; [|done]. cbn [mbind option_bind].
  destruct (_ || _); [done|].
  destruct (read_element (read_nodes n) s1) as [[e s2]|] eqn:He; [|done]. cbn [mbind option_bind].
  rewrite (read_element_mono _ (read_nodes m) _ _ (fun s y => IH m s y ltac:(lia)) He). cbn [mbind option_bind].
  destruct (read_nodes n s2) as [y|] eqn:Hn; [|done]. by rewrite (IH m _ _ ltac:(lia) Hn).
Qed.

(** ** Attributes *)
Lemma after_app p s : after p (p +:+ s) = Some s.
Proof. unfold after, startswith. by rewrite prefix_app, str_drop_app. Qed.
Lemma read_name_app name s : valid_name name = true ->
  (span name_char s).1 = "" -> (span name_char s).2 = s ->
  read_name (name +:+ s) = Some (name, s).
Proof.
  intros Hv H1 H2. unfold read_name.
  assert (Hn : str_forallb name_char name = true).
  { unfold valid_name in Hv. destruct name; [done|]. by apply andb_true_iff in Hv as [_ Hv]. }
  rewrite (span_shift _ _ _ Hn), H1, H2, append_nil_r. by rewrite Hv.
Qed.
Lemma escape_quoted v : str_forallb (fun c => negb (Ascii.eqb c dquote)) (_XmlEscape true v) = true.
Proof.
  induction v as [|c v IH]; [done|]. cbn [_XmlEscape str_subst]. rewrite str_forallb_app.
  apply andb_true_iff. split; [|exact IH]. unfold escape_of.
  destruct (Ascii.eqb c dquote) eqn:Hq; [done|].
  repeat match goal with |- context [if Ascii.eqb c ?d then _ else _] => destruct (Ascii.eqb c d) end;
    try reflexivity; cbn [str_forallb]; by rewrite Hq.
Qed.
Lemma read_attribute n k v s : valid_name k = true -> valid_value v = true ->
  read_attributes (S n) (" " +:+ k +:+ "=" +:+ String dquote (_XmlEscape true v +:+ String dquote s)) =
  '(l, s) ← read_attributes n s;
  if bool_decide (k ∈ l.*1) then None else Some ((k, v) :: l, s).
Proof.
  intros Hk [_ Htab%negb_true_iff]%andb_true_iff. cbn [read_attributes]. rewrite after_app. cbv iota beta.
  rewrite (read_name_app _ _ Hk) by done. cbn [mbind option_bind].
  change ("=" +:+ String dquote (_XmlEscape true v +:+ String dquote s))
    with (String "=" (String dquote "") +:+ (_XmlEscape true v +:+ String dquote s)).
  rewrite after_app. cbn [mbind option_bind].
  rewrite (span_app _ _ _ _ (escape_quoted v)) by done. cbv iota beta.
  pose proof (codes_escape true v (fun _ => Htab)) as [(_ & -> & _)%no_bracket_spec Hu].
  specialize (Hu ""). rewrite append_nil_r in Hu. cbn [char_of] in Hu. rewrite Hu.
  cbn. by rewrite append_nil_r.
Qed.
Lemma attribute_shape k e w s :
  (" " +:+ k +:+ "=" +:+ String dquote (e +:+ String dquote w)) +:+ s =
  " " +:+ k +:+ "=" +:+ String dquote (e +:+ String dquote (w +:+ s)).
Proof. rewrite !append_assoc. cbn [String.append]. by rewrite append_assoc. Qed.
Lemma fst_attributes (l : list (string * option string)) :
  (map (prod_map id (default "")) l).*1 = l.*1.
Proof. induction l as [|x l IH]; [done|]. cbn. by f_equal. Qed.
Lemma attribute_texts l acc : forallb valid_attribute l = true -> NoDup l.*1 ->
  exists w, foldM (fun acc item => t ← attribute_text item; Ok (acc +:+ t)) acc l = Ok (acc +:+ w) /\
    (w = "" \/ exists w', w = String " " w') /\ clean w /\
    forall n s, String.length w <= n -> after " " s = None ->
      read_attributes n (w +:+ s) = Some (map (prod_map id (default "")) l, s).
Proof.
  revert acc. induction l as [|[k [v|]] l IH]; intros acc; cbn [forallb].
  - intros _ _. exists "". rewrite append_nil_r. split_and!; [done|by left|done|]. intros n s _ Hs.
    destruct n as [|n]; [done|]. cbn [read_attributes String.append]. by rewrite Hs.
  - intros [[Hk Hv]%andb_true_iff Hl]%andb_true_iff [Hfresh Hnd]%list.NoDup_cons.
    cbn [fst snd] in *. cbn [foldM attribute_text of_option mbind res_bind].
    destruct (IH (acc +:+ " " +:+ k +:+ "=" +:+ String dquote (_XmlEscape true v +:+ String dquote "")) Hl Hnd)
      as (w & Hw & _ & Hclean & Hread).
    exists (" " +:+ k +:+ "=" +:+ String dquote (_XmlEscape true v +:+ String dquote w)). split_and!.
    + rewrite Hw. by rewrite append_assoc, attribute_shape.
    + right. by eexists.
    + apply andb_true_iff in Hv as [Hv _]. pose proof (clean_escape true v Hv). auto 10 with clean.
    + intros [|n] s Hn Hs; [cbn in Hn; lia|]. rewrite attribute_shape.
      rewrite (read_attribute n k v _ Hk Hv), Hread; [| |done].
      * cbn [mbind option_bind]. rewrite fst_attributes, bool_decide_eq_false_2 by done. done.
      * rewrite !length_append in Hn. cbn in Hn. rewrite length_append in Hn. cbn in Hn. lia.
  - intros [[_ Hv]%andb_true_iff _]%andb_true_iff. done.
Qed.
Lemma forallb_insert_item {V} (p : string * V -> bool) item l :
  forallb p (insert_item item l) = p item && forallb p l.
Proof.
  induction l as [|x l IH]; [done|]. cbn [insert_item]. destruct (String.leb item.1 x.1); [done|].
  cbn [forallb]. rewrite IH. by destruct (p item), (p x).
Qed.
Lemma forallb_sorted_items {V} (p : string * V -> bool) l : forallb p (sorted_items l) = forallb p l.
Proof. induction l as [|x l IH]; [done|]. unfold sorted_items in *. cbn [foldr]. rewrite forallb_insert_item. cbn [forallb]. by rewrite IH. Qed.
Lemma insert_item_perm {V} (item : string * V) l : insert_item item l ≡ₚ item :: l.
Proof.
  induction l as [|x l IH]; [done|]. cbn [insert_item]. destruct (String.leb item.1 x.1); [done|].
  rewrite IH. constructor.
Qed.
Lemma sorted_items_perm {V} (l : list (string * V)) : sorted_items l ≡ₚ l.
Proof. induction l as [|x l IH]; [done|]. unfold sorted_items in *. cbn [foldr]. by rewrite insert_item_perm, IH. Qed.
Lemma attributes_text_valid d : forallb valid_attribute d = true -> NoDup d.*1 ->
  exists w, attributes_text d = Ok w /\ (w = "" \/ exists w', w = String " " w') /\ clean w /\
    forall n s, String.length w <= n -> after " " s = None -> read_attributes n (w +:+ s) = Some (attributes_of d, s).
Proof.
  intros Hd Hnd. apply (attribute_texts (sorted_items d) ""); [by rewrite forallb_sorted_items|].
  by rewrite sorted_items_perm.
Qed.

(** ** Elements *)
Lemma after_open s : after "/>" (">" +:+ s) = None.
Proof. done. Qed.
(** An element between layout, whose text and children are written as [body]. *)
Section Element.
Context (n : nat) (name aw : string) (attributes : list (string * string)) (t : string) (l : list (xml * string)) (r : string).
Context (Hname : valid_name name = true).
Context (Hattributes : forall n s, String.length aw <= n -> after " " s = None -> read_attributes n (aw +:+ s) = Some (attributes, s)).
Context (raw_before before raw_behind behind : string) (Hbefore : codes text_char raw_before before) (Hbehind : codes text_char raw_behind behind).

Lemma name_starts s : exists c s', name +:+ s = String c s' /\ name_char c = true.
Proof using Hname.
  unfold valid_name in Hname. destruct name as [|c x]; [discriminate Hname|].
  cbn [str_forallb] in Hname. apply andb_true_iff in Hname as [_ [Hc _]%andb_true_iff].
  by exists c, (x +:+ s).
Qed.
Lemma read_opened inner s : after " " s = None -> span name_char (aw +:+ s) = ("", aw +:+ s) ->
  read_element inner ("<" +:+ name +:+ aw +:+ s) =
  match after "/>" s with
  | Some s => Some (Elem name attributes "" [], s)
  | None =>
      s ← after ">" s;
      '(t, l, s) ← inner s;
      s ← after ("</" +:+ name +:+ ">") s;
      Some (Elem name attributes t l, s)
  end.
Proof using Hname Hattributes.
  intros Hs Haw. unfold read_element. rewrite after_app. cbn [mbind option_bind].
  rewrite (read_name_app _ _ Hname) by (by rewrite Haw). cbn [mbind option_bind].
  rewrite Hattributes; [done| |done]. rewrite length_append. lia.
Qed.
Lemma read_nodes_element e written s :
  (exists c s', written = String "<" (String c s') /\ c <> "/"%char) ->
  read_element (read_nodes n) (written +:+ raw_behind +:+ s) = Some (e, raw_behind +:+ s) ->
  read_nodes n s = Some (t, l, r) ->
  read_nodes (S n) (raw_before +:+ written +:+ raw_behind +:+ s) = Some (before, (e, behind +:+ t) :: l, r).
Proof using Hbefore Hbehind.
  intros (c & s' & -> & Hc) He Hn.
  replace before with (before +:+ "") by apply append_nil_r. apply (read_nodes_codes _ _ _ _ _ _ _ Hbefore).
  cbn [read_nodes read_text span unescape].
  cbn [String.append read_text span Ascii.eqb Bool.eqb negb unescape mbind option_bind str_mem str_existsb].
  rewrite !append_cons in He.
  rewrite !startswith_cons, (proj2 (Ascii.eqb_neq "/" c)) by congruence. cbn [andb orb Ascii.eqb Bool.eqb String.eqb].
  rewrite He. cbn [mbind option_bind].
  by rewrite (read_nodes_codes _ _ _ _ _ _ _ Hbehind Hn).
Qed.
End Element.

(** [w] is the element [c] with its layout. *)
Definition reads (pretty : bool) (level : nat) (c : content) (w : string) : Prop :=
  forall n s t l r, read_nodes n s = Some (t, l, r) ->
    read_nodes (String.length w + n) (w +:+ s) =
    Some (indentation pretty level, (tree pretty level c, new_line pretty +:+ t) :: l, r).
Definition written (pretty : bool) (level : nat) (c : content) : Prop :=
  exists w, _ConstructContentList pretty level c = Ok w /\ clean w /\ reads pretty level c w.
Definition child_written (pretty : bool) (level : nat) (c : content) : Prop :=
  match c with Str s => valid_text s = true | _ => written pretty (S level) c end.
Lemma no_tab s : false = true -> str_mem horizontal_tab s = false.
Proof. done. Qed.
Lemma read_children pretty level rest :
  Forall (child_written pretty level) rest ->
  exists w, child_texts (_ConstructContentList pretty (S level)) rest = Ok w /\ clean w /\
    forall n s last r, read_nodes n s = Some (last, [], r) ->
      read_nodes (String.length w + n) (w +:+ s) =
      Some ((children_of (tree pretty (S level)) pretty level last rest).1,
            (children_of (tree pretty (S level)) pretty level last rest).2, r).
Proof.
  induction 1 as [|c rest Hc _ (w & Hw & Hclean & Hread)]; [by exists ""|].
  unfold child_texts, children_of in *. cbn [foldr]. rewrite Hw. destruct c as [s0| |].
  - exists (_XmlEscape false s0 +:+ w).
    split_and!; [done|by apply clean_app; [apply clean_escape|]|]. intros n s last r Hn.
    specialize (Hread n s last r Hn). destruct (foldr _ (last, []) rest) as [t ch]. cbn [fst snd] in *.
    rewrite append_assoc. apply (read_nodes_codes _ _ _ _ _ _ _ (codes_escape false s0 (no_tab s0))).
    apply (read_nodes_mono (String.length w + n)); [rewrite length_append; lia|done].
  - destruct Hc as (x & ? & _). discriminate.
  - destruct Hc as (x & -> & Hcx & Hx).
    exists (x +:+ w). split_and!; [done|by apply clean_app|]. intros n s last r Hn.
    specialize (Hx _ _ _ _ _ (Hread n s last r Hn)). destruct (foldr _ (last, []) rest) as [t ch]. cbn [fst snd] in *.
    rewrite append_assoc, length_append, <- Nat.add_assoc. exact Hx.
Qed.

Lemma codes_if (b : bool) x : codes text_char x x ->
  codes text_char (if b then x else "") (if b then x else "").
Proof. destruct b; [done|]. intros _. apply codes_nil. Qed.
Lemma clean_if (b : bool) x : clean x -> clean (if b then x else "").
Proof. by destruct b. Qed.
Lemma span_none (aw s : string) c : (aw = "" \/ exists w, aw = String " " w) -> name_char c = false ->
  span name_char (aw +:+ String c s) = ("", aw +:+ String c s).
Proof. intros [->|[w ->]] Hc; [cbn [String.append span]; by rewrite Hc|done]. Qed.
Lemma read_closing mi name s : codes text_char mi mi ->
  read_nodes 1 (mi +:+ "</" +:+ name +:+ ">" +:+ s) = Some (mi, [], "</" +:+ name +:+ ">" +:+ s).
Proof.
  intros Hmi. rewrite (read_nodes_codes _ _ _ _ "" [] ("</" +:+ name +:+ ">" +:+ s) Hmi); [by rewrite append_nil_r|].
  cbn [read_nodes]. unfold read_text.
  cbn [String.append span Ascii.eqb Bool.eqb negb unescape mbind option_bind str_mem str_existsb].
  by rewrite !startswith_cons, startswith_nil.
Qed.
(** A tag opens with a name character. *)
Lemma tag_opens name s : valid_name name = true ->
  exists c s', "<" +:+ name +:+ s = String "<" (String c s') /\ c <> "/"%char.
Proof.
  intros Hname. destruct (name_starts name Hname s) as (c & s' & -> & Hc).
  exists c, s'. split; [done|]. intros ->. discriminate.
Qed.
Lemma written_empty pretty level name l : rest_in l = [] ->
  well_formed (Node (Str name :: l)) = true -> written pretty level (Node (Str name :: l)).
Proof.
  intros Hrest. cbn [well_formed]. rewrite Hrest.
  intros [[[Hname Hnd%bool_decide_eq_true]%andb_true_iff Hd]%andb_true_iff _]%andb_true_iff.
  destruct (attributes_text_valid _ Hd Hnd) as (aw & Haw & Hspan & Hclean & Hread).
  unfold written. cbn [_ConstructContentList]. rewrite Haw, Hrest. cbn [mbind res_bind]. eexists.
  split_and!; [done|by auto 10 with clean|]. intros n s t l' r Hn. rewrite !append_assoc.
  apply (read_nodes_mono (S n)); [rewrite !length_append; cbn; lia|].
  pose proof (read_nodes_element n t l' r _ _ _ _ (codes_indentation pretty level) (codes_new_line pretty)
    (tree pretty level (Node (Str name :: l))) ("<" +:+ name +:+ aw +:+ "/>") s (tag_opens _ _ Hname)) as H.
  rewrite !append_assoc in H. apply H; [|done]. clear H.
  rewrite (read_opened name aw _ Hname Hread), after_app; [|done|by apply span_none].
  cbn [tree]. by rewrite Hrest.
Qed.
Lemma written_rest pretty level name l : rest_in l <> [] ->
  Forall (child_written pretty level) (rest_in l) ->
  well_formed (Node (Str name :: l)) = true -> written pretty level (Node (Str name :: l)).
Proof.
  intros Hrest Hchildren. cbn [well_formed].
  intros [[[Hname Hnd%bool_decide_eq_true]%andb_true_iff Hd]%andb_true_iff _]%andb_true_iff.
  destruct (attributes_text_valid _ Hd Hnd) as (aw & Haw & Hspan & Hclean & Hread).
  destruct (read_children pretty level _ Hchildren) as (w & Hw & Hcw & Hbody).
  unfold written. cbn [_ConstructContentList]. rewrite Haw, Hw.
  destruct (rest_in l) as [|c0 rest] eqn:Hl; [done|]. rewrite <- Hl in *. clear Hl.
  cbn [mbind res_bind]. eexists.
  split_and!; [done|by repeat first [by auto with clean|apply clean_app|apply clean_if]|].
  intros n s t l' r Hn. rewrite !append_assoc.
  set (ml := if negb (forallb is_str (rest_in l)) then new_line pretty else "").
  set (mi := if negb (forallb is_str (rest_in l)) then indentation pretty level else "").
  assert (Hml : codes text_char ml ml) by apply codes_if, codes_new_line.
  assert (Hmi : codes text_char mi mi) by apply codes_if, codes_indentation.
  set (N := String.length w + 1 + n).
  apply (read_nodes_mono (S N)); [unfold N; rewrite !length_append; cbn; lia|].
  pose proof (read_nodes_element N t l' r _ _ _ _ (codes_indentation pretty level) (codes_new_line pretty)
    (tree pretty level (Node (Str name :: l))) ("<" +:+ name +:+ aw +:+ ">" +:+ ml +:+ w +:+ mi +:+ "</" +:+ name +:+ ">") s
    (tag_opens _ _ Hname)) as H.
  rewrite !append_assoc in H. apply H; [|by apply (read_nodes_mono n); [unfold N; lia|]]. clear H.
  rewrite (read_opened name aw _ Hname Hread); [|done|by apply span_none].
  rewrite after_open, after_app. cbn [mbind option_bind].
  pose proof (read_nodes_codes _ _ _ _ _ _ _ Hml (Hbody _ _ _ _ (read_closing mi name (new_line pretty +:+ s) Hmi))) as H.
  rewrite (read_nodes_mono (String.length w + 1) N _ _ ltac:(unfold N; lia) H). cbn [mbind option_bind].
  pose proof (after_app ("</" +:+ name +:+ ">") (new_line pretty +:+ s)) as Hclose. rewrite !append_assoc in Hclose.
  rewrite Hclose. cbn [mbind option_bind tree]. fold mi ml.
  by destruct (children_of (tree pretty (S level)) pretty level mi (rest_in l)).
Qed.
Lemma well_formed_written c pretty level : well_formed c = true -> written pretty level c.
Proof.
  revert pretty level. induction c as [s|d|l IH] using content_ind'; intros pretty level Hwf; [done..|].
  destruct l as [|[name| |] l]; try discriminate.
  destruct (rest_in l) as [|c0 rest] eqn:Hrest; [by apply written_empty|].
  apply written_rest; [by rewrite Hrest| |done].
  cbn [well_formed] in Hwf. apply andb_true_iff in Hwf as [_ Hwf].
  apply list.Forall_forall. intros c Hc.
  rewrite forallb_forall in Hwf. rewrite list.Forall_forall in IH.
  specialize (Hwf c ltac:(by apply list_elem_of_In)). unfold child_written.
  destruct c as [|d|l']; [done|done|]. apply IH; [|done].
  apply list_elem_of_further. destruct l as [|[]]; [done| |by apply list_elem_of_further|]; exact Hc.
Qed.

(** ** Layout *)
Lemma children_texts f g pretty pretty' level level' rest : forallb is_str rest = true ->
  children_of f pretty level "" rest = children_of g pretty' level' "" rest /\
  (children_of f pretty level "" rest).2 = [].
Proof.
  unfold children_of. induction rest as [|[s| |] rest IH]; [done| |done..]. cbn [forallb is_str andb foldr].
  intros H. destruct (IH H) as [E IH2]. rewrite E in *. by destruct (foldr _ _ rest) as [t ch].
Qed.
Definition bare (x : xml * string) : xml * string := (without_layout x.1, "").
Lemma children_bare f g level level' last rest : existsb is_str rest = false ->
  Forall (fun c => without_layout (f c) = g c) rest ->
  map bare (children_of f true level last rest).2 = (children_of g false level' "" rest).2 /\
  (children_of g false level' "" rest).1 = "" /\
  (rest = [] \/ (children_of f true level last rest).2 <> []).
Proof.
  unfold children_of. intros Hs. induction 1 as [|c rest Hc Hrest IH]; [split_and!; auto|].
  cbn [existsb] in Hs. apply orb_false_iff in Hs as [Hsc Hs].
  destruct (IH Hs) as (IH1 & IH2 & _). cbn [foldr].
  destruct (foldr _ (last, []) rest) as [t ch]. destruct (foldr _ ("", []) rest) as [t' ch']. cbn [snd fst] in *. subst t'.
  destruct c as [|d|l]; [discriminate Hsc| |]; cbn [snd fst map]; (split_and!; [|done|by right]);
    unfold bare at 1; cbn [fst]; by rewrite Hc, IH1.
Qed.
Lemma without_layout_bare name d t x ch :
  without_layout (Elem name d t (x :: ch)) = Elem name d "" (map bare (x :: ch)).
Proof.
  cbn [without_layout]. f_equal.
  assert (Hmap : forall l : list (xml * string), map (fun '(c, _) => (without_layout c, "")) l = map bare l)
    by (intros l; apply map_ext; by intros []).
  apply Hmap.
Qed.
Lemma tree_layout c : unmixed c = true -> forall level level', without_layout (tree true level c) = tree false level' c.
Proof.
  induction c as [s|d|l IH] using content_ind'; intros Hu level level'; [done..|].
  destruct l as [|[name| |] l]; [done| |done..].
  cbn [unmixed List.tl] in Hu. apply andb_true_iff in Hu as [Hu Hl]. cbn [tree].
  apply orb_true_iff in Hu as [Hu|Hu].
  - rewrite Hu. cbn [negb].
    destruct (children_texts (tree true (S level)) (tree false (S level')) true false level level' _ Hu) as [E H2].
    rewrite E in H2 |- *.
    revert H2. clear E. destruct (children_of _ _ _ _ _) as [t ch]. cbn [snd]. by intros ->.
  - apply negb_true_iff in Hu.
    assert (Hf : Forall (fun c => without_layout (tree true (S level) c) = tree false (S level') c) (rest_in l)).
    { rewrite forallb_forall in Hl. rewrite list.Forall_forall in IH. apply list.Forall_forall. intros c Hc.
      assert (Hin : c ∈ Str name :: l)
        by (apply list_elem_of_further; destruct l as [|[]]; [done| |by apply list_elem_of_further|]; exact Hc).
      apply IH; [done|]. by apply Hl, list_elem_of_In. }
    set (mi := if negb (forallb is_str (rest_in l)) then _ else "").
    replace (if negb (forallb is_str (rest_in l)) then indentation false level' else "") with "" by (by destruct (forallb is_str (rest_in l))).
    destruct (children_bare _ _ level level' mi _ Hu Hf) as (Hch & Ht & Hne). revert Hch Ht Hne.
    destruct (children_of (tree true (S level)) true level mi (rest_in l)) as [t ch] eqn:Htrue.
    destruct (children_of _ false level' "" (rest_in l)) as [t' ch']. cbn [fst snd]. intros <- -> Hne.
    replace ((if negb (forallb is_str (rest_in l)) then new_line false else "") +:+ "") with "" by (by destruct (forallb is_str (rest_in l))).
    destruct Hne as [Hnil|Hne]; [|destruct ch; [done|by rewrite without_layout_bare]].
    rewrite Hnil in Htrue. cbn in Htrue. injection Htrue as <- <-. subst mi. by rewrite Hnil.
Qed.

(** ** What is written can be read *)
Lemma encoding_chars e : valid_encoding e = true ->
  str_forallb (fun c => negb (Ascii.eqb c dquote)) e = true /\ clean e.
Proof.
  unfold valid_encoding. destruct e as [|c e]; [done|]. intros [Hc He]%andb_true_iff.
  assert (Hcs : forall c, isalpha c || isdigit c || str_mem c "._-" = true ->
    negb (Ascii.eqb c dquote) = true /\ raw_char c = true).
  { clear. intros c. by destruct c as [[] [] [] [] [] [] [] []]. }
  assert (H : str_forallb (fun c => isalpha c || isdigit c || str_mem c "._-") (String c e) = true)
    by (cbn [str_forallb]; by rewrite Hc, He).
  revert H. generalize (String c e). clear -Hcs. unfold clean.
  induction s as [|c s IH]; cbn [str_forallb]; [done|]. intros [Hc Hs]%andb_true_iff.
  destruct (Hcs c Hc) as [-> ->], (IH Hs) as [-> ->]. done.
Qed.
Definition header (encoding : string) : string := declaration +:+ encoding +:+ String dquote "?>".
Lemma read_declared encoding s : valid_encoding encoding = true ->
  read_declaration (header encoding +:+ s) = Some s.
Proof.
  intros He. unfold read_declaration, header. rewrite !append_assoc, after_app. cbn [mbind option_bind].
  rewrite (append_cons dquote "?>" s).
  rewrite (span_app _ _ _ _ (proj1 (encoding_chars _ He))) by done. cbv iota beta. rewrite He.
  by rewrite <- append_cons, after_app.
Qed.
Lemma XmlToString_header l encoding pretty : XmlToString l encoding pretty =
  (body ← _ConstructContentList pretty 0 (Node l);
   Ok (header encoding +:+ new_line pretty +:+ body)).
Proof.
  unfold XmlToString, header, declaration. destruct (_ConstructContentList _ _ _); [|done..].
  cbn [mbind res_bind]. f_equal. rewrite !append_assoc. cbn [String.append]. by rewrite !append_assoc.
Qed.
Lemma layout_fuel pretty w : String.length w + 1 <= S (String.length (new_line pretty +:+ w)).
Proof. rewrite length_append. lia. Qed.

Lemma XmlToString_read l encoding pretty :
  well_formed (Node l) = true -> implb pretty (unmixed (Node l)) = true -> valid_encoding encoding = true ->
  exists s t, XmlToString l encoding pretty = Ok s /\ ReadXml s = Some t /\
    (if pretty then without_layout t else t) = tree false 0 (Node l).
Proof.
  intros Hwf Hu Henc. destruct (well_formed_written _ pretty 0 Hwf) as (w & Hw & Hclean & Hread).
  rewrite XmlToString_header, Hw. cbn [mbind res_bind]. do 2 eexists. split; [reflexivity|]. split.
  - assert (Hall : clean (header encoding +:+ new_line pretty +:+ w)).
    { destruct (encoding_chars _ Henc) as [_ He]. unfold header. auto 10 with clean. }
    unfold ReadXml. destruct (clean_line_ends _ Hall) as [-> ->]. cbn [negb].
    rewrite (read_declared _ _ Henc). cbn [mbind option_bind].
    pose proof (read_nodes_codes _ _ _ _ _ _ _ (codes_new_line pretty) (Hread 1 "" "" [] "" eq_refl)) as H.
    rewrite append_nil_r in H. rewrite (read_nodes_mono _ _ _ _ (layout_fuel pretty w) H). cbn [mbind option_bind].
    by destruct pretty.
  - destruct pretty; [by apply tree_layout|done].
Qed.
(** Children without texts, in the layout without layout. *)
Lemma children_plain f level rest : existsb is_str rest = false ->
  children_of f false level "" rest = ("", map (fun c => (f c, "")) rest).
Proof.
  unfold children_of. induction rest as [|c rest IH]; [done|]. cbn [existsb]. intros [Hc Hr]%orb_false_iff.
  cbn [foldr map]. rewrite (IH Hr). by destruct c.
Qed.

(** C30. A reader of XML finds in what [XmlToString] writes the element that its argument
    specifies, with the attributes sorted by their names and every text as it was, the
    characters that XML reserves and line ends included.  The argument's names are XML
    names, no attribute is given twice, its characters are such as XML has, and no
    attribute's value has a tab, which is written as it is and read as a space.  Where the
    layout is pretty, the white space around the elements is all that it adds, as long as
    no element has both texts and elements. *)
Theorem XmlToString_roundtrip l encoding pretty :
  well_formed (Node l) = true -> implb pretty (unmixed (Node l)) = true -> valid_encoding encoding = true ->
  exists s t, XmlToString l encoding pretty = Ok s /\ ReadXml s = Some t /\
    (if pretty then without_layout t else t) = tree false 0 (Node l).
Proof. exact (XmlToString_read l encoding pretty). Qed.
Lemma XmlToString_roundtrip_witness : exists s t,
  XmlToString example "utf-8" true = Ok s /\ ReadXml s = Some t /\ without_layout t = tree false 0 (Node example).
Proof. apply (XmlToString_roundtrip example "utf-8" true); reflexivity. Defined.

(** A tab in an attribute's value is not escaped, and comes back as a space. *)
Example tab_in_value :
  (XmlToString [Str "a"; Attrs [("b", Some (String horizontal_tab ""))]] "utf-8" false
     ≫= fun s => Ok (ReadXml s)) = Ok (Some (Elem "a" [("b", " ")] "" [])).
Proof. vm_compute. reflexivity. Qed.
