(* ===== verification/VcProject.v ===== *)
(** * Visual Studio projects, tool files and user files
      ([gyp/MSVSProject.py], [gyp/MSVSToolFile.py], [gyp/MSVSUserFile.py])

    Three writers, each with the sections that it collects until it is written as XML.
    The node of a file is shared between the section of files and the dictionary that
    [AddFileConfig] looks it up in: what is appended to it is kept in a store. *)
From S2P Require Import Prelude PyStr PyPath Ordered GypValue EasyXml.
From stdpp Require Import options.
#[local] Open Scope nat_scope.

Abbreviation attributes := (list (string * option string)).
Abbreviation set_attribute := (OrderedDict.assoc_set (V := option string)).

(** ** [MSVSToolFile] *)
Module ToolFile.
Record Writer := { name : string; rules_section : list content }.
Definition new (name : string) : Writer := {| name := name; rules_section := [Str "Rules"] |}.
Definition AddCustomBuildRule (name cmd description : string) (additional_dependencies outputs extensions : list string)
    (w : Writer) : Writer :=
  let rule := Node [Str "CustomBuildRule";
    Attrs [("Name", Some name); ("ExecutionDescription", Some description); ("CommandLine", Some cmd);
           ("Outputs", Some (join ";" outputs)); ("FileExtensions", Some (join ";" extensions));
           ("AdditionalDependencies", Some (join ";" additional_dependencies))]] in
  {| name := ToolFile.name w; rules_section := (rules_section w ++ [rule])%list |}.
Definition content_of (w : Writer) : list content :=
  [Str "VisualStudioToolFile"; Attrs [("Version", Some "8.00"); ("Name", Some (name w))]; Node (rules_section w)].
Definition WriteIfChanged (existing : option string) (crlf : bool) (w : Writer) : res (string * bool) :=
  WriteXmlIfChanged (content_of w) existing "Windows-1252" false false crlf.
End ToolFile.

(** ** [MSVSUserFile] *)
Module UserFile.
(** [is_executable] says which paths are files that may be run. *)
Definition _FindCommandInPath (path_variable : string) (pathsep : ascii) (is_executable : string -> bool) (command : string)
    : string :=
  if str_mem "/" command || str_mem "\" command then command
  else
    let items := map (fun path => path_join path [command]) (split_char pathsep path_variable) in
    default command (List.find is_executable items).
Definition quote_arg (arg : string) : string :=
  if str_mem dquote arg then
    String dquote (str_subst (fun c => if Ascii.eqb c dquote then String dquote (String dquote "") else String c "") arg
      +:+ String dquote "")
  else if str_existsb (fun c => str_mem c (String " " (String "009" nl))) arg then String dquote (arg +:+ String dquote "")
  else arg.
Definition _QuoteWin32CommandLineArgs : list string -> list string := map quote_arg.

Record Writer := { version : string; name : string; configurations : list (string * list content) }.
Definition new (version name : string) : Writer := {| version := version; name := name; configurations := [] |}.
Definition set_config (config : string) (spec : list content) (w : Writer) : Writer :=
  {| version := version w; name := name w; configurations := OrderedDict.assoc_set config spec (configurations w) |}.
Definition AddConfig (config : string) : Writer -> Writer :=
  set_config config [Str "Configuration"; Attrs [("Name", Some config)]].
(** [hostname] is the name of this machine; no environment is an empty one. *)
Definition AddDebugSettings (find_command : string -> string) (hostname : string) (config_name : string)
    (command : list string) (environment : list (string * string)) (working_directory : string) (w : Writer) : res Writer :=
  let command := _QuoteWin32CommandLineArgs command in
  command_0 ← of_option IndexError (head command);
  let abs_command := find_command command_0 in
  let environment := join " " (map (fun '(key, val) => key +:+ "=" +:+ String dquote (val +:+ String dquote "")) environment) in
  let n_cmd := Node [Str "DebugSettings";
    Attrs [("Command", Some abs_command); ("WorkingDirectory", Some working_directory);
           ("CommandArguments", Some (join " " (tail command))); ("RemoteMachine", Some hostname);
           ("Environment", Some environment); ("EnvironmentMerge", Some "true"); ("Attach", Some "false");
           ("DebuggerType", Some "3"); ("Remote", Some "1"); ("RemoteCommand", Some ""); ("HttpUrl", Some "");
           ("PDBPath", Some ""); ("SQLDebugging", Some ""); ("DebuggerFlavor", Some "0"); ("MPIRunCommand", Some "");
           ("MPIRunArguments", Some ""); ("MPIRunWorkingDirectory", Some ""); ("ApplicationCommand", Some "");
           ("ApplicationArguments", Some ""); ("ShimCommand", Some ""); ("MPIAcceptMode", Some ""); ("MPIAcceptFilter", Some "")]] in
  let w := if bool_decide (config_name ∈ (configurations w).*1) then w else AddConfig config_name w in
  spec ← of_option (KeyError config_name) (OrderedDict.assoc config_name (configurations w));
  Ok (set_config config_name (spec ++ [n_cmd])%list w).
Definition content_of (w : Writer) : list content :=
  [Str "VisualStudioUserFile"; Attrs [("Version", Some (version w)); ("Name", Some (name w))];
   Node (Str "Configurations" :: map (fun '(_, spec) => Node spec) (sorted_items (configurations w)))].
Definition WriteIfChanged (existing : option string) (crlf : bool) (w : Writer) : res (string * bool) :=
  WriteXmlIfChanged (content_of w) existing "Windows-1252" false false crlf.
End UserFile.

(** ** [MSVSProject] *)
Module Project.

(** A tool is its name and its attributes; a tool that is given by its name has none. *)
Definition Tool : Type := string * attributes.
Definition Tool_GetSpecification (t : Tool) : content := Node [Str "Tool"; Attrs (set_attribute "Name" (Some t.1) t.2)].
(** What [AddFiles] is given: paths of files, and filters with a name and contents. *)
Inductive file := File (path : string) | Filter (name : string) (contents : list file).

(** The node of a file is the one at its place in the store, which holds what was
    appended to it. *)
Inductive node := FileNode (at_ : nat) (path : string) | FilterNode (name : string) (l : list node).
Record Files := { files_section : list node; store : list (list content); files_dict : gmap string nat }.
Record Writer := {
  version : string; name : string; guid : option string;
  platform_section : list content; tool_files_section : list content; configurations_section : list content;
  files : Files }.

Definition no_files : Files := {| files_section := []; store := []; files_dict := ∅ |}.
Definition new (version name : string) (guid : option string) (platforms : list string) : Writer :=
  let platforms := match platforms with [] => ["Win32"] | _ => platforms end in
  {| version := version; name := name; guid := guid;
     platform_section := Str "Platforms" :: map (fun p => Node [Str "Platform"; Attrs [("Name", Some p)]]) platforms;
     tool_files_section := [Str "ToolFiles"]; configurations_section := [Str "Configurations"]; files := no_files |}.
Definition AddToolFile (path : string) (w : Writer) : Writer :=
  {| version := version w; name := name w; guid := guid w; platform_section := platform_section w;
     tool_files_section := (tool_files_section w ++ [Node [Str "ToolFile"; Attrs [("RelativePath", Some path)]]])%list;
     configurations_section := configurations_section w; files := files w |}.
Definition _GetSpecForConfiguration (config_type config_name : string) (attrs : attributes) (tools : list Tool) : content :=
  Node (Str config_type :: Attrs (set_attribute "Name" (Some config_name) attrs) :: map Tool_GetSpecification tools).
Definition AddConfig (config : string) (attrs : attributes) (tools : list Tool) (w : Writer) : Writer :=
  {| version := version w; name := name w; guid := guid w; platform_section := platform_section w;
     tool_files_section := tool_files_section w;
     configurations_section :=
       (configurations_section w ++ [_GetSpecForConfiguration "Configuration" config attrs tools])%list;
     files := files w |}.
Definition with_files (f : Files) (w : Writer) : Writer :=
  {| version := version w; name := name w; guid := guid w; platform_section := platform_section w;
     tool_files_section := tool_files_section w; configurations_section := configurations_section w; files := f |}.

(** The nodes for [l], with the store and the dictionary in which they were put. *)
Fixpoint _AddFilesToNode (f : file) (st : list (list content) * gmap string nat)
    : node * (list (list content) * gmap string nat) :=
  match f with
  | File path => (FileNode (length st.1) path, ((st.1 ++ [[]])%list, <[path := length st.1]> st.2))
  | Filter name contents =>
      let '(l, st) :=
        (fix go (l : list file) st :=
           match l with
           | [] => ([], st)
           | f :: l => let '(n, st) := _AddFilesToNode f st in let '(l, st) := go l st in (n :: l, st)
           end) contents st in
      (FilterNode name l, st)
  end.
Fixpoint add_files (l : list file) (st : list (list content) * gmap string nat)
    : list node * (list (list content) * gmap string nat) :=
  match l with
  | [] => ([], st)
  | f :: l => let '(n, st) := _AddFilesToNode f st in let '(l, st) := add_files l st in (n :: l, st)
  end.
Definition AddFiles (l : list file) (w : Writer) : Writer :=
  let '(nodes, (store', dict')) := add_files l (store (files w), files_dict (files w)) in
  with_files {| files_section := (files_section (files w) ++ nodes)%list; store := store'; files_dict := dict' |} w.
Definition AddFileConfig (path config : string) (attrs : attributes) (tools : list Tool) (w : Writer) : res Writer :=
  match files_dict (files w) !! path with
  | None => Err (ValueError ("AddFileConfig: file " +:+ String dquote (path +:+ String dquote " not in project.")))
  | Some parent =>
      let spec := _GetSpecForConfiguration "FileConfiguration" config attrs tools in
      Ok (with_files {| files_section := files_section (files w);
                        store := alter (fun l => (l ++ [spec])%list) parent (store (files w));
                        files_dict := files_dict (files w) |} w)
  end.

(** The section of files, as it is written *)
Fixpoint node_content (store : list (list content)) (n : node) : content :=
  match n with
  | FileNode at_ path => Node (Str "File" :: Attrs [("RelativePath", Some path)] :: default [] (store !! at_))
  | FilterNode name l => Node (Str "Filter" :: Attrs [("Name", Some name)] :: map (node_content store) l)
  end.
Definition content_of (w : Writer) : list content :=
  [Str "VisualStudioProject";
   Attrs [("ProjectType", Some "Visual C++"); ("Version", Some (version w)); ("Name", Some (name w));
          ("ProjectGUID", guid w); ("RootNamespace", Some (name w)); ("Keyword", Some "Win32Proj")];
   Node (platform_section w); Node (tool_files_section w); Node (configurations_section w); Node [Str "References"];
   Node (Str "Files" :: map (node_content (store (files w))) (files_section (files w))); Node [Str "Globals"]].
Definition WriteIfChanged (existing : option string) (crlf : bool) (w : Writer) : res (string * bool) :=
  WriteXmlIfChanged (content_of w) existing "Windows-1252" false false crlf.

(** A history of calls *)
Inductive op :=
  | OpToolFile (path : string)
  | OpConfig (config : string) (attrs : attributes) (tools : list Tool)
  | OpFiles (l : list file)
  | OpFileConfig (path config : string) (attrs : attributes) (tools : list Tool).
Definition run_op (w : Writer) (o : op) : res Writer :=
  match o with
  | OpToolFile path => Ok (AddToolFile path w)
  | OpConfig config attrs tools => Ok (AddConfig config attrs tools w)
  | OpFiles l => Ok (AddFiles l w)
  | OpFileConfig path config attrs tools => AddFileConfig path config attrs tools w
  end.

(** ** Without a store

    The files with what belongs to them; a configuration goes to the last of the files
    with its path. *)
Inductive sfile := SFile (path : string) (specs : list content) | SFilter (name : string) (l : list sfile).
Fixpoint fresh (f : file) : sfile :=
  match f with File path => SFile path [] | Filter name l => SFilter name (map fresh l) end.
Fixpoint attach (path : string) (spec : content) (f : sfile) : option sfile :=
  match f with
  | SFile p specs => if decide (p = path) then Some (SFile p (specs ++ [spec])%list) else None
  | SFilter name l =>
      SFilter name <$>
        (fix go (l : list sfile) :=
           match l with
           | [] => None
           | f :: l => match go l with
                       | Some l => Some (f :: l)
                       | None => (fun f => f :: l) <$> attach path spec f
                       end
           end) l
  end.
Fixpoint attach_last (path : string) (spec : content) (l : list sfile) : option (list sfile) :=
  match l with
  | [] => None
  | f :: l => match attach_last path spec l with
              | Some l => Some (f :: l)
              | None => (fun f => f :: l) <$> attach path spec f
              end
  end.
Fixpoint sfile_content (f : sfile) : content :=
  match f with
  | SFile path specs => Node (Str "File" :: Attrs [("RelativePath", Some path)] :: specs)
  | SFilter name l => Node (Str "Filter" :: Attrs [("Name", Some name)] :: map sfile_content l)
  end.
Definition spec_step (l : list sfile) (o : op) : res (list sfile) :=
  match o with
  | OpToolFile _ | OpConfig _ _ _ => Ok l
  | OpFiles files => Ok (l ++ map fresh files)%list
  | OpFileConfig path config attrs tools =>
      of_option (ValueError ("AddFileConfig: file " +:+ String dquote (path +:+ String dquote " not in project.")))
        (attach_last path (_GetSpecForConfiguration "FileConfiguration" config attrs tools) l)
  end.
End Project.
