(* ===== verification/VcProjectProps.v ===== *)
(** * The shared nodes of a Visual Studio project are not seen: theorems about
      [MSVSProject] *)
From S2P Require Import Prelude PyStr PyPath Ordered GypValue EasyXml VcProject.
From stdpp Require Import options.
Import Project.
#[local] Open Scope nat_scope.

(** ** Nested induction *)
Section Ind.
Context (P : file -> Prop) (HFile : forall path, P (File path)) (HFilter : forall name l, Forall P l -> P (Filter name l)).
Fixpoint file_ind' (f : file) : P f :=
  match f with
  | File path => HFile path
  | Filter name l =>
      HFilter name l ((fix go l := match l return Forall P l with
                       | [] => List.Forall_nil _
                       | x :: l => List.Forall_cons _ x l (file_ind' x) (go l) end) l)
  end.
Context (Q : node -> Prop) (HNode : forall i path, Q (FileNode i path))
  (HFilterNode : forall name l, Forall Q l -> Q (FilterNode name l)).
Fixpoint node_ind' (n : node) : Q n :=
  match n with
  | FileNode i path => HNode i path
  | FilterNode name l =>
      HFilterNode name l ((fix go l := match l return Forall Q l with
                           | [] => List.Forall_nil _
                           | x :: l => List.Forall_cons _ x l (node_ind' x) (go l) end) l)
  end.
End Ind.

(** ** What the nodes and the store stand for *)
Fixpoint view (st : list (list content)) (n : node) : sfile :=
  match n with
  | FileNode i path => SFile path (default [] (st !! i))
  | FilterNode name l => SFilter name (map (view st) l)
  end.
(** The nodes of files, in the order of the document *)
Fixpoint leaves (n : node) : list (nat * string) :=
  match n with FileNode i path => [(i, path)] | FilterNode _ l => l ≫= leaves end.
(** The dictionary knows the last of the nodes with a path. *)
Definition register (ls : list (nat * string)) (d : gmap string nat) : gmap string nat :=
  foldl (fun d x => <[x.2 := x.1]> d) d ls.

Lemma content_view st n : node_content st n = sfile_content (view st n).
Proof.
  induction n as [i path|name l IH] using node_ind'; [done|]. cbn. do 3 f_equal.
  induction IH as [|x l Hx _ IHl]; [done|]. cbn. by rewrite Hx, IHl.
Qed.
Lemma attach_filter path spec name l : attach path spec (SFilter name l) = SFilter name <$> attach_last path spec l.
Proof. cbn [attach]. f_equal. induction l as [|f l IH]; [done|]. cbn [attach_last]. by rewrite IH. Qed.
Lemma add_filter name l st :
  _AddFilesToNode (Filter name l) st = let '(l, st) := add_files l st in (FilterNode name l, st).
Proof.
  cbn [_AddFilesToNode]. assert (H : forall st, (fix go (l : list file) st := match l with
    | [] => ([], st) | f :: l => let '(n, st) := _AddFilesToNode f st in let '(l, st) := go l st in (n :: l, st) end) l st
    = add_files l st); [|by rewrite H].
  induction l as [|f l IH]; intros st'; [done|]. cbn [add_files].
  destruct (_AddFilesToNode f st') as [n st1]. by rewrite IH.
Qed.

Lemma register_app ls ls' d : register (ls ++ ls')%list d = register ls' (register ls d).
Proof. unfold register. by rewrite foldl_app. Qed.
Lemma register_lookup ls d p :
  register ls d !! p = match register ls ∅ !! p with Some i => Some i | None => d !! p end.
Proof.
  revert d. induction ls as [|[i q] ls IH] using rev_ind; intros d; [cbn; by rewrite lookup_empty|].
  rewrite !register_app. cbn [register foldl fst snd]. fold (register ls d) (register ls ∅).
  destruct (decide (q = p)) as [->|Hq]; [by rewrite !lookup_insert_eq|]. by rewrite !lookup_insert_ne, IH by done.
Qed.
Lemma register_in ls p i : register ls ∅ !! p = Some i -> i ∈ ls.*1.
Proof.
  induction ls as [|[j q] ls IH] using rev_ind; [cbn; by rewrite lookup_empty|].
  rewrite register_app, fmap_app. cbn [register foldl fst snd]. fold (register ls ∅).
  destruct (decide (q = p)) as [->|Hq]; [rewrite lookup_insert_eq|rewrite lookup_insert_ne by done]; set_solver.
Qed.

(** ** Adding files *)
Definition added (st st' : list (list content)) (d d' : gmap string nat) (ls : list (nat * string)) (k : nat) : Prop :=
  st' = (st ++ replicate k [])%list /\ ls.*1 = seq (length st) k /\ d' = register ls d.
Definition holds_empty (st : list (list content)) (i k : nat) : Prop := forall j, i <= j < i + k -> st !! j = Some [].
Definition adds_node (f : file) : Prop := forall st d n st' d', _AddFilesToNode f (st, d) = (n, (st', d')) ->
  exists k, added st st' d d' (leaves n) k /\ forall s, holds_empty s (length st) k -> view s n = fresh f.
Lemma add_files_spec l : Forall adds_node l -> forall st d l' st' d', add_files l (st, d) = (l', (st', d')) ->
  exists k, added st st' d d' (l' ≫= leaves) k /\ forall s, holds_empty s (length st) k -> map (view s) l' = map fresh l.
Proof.
  induction 1 as [|f l Hf _ IH]; intros st d l' st' d'; cbn [add_files].
  { intros [= <- <- <-]. exists 0. split; [|done]. unfold added. split_and!; [|done..]. by rewrite app_nil_r. }
  destruct (_AddFilesToNode f (st, d)) as [n [st1 d1]] eqn:H1. destruct (add_files l (st1, d1)) as [l1 [st2 d2]] eqn:H2.
  intros [= <- <- <-]. apply Hf in H1 as (k1 & (-> & Hi1 & ->) & Hv1). apply IH in H2 as (k2 & (-> & Hi2 & ->) & Hv2).
  rewrite length_app, length_replicate in *. exists (k1 + k2). split.
  - unfold added. csimpl. rewrite replicate_add, <- app_assoc, fmap_app, Hi1, Hi2, seq_app, register_app. done.
  - intros s Hs. cbn [map]. rewrite Hv1, Hv2; [done| |]; intros j Hj; apply Hs; lia.
Qed.
Lemma add_node_spec f : adds_node f.
Proof.
  induction f as [path|name l IH] using file_ind'; intros st d n st' d'.
  - intros [= <- <- <-]. exists 1. split; [done|]. intros s Hs. cbn. by rewrite Hs by lia.
  - rewrite add_filter. destruct (add_files l (st, d)) as [l1 [st1 d1]] eqn:H. intros [= <- <- <-].
    destruct (add_files_spec l IH _ _ _ _ _ H) as (k & Ha & Hv). exists k. split; [done|].
    intros s Hs. cbn. by rewrite Hv.
Qed.

(** ** Configurations of files *)
Definition append_spec (spec : content) : nat -> list (list content) -> list (list content) :=
  alter (fun l => (l ++ [spec])%list).
Lemma view_other st spec i n : i ∉ (leaves n).*1 -> view (append_spec spec i st) n = view st n.
Proof.
  induction n as [j path|name l IH] using node_ind'; cbn [leaves view].
  - intros Hi. unfold append_spec. rewrite list_lookup_alter_ne; [done|set_solver].
  - intros Hi. f_equal. induction IH as [|n l Hn _ IHl]; [done|]. csimpl in Hi. rewrite fmap_app in Hi.
    apply not_elem_of_app in Hi as [H1 H2]. cbn [map]. by rewrite Hn, IHl.
Qed.
Lemma views_other st spec i l : i ∉ (l ≫= leaves).*1 -> map (view (append_spec spec i st)) l = map (view st) l.
Proof. intros Hi. pose proof (view_other st spec i (FilterNode "" l) Hi) as H. by injection H. Qed.

Definition attaches (n : node) : Prop := forall st path spec,
  NoDup (leaves n).*1 -> Forall (fun i => i < length st) (leaves n).*1 ->
  attach path spec (view st n) = (fun i => view (append_spec spec i st) n) <$> register (leaves n) ∅ !! path.
Lemma attach_views l : Forall attaches l -> forall st path spec,
  NoDup (l ≫= leaves).*1 -> Forall (fun i => i < length st) (l ≫= leaves).*1 ->
  attach_last path spec (map (view st) l) =
  (fun i => map (view (append_spec spec i st)) l) <$> register (l ≫= leaves) ∅ !! path.
Proof.
  induction 1 as [|n l Hn _ IH]; intros st path spec; [done|]. csimpl. rewrite fmap_app.
  intros (Hnd & Hdisj & Hnd')%list.NoDup_app [Hlt Hlt']%Forall_app. cbn [attach_last map].
  rewrite (IH st path spec Hnd' Hlt'), (Hn st path spec Hnd Hlt), register_app, (register_lookup (l ≫= leaves) (register (leaves n) ∅)).
  destruct (register (l ≫= leaves) ∅ !! path) as [i|] eqn:Hi; cbn [fmap option_fmap option_map].
  - apply register_in in Hi. rewrite view_other; [done|]. intros Hin. by apply (Hdisj i).
  - destruct (register (leaves n) ∅ !! path) as [i|] eqn:Hi'; [|done]. cbn [fmap option_fmap option_map].
    apply register_in in Hi'. by rewrite views_other by by apply Hdisj.
Qed.
Lemma attach_view n : attaches n.
Proof.
  induction n as [i path|name l IH] using node_ind'; intros st p spec Hnd Hlt.
  - cbn [leaves view attach]. cbn [register foldl fst snd]. destruct (decide (path = p)) as [->|Hp].
    + rewrite lookup_insert_eq. cbn [fmap option_fmap option_map view]. unfold append_spec.
      apply Forall_inv in Hlt. cbn in Hlt. apply lookup_lt_is_Some_2 in Hlt as [x Hx]. by rewrite list_lookup_alter_eq, Hx.
    + by rewrite lookup_insert_ne, lookup_empty.
  - cbn [view]. rewrite attach_filter, (attach_views l IH) by done. cbn [leaves].
    by destruct (register (l ≫= leaves) ∅ !! p).
Qed.

(** ** The refinement *)
Record refines (fs : Files) (l : list sfile) : Prop := {
  ref_view : map (view (store fs)) (files_section fs) = l;
  ref_ids : (files_section fs ≫= leaves).*1 = seq 0 (length (store fs));
  ref_dict : files_dict fs = register (files_section fs ≫= leaves) ∅ }.

Lemma view_app st st' n : Forall (fun i => i < length st) (leaves n).*1 -> view (st ++ st')%list n = view st n.
Proof.
  induction n as [i path|name l IH] using node_ind'; cbn [leaves view].
  - intros Hi%Forall_inv. by rewrite lookup_app_l.
  - intros Hl. f_equal. induction IH as [|n l Hn _ IHl]; [done|]. csimpl in Hl. rewrite fmap_app in Hl.
    apply Forall_app in Hl as [H1 H2]. cbn [map]. by rewrite Hn, IHl.
Qed.
Lemma ids_small fs l : refines fs l -> Forall (fun i => i < length (store fs)) (files_section fs ≫= leaves).*1.
Proof. intros H. rewrite (ref_ids _ _ H). apply list.Forall_forall. intros i Hi%elem_of_seq. lia. Qed.
Lemma no_files_refines : refines no_files [].
Proof. done. Qed.
Lemma AddFiles_refines new w l : refines (files w) l -> refines (files (AddFiles new w)) (l ++ map fresh new)%list.
Proof.
  intros H. pose proof (ids_small _ _ H) as Hs. destruct H as [Hv Hi Hd]. unfold AddFiles.
  destruct (add_files new _) as [nodes [st' d']] eqn:Ha.
  apply add_files_spec in Ha as (k & (-> & Hids & ->) & Hnew); [|apply list.Forall_forall; intros; apply add_node_spec].
  split; cbn [files with_files files_section store files_dict].
  - rewrite map_app. f_equal.
    + rewrite <- Hv. pose proof (view_app (store (files w)) (replicate k []) (FilterNode "" (files_section (files w))) Hs) as E.
      by injection E.
    + apply Hnew. intros j Hj. rewrite lookup_app_r by lia. apply lookup_replicate. split; [done|lia].
  - rewrite bind_app, fmap_app, Hi, Hids, length_app, length_replicate. by rewrite seq_app.
  - by rewrite bind_app, register_app, Hd.
Qed.
Lemma AddFileConfig_refines path config attrs tools w l : refines (files w) l ->
  match AddFileConfig path config attrs tools w, spec_step l (OpFileConfig path config attrs tools) with
  | Ok w', Ok l' => refines (files w') l'
  | Err e, Err e' => e = e'
  | _, _ => False
  end.
Proof.
  intros H. pose proof (ids_small _ _ H) as Hs. destruct H as [<- Hi Hd]. unfold AddFileConfig. cbn [spec_step].
  set (spec := _GetSpecForConfiguration _ _ _ _).
  rewrite (attach_views _ (proj2 (list.Forall_forall _ _) (fun n _ => attach_view n))); [|rewrite Hi; apply NoDup_seq|done].
  rewrite Hd. destruct (register _ ∅ !! path) as [i|]; cbn; [|done].
  split; cbn [files with_files files_section store files_dict]; [done| |done].
  by rewrite length_alter.
Qed.

(** ** What is written *)
(** The sections keep their names. *)
Record sections (w : Writer) : Prop := {
  sec_platforms : exists l, platform_section w = Str "Platforms" :: l;
  sec_tools : exists l, tool_files_section w = Str "ToolFiles" :: l;
  sec_configs : exists l, configurations_section w = Str "Configurations" :: l }.
Lemma new_sections version name guid platforms : sections (new version name guid platforms).
Proof. split; by eexists. Qed.
Lemma call_sections w o w' : run_op w o = Ok w' -> sections w -> sections w'.
Proof.
  intros H [[l1 H1] [l2 H2] [l3 H3]]. destruct o as [path|config attrs tools|l|path config attrs tools]; cbn in H.
  - injection H as <-. split; cbn; rewrite ?H1, ?H2, ?H3; by eexists.
  - injection H as <-. split; cbn; rewrite ?H1, ?H2, ?H3; by eexists.
  - injection H as <-. unfold AddFiles. destruct (add_files l _) as [? [? ?]]. split; cbn; rewrite ?H1, ?H2, ?H3; by eexists.
  - unfold AddFileConfig in H. destruct (files_dict (files w) !! path); [|done]. injection H as <-.
    split; cbn; rewrite ?H1, ?H2, ?H3; by eexists.
Qed.
Lemma call_refines w l o : refines (files w) l ->
  match run_op w o, spec_step l o with
  | Ok w', Ok l' => refines (files w') l'
  | Err e, Err e' => e = e'
  | _, _ => False
  end.
Proof.
  intros H. destruct o as [path|config attrs tools|fs|path config attrs tools]; cbn [run_op]; [done|done| |].
  - by apply AddFiles_refines.
  - by apply AddFileConfig_refines.
Qed.
Lemma run_refines ops w l : refines (files w) l -> sections w ->
  match foldM run_op w ops, foldM spec_step l ops with
  | Ok w', Ok l' => refines (files w') l' /\ sections w'
  | Err e, Err e' => e = e'
  | _, _ => False
  end.
Proof.
  revert w l. induction ops as [|o ops IH]; intros w l Hw Hs; [done|]. cbn [foldM].
  pose proof (call_refines w l o Hw) as H.
  destruct (run_op w o) as [w'|e|] eqn:Ho; destruct (spec_step l o) as [l'|e'|]; try done.
  apply IH; [done|]. by eapply call_sections.
Qed.

Definition element_named (s : string) (x : xml * string) : bool := let 'Elem name _ _ _ := x.1 in String.eqb name s.
Definition files_of (x : xml) : option xml :=
  let 'Elem _ _ _ children := x in fst <$> List.find (element_named "Files") children.
Lemma element_named_tree s level name rest :
  element_named s (tree false level (Node (Str name :: rest)), "") = String.eqb name s.
Proof. unfold element_named. cbn [fst tree]. by destruct (children_of _ _ _ _ _). Qed.
Lemma files_of_content w l : refines (files w) l -> sections w ->
  files_of (tree false 0 (Node (content_of w))) = Some (tree false 1 (Node (Str "Files" :: map sfile_content l))).
Proof.
  intros [<- _ _] [[l1 H1] [l2 H2] [l3 H3]]. unfold content_of. rewrite H1, H2, H3, map_map.
  rewrite (map_ext _ _ (content_view (store (files w)))).
  set (F := Node (Str "Files" :: _)). assert (HF : element_named "Files" (tree false 1 F, "") = true) by apply element_named_tree.
  generalize dependent F. intros F HF. cbn [tree rest_in attributes_in].
  assert (HFs : is_str F = false) by (destruct F; [discriminate HF|done..]).
  rewrite children_plain by (cbn [existsb is_str orb]; by rewrite HFs). cbn [map files_of List.find].
  rewrite !element_named_tree, HF. done.
Qed.

(** C33. Whatever calls a project's writer has seen, its file says what they say in turn
    when each file has its own configurations instead of a node that is shared with a
    dictionary: a configuration belongs to the file that was last added with its path,
    and a [ValueError] is raised for a path that was not added; the XML that is written
    reads back with that tree of filters and files under [Files]. *)
Theorem project_refines version name guid platforms ops existing crlf :
  match foldM run_op (new version name guid platforms) ops, foldM spec_step [] ops with
  | Ok w, Ok l =>
      well_formed (Node (content_of w)) = true ->
      exists s changed t, WriteIfChanged existing crlf w = Ok (s, changed) /\ ReadXml s = Some t /\
        files_of t = Some (tree false 1 (Node (Str "Files" :: map sfile_content l)))
  | Err e, Err e' => e = e'
  | _, _ => False
  end.
Proof.
  pose proof (run_refines ops (new version name guid platforms) [] no_files_refines (new_sections _ _ _ _)) as H.
  destruct (foldM run_op _ ops) as [w| |], (foldM spec_step [] ops) as [l| |]; try done.
  destruct H as [Hl Hs]. intros Hwf.
  destruct (XmlToString_read (content_of w) "Windows-1252" false Hwf eq_refl eq_refl) as (s & t & Hw & Hread & Ht).
  unfold WriteIfChanged, WriteXmlIfChanged. rewrite Hw. do 3 eexists. split; [reflexivity|]. split; [exact Hread|].
  rewrite Ht. by apply files_of_content.
Qed.

Definition example_ops : list op :=
  [OpFiles [File "a.c"; Filter "sub" [File "a.c"; File "b & c.c"]]; OpConfig "Debug|Win32" [] [("VCLinkerTool", [])];
   OpFileConfig "a.c" "Debug|Win32" [("ExcludedFromBuild", Some "true")] []; OpToolFile "rules.xml"].
Example example_missing : foldM run_op (new "9.00" "p" None []) [OpFileConfig "a.c" "Debug" [] []] =
  Err (ValueError ("AddFileConfig: file " +:+ String dquote ("a.c" +:+ String dquote " not in project."))).
Proof. reflexivity. Qed.
Lemma project_refines_witness : exists w s changed t,
  foldM run_op (new "9.00" "p" (Some "{0-1}") []) example_ops = Ok w /\
  WriteIfChanged None true w = Ok (s, changed) /\ ReadXml s = Some t /\
  files_of t = Some (tree false 1 (Node (Str "Files" :: map sfile_content
    [SFile "a.c" [];
     SFilter "sub" [SFile "a.c" [Node [Str "FileConfiguration"; Attrs [("ExcludedFromBuild", Some "true"); ("Name", Some "Debug|Win32")]]];
                    SFile "b & c.c" []]]))).
Proof.
  pose proof (project_refines "9.00" "p" (Some "{0-1}") [] example_ops None true) as H.
  destruct (foldM run_op _ example_ops) as [w| |] eqn:E; [|done..]. vm_compute in E. injection E as <-.
  eexists. destruct (H eq_refl) as (s & changed & t & H1 & H2 & H3). exists s, changed, t.
  split; [reflexivity|]. split; [exact H1|]. split; [exact H2|exact H3].
Defined.
