(* ===== verification/MsvsUtil.v ===== *)
(** * Sharded targets and targets with large symbol files ([gyp/MSVSUtil.py])

    The targets are a dictionary of dictionaries; no two of them share a part, which
    is how [Load] leaves them, so that changing one in place is replacing it. *)
From S2P Require Import Prelude PyStr PyPath Ordered GypValue Targets MsvsSettings.
From stdpp Require Import options.
#[local] Open Scope nat_scope.

Definition TARGET_TYPE_EXT : list (string * string) :=
  [("executable", "exe"); ("loadable_module", "dll"); ("shared_library", "dll"); ("static_library", "lib")].

Definition _DeepCopySomeKeys (in_dict : dict) (keys : list string) : dict :=
  foldl (fun d key => match dget key in_dict with None => d | Some v => dset key (deepcopy v) d end) [] keys.
Definition _SuffixName (name suffix : string) : string :=
  match rsplit1 "#" name with
  | None => name +:+ "_" +:+ suffix
  | Some (foo, target) => (foo +:+ "_" +:+ suffix) +:+ "#" +:+ target
  end.
Definition _ShardName (name : string) (number : nat) : string := _SuffixName name (string_of_int (Z.of_nat number)).

(** ** [ShardTargets] *)

(** [int(target_dict.get(key, 0))] *)
Definition get_int (key : string) (target_dict : val) : res Z :=
  d ← as_dict "get" target_dict;
  match dget key d with Some v => int_of v | None => Ok 0%Z end.
Definition targets_to_shard (target_dicts : dict) : res (list (string * Z)) :=
  foldM (fun targets '(t, target_dict) =>
           shards ← get_int "msvs_shard" target_dict;
           Ok (if Z.eqb shards 0 then targets else OrderedDict.assoc_set t shards targets)) [] target_dicts.

(** [range(start, stop, step)] with a positive step *)
Definition range (start stop step : nat) : list nat :=
  map (fun k => start + k * step) (seq 0 ((stop - start + (step - 1)) / step)).
(** [len(v)] and [v[pos]], which a position within a dictionary is no key of. *)
Definition len (v : val) : res nat :=
  match v with
  | VInt _ => Err (TypeError "object of type 'int' has no len()")
  | VStr s => Ok (String.length s)
  | VList l => Ok (length l)
  | VDict d => Ok (length d)
  end.
Definition item (v : val) (pos : nat) : res val :=
  match v with
  | VInt _ => Err (TypeError "'int' object has no attribute '__getitem__'")
  | VStr s => of_option IndexError (chars s !! pos)
  | VList l => of_option IndexError (l !! pos)
  | VDict _ => Err (KeyError (string_of_int (Z.of_nat pos)))
  end.

Section Shard.
Context (targets : list (string * Z)).

Definition shard_names (t : string) : list string :=
  match OrderedDict.assoc t targets with
  | Some shards => map (_ShardName t) (seq 0 (Z.to_nat shards))
  | None => [t]
  end.
(** The [i]-th of the shards of a target *)
Definition shard_dict (shards i : nat) (target_dict : dict) : res dict :=
  target_name ← dindex "target_name" target_dict;
  target_name ← as_string "rsplit" target_name;
  let d := dset "target_name" (VStr (_ShardName target_name i)) target_dict in
  let sources := default (VList []) (dget "sources" d) in
  n ← len sources;
  new_sources ← foldM (fun acc pos => x ← item sources pos; Ok (acc ++ [x])%list) [] (range i n shards);
  Ok (dset "sources" (VList new_sources) d).
Definition shard_target (new_target_dicts : dict) (kv : string * val) : res dict :=
  let '(t, target_dict) := kv in
  match OrderedDict.assoc t targets with
  | Some shards =>
      foldM (fun new_target_dicts i =>
               d ← as_dict "rsplit" target_dict;
               d ← shard_dict (Z.to_nat shards) i d;
               Ok (dset (_ShardName t i) (VDict d) new_target_dicts))
        new_target_dicts (seq 0 (Z.to_nat shards))
  | None => Ok (dset t target_dict new_target_dicts)
  end.

Definition shard_dependency (d : val) : res (list val) :=
  match d with
  | VStr s => Ok (map VStr (shard_names s))
  | VInt _ => Ok [d]
  | _ => Err (TypeError ("unhashable type: '" +:+ type_name d +:+ "'"))
  end.
Definition shard_deptype (target_dict : dict) (deptype : string) : res dict :=
  dependencies ← get_list deptype target_dict;
  new_dependencies ← foldM (fun acc d => l ← shard_dependency d; Ok (acc ++ l)%list) [] dependencies;
  Ok (dset deptype (VList new_dependencies) target_dict).
Definition shard_dependencies (kv : string * val) : res (string * val) :=
  let '(t, target_dict) := kv in
  d ← as_dict "get" target_dict;
  d ← foldM shard_deptype d ["dependencies"; "dependencies_original"];
  Ok (t, VDict d).
End Shard.

Definition ShardTargets (target_list : list string) (target_dicts : dict) : res (list string * dict) :=
  targets ← targets_to_shard target_dicts;
  let new_target_list := target_list ≫= shard_names targets in
  new_target_dicts ← foldM (shard_target targets) [] target_dicts;
  new_target_dicts ← mapM (shard_dependencies targets) new_target_dicts;
  Ok (new_target_list, new_target_dicts).

(** ** Large symbol files *)

(** What [v[key]] and [v[key] = x] need, for a text [key] *)
Definition as_mapping (v : val) : res dict :=
  match v with
  | VDict d => Ok d
  | VStr _ => Err (TypeError "string indices must be integers, not str")
  | VList _ => Err (TypeError "list indices must be integers, not str")
  | VInt _ => Err (TypeError "'int' object has no attribute '__getitem__'")
  end.
(** [d.setdefault(key, {})], which is to be a dictionary and then is changed by [f] *)
Definition in_default (as_ : val -> res dict) (key : string) (f : dict -> res dict) (d : dict) : res dict :=
  inner ← as_ (default (VDict []) (dget key d));
  inner ← f inner;
  Ok (dset key (VDict inner) d).
(** [d.get(key, {}).get(key')], if it is true *)
Definition get_get (key key' : string) (d : dict) : res (option val) :=
  inner ← as_dict "get" (default (VDict []) (dget key d));
  Ok (v ← dget key' inner; if val_truthy v then Some v else None).
Definition default_pdb_path (target_dict vars : dict) : res val :=
  target_name ← dindex "target_name" target_dict;
  let pdb_base := default target_name (dget "product_name" target_dict) in
  type ← dindex "type" target_dict;
  type ← as_key type;
  ext ← of_option (KeyError type) (OrderedDict.assoc type TARGET_TYPE_EXT);
  product_dir ← dindex "PRODUCT_DIR" vars;
  product_dir ← as_text product_dir;
  Ok (VStr (product_dir +:+ "/" +:+ py_str pdb_base +:+ "." +:+ ext +:+ ".pdb")).
(** The path, and the target with the settings that looking for it creates. *)
Definition _GetPdbPath (target_dict : dict) (config_name : string) (vars : dict) : res (val * dict) :=
  configurations ← dindex "configurations" target_dict;
  configurations ← as_mapping configurations;
  config ← dindex config_name configurations;
  config ← as_dict "setdefault" config;
  let msvs := default (VDict []) (dget "msvs_settings" config) in
  let target_dict :=
    dset "configurations" (VDict (dset config_name (VDict (dset "msvs_settings" msvs config)) configurations)) target_dict in
  msvs ← as_dict "get" msvs;
  linker_path ← get_get "VCLinkerTool" "ProgramDatabaseFile" msvs;
  pdb_path ← match linker_path with
             | Some pdb_path => Ok pdb_path
             | None =>
                 variable_path ← get_get "variables" "msvs_large_pdb_path" target_dict;
                 match variable_path with
                 | Some pdb_path => Ok pdb_path
                 | None => default_pdb_path target_dict vars
                 end
             end;
  Ok (pdb_path, target_dict).

Definition set_items (items : list (string * val)) (d : dict) : res dict :=
  Ok (foldl (fun d kv => dset kv.1 kv.2 d) d items).
Definition config_shim (pdb_path : val) (config : dict) : res dict :=
  let config := foldl (fun c key => ddel key c) config ["msvs_precompiled_header"; "msvs_precompiled_source"; "test"] in
  in_default (as_dict "setdefault") "msvs_settings"
    (in_default as_mapping "VCCLCompilerTool"
       (set_items [("DebugInformationFormat", VStr "3"); ("ProgramDataBaseFileName", pdb_path)])) config.
Definition config_target (pdb_path : val) (config : dict) : res dict :=
  in_default (as_dict "setdefault") "msvs_settings"
    (in_default as_mapping "VCLinkerTool"
       (set_items [("GenerateDebugInformation", VStr "true"); ("ProgramDatabaseFile", pdb_path)])) config.
(** One configuration: what becomes of it in the shim, and of the target. *)
Definition shim_config (vars : dict) (st : dict * dict) (kv : string * val) : res (dict * dict) :=
  let '(configs, target_dict) := st in
  let '(config_name, config) := kv in
  '(pdb_path, target_dict) ← _GetPdbPath target_dict config_name vars;
  config ← as_dict "pop" config;
  config ← config_shim pdb_path config;
  configurations ← dindex "configurations" target_dict;
  configurations ← as_mapping configurations;
  target_config ← dindex config_name configurations;
  target_config ← as_dict "setdefault" target_config;
  target_config ← config_target pdb_path target_config;
  Ok ((configs ++ [(config_name, VDict config)])%list,
      dset "configurations" (VDict (dset config_name (VDict target_config) configurations)) target_dict).

Section LargePdb.
Context (large_pdb_shim_cc : string) (vars : dict).

Definition intermediate_dir (copy_target_name : string) : res string :=
  dir ← dindex "SHARED_INTERMEDIATE_DIR" vars; dir ← as_text dir; Ok (dir +:+ "/" +:+ copy_target_name).
Definition shim_target (st : list string * dict) (t : string) : res (list string * dict) :=
  let '(target_list, target_dicts) := st in
  target_dict ← dindex t target_dicts;
  target_dict ← as_dict "get" target_dict;
  let base_dict := _DeepCopySomeKeys target_dict ["configurations"; "default_configuration"; "toolset"] in
  target_name ← match dget "target_name" target_dict with
                | Some v => as_text v
                | None => Err (TypeError "unsupported operand type(s) for +: 'NoneType' and 'str'")
                end;
  let copy_target_name := target_name +:+ "_large_pdb_copy" in
  let full_copy_target_name := _SuffixName t "large_pdb_copy" in
  shim_cc_dir ← intermediate_dir copy_target_name;
  let shim_cc_path := shim_cc_dir +:+ "/" +:+ basename large_pdb_shim_cc in
  copy_dict ← set_items
    [("target_name", VStr copy_target_name); ("type", VStr "none"); ("sources", VList [VStr large_pdb_shim_cc]);
     ("copies", VList [VDict [("destination", VStr shim_cc_dir); ("files", VList [VStr large_pdb_shim_cc])]])] base_dict;
  let full_shim_target_name := _SuffixName t "large_pdb_shim" in
  shim_dict ← set_items
    [("target_name", VStr (target_name +:+ "_large_pdb_shim")); ("type", VStr "static_library");
     ("sources", VList [VStr shim_cc_path]); ("dependencies", VList [VStr full_copy_target_name])] base_dict;
  configurations ← of_option (AttributeError "iteritems") (dget "configurations" shim_dict);
  configurations ← as_dict "iteritems" configurations;
  '(configs, target_dict) ← foldM (shim_config vars) ([], target_dict) configurations;
  let shim_dict := dset "configurations" (VDict configs) shim_dict in
  dependencies ← match default (VList []) (dget "dependencies" target_dict) with
                 | VList l => Ok l
                 | _ => Err (AttributeError "append")
                 end;
  let target_dict := dset "dependencies" (VList (dependencies ++ [VStr full_shim_target_name])%list) target_dict in
  let target_dicts := dset t (VDict target_dict) target_dicts in
  let target_dicts := dset full_copy_target_name (VDict copy_dict) target_dicts in
  Ok (full_shim_target_name :: full_copy_target_name :: target_list,
      dset full_shim_target_name (VDict shim_dict) target_dicts).

Definition targets_to_shim (target_dicts : dict) : res (list string) :=
  foldM (fun acc '(t, target_dict) =>
           n ← get_int "msvs_large_pdb" target_dict;
           Ok (if Z.eqb n 0 then acc else (acc ++ [t])%list)) [] target_dicts.
Definition InsertLargePdbShims (target_list : list string) (target_dicts : dict) : res (list string * dict) :=
  targets ← targets_to_shim target_dicts;
  foldM shim_target (target_list, target_dicts) targets.
End LargePdb.
