(* ===== verification/MsvsUtilProps.v ===== *)
(** * Theorems about [MSVSUtil]: sharding and symbol files *)
From S2P Require Import Prelude PyStr PyPath Ordered GypValue Targets MsvsSettings MsvsUtil Merge.
From stdpp Require Import options.
#[local] Open Scope nat_scope.

(** ** [range] *)
Lemma range_elem start stop step p : 0 < step ->
  p ∈ range start stop step <-> exists k, p = start + k * step /\ p < stop.
Proof.
  intros Hs. unfold range. rewrite list_elem_of_In, in_map_iff. setoid_rewrite in_seq. split.
  - intros (k & <- & _ & Hk). exists k. split; [done|].
    pose proof (Nat.Div0.div_mod (stop - start + (step - 1)) step). nia.
  - intros (k & -> & Hp). exists k. split; [done|]. split; [lia|].
    apply Nat.div_le_lower_bound; [lia|]. nia.
Qed.
Lemma range_nodup start stop step : 0 < step -> NoDup (range start stop step).
Proof.
  intros Hs. unfold range. apply (NoDup_fmap_2_strong (fun k => start + k * step)); [|apply NoDup_seq].
  intros x y _ _. nia.
Qed.
(** The positions of the shards are all positions. *)
Lemma ranges_partition n m : 0 < n -> seq 0 n ≫= (fun i => range i m n) ≡ₚ seq 0 m.
Proof.
  intros Hn. apply NoDup_Permutation; [|apply NoDup_seq|].
  - apply NoDup_bind; [|intros; by apply range_nodup|apply NoDup_seq].
    intros i j p Hi Hj (k & -> & _)%range_elem (k' & E & _)%range_elem; [|done..].
    apply elem_of_seq in Hi, Hj. assert (k = k') by nia. nia.
  - intros p. rewrite list_elem_of_bind, elem_of_seq. setoid_rewrite elem_of_seq. split.
    + intros (i & (k & -> & Hp)%range_elem & Hi); [lia|done].
    + intros Hp. exists (p mod n). split; [|pose proof (Nat.mod_upper_bound p n); lia].
      apply range_elem; [done|]. exists (p / n). pose proof (Nat.div_mod_eq p n). lia.
Qed.

Lemma items_ok l ps acc : Forall (fun p => p < length l) ps ->
  foldM (fun acc pos => x ← item (VList l) pos; Ok (acc ++ [x])%list) acc ps =
  Ok (acc ++ omap (fun p => l !! p) ps)%list.
Proof.
  intros H. revert acc. induction H as [|p ps Hp _ IH]; intros acc; [by rewrite app_nil_r|].
  apply lookup_lt_is_Some_2 in Hp as [x Hx]. cbn [foldM item]. rewrite Hx. cbn [of_option mbind res_bind].
  rewrite IH, <- app_assoc. simpl. by rewrite Hx.
Qed.
Lemma lookup_all {A} (l : list A) : omap (fun p => l !! p) (seq 0 (length l)) = l.
Proof.
  assert (H : forall l2 l1 : list A, omap (fun p => (l1 ++ l2)%list !! p) (seq (length l1) (length l2)) = l2).
  { induction l2 as [|x l2 IH]; intros l1; [done|]. cbn [seq length]. simpl.
    rewrite list_lookup_middle by done. f_equal. specialize (IH (l1 ++ [x])%list).
    rewrite <- app_assoc in IH. rewrite length_app in IH. cbn [length] in IH. by rewrite Nat.add_1_r in IH. }
  exact (H l []).
Qed.
Lemma omap_bind {A B C} (f : A -> list B) (g : B -> option C) l :
  (l ≫= fun x => omap g (f x)) = omap g (l ≫= f).
Proof. induction l as [|x l IH]; [done|]. csimpl. by rewrite IH, list.omap_app. Qed.
Lemma concat_map_bind {A B} (f : A -> list B) l : concat (map f l) = l ≫= f.
Proof. induction l as [|x l IH]; [done|]. csimpl. by rewrite <- IH. Qed.
Lemma shards_partition {A} (l : list A) n : 0 < n ->
  (seq 0 n ≫= fun i => omap (fun p => l !! p) (range i (length l) n)) ≡ₚ l.
Proof.
  intros Hn. rewrite omap_bind. transitivity (omap (fun p => l !! p) (seq 0 (length l))); [|by rewrite lookup_all].
  by rewrite (ranges_partition n _ Hn).
Qed.

(** ** One target *)
Definition sources_of (d : dict) : option (list val) :=
  match dget "sources" d with None => Some [] | Some (VList l) => Some l | Some _ => None end.
Lemma shard_dict_spec n i d d' l : i < n -> shard_dict n i d = Ok d' -> sources_of d = Some l ->
  exists name, dget "target_name" d = Some (VStr name) /\ dget "target_name" d' = Some (VStr (_ShardName name i)) /\
    sources_of d' = Some (omap (fun p => l !! p) (range i (length l) n)) /\
    forall k, k ∉ ["target_name"; "sources"] -> dget k d' = dget k d.
Proof.
  intros Hi. unfold shard_dict, sources_of. intros H Hl.
  apply bind_ok in H as (tn & Htn & H). apply of_option_ok in Htn.
  apply bind_ok in H as (name & Hname & H). destruct tn as [|name'| |]; try discriminate. injection Hname as ->.
  rewrite assoc_set_other in H by done.
  assert (Hsrc : default (VList []) (dget "sources" d) = VList l)
    by (destruct (dget "sources" d) as [[| | |]|]; simplify_eq; done).
  rewrite Hsrc in H. cbn [len mbind res_bind] in H. rewrite items_ok in H.
  - cbn [mbind res_bind app] in H. injection H as <-. exists name. split_and!; [done| | |].
    + rewrite assoc_set_other by done. apply assoc_set_same.
    + by rewrite assoc_set_same.
    + intros k Hk. rewrite !assoc_set_other; [done|set_solver..].
  - apply list.Forall_forall. intros p (k & _ & Hp)%range_elem; [done|lia].
Qed.

(** ** Dependencies *)
Definition deptypes : list string := ["dependencies"; "dependencies_original"].
Section Shard.
Context (targets : list (string * Z)).

Definition dep_names (d : val) : list val :=
  match d with VStr s => map VStr (shard_names targets s) | _ => [d] end.
(** Every dependency has become all shards of it, and nothing else has changed but
    perhaps the given keys. *)
Definition rewired (keys : list string) (d d' : dict) : Prop :=
  (forall k, k ∈ deptypes -> exists l, get_list k d = Ok l /\ dget k d' = Some (VList (l ≫= dep_names))) /\
  forall k, k ∉ deptypes -> k ∉ keys -> dget k d' = dget k d.

Lemma shard_dependency_ok l acc r :
  foldM (fun acc d => l ← shard_dependency targets d; Ok (acc ++ l)%list) acc l = Ok r ->
  r = (acc ++ (l ≫= dep_names))%list.
Proof.
  revert acc. induction l as [|d l IH]; intros acc; cbn [foldM]; [intros [= <-]; by rewrite app_nil_r|].
  intros (acc' & Hd & H)%bind_ok. apply bind_ok in Hd as (names & Hd & [= <-]).
  rewrite (IH _ H), <- app_assoc. csimpl. do 2 f_equal.
  by destruct d; simplify_eq/=.
Qed.
Lemma shard_deptype_ok d k d' : shard_deptype targets d k = Ok d' ->
  exists l, get_list k d = Ok l /\ d' = dset k (VList (l ≫= dep_names)) d.
Proof.
  unfold shard_deptype. intros (l & Hl & H)%bind_ok. apply bind_ok in H as (r & Hr & [= <-]).
  apply shard_dependency_ok in Hr as ->. by exists l.
Qed.
Lemma shard_dependencies_ok t v kv' : shard_dependencies targets (t, v) = Ok kv' ->
  exists d d', v = VDict d /\ kv' = (t, VDict d') /\ rewired [] d d'.
Proof.
  unfold shard_dependencies. intros (d & Hd & H)%bind_ok. destruct v as [| | |d0]; try discriminate. injection Hd as ->.
  apply bind_ok in H as (d' & H & [= <-]). cbn [foldM] in H.
  apply bind_ok in H as (d1 & H1 & H). apply bind_ok in H as (d2 & H2 & [= <-]).
  apply shard_deptype_ok in H1 as (l1 & Hl1 & ->), H2 as (l2 & Hl2 & ->).
  exists d, (dset "dependencies_original" (VList (l2 ≫= dep_names)) (dset "dependencies" (VList (l1 ≫= dep_names)) d)).
  split_and!; [done..|]. split.
  - unfold deptypes. intros k Hk. apply elem_of_cons in Hk as [-> | Hk]; [|apply list_elem_of_singleton in Hk as ->].
    + exists l1. split; [done|]. rewrite assoc_set_other by done. apply assoc_set_same.
    + exists l2. split; [|apply assoc_set_same]. unfold get_list in *. by rewrite assoc_set_other in Hl2.
  - unfold deptypes. intros k Hk _. rewrite !assoc_set_other; [done|set_solver..].
Qed.

(** ** The new dictionary *)

(** What becomes of a target before its dependencies are looked at. *)
Definition pieces (kv : string * val) (new : list (string * val)) : Prop :=
  match OrderedDict.assoc kv.1 targets with
  | None => new = [kv]
  | Some shards =>
      Forall2 (fun i kv' => exists d d', kv.2 = VDict d /\ shard_dict (Z.to_nat shards) i d = Ok d' /\
                 kv' = (_ShardName kv.1 i, VDict d')) (seq 0 (Z.to_nat shards)) new
  end.
Lemma pieces_names kv new : pieces kv new -> new.*1 = shard_names targets kv.1.
Proof.
  unfold pieces, shard_names. destruct (OrderedDict.assoc kv.1 targets); [|by intros ->].
  induction 1 as [|i kv' js new (d & d' & _ & _ & ->) _ IH]; [done|]. csimpl. by rewrite IH.
Qed.
Lemma shard_pieces shards t v js acc r :
  foldM (fun new i => d ← as_dict "rsplit" v; d ← shard_dict shards i d; Ok (dset (_ShardName t i) (VDict d) new)) acc js = Ok r ->
  NoDup (acc.*1 ++ map (_ShardName t) js) ->
  exists new, r = (acc ++ new)%list /\
    Forall2 (fun i kv' => exists d d', v = VDict d /\ shard_dict shards i d = Ok d' /\ kv' = (_ShardName t i, VDict d')) js new.
Proof.
  revert acc. induction js as [|i js IH]; intros acc; cbn [foldM map].
  - intros [= <-] _. exists []. by rewrite app_nil_r.
  - intros (acc' & Hi & H)%bind_ok Hnd. apply bind_ok in Hi as (d & Hd & Hi). apply bind_ok in Hi as (d' & Hd' & [= <-]).
    assert (Hfresh : _ShardName t i ∉ acc.*1) by (apply list.NoDup_app in Hnd as (_ & Hn & _); intros Hin; apply (Hn _ Hin); left).
    rewrite OrderedDict.assoc_set_new in H by done.
    destruct (IH _ H) as (new & -> & Hnew).
    { rewrite fmap_app, <- app_assoc. exact Hnd. }
    exists ((_ShardName t i, VDict d') :: new). rewrite <- app_assoc. split; [done|]. constructor; [|done].
    exists d, d'. destruct v; simplify_eq/=. done.
Qed.
Lemma shard_targets_pieces td acc r : foldM (shard_target targets) acc td = Ok r ->
  NoDup (acc.*1 ++ (td.*1 ≫= shard_names targets)) ->
  exists news, r = (acc ++ concat news)%list /\ Forall2 pieces td news.
Proof.
  revert acc. induction td as [|[t v] td IH]; intros acc; cbn [foldM].
  - intros [= <-] _. exists []. by rewrite app_nil_r.
  - csimpl. intros (acc' & Ht & H)%bind_ok Hnd.
    assert (Hnew : exists new, acc' = (acc ++ new)%list /\ pieces (t, v) new).
    { rewrite app_assoc in Hnd. apply list.NoDup_app in Hnd as (Hnd & _).
      unfold shard_target in Ht. unfold pieces. cbn [fst snd]. unfold shard_names in Hnd.
      destruct (OrderedDict.assoc t targets) as [z|]; [by apply shard_pieces in Ht|].
      injection Ht as <-. exists [(t, v)]. split; [|done]. apply OrderedDict.assoc_set_new.
      apply list.NoDup_app in Hnd as (_ & Hn & _). intros Hin. apply (Hn _ Hin). left. }
    destruct Hnew as (new & -> & Hnew). destruct (IH _ H) as (news & -> & Hnews).
    { rewrite fmap_app, (pieces_names _ _ Hnew), <- app_assoc. exact Hnd. }
    exists (new :: news). cbn [concat]. rewrite app_assoc. split; [done|]. by constructor.
Qed.
Lemma dependencies_names l l' : Forall2 (fun kv kv' => shard_dependencies targets kv = Ok kv') l l' -> l'.*1 = l.*1.
Proof.
  induction 1 as [|[t v] kv' l l' H _ IH]; [done|]. csimpl.
  apply shard_dependencies_ok in H as (d & d' & _ & -> & _). by rewrite IH.
Qed.
Lemma all_names td news : Forall2 pieces td news -> (concat news).*1 = td.*1 ≫= shard_names targets.
Proof.
  induction 1 as [|kv new td news H _ IH]; [done|]. cbn [concat]. csimpl.
  by rewrite fmap_app, (pieces_names _ _ H), IH.
Qed.
Lemma rewired_trans d d1 d' : (forall k, k ∉ ["target_name"; "sources"] -> dget k d1 = dget k d) ->
  rewired [] d1 d' -> rewired ["target_name"; "sources"] d d'.
Proof.
  intros H1 [Hdeps Hrest]. split.
  - intros k Hk. destruct (Hdeps k Hk) as (l & Hl & Hd'). exists l. split; [|done].
    unfold get_list in *. rewrite H1 in Hl; [done|]. intros Hin. unfold deptypes in Hk.
    apply elem_of_cons in Hk as [-> | Hk]; [|apply list_elem_of_singleton in Hk as ->]; set_solver.
  - intros k Hk Hk'. rewrite Hrest; [by apply H1|done|apply not_elem_of_nil].
Qed.
End Shard.

Lemma assoc_elem {V} k (v : V) l : NoDup l.*1 -> (k, v) ∈ l -> OrderedDict.assoc k l = Some v.
Proof.
  induction l as [|[k' v'] l IH]; csimpl; [by intros _ []%not_elem_of_nil|].
  intros [Hk' Hnd]%list.NoDup_cons Hin. apply elem_of_cons in Hin as [[= -> ->]|Hin]; [by rewrite decide_True|].
  rewrite decide_False; [by apply IH|]. intros ->. apply Hk'. apply list_elem_of_fmap. by exists (k, v).
Qed.

Section Sharded.
Context (tl : list string) (td : dict) (tl' : list string) (td' : dict) (targets : list (string * Z)).
Context (Htargets : targets_to_shard td = Ok targets) (Hnd : NoDup (td.*1 ≫= shard_names targets)).
Context (Hrun : ShardTargets tl td = Ok (tl', td')).

Lemma run_pieces : tl' = tl ≫= shard_names targets /\ exists news, Forall2 (pieces targets) td news /\
  Forall2 (fun kv kv' => shard_dependencies targets kv = Ok kv') (concat news) td'.
Proof using Htargets Hnd Hrun.
  unfold ShardTargets in Hrun. rewrite Htargets in Hrun. cbn [mbind res_bind] in Hrun.
  apply bind_ok in Hrun as (r & Hr & H). apply bind_ok in H as (r' & Hr' & [= <- <-]).
  split; [done|]. destruct (shard_targets_pieces _ _ _ _ Hr Hnd) as (news & -> & Hnews).
  exists news. split; [done|]. by apply mapM_ok in Hr'.
Qed.
Lemma final_names : td'.*1 = td.*1 ≫= shard_names targets.
Proof using Htargets Hnd Hrun.
  destruct run_pieces as (_ & news & Hnews & Hdeps).
  by rewrite (dependencies_names _ _ _ Hdeps), (all_names _ _ _ Hnews).
Qed.
(** Every piece is found, with its dependencies rewired. *)
Lemma pieces_found t v : dget t td = Some v -> exists new, pieces targets (t, v) new /\
  forall k d, (k, VDict d) ∈ new -> exists d', dget k td' = Some (VDict d') /\ rewired targets [] d d'.
Proof using Htargets Hnd Hrun.
  intros Ht. destruct run_pieces as (_ & news & Hnews & Hdeps).
  apply OrderedDict.assoc_Some in Ht as (l1 & l2 & E & _).
  assert (Hnew : exists new, pieces targets (t, v) new /\ new ∈ news).
  { apply (Forall2_lookup_l _ _ _ (length l1) (t, v)) in Hnews as (new & Hl & Hp); [|by rewrite E, list_lookup_middle].
    exists new. split; [done|]. by eapply list_elem_of_lookup_2. }
  destruct Hnew as (new & Hp & Hin). exists new. split; [done|]. intros k d Hk.
  assert (Hc : (k, VDict d) ∈ concat news) by (apply list_elem_of_In, in_concat; exists new; by rewrite <- !list_elem_of_In).
  apply list_elem_of_lookup_1 in Hc as [i Hi].
  destruct (Forall2_lookup_l _ _ _ _ _ Hdeps Hi) as (kv' & Hi' & H).
  apply shard_dependencies_ok in H as (d0 & d' & [= <-] & -> & Hr). exists d'. split; [|done].
  apply assoc_elem; [by rewrite final_names|]. by eapply list_elem_of_lookup_2.
Qed.
Lemma whole_target t d : dget t td = Some (VDict d) -> OrderedDict.assoc t targets = None ->
  exists d', dget t td' = Some (VDict d') /\ rewired targets [] d d'.
Proof using Htargets Hnd Hrun.
  intros Ht Hnone. destruct (pieces_found _ _ Ht) as (new & Hp & Hnew).
  unfold pieces in Hp. cbn [fst] in Hp. rewrite Hnone in Hp. subst new. apply Hnew. left.
Qed.
Lemma sharded_target t d z l : dget t td = Some (VDict d) -> OrderedDict.assoc t targets = Some z -> (0 < z)%Z ->
  sources_of d = Some l ->
  exists parts, length parts = Z.to_nat z /\ concat parts ≡ₚ l /\
    forall i part, parts !! i = Some part -> exists d', dget (_ShardName t i) td' = Some (VDict d') /\
      sources_of d' = Some part /\ rewired targets ["target_name"; "sources"] d d'.
Proof using Htargets Hnd Hrun.
  intros Ht Hz Hpos Hl. destruct (pieces_found _ _ Ht) as (new & Hp & Hnew).
  unfold pieces in Hp. cbn [fst snd] in Hp. rewrite Hz in Hp. set (n := Z.to_nat z) in *.
  exists (map (fun i => omap (fun p => l !! p) (range i (length l) n)) (seq 0 n)). split_and!.
  - by rewrite length_map, length_seq.
  - rewrite concat_map_bind. apply shards_partition. unfold n. lia.
  - intros i part Hi. apply list_lookup_fmap_Some in Hi as (j & -> & Hj).
    apply lookup_seq in Hj as Hj'. destruct Hj' as [-> Hlt]. rewrite Nat.add_0_l in *.
    destruct (Forall2_lookup_l _ _ _ _ _ Hp Hj) as (kv' & Hkv & d0 & d1 & [= <-] & Hd1 & ->).
    destruct (Hnew _ _ (list_elem_of_lookup_2 _ _ _ Hkv)) as (d' & Hd' & Hr). exists d'.
    destruct (shard_dict_spec _ _ _ _ _ Hlt Hd1 Hl) as (name & _ & _ & Hs & Hrest). split_and!; [done| |].
    + unfold sources_of in *. rewrite (proj2 Hr); [done|unfold deptypes; set_solver|apply not_elem_of_nil].
    + exact (rewired_trans _ _ _ _ Hrest Hr).
Qed.
End Sharded.

(** C31. Targets are taken apart without losing or doubling a source: the shards of a
    target share out its sources, each target is followed by all of its shards where it
    stood, in the list and in the dictionary, and whatever depended on a target depends
    on all of its shards; nothing else of a target changes. *)
Theorem ShardTargets_partitions tl td tl' td' targets :
  targets_to_shard td = Ok targets -> NoDup (td.*1 ≫= shard_names targets) -> ShardTargets tl td = Ok (tl', td') ->
  tl' = tl ≫= shard_names targets /\ td'.*1 = td.*1 ≫= shard_names targets /\
  forall t d, dget t td = Some (VDict d) ->
    match OrderedDict.assoc t targets with
    | None => exists d', dget t td' = Some (VDict d') /\ rewired targets [] d d'
    | Some z => forall l, (0 < z)%Z -> sources_of d = Some l ->
        exists parts, length parts = Z.to_nat z /\ concat parts ≡ₚ l /\
          forall i part, parts !! i = Some part -> exists d', dget (_ShardName t i) td' = Some (VDict d') /\
            sources_of d' = Some part /\ rewired targets ["target_name"; "sources"] d d'
    end.
Proof.
  intros Ht Hnd Hrun. split_and!; [by eapply run_pieces|by eapply final_names|].
  intros t d Hd. destruct (OrderedDict.assoc t targets) as [z|] eqn:Hz; [|by eapply whole_target].
  intros l Hpos Hl. by eapply sharded_target.
Qed.

Definition example_targets : dict :=
  [("a.gyp:a#target", VDict [("target_name", VStr "a"); ("msvs_shard", VInt 2);
      ("sources", VList [VStr "x.c"; VStr "y.c"; VStr "z.c"])]);
   ("a.gyp:b#target", VDict [("target_name", VStr "b"); ("dependencies", VList [VStr "a.gyp:a#target"])])].
Example example_shards : ShardTargets ["a.gyp:a#target"; "a.gyp:b#target"] example_targets =
  Ok (["a.gyp:a_0#target"; "a.gyp:a_1#target"; "a.gyp:b#target"],
      [("a.gyp:a_0#target", VDict [("target_name", VStr "a_0"); ("msvs_shard", VInt 2);
          ("sources", VList [VStr "x.c"; VStr "z.c"]); ("dependencies", VList []); ("dependencies_original", VList [])]);
       ("a.gyp:a_1#target", VDict [("target_name", VStr "a_1"); ("msvs_shard", VInt 2);
          ("sources", VList [VStr "y.c"]); ("dependencies", VList []); ("dependencies_original", VList [])]);
       ("a.gyp:b#target", VDict [("target_name", VStr "b");
          ("dependencies", VList [VStr "a.gyp:a_0#target"; VStr "a.gyp:a_1#target"]); ("dependencies_original", VList [])])]).
Proof. vm_compute. reflexivity. Qed.
Lemma ShardTargets_partitions_witness : exists parts : list (list val), length parts = 2 /\
  concat parts ≡ₚ [VStr "x.c"; VStr "y.c"; VStr "z.c"].
Proof.
  destruct (ShardTargets ["a.gyp:a#target"; "a.gyp:b#target"] example_targets) as [[tl' td']| |] eqn:Hrun;
    [|discriminate Hrun..].
  destruct (ShardTargets_partitions _ example_targets tl' td' [("a.gyp:a#target", 2%Z)] eq_refl ltac:(decided) Hrun)
    as (_ & _ & H).
  destruct (H _ _ (eq_refl : dget "a.gyp:a#target" example_targets = Some (VDict _)) _ eq_refl eq_refl)
    as (parts & H1 & H2 & _).
  by exists parts.
Defined.

(** ** Symbol files *)
Definition config_at (d : dict) (c : string) : option dict :=
  cs ← dget "configurations" d;
  x ← match cs with VDict cs => dget c cs | _ => None end;
  match x with VDict x => Some x | _ => None end.
Definition setting (tool key : string) (config : dict) : option val :=
  msvs ← dget "msvs_settings" config;
  t ← match msvs with VDict msvs => dget tool msvs | _ => None end;
  match t with VDict t => dget key t | _ => None end.
Definition linker_path : dict -> option val := setting "VCLinkerTool" "ProgramDatabaseFile".
Definition compiler_path : dict -> option val := setting "VCCLCompilerTool" "ProgramDataBaseFileName".

Lemma as_dict_ok attr v d : as_dict attr v = Ok d -> v = VDict d.
Proof. destruct v; [discriminate..|]. by intros [= ->]. Qed.
Lemma as_mapping_ok v d : as_mapping v = Ok d -> v = VDict d.
Proof. destruct v; [discriminate..|]. by intros [= ->]. Qed.
Lemma in_default_ok as_ key f d d' : (forall v x, as_ v = Ok x -> v = VDict x) -> in_default as_ key f d = Ok d' ->
  exists x x', default (VDict []) (dget key d) = VDict x /\ f x = Ok x' /\ d' = dset key (VDict x') d.
Proof.
  intros Has. unfold in_default. intros (x & Hx & H)%bind_ok. apply bind_ok in H as (x' & Hx' & [= <-]).
  exists x, x'. split_and!; [by apply Has|done|done].
Qed.
(** What is set in a tool's settings is what they hold afterwards. *)
Lemma in_settings tool key key' v v' config config' : key <> key' ->
  in_default (as_dict "setdefault") "msvs_settings"
    (in_default as_mapping tool (set_items [(key', v'); (key, v)])) config = Ok config' ->
  setting tool key config' = Some v /\ (exists m, dget "msvs_settings" config' = Some (VDict m)).
Proof.
  intros Hne. intros (msvs & msvs' & _ & H & ->)%in_default_ok; [|by apply as_dict_ok].
  apply in_default_ok in H as (t & t' & _ & [= <-] & ->); [|by apply as_mapping_ok].
  split; [|eexists; apply assoc_set_same].
  unfold setting. rewrite assoc_set_same. cbn [mbind option_bind]. rewrite assoc_set_same. cbn [mbind option_bind foldl fst snd].
  apply assoc_set_same.
Qed.
Lemma config_at_set d cs c x c' : config_at (dset "configurations" (VDict (dset c (VDict x) cs)) d) c' =
  if decide (c' = c) then Some x else match dget c' cs with Some (VDict y) => Some y | _ => None end.
Proof.
  unfold config_at. rewrite assoc_set_same. cbn [mbind option_bind]. rewrite OrderedDict.assoc_set_lookup.
  case_decide; [done|]. by destruct (dget c' cs) as [[]|].
Qed.
Lemma _GetPdbPath_ok d c vars p d' : _GetPdbPath d c vars = Ok (p, d') ->
  exists cs config msvs, dget "configurations" d = Some (VDict cs) /\ dget c cs = Some (VDict config) /\
    d' = dset "configurations" (VDict (dset c (VDict (dset "msvs_settings" (VDict msvs) config)) cs)) d /\
    forall p0, linker_path config = Some p0 -> val_truthy p0 = true -> p = p0.
Proof.
  unfold _GetPdbPath. intros (v & Hv & H)%bind_ok. apply of_option_ok in Hv.
  apply bind_ok in H as (cs & ->%as_mapping_ok & H). apply bind_ok in H as (v & Hc & H). apply of_option_ok in Hc.
  apply bind_ok in H as (config & ->%as_dict_ok & H). apply bind_ok in H as (msvs & Hm%as_dict_ok & H).
  apply bind_ok in H as (lp & Hlp & H). apply bind_ok in H as (p' & Hp & [= -> <-]).
  exists cs, config, msvs. rewrite Hm. split_and!; [done..|]. intros p0 Hp0 Ht.
  unfold linker_path, setting in Hp0. destruct (dget "msvs_settings" config) as [m|]; [|done].
  cbn in Hm. subst m. cbn [mbind option_bind] in Hp0. unfold get_get in Hlp.
  destruct (dget "VCLinkerTool" msvs) as [t|]; [|done]. cbn [mbind option_bind default] in *. destruct t as [| | |t]; try done.
  cbn [as_dict mbind res_bind id] in Hlp. rewrite Hp0 in Hlp. cbn [mbind option_bind] in Hlp. rewrite Ht in Hlp.
  injection Hlp as <-. by injection Hp as ->.
Qed.

Lemma dindex_same k v d : dindex k (dset k v d) = Ok v.
Proof. unfold dindex. by rewrite assoc_set_same. Qed.
(** One configuration: its shim and the target agree on the path. *)
Lemma shim_config_ok vars configs d c v configs' d' : shim_config vars (configs, d) (c, v) = Ok (configs', d') ->
  exists p x config config', configs' = (configs ++ [(c, VDict x)])%list /\
    config_at d c = Some config /\ config_at d' c = Some config' /\
    compiler_path x = Some p /\ linker_path config' = Some p /\
    (forall p0, linker_path config = Some p0 -> val_truthy p0 = true -> p = p0) /\
    (forall c', c' <> c -> config_at d' c' = config_at d c') /\
    (forall k, k <> "configurations" -> dget k d' = dget k d).
Proof.
  unfold shim_config. intros ([p d1] & Hp & H)%bind_ok.
  apply _GetPdbPath_ok in Hp as (cs & config & msvs & Hcs & Hc & -> & Hexp).
  apply bind_ok in H as (x0 & _ & H). apply bind_ok in H as (x & Hx & H).
  rewrite dindex_same in H. cbn [mbind res_bind as_mapping] in H.
  rewrite dindex_same in H. cbn [mbind res_bind as_dict] in H.
  apply bind_ok in H as (config' & Hconfig' & [= <- <-]).
  unfold config_shim in Hx. apply in_settings in Hx as [Hx _]; [|done].
  unfold config_target in Hconfig'. apply in_settings in Hconfig' as [Hconfig' _]; [|done].
  exists p, x, config, config'. split_and!; [done| | |done|done|done| |].
  - unfold config_at. rewrite Hcs. cbn [mbind option_bind]. by rewrite Hc.
  - rewrite config_at_set. by rewrite decide_True.
  - intros c' Hne. rewrite config_at_set, decide_False by done. rewrite assoc_set_other by done.
    unfold config_at. rewrite Hcs. cbn [mbind option_bind]. by destruct (dget c' cs) as [[]|].
  - intros k Hk. by rewrite !assoc_set_other.
Qed.
(** The paths of one target and of its shim *)
Definition same_paths (d d' : dict) (shims : dict) (c : string) : Prop :=
  exists p x config config', (c, VDict x) ∈ shims /\ config_at d c = Some config /\ config_at d' c = Some config' /\
    compiler_path x = Some p /\ linker_path config' = Some p /\
    forall p0, linker_path config = Some p0 -> val_truthy p0 = true -> p = p0.
Lemma shim_configs_ok vars cs configs d configs' d' : NoDup cs.*1 ->
  foldM (shim_config vars) (configs, d) cs = Ok (configs', d') ->
  configs'.*1 = (configs.*1 ++ cs.*1)%list /\ (forall kv, kv ∈ configs -> kv ∈ configs') /\
  (forall c, c ∈ cs.*1 -> same_paths d d' configs' c) /\
  (forall c, c ∉ cs.*1 -> config_at d' c = config_at d c) /\
  (forall k, k <> "configurations" -> dget k d' = dget k d).
Proof.
  revert configs d. induction cs as [|[c v] cs IH]; intros configs d Hnd; cbn [foldM].
  { intros [= <- <-]. csimpl. rewrite app_nil_r. split_and!; [done..| |done|done]. by intros c Hc%not_elem_of_nil. }
  intros ([configs1 d1] & H1 & H)%bind_ok. csimpl in Hnd. apply list.NoDup_cons in Hnd as [Hc Hnd].
  apply shim_config_ok in H1 as (p & x & config & config' & -> & H1 & H2 & H3 & H4 & H5 & H6 & H7).
  destruct (IH _ _ Hnd H) as (I1 & I2 & I3 & I4 & I5). split_and!.
  - rewrite I1, fmap_app, <- app_assoc. done.
  - intros kv Hkv. apply I2. apply elem_of_app. by left.
  - csimpl. intros c' Hc'. apply elem_of_cons in Hc' as [-> | Hc'].
    + exists p, x, config, config'. split_and!; [apply I2; set_solver|done|by rewrite I4|done..].
    + assert (Hne : c' <> c) by (by intros ->).
      destruct (I3 c' Hc') as (p' & x' & y & y' & J1 & J2 & J3). exists p', x', y, y'. by rewrite H6 in J2.
  - csimpl. intros c' [Hne Hc']%not_elem_of_cons. rewrite I4 by done. by apply H6.
  - intros k Hk. rewrite I5 by done. by apply H7.
Qed.

Lemma base_configurations d :
  dget "configurations" (_DeepCopySomeKeys d ["configurations"; "default_configuration"; "toolset"]) =
  deepcopy <$> dget "configurations" d.
Proof.
  unfold _DeepCopySomeKeys. cbn [foldl].
  destruct (dget "configurations" d), (dget "default_configuration" d), (dget "toolset" d);
    rewrite ?assoc_set_other by done; rewrite ?assoc_set_same; done.
Qed.
Lemma deepcopy_keys (d : dict) : (map (fun kv : string * val => (kv.1, deepcopy kv.2)) d).*1 = d.*1.
Proof. induction d as [|kv d IH]; [done|]. csimpl. by rewrite IH. Qed.

Section LargePdb.
Context (large_pdb_shim_cc : string) (vars : dict).

Definition shim_name (t : string) : string := _SuffixName t "large_pdb_shim".
Definition copy_name (t : string) : string := _SuffixName t "large_pdb_copy".
Definition dependencies_of (d : dict) : list val :=
  match dget "dependencies" d with Some (VList l) => l | _ => [] end.
(** The target [t], which was [d], links with a shim that is compiled from a copy of
    the source file and that writes its symbols where the target does. *)
Definition has_shim (t : string) (d : dict) (td' : dict) : Prop := exists d' shim copy shims dir,
  dget t td' = Some (VDict d') /\ dget (shim_name t) td' = Some (VDict shim) /\ dget (copy_name t) td' = Some (VDict copy) /\
  dependencies_of d' = (dependencies_of d ++ [VStr (shim_name t)])%list /\
  (forall k, k ∉ ["configurations"; "dependencies"] -> dget k d' = dget k d) /\
  dependencies_of shim = [VStr (copy_name t)] /\
  dget "sources" shim = Some (VList [VStr (dir +:+ "/" +:+ basename large_pdb_shim_cc)]) /\
  dget "copies" copy = Some (VList [VDict [("destination", VStr dir); ("files", VList [VStr large_pdb_shim_cc])]]) /\
  dget "configurations" shim = Some (VDict shims) /\
  forall c, is_Some (config_at d c) -> same_paths d d' shims c.

Lemma shim_target_ok tl td t tl' td' d : dget t td = Some (VDict d) ->
  (forall cs, dget "configurations" d = Some (VDict cs) -> NoDup cs.*1) ->
  NoDup [t; copy_name t; shim_name t] -> shim_target large_pdb_shim_cc vars (tl, td) t = Ok (tl', td') ->
  tl' = shim_name t :: copy_name t :: tl /\ has_shim t d td' /\
  (forall k, k ∉ [t; copy_name t; shim_name t] -> dget k td' = dget k td).
Proof.
  intros Ht Hnd Hnames. unfold shim_target, dindex at 1. rewrite Ht. cbn [of_option mbind res_bind as_dict].
  intros (tn & _ & H)%bind_ok. apply bind_ok in H as (dir & _ & H). unfold set_items in H. cbn [mbind res_bind foldl fst snd] in H.
  rewrite !(assoc_set_other _ _ _ "configurations"), base_configurations in H by done.
  destruct (dget "configurations" d) as [[| | |cs]|] eqn:Hcs; try discriminate. specialize (Hnd cs eq_refl).
  cbn [fmap option_fmap option_map deepcopy of_option mbind res_bind as_dict] in H.
  apply bind_ok in H as ([configs d1] & Hc & H). apply bind_ok in H as (deps & Hdeps & [= <- <-]).
  apply shim_configs_ok in Hc as (_ & _ & C3 & _ & C5); [|by rewrite deepcopy_keys].
  fold (copy_name t) (shim_name t) in *.
  assert (Hdeps' : deps = dependencies_of d).
  { unfold dependencies_of. rewrite <- (C5 "dependencies") by done.
    destruct (dget "dependencies" d1) as [[]|]; simpl in Hdeps; simplify_eq; done. }
  split; [done|]. split.
  - unfold has_shim. do 5 eexists.
    apply list.NoDup_cons in Hnames as [N1 [N2 _]%list.NoDup_cons].
    apply not_elem_of_cons in N1 as [N1 N1']. rewrite list_elem_of_singleton in N1', N2.
    split_and!.
    + rewrite !assoc_set_other by done. apply assoc_set_same.
    + apply assoc_set_same.
    + rewrite assoc_set_other by done. apply assoc_set_same.
    + unfold dependencies_of at 1. rewrite assoc_set_same. by rewrite Hdeps'.
    + intros k Hk. rewrite assoc_set_other by set_solver. apply C5. set_solver.
    + unfold dependencies_of. rewrite assoc_set_other by done. by rewrite assoc_set_same.
    + rewrite !assoc_set_other by done. by rewrite assoc_set_same.
    + apply assoc_set_same.
    + apply assoc_set_same.
    + intros c [x Hx]. destruct (C3 c) as (p & y & config & config' & J1 & J2 & J3 & J4).
      { rewrite deepcopy_keys. unfold config_at in Hx. rewrite Hcs in Hx. cbn [mbind option_bind] in Hx.
        destruct (dget c cs) as [v|] eqn:Hc; [|done]. apply OrderedDict.assoc_Some in Hc as (l1 & l2 & -> & _).
        rewrite fmap_app. set_solver. }
      exists p, y, config, config'. split_and!; [done..| |apply J4|apply J4|apply J4].
      unfold config_at. by rewrite assoc_set_other.
  - intros k Hk. rewrite !assoc_set_other; [done|set_solver..].
Qed.
Definition new_names (t : string) : list string := [copy_name t; shim_name t].
Lemma has_shim_other t d td1 td2 : (forall k, k ∈ t :: new_names t -> dget k td2 = dget k td1) ->
  has_shim t d td1 -> has_shim t d td2.
Proof.
  intros H (d' & shim & copy & shims & dir & H1 & H2 & H3 & Hrest). exists d', shim, copy, shims, dir.
  unfold new_names in H. rewrite !H by set_solver. done.
Qed.
Lemma targets_to_shim_sublist (td : dict) (acc ts : list string) : foldM (fun acc '(t, target_dict) =>
    n ← get_int "msvs_large_pdb" target_dict; Ok (if Z.eqb n 0 then acc else (acc ++ [t])%list)) acc td = Ok ts ->
  exists l : list string, ts = (acc ++ l)%list /\ sublist l td.*1.
Proof.
  revert acc. induction td as [|[t v] td IH]; intros acc; cbn [foldM].
  { intros [= <-]. exists []. by rewrite app_nil_r. }
  intros (acc' & H1 & H)%bind_ok. apply bind_ok in H1 as (n & _ & [= <-]).
  destruct (IH _ H) as (l & -> & Hl). csimpl. destruct (Z.eqb n 0).
  - exists l. split; [done|]. by constructor.
  - exists (t :: l). rewrite <- app_assoc. split; [done|]. by constructor.
Qed.
Lemma targets_to_shim_dict (td : dict) (acc ts : list string) t : t ∉ acc -> foldM (fun acc '(t, target_dict) =>
    n ← get_int "msvs_large_pdb" target_dict; Ok (if Z.eqb n 0 then acc else (acc ++ [t])%list)) acc td = Ok ts ->
  t ∈ ts -> exists d, (t, VDict d) ∈ td.
Proof.
  revert acc. induction td as [|[k v] l IH]; intros acc Hacc; cbn [foldM]; [by intros [= <-]|].
  intros (acc' & H1 & H)%bind_ok Ht. apply bind_ok in H1 as (n & Hn & [= <-]).
  apply bind_ok in Hn as (d & ->%as_dict_ok & _).
  destruct (decide (k = t)) as [->|Hk]; [exists d; left|].
  destruct (IH (if Z.eqb n 0 then acc else (acc ++ [k])%list)) as [d' Hd']; [|done|done|exists d'; by right].
  destruct (Z.eqb n 0); [done|]. set_solver.
Qed.
Lemma shim_targets_ok ts tl td tl' td' : NoDup (ts ++ (ts ≫= new_names)) ->
  (forall t, t ∈ ts -> exists d, dget t td = Some (VDict d) /\
     forall cs, dget "configurations" d = Some (VDict cs) -> NoDup cs.*1) ->
  foldM (shim_target large_pdb_shim_cc vars) (tl, td) ts = Ok (tl', td') ->
  tl' = (rev (ts ≫= new_names) ++ tl)%list /\
  (forall k, k ∉ ts -> k ∉ ts ≫= new_names -> dget k td' = dget k td) /\
  forall t d, t ∈ ts -> dget t td = Some (VDict d) -> has_shim t d td'.
Proof.
  revert tl td. induction ts as [|t ts IH]; intros tl td Hnd Hts; cbn [foldM].
  { intros [= <- <-]. split_and!; [done..|]. by intros t d []%not_elem_of_nil. }
  intros ([tl1 td1] & H1 & H)%bind_ok. destruct (Hts t) as (d & Hd & Hcs); [left|].
  csimpl in Hnd. apply list.NoDup_cons in Hnd as [Ht Hnd].
  assert (Hsplit : NoDup (new_names t ++ ts ++ (ts ≫= new_names))).
  { revert Hnd. apply NoDup_Permutation_proper. apply (Permutation_app_swap_app (new_names t) ts). }
  apply list.NoDup_app in Hsplit as (Hnew & Hdisj & Hnd').
  assert (Hnames : NoDup (t :: new_names t)) by (apply list.NoDup_cons; split; [set_solver|done]).
  destruct (shim_target_ok _ _ _ _ _ _ Hd Hcs Hnames H1) as (-> & Hs & Hother).
  assert (Hfresh : forall k, k ∈ ts \/ k ∈ ts ≫= new_names -> k ∉ t :: new_names t).
  { intros k Hk Hin. apply elem_of_cons in Hin as [-> | Hin]; [set_solver|]. apply (Hdisj _ Hin). set_solver. }
  destruct (IH (shim_name t :: copy_name t :: tl) td1 Hnd') as (-> & I2 & I3); [|done|].
  { intros t' Ht'. destruct (Hts t') as (d' & Hd' & Hcs'); [by right|]. exists d'. split; [|done].
    rewrite Hother; [done|]. apply Hfresh. by left. }
  split_and!.
  - csimpl. unfold new_names at 2. simpl. by rewrite <- !app_assoc.
  - csimpl. intros k Hk Hk'. rewrite I2, Hother; set_solver.
  - intros t' d' Ht' Hd'. apply elem_of_cons in Ht' as [-> | Ht'].
    + rewrite Hd in Hd'. injection Hd' as <-. revert Hs. apply has_shim_other.
      intros k Hk. apply I2; intros Hin; apply (Hfresh k); auto.
    + apply I3; [done|]. rewrite Hother; [done|]. apply Hfresh. by left.
Qed.
End LargePdb.

Lemma wf_configurations d cs : val_wf (VDict d) -> dget "configurations" d = Some (VDict cs) -> NoDup cs.*1.
Proof.
  intros [_ Hd]%val_wf_dict Hcs. apply OrderedDict.assoc_Some in Hcs as (l1 & l2 & -> & _).
  rewrite list.Forall_forall in Hd. specialize (Hd ("configurations", VDict cs) ltac:(set_solver)).
  by apply val_wf_dict in Hd as [Hd _].
Qed.

(** C32. Each target with a large symbol file, and no other, gets a shim and a copy of the
    shim's source, which come first in the list: the target is linked with the shim, the
    shim is compiled from the copy, and in every configuration the compiler of the shim
    and the linker of the target write the same symbol file, the one that the linker had
    been told to write, if it was. *)
Theorem InsertLargePdbShims_inserts cc vars tl td tl' td' ts :
  val_wf (VDict td) -> targets_to_shim td = Ok ts -> NoDup (td.*1 ++ (ts ≫= new_names)) ->
  InsertLargePdbShims cc vars tl td = Ok (tl', td') ->
  tl' = (rev (ts ≫= new_names) ++ tl)%list /\
  (forall t, t ∈ td.*1 -> t ∉ ts -> dget t td' = dget t td) /\
  forall t d, t ∈ ts -> dget t td = Some (VDict d) -> has_shim cc t d td'.
Proof.
  intros Hwf Hts Hnd. unfold InsertLargePdbShims. rewrite Hts. cbn [mbind res_bind]. intros Hrun.
  destruct (targets_to_shim_sublist _ _ _ Hts) as (l & E & Hl). simpl in E. subst l.
  destruct (shim_targets_ok cc vars ts tl td tl' td') as (-> & I2 & I3); [| |done|].
  - apply list.NoDup_app in Hnd as (H1 & H2 & H3). apply list.NoDup_app.
    split_and!; [by apply (sublist_NoDup _ td.*1)|intros t Ht; apply H2; by apply (elem_of_sublist ts)|done].
  - intros t Ht. apply list.NoDup_app in Hnd as (Hnd & _).
    destruct (targets_to_shim_dict _ [] _ t (not_elem_of_nil _) Hts Ht) as [d Hd]. exists d. split; [by apply assoc_elem|].
    intros cs. apply wf_configurations. apply val_wf_dict in Hwf as [_ Hwf]. rewrite list.Forall_forall in Hwf.
    exact (Hwf _ Hd).
  - split_and!; [done| |done]. intros t Ht Hts'. apply I2; [done|].
    apply list.NoDup_app in Hnd as (_ & Hnd & _). by apply Hnd.
Qed.

Definition example_large : dict :=
  [("a.gyp:a#target", VDict [("target_name", VStr "a"); ("type", VStr "executable"); ("msvs_large_pdb", VInt 1);
      ("configurations", VDict [("Debug", VDict [])])]);
   ("a.gyp:b#target", VDict [("target_name", VStr "b")])].
Definition example_vars : dict := [("PRODUCT_DIR", VStr "out"); ("SHARED_INTERMEDIATE_DIR", VStr "gen")].
Example example_pdb : (InsertLargePdbShims "/gyp/large-pdb-shim.cc" example_vars [] example_large ≫= fun r =>
    t ← dindex "a.gyp:a#target" r.2; t ← as_dict "get" t;
    c ← of_option (KeyError "Debug") (config_at t "Debug"); Ok (r.1, linker_path c)) =
  Ok (["a.gyp:a_large_pdb_shim#target"; "a.gyp:a_large_pdb_copy#target"], Some (VStr "out/a.exe.pdb")).
Proof. vm_compute. reflexivity. Qed.
Lemma InsertLargePdbShims_inserts_witness : exists td' : dict,
  has_shim "/gyp/large-pdb-shim.cc" "a.gyp:a#target"
    [("target_name", VStr "a"); ("type", VStr "executable"); ("msvs_large_pdb", VInt 1);
     ("configurations", VDict [("Debug", VDict [])])] td'.
Proof.
  destruct (InsertLargePdbShims "/gyp/large-pdb-shim.cc" example_vars [] example_large) as [[tl' td']| |] eqn:Hrun;
    [|discriminate Hrun..].
  exists td'.
  eapply (InsertLargePdbShims_inserts _ _ [] example_large tl' td' ["a.gyp:a#target"]); [|reflexivity|decided|exact Hrun|left|reflexivity].
  repeat split; decided.
Defined.
