(* ===== verification/Md5.v ===== *)
(** * The MD5 digest of the standard library ([hashlib.md5]), as RFC 1321 has it *)
From S2P Require Import Prelude PyStr.
From stdpp Require Import options.
#[local] Open Scope Z_scope.

(** ** Words of 32 bits *)
Definition w32 (x : Z) : Z := x mod 2 ^ 32.
Definition not32 (x : Z) : Z := Z.lxor x 0xffffffff.
Definition rotl (x : Z) (n : Z) : Z := Z.lor (w32 (Z.shiftl x n)) (Z.shiftr x (32 - n)).

Definition shifts : list Z :=
  concat (map (fun l => concat (repeat l 4)) [[7; 12; 17; 22]; [5; 9; 14; 20]; [4; 11; 16; 23]; [6; 10; 15; 21]]).
(** [floor(2 ** 32 * abs(sin(i + 1)))] *)
Definition sines : list Z :=
  [
   0xd76aa478; 0xe8c7b756; 0x242070db; 0xc1bdceee; 0xf57c0faf; 0x4787c62a; 0xa8304613; 0xfd469501;
   0x698098d8; 0x8b44f7af; 0xffff5bb1; 0x895cd7be; 0x6b901122; 0xfd987193; 0xa679438e; 0x49b40821;
   0xf61e2562; 0xc040b340; 0x265e5a51; 0xe9b6c7aa; 0xd62f105d; 0x02441453; 0xd8a1e681; 0xe7d3fbc8;
   0x21e1cde6; 0xc33707d6; 0xf4d50d87; 0x455a14ed; 0xa9e3e905; 0xfcefa3f8; 0x676f02d9; 0x8d2a4c8a;
   0xfffa3942; 0x8771f681; 0x6d9d6122; 0xfde5380c; 0xa4beea44; 0x4bdecfa9; 0xf6bb4b60; 0xbebfbc70;
   0x289b7ec6; 0xeaa127fa; 0xd4ef3085; 0x04881d05; 0xd9d4d039; 0xe6db99e5; 0x1fa27cf8; 0xc4ac5665;
   0xf4292244; 0x432aff97; 0xab9423a7; 0xfc93a039; 0x655b59c3; 0x8f0ccc92; 0xffeff47d; 0x85845dd1;
   0x6fa87e4f; 0xfe2ce6e0; 0xa3014314; 0x4e0811a1; 0xf7537e82; 0xbd3af235; 0x2ad7d2bb; 0xeb86d391].

(** ** Bytes and words *)
Definition bytes (s : string) : list Z := map (fun c => Z.of_N (N_of_ascii c)) (String.list_ascii_of_string s).
Fixpoint little_endian (n : nat) (x : Z) : list Z :=
  match n with O => [] | S n => x mod 256 :: little_endian n (x / 256) end.
Definition of_little_endian : list Z -> Z := foldr (fun b x => b + 256 * x) 0.
Fixpoint groups {A} (size : nat) (n : nat) (l : list A) : list (list A) :=
  match n with O => [] | S n => take size l :: groups size n (drop size l) end.
Definition padded (l : list Z) : list Z :=
  (l ++ 0x80 :: repeat 0 (Z.to_nat ((55 - Z.of_nat (length l)) mod 64)) ++ little_endian 8 (8 * Z.of_nat (length l)))%list.

(** ** Rounds *)
Definition round (block : list Z) (st : Z * Z * Z * Z) (i : nat) : Z * Z * Z * Z :=
  let '(a, b, c, d) := st in
  let '(f, g) := match (i / 16)%nat with
                 | 0%nat => (Z.lor (Z.land b c) (Z.land (not32 b) d), i)
                 | 1%nat => (Z.lor (Z.land d b) (Z.land (not32 d) c), (5 * i + 1)%nat)
                 | 2%nat => (Z.lxor b (Z.lxor c d), (3 * i + 5)%nat)
                 | _ => (Z.lxor c (Z.lor b (not32 d)), (7 * i)%nat)
                 end in
  let f := w32 (f + a + nth i sines 0 + nth (g mod 16)%nat block 0) in
  (d, w32 (b + rotl f (nth i shifts 0)), b, c).
Definition digest_block (st : Z * Z * Z * Z) (block : list Z) : Z * Z * Z * Z :=
  let '(a, b, c, d) := st in
  let '(a', b', c', d') := foldl (round (map of_little_endian (groups 4 16 block))) st (seq 0 64) in
  (w32 (a + a'), w32 (b + b'), w32 (c + c'), w32 (d + d')).
Definition md5 (s : string) : list Z :=
  let l := padded (bytes s) in
  let '(a, b, c, d) := foldl digest_block (0x67452301, 0xefcdab89, 0x98badcfe, 0x10325476) (groups 64 (length l / 64) l) in
  concat (map (little_endian 4) [a; b; c; d]).

Definition hex_digit (x : Z) : ascii := ascii_of_nat (Z.to_nat (if x <? 10 then 48 + x else 87 + x)).
Definition hex_byte (x : Z) : string := String (hex_digit (x / 16)) (String (hex_digit (x mod 16)) "").
Definition hexdigest (l : list Z) : string := join "" (map hex_byte l).

Example md5_empty : hexdigest (md5 "") = "d41d8cd98f00b204e9800998ecf8427e".
Proof. vm_compute. reflexivity. Qed.
Example md5_abc : hexdigest (md5 "abc") = "900150983cd24fb0d6963f7d28e17f72".
Proof. vm_compute. reflexivity. Qed.
Example md5_two_blocks :
  hexdigest (md5 "12345678901234567890123456789012345678901234567890123456789012345678901234567890") =
  "57edf4a22be3c955ac49da2e2107b67a".
Proof. vm_compute. reflexivity. Qed.

(** ** The form of a digest *)
Lemma little_endian_bytes n x : length (little_endian n x) = n /\ Forall (fun b => 0 <= b < 256) (little_endian n x).
Proof.
  revert x. induction n as [|n IH]; intros x; [by split|]. destruct (IH (x / 256)) as [Hl Hb].
  cbn [little_endian length]. split; [by rewrite Hl|]. constructor; [|done]. apply Z.mod_pos_bound. lia.
Qed.
Lemma md5_bytes s : length (md5 s) = 16%nat /\ Forall (fun b => 0 <= b < 256) (md5 s).
Proof.
  unfold md5. destruct (foldl _ _ _) as [[[a b] c] d]. cbn [map concat].
  rewrite !length_app, !Forall_app. cbn [length].
  rewrite !(fun x => proj1 (little_endian_bytes 4 x)). split; [done|]. by split_and!; try apply little_endian_bytes.
Qed.
Definition is_hex (c : ascii) : bool := isdigit c || in_range 97 102 c.
Lemma hex_digit_is_hex x : 0 <= x < 16 -> is_hex (hex_digit x) = true.
Proof.
  intros H. rewrite <- (Z2Nat.id x) by lia. assert (Hn : (Z.to_nat x < 16)%nat) by lia. revert Hn.
  generalize (Z.to_nat x). clear. intros n Hn. do 16 (destruct n as [|n]; [reflexivity|]). lia.
Qed.
Lemma hexdigest_form l : Forall (fun b => 0 <= b < 256) l ->
  String.length (hexdigest l) = (2 * length l)%nat /\ str_forallb is_hex (hexdigest l) = true.
Proof.
  induction 1 as [|b l Hb Hl [IHl IHh]]; [done|].
  assert (E : hexdigest (b :: l) = hex_byte b +:+ hexdigest l).
  { unfold hexdigest, join. destruct l; cbn [map String.concat]; [by rewrite append_nil_r|done]. }
  rewrite E, length_append, str_forallb_app, IHl, IHh. cbn [hex_byte String.length length str_forallb]. split; [lia|].
  rewrite !hex_digit_is_hex; [done| |].
  - apply Z.mod_pos_bound. lia.
  - split; [apply Z.div_pos; lia|]. apply Z.div_lt_upper_bound; lia.
Qed.
Lemma md5_hexdigest s : String.length (hexdigest (md5 s)) = 32%nat /\ str_forallb is_hex (hexdigest (md5 s)) = true.
Proof. destruct (md5_bytes s) as [Hl Hb]. destruct (hexdigest_form _ Hb) as [H1 H2]. by rewrite H1, Hl. Qed.
