(* ===== verification/MsvsNew.v ===== *)
(** * Visual Studio solutions ([gyp/MSVSNew.py])

    Folders and projects are objects with an identity: an entry is a number in the
    store, in the order in which they were made.  [__cmp__] orders entries, but a set
    of them goes by identity.  A cached GUID is computed anew here: it depends on
    what does not change. *)
From S2P Require Import Prelude PyStr PyPath Common Ordered Md5.
From stdpp Require Import sorting options.
#[local] Open Scope nat_scope.

(** ** Entries *)
Definition MakeGuid (name seed : string) : string :=
  let d := upper (hexdigest (md5 (seed +:+ name))) in
  "{" +:+ str_slice 0 8 d +:+ "-" +:+ str_slice 8 12 d +:+ "-" +:+ str_slice 12 16 d +:+ "-" +:+ str_slice 16 20 d
  +:+ "-" +:+ str_slice 20 32 d +:+ "}".

Inductive kind :=
  | Folder (entries : list nat) (items : list string)
  | Project (dependencies : list nat) (config_platform_overrides : list (string * string)).
Record entry := { name : string; path : string; guid : option string; content : kind }.
#[export] Instance entry_inhabited : Inhabited entry :=
  populate {| name := ""; path := ""; guid := None; content := Project [] [] |}.
Abbreviation store := (list entry).

Definition get_guid (e : entry) : string :=
  match guid e with
  | Some g => g
  | None => match content e with
            | Folder _ _ => MakeGuid (path e) "msvs_folder"
            | Project _ _ => MakeGuid (name e) "msvs_new"
            end
  end.
Definition entry_type_guid (e : entry) : string :=
  match content e with
  | Project _ _ => "{8BC9CEB8-8B4A-11D0-8D11-00A0C91BC942}"
  | Folder _ _ => "{2150E333-8FDC-42A3-9474-1A3956D46DE8}"
  end.

(** [__cmp__] *)
Definition pair_leb (a b : string * string) : bool :=
  if String.eqb a.1 b.1 then String.leb a.2 b.2 else String.leb a.1 b.1.
Definition key (e : entry) : string * string := (name e, get_guid e).
Definition entry_le (st : store) (a b : nat) : Prop := pair_leb (key (st !!! a)) (key (st !!! b)) = true.
#[export] Instance entry_le_dec st : RelDecision (entry_le st).
Proof. intros a b. unfold entry_le. apply _. Defined.

Definition MSVSFolder (st : store) (path : string) (name : option string) (entries : list nat) (guid : option string)
    (items : list string) : store * nat :=
  let name := match name with Some n => if String.eqb n "" then basename path else n | None => basename path end in
  ((st ++ [{| name := name; path := path; guid := guid; content := Folder (merge_sort (entry_le st) entries) items |}])%list,
   length st).
Definition MSVSProject (st : store) (path : string) (name : option string) (dependencies : list nat) (guid : option string)
    (config_platform_overrides : list (string * string)) : store * nat :=
  let base := (splitext (basename path)).1 in
  let name := match name with Some n => if String.eqb n "" then base else n | None => base end in
  ((st ++ [{| name := name; path := path; guid := guid; content := Project dependencies config_platform_overrides |}])%list,
   length st).
Definition set_dependencies (st : store) (r : nat) (dependencies : list nat) : store :=
  alter (fun e => match content e with
                  | Project _ o =>
                      {| name := name e; path := path e; guid := guid e; content := Project dependencies o |}
                  | Folder _ _ => e
                  end) r st.

(** ** Solutions *)
Record solution := {
  sln_path : string; description : string; solution_version : string; sln_entries : list nat; variants : list string;
  websiteProperties : bool }.
Definition MSVSSolution (path description solution_version : string) (entries : list nat) (variants : list string)
    (websiteProperties : bool) : solution :=
  {| sln_path := path; description := description; solution_version := solution_version; sln_entries := entries;
     variants := match variants with [] => ["Debug|Win32"; "Release|Win32"] | _ => variants end;
     websiteProperties := websiteProperties |}.

Definition entries_of (e : entry) : list nat := match content e with Folder l _ => l | Project _ _ => [] end.
(** The loop over [entries_to_check]; [seen] is [all_entries]. *)
Fixpoint collect (fuel : nat) (st : store) (seen : gset nat) (entries_to_check : list nat) : res (gset nat) :=
  match entries_to_check with
  | [] => Ok seen
  | e :: rest =>
      match fuel with
      | 0 => NoFuel
      | S fuel =>
          if decide (e ∈ seen) then collect fuel st seen rest
          else collect fuel st (seen ∪ {[e]}) (rest ++ entries_of (st !!! e))%list
      end
  end.
(** Every entry is put on the list by the solution and by each folder it is in. *)
Definition collect_fuel (st : store) (l : list nat) : nat :=
  length l + sum_list_with (fun e => length (entries_of e)) st.

(** [ln]: a line of the file *)
Definition ln (s : string) : string := s +:+ String carriage_return nl.
Definition lns (l : list string) : string := PyStr.join "" (map ln l).
Definition tab (s : string) : string := String "009"%char s.
Definition quoted (s : string) : string := String dquote (s +:+ String dquote "").
Definition assigned (k v : string) : string := tab (tab (k +:+ " = " +:+ v)).

Section Write.
Context (cwd : string) (set_order : gset nat -> list nat) (st : store) (sln : solution).

Definition folder_name (e : entry) : string :=
  let s := str_replace "/" "\" (RelativePath cwd (path e) (dirname (sln_path sln))) in
  if String.eqb s "" then "." else s.
Definition project_lines (r : nat) : list string :=
  let e := st !!! r in
  (["Project(" +:+ quoted (entry_type_guid e) +:+ ") = " +:+ quoted (name e) +:+ ", " +:+ quoted (folder_name e) +:+ ", "
      +:+ quoted (get_guid e)]
   ++ (if websiteProperties sln then
         [tab "ProjectSection(WebsiteProperties) = preProject"; assigned "Debug.AspNetCompiler.Debug" (quoted "True");
          assigned "Release.AspNetCompiler.Debug" (quoted "False"); tab "EndProjectSection"]
       else [])
   ++ match content e with
      | Folder _ [] | Project [] _ => []
      | Folder _ items =>
          [tab "ProjectSection(SolutionItems) = preProject"] ++ map (fun i => assigned i i) items ++ [tab "EndProjectSection"]
      | Project dependencies _ =>
          [tab "ProjectSection(ProjectDependencies) = postProject"]
          ++ map (fun d => assigned (get_guid (st !!! d)) (get_guid (st !!! d))) dependencies ++ [tab "EndProjectSection"]
      end
   ++ ["EndProject"])%list.

Definition is_project (e : entry) : bool := match content e with Project _ _ => true | Folder _ _ => false end.
Definition overrides_of (e : entry) : list (string * string) := match content e with Project _ o => o | Folder _ _ => [] end.
Definition config_guids_overrides (all_entries : list nat) : gmap string (list (string * string)) :=
  foldl (fun m e => <[get_guid e := overrides_of e]> m) ∅ (filter (fun e => is_project e = true) (map (st !!!.) all_entries)).
Definition config_guids (all_entries : list nat) : list string :=
  merge_sort string_le (map get_guid (filter (fun e => is_project e = true) (map (st !!!.) all_entries))).
Definition project_config_lines (g : string) (overrides : list (string * string)) : list string :=
  concat (map (fun v =>
    let nv := default v (OrderedDict.assoc v overrides) in
    [assigned (g +:+ "." +:+ v +:+ ".ActiveCfg") nv; assigned (g +:+ "." +:+ v +:+ ".Build.0") nv]) (variants sln)).
Definition config_lines (all_entries : list nat) : res (list string) :=
  l ← mapM (fun g =>
        overrides ← of_option (KeyError g) (config_guids_overrides all_entries !! g);
        Ok (project_config_lines g overrides)) (config_guids all_entries);
  Ok (concat l).
Definition global_lines (all_entries : list nat) : res (list string) :=
  let folders := filter (fun e => is_project e = false) (map (st !!!.) all_entries) in
  configs ← config_lines all_entries;
  Ok (["Global"; tab "GlobalSection(SolutionConfigurationPlatforms) = preSolution"]
      ++ map (fun v => assigned v v) (variants sln)
      ++ [tab "EndGlobalSection"; tab "GlobalSection(ProjectConfigurationPlatforms) = postSolution"]
      ++ configs
      ++ [tab "EndGlobalSection"; tab "GlobalSection(SolutionProperties) = preSolution";
          assigned "HideSolutionNode" "FALSE"; tab "EndGlobalSection"]
      ++ (if existsb (fun e => match entries_of e with [] => false | _ => true end) folders then
            [tab "GlobalSection(NestedProjects) = preSolution"]
            ++ concat (map (fun e => map (fun sub => assigned (get_guid (st !!! sub)) (get_guid e)) (entries_of e)) folders)
            ++ [tab "EndGlobalSection"]
          else [])
      ++ ["EndGlobal"])%list.
Definition Write : res string :=
  all_entries ← collect (collect_fuel st (sln_entries sln)) st ∅ (sln_entries sln);
  let all_entries := merge_sort (entry_le st) (set_order all_entries) in
  globals ← global_lines all_entries;
  Ok (lns (["Microsoft Visual Studio Solution File, Format Version " +:+ solution_version sln; "# " +:+ description sln]
           ++ concat (map project_lines all_entries) ++ globals)%list).
End Write.
