(* ===== verification/MsvsNewProps.v ===== *)
(** * What a reader finds in a solution file, and which entries it holds *)
From S2P Require Import Prelude PyStr PyPath Common Ordered Md5 MsvsNew.
From stdpp Require Import sorting options.
#[local] Open Scope nat_scope.

(** ** A reader of solutions

    Projects and the globals consist of sections, sections of assignments.  Every
    opening line has to be closed. *)
Record section := { s_name : string; s_when : string; s_items : list (string * string) }.
Record project := { p_type : string; p_name : string; p_path : string; p_guid : string; p_sections : list section }.
Record contents := { projects : list project; globals : list section }.

Inductive place :=
  | Outside
  | InProject (p : project)
  | InGlobal
  | InSection (p : option project) (s : section).
Definition reading : Type := contents * place.

Definition read_item (line : string) : option (string * string) :=
  '(k, v) ← split1 "=" line;
  if startswith (tab (tab "")) k && endswith " " k && startswith " " v then
    Some (str_drop 2 (str_init 1 k), str_drop 1 v)
  else None.
Definition read_section (line : string) : option (string * section) :=
  '(k, rest) ← split1 "(" line;
  '(n, v) ← split1 ")" rest;
  if startswith " = " v then Some (k, {| s_name := n; s_when := str_drop 3 v; s_items := [] |}) else None.
Definition read_project (line : string) : option project :=
  match split_char dquote line with
  | ["Project("; t; ") = "; n; ", "; p; ", "; g; ""] =>
      Some {| p_type := t; p_name := n; p_path := p; p_guid := g; p_sections := [] |}
  | _ => None
  end.
Definition add_item (s : section) (kv : string * string) : section :=
  {| s_name := s_name s; s_when := s_when s; s_items := s_items s ++ [kv] |}.
Definition add_section (p : project) (s : section) : project :=
  {| p_type := p_type p; p_name := p_name p; p_path := p_path p; p_guid := p_guid p; p_sections := p_sections p ++ [s] |}.
Definition read_line (r : reading) (line : string) : option reading :=
  let '(c, pl) := r in
  match pl with
  | InSection (Some p) s =>
      if String.eqb line (tab "EndProjectSection") then Some (c, InProject (add_section p s))
      else kv ← read_item line; Some (c, InSection (Some p) (add_item s kv))
  | InSection None s =>
      if String.eqb line (tab "EndGlobalSection") then
        Some ({| projects := projects c; globals := globals c ++ [s] |}, InGlobal)
      else kv ← read_item line; Some (c, InSection None (add_item s kv))
  | InProject p =>
      if String.eqb line "EndProject" then Some ({| projects := projects c ++ [p]; globals := globals c |}, Outside)
      else '(k, s) ← read_section line;
           if String.eqb k (tab "ProjectSection") then Some (c, InSection (Some p) s) else None
  | InGlobal =>
      if String.eqb line "EndGlobal" then Some (c, Outside)
      else '(k, s) ← read_section line;
           if String.eqb k (tab "GlobalSection") then Some (c, InSection None s) else None
  | Outside =>
      if String.eqb line "Global" then Some (c, InGlobal)
      else p ← read_project line; Some (c, InProject p)
  end.
Fixpoint read_all (r : reading) (lines : list string) : option reading :=
  match lines with [] => Some r | l :: ls => r ← read_line r l; read_all r ls end.
(** Lines end with a carriage return and a newline; the first two are the header. *)
Fixpoint split_crlf (pieces : list string) : option (list string) :=
  match pieces with
  | [] => None
  | [last] => if String.eqb last "" then Some [] else None
  | l :: ls => if endswith (String carriage_return "") l then cons (str_init 1 l) <$> split_crlf ls else None
  end.
Definition read_sln (text : string) : option contents :=
  match split_crlf (split_char newline text) with
  | Some (_ :: _ :: ls) =>
      match read_all ({| projects := []; globals := [] |}, Outside) ls with Some (c, Outside) => Some c | _ => None end
  | _ => None
  end.

(** A library, a program that needs it, and a folder with both. *)
Definition three_entries : store :=
  let '(st, lib) := MSVSProject [] "deps/zlib/zlib.vcproj" None [] None [] in
  let '(st, exe) := MSVSProject st "iojs.vcproj" None [lib] None [("Debug|Win32", "Debug|x64")] in
  (MSVSFolder st "deps" (Some "all") [exe; lib] None ["README.md"]).1.
Definition example_sln : solution :=
  MSVSSolution "iojs.sln" "Visual Studio 2013" "13.00" [2; 0] [] false.

(** ** What is written is read *)
Definition plain (s : string) : bool :=
  str_forallb (fun c => negb (Ascii.eqb c dquote || Ascii.eqb c newline || Ascii.eqb c "=")) s.
Lemma plain_free c s : plain s = true -> (Ascii.eqb c dquote || Ascii.eqb c newline || Ascii.eqb c "=") = true ->
  str_mem c s = false.
Proof.
  unfold plain. intros Hs Hc. induction s as [|d s IH]; [done|]. cbn [str_forallb] in Hs.
  apply andb_prop in Hs as [Hd Hs]. rewrite str_mem_cons, IH by done.
  destruct (Ascii.eqb_spec c d) as [<-|]; [|done]. by rewrite Hc in Hd.
Qed.
Lemma plain_one_line s : plain s = true -> one_line s = true.
Proof. intros H. unfold one_line. by rewrite (plain_free newline). Qed.

Lemma read_all_app r l1 l2 : read_all r (l1 ++ l2) = (read_all r l1 ≫= fun r => read_all r l2).
Proof. revert r. induction l1 as [|l l1 IH]; intros r; [done|]. cbn. destruct (read_line r l); cbn; [apply IH|done]. Qed.
Lemma split_crlf_lns l : Forall (fun s => one_line s = true) l -> split_crlf (split_char newline (lns l)) = Some l.
Proof.
  induction 1 as [|s l Hs Hl IH]; [done|].
  assert (E : lns (s :: l) = (s +:+ String carriage_return "") +:+ String newline (lns l)).
  { unfold lns, ln, nl, PyStr.join. rewrite !append_assoc. destruct l as [|s' l]; [done|]. cbn [map String.concat].
    by rewrite append_assoc. }
  rewrite E, split_char_app.
  - pose proof (split_on_nonempty (Ascii.eqb newline) (lns l)) as Hne. fold (split_char newline) in Hne.
    destruct (split_char newline (lns l)) as [|x xs]; [done|]. cbn [split_crlf].
    rewrite endswith_app, str_init_snoc. cbn [split_crlf] in IH. by rewrite IH.
  - rewrite str_mem_app. apply negb_true_iff in Hs. by rewrite Hs.
Qed.

(** The lines of a section of a project or of the globals *)
Definition items_lines (l : list (string * string)) : list string := map (fun kv => assigned kv.1 kv.2) l.
Definition section_lines (owner : string) (s : section) : list string :=
  ([tab (owner +:+ "Section(" +:+ s_name s +:+ ") = " +:+ s_when s)] ++ items_lines (s_items s)
   ++ [tab ("End" +:+ owner +:+ "Section")])%list.
Definition key_ok (kv : string * string) : Prop := str_mem "=" kv.1 = false.
Definition section_ok (s : section) : Prop :=
  str_mem ")" (s_name s) = false /\ Forall key_ok (s_items s).

Lemma read_item_assigned k v : key_ok (k, v) -> read_item (assigned k v) = Some (k, v).
Proof.
  unfold key_ok, read_item. cbn [fst]. intros Hk.
  assert (E : assigned k v = tab (tab (k +:+ " ")) +:+ String "=" (" " +:+ v)).
  { unfold assigned, tab. rewrite !append_cons, append_assoc. done. }
  rewrite E, split1_app.
  - cbn [mbind option_bind]. unfold tab. rewrite append_cons, !startswith_cons, !startswith_nil.
    change (String "009" (String "009" (k +:+ " "))) with (String "009" (String "009" k) +:+ " ").
    by rewrite endswith_app, str_init_snoc.
  - unfold tab. by rewrite !str_mem_cons, str_mem_app, Hk.
Qed.
Lemma read_items p s c l ls : Forall key_ok l ->
  read_all (c, InSection p s) (items_lines l ++ ls) =
  read_all (c, InSection p {| s_name := s_name s; s_when := s_when s; s_items := s_items s ++ l |}) ls.
Proof.
  intros H. revert s. induction H as [|[k v] l Hk Hl IH]; intros s.
  - rewrite app_nil_r. by destruct s.
  - change (items_lines ((k, v) :: l) ++ ls)%list with (assigned k v :: items_lines l ++ ls)%list. cbn [read_all].
    assert (E : read_line (c, InSection p s) (assigned k v) = Some (c, InSection p (add_item s (k, v)))).
    { unfold read_line. rewrite read_item_assigned by done. by destruct p. }
    rewrite E. cbn [mbind option_bind]. rewrite IH. cbn. by rewrite <- app_assoc.
Qed.
Lemma read_section_header owner s : str_mem "(" (tab (owner +:+ "Section")) = false -> str_mem ")" (s_name s) = false ->
  read_section (tab (owner +:+ "Section(" +:+ s_name s +:+ ") = " +:+ s_when s)) =
  Some (tab (owner +:+ "Section"), {| s_name := s_name s; s_when := s_when s; s_items := [] |}).
Proof.
  intros Ho Hn. unfold read_section.
  assert (E : tab (owner +:+ "Section(" +:+ s_name s +:+ ") = " +:+ s_when s) =
              tab (owner +:+ "Section") +:+ String "(" (s_name s +:+ String ")" (" = " +:+ s_when s))).
  { unfold tab. cbn [String.append]. rewrite append_assoc. reflexivity. }
  rewrite E, split1_app by done. cbn [mbind option_bind]. rewrite split1_app by done. cbn [mbind option_bind].
  unfold startswith. by rewrite PyStr.prefix_app.
Qed.
Lemma read_project_section c p s ls : section_ok s ->
  read_all (c, InProject p) (section_lines "Project" s ++ ls) = read_all (c, InProject (add_section p s)) ls.
Proof.
  intros [Hn Hi]. unfold section_lines. rewrite <- !app_assoc. cbn [app read_all read_line].
  pose proof (read_section_header "Project" s eq_refl Hn) as E. cbn [String.append] in E |- *. rewrite E.
  cbn [mbind option_bind]. change (String.eqb (tab _) "EndProject") with false. cbv iota.
  rewrite String.eqb_refl. cbv iota. cbn [mbind option_bind]. rewrite read_items by done. by destruct s.
Qed.
Lemma read_global_section c s ls : section_ok s ->
  read_all (c, InGlobal) (section_lines "Global" s ++ ls) =
  read_all ({| projects := projects c; globals := globals c ++ [s] |}, InGlobal) ls.
Proof.
  intros [Hn Hi]. unfold section_lines. rewrite <- !app_assoc. cbn [app read_all read_line].
  pose proof (read_section_header "Global" s eq_refl Hn) as E. cbn [String.append] in E |- *. rewrite E.
  cbn [mbind option_bind]. change (String.eqb (tab _) "EndGlobal") with false. cbv iota.
  rewrite String.eqb_refl. cbv iota. cbn [mbind option_bind]. rewrite read_items by done. by destruct s.
Qed.
Lemma read_project_sections c p l ls : Forall section_ok l ->
  read_all (c, InProject p) (concat (map (section_lines "Project") l) ++ ls) =
  read_all (c, InProject {| p_type := p_type p; p_name := p_name p; p_path := p_path p; p_guid := p_guid p;
                            p_sections := p_sections p ++ l |}) ls.
Proof.
  intros H. revert p. induction H as [|s l Hs Hl IH]; intros p.
  - rewrite app_nil_r. by destruct p.
  - cbn [map concat]. rewrite <- app_assoc, read_project_section, IH by done. cbn. by rewrite <- app_assoc.
Qed.
Lemma read_global_sections c l ls : Forall section_ok l ->
  read_all (c, InGlobal) (concat (map (section_lines "Global") l) ++ ls) =
  read_all ({| projects := projects c; globals := globals c ++ l |}, InGlobal) ls.
Proof.
  intros H. revert c. induction H as [|s l Hs Hl IH]; intros c.
  - rewrite app_nil_r. by destruct c.
  - cbn [map concat]. rewrite <- app_assoc, read_global_section, IH by done. cbn. by rewrite <- app_assoc.
Qed.

(** ** What a solution file is to hold *)
Section Meaning.
Context (cwd : string) (st : store) (sln : solution).

Definition items_section (n w : string) (l : list (string * string)) : list section :=
  match l with [] => [] | _ => [{| s_name := n; s_when := w; s_items := l |}] end.
Definition same (s : string) : string * string := (s, s).
Definition sections_of (e : entry) : list section :=
  ((if websiteProperties sln then
      [{| s_name := "WebsiteProperties"; s_when := "preProject";
          s_items := [("Debug.AspNetCompiler.Debug", quoted "True"); ("Release.AspNetCompiler.Debug", quoted "False")] |}]
    else [])
   ++ match content e with
      | Folder _ items => items_section "SolutionItems" "preProject" (map same items)
      | Project deps _ =>
          items_section "ProjectDependencies" "postProject" (map (fun d => same (get_guid (st !!! d))) deps)
      end)%list.
Definition project_of (e : entry) : project :=
  {| p_type := entry_type_guid e; p_name := name e; p_path := folder_name cwd sln e; p_guid := get_guid e;
     p_sections := sections_of e |}.

(** The projects and folders among some entries *)
Definition projects_in (l : list nat) : list entry := filter (fun e => is_project e = true) (map (st !!!.) l).
Definition folders_in (l : list nat) : list entry := filter (fun e => is_project e = false) (map (st !!!.) l).
(** What a project has for a configuration of the solution; of projects with the same
    GUID the last one decides. *)
Definition configuration_of (l : list nat) (g v : string) : string :=
  default v (e ← List.find (fun e => String.eqb g (get_guid e)) (rev (projects_in l)); OrderedDict.assoc v (overrides_of e)).
Definition project_configurations (l : list nat) (g : string) : list (string * string) :=
  concat (map (fun v =>
    let nv := configuration_of l g v in
    [(g +:+ "." +:+ v +:+ ".ActiveCfg", nv); (g +:+ "." +:+ v +:+ ".Build.0", nv)]) (variants sln)).
Definition configurations (l : list nat) : list (string * string) :=
  concat (map (project_configurations l) (config_guids st l)).
Definition nested (l : list nat) : list (string * string) :=
  concat (map (fun e => map (fun sub => (get_guid (st !!! sub), get_guid e)) (entries_of e)) (folders_in l)).
Definition global_sections (l : list nat) : list section :=
  ([{| s_name := "SolutionConfigurationPlatforms"; s_when := "preSolution"; s_items := map same (variants sln) |};
    {| s_name := "ProjectConfigurationPlatforms"; s_when := "postSolution"; s_items := configurations l |};
    {| s_name := "SolutionProperties"; s_when := "preSolution"; s_items := [("HideSolutionNode", "FALSE")] |}]
   ++ items_section "NestedProjects" "preSolution" (nested l))%list.

Definition project_header (e : entry) : string :=
  "Project(" +:+ quoted (entry_type_guid e) +:+ ") = " +:+ quoted (name e) +:+ ", " +:+ quoted (folder_name cwd sln e)
  +:+ ", " +:+ quoted (get_guid e).
Lemma project_lines_sections r :
  project_lines cwd st sln r =
  ([project_header (st !!! r)] ++ concat (map (section_lines "Project") (sections_of (st !!! r))) ++ ["EndProject"])%list.
Proof.
  unfold project_lines, sections_of, items_lines. fold (project_header (st !!! r)). rewrite map_app, concat_app, <- app_assoc. f_equal. f_equal.
  - by destruct (websiteProperties sln).
  - destruct (content (st !!! r)) as [l [|i items]|[|d deps] o]; try done; cbn [items_section map concat];
      rewrite app_nil_r; unfold section_lines, items_lines; cbn [s_items s_name s_when map];
      rewrite map_map; by rewrite <- app_assoc.
Qed.

Lemma overrides_last l g : config_guids_overrides st l !! g =
  overrides_of <$> List.find (fun e => String.eqb g (get_guid e)) (rev (projects_in l)).
Proof.
  unfold config_guids_overrides. fold (projects_in l). induction (projects_in l) as [|e ps IH] using rev_ind; [done|].
  rewrite foldl_app, rev_app_distr. cbn [foldl rev app List.find]. destruct (String.eqb_spec g (get_guid e)) as [->|Hg].
  - by rewrite lookup_insert_eq.
  - by rewrite lookup_insert_ne by done.
Qed.
Lemma overrides_found l g : g ∈ config_guids st l ->
  exists e, List.find (fun e => String.eqb g (get_guid e)) (rev (projects_in l)) = Some e.
Proof.
  unfold config_guids. rewrite merge_sort_Permutation. intros (e & -> & He)%list_elem_of_fmap.
  destruct (List.find _ _) as [e'|] eqn:E; [by exists e'|].
  eapply find_none in E; [by rewrite String.eqb_refl in E|]. rewrite <- in_rev. by apply list_elem_of_In.
Qed.
Lemma config_lines_ok l : config_lines st sln l = Ok (items_lines (configurations l)).
Proof.
  unfold config_lines, configurations.
  assert (E : mapM (fun g => overrides ← of_option (KeyError g) (config_guids_overrides st l !! g);
                             Ok (project_config_lines sln g overrides)) (config_guids st l) =
    Ok (map (fun g => items_lines (project_configurations l g)) (config_guids st l))).
  { pose proof (overrides_found l) as Hf. induction (config_guids st l) as [|g gs IH]; [done|]. cbn [mapM map].
    destruct (Hf g) as [e He]; [left|]. rewrite overrides_last, He. cbn [fmap option_fmap option_map of_option mbind res_bind].
    rewrite IH by (intros; apply Hf; by right). cbn [mbind res_bind]. do 2 f_equal.
    unfold project_config_lines, project_configurations, items_lines. rewrite concat_map, map_map.
    f_equal. apply map_ext. intros v. unfold configuration_of. by rewrite He. }
  rewrite E. cbn [mbind res_bind]. f_equal. unfold items_lines. by rewrite concat_map, map_map.
Qed.
Lemma items_same l : items_lines (map same l) = map (fun i => assigned i i) l.
Proof. unfold items_lines. by rewrite map_map. Qed.
Lemma nested_some l : existsb (fun e => match entries_of e with [] => false | _ => true end) (folders_in l) =
  match nested l with [] => false | _ => true end.
Proof.
  unfold nested. induction (folders_in l) as [|e fs IH]; [done|]. cbn [existsb map concat]. rewrite IH.
  by destruct (entries_of e).
Qed.
Lemma global_lines_ok l : global_lines st sln l =
  Ok (["Global"] ++ concat (map (section_lines "Global") (global_sections l)) ++ ["EndGlobal"])%list.
Proof.
  unfold global_lines. rewrite config_lines_ok. cbn [mbind res_bind]. f_equal. fold (folders_in l). rewrite nested_some.
  assert (E : concat (map (fun e => map (fun sub => assigned (get_guid (st !!! sub)) (get_guid e)) (entries_of e)) (folders_in l)) =
    items_lines (nested l)).
  { unfold nested, items_lines. rewrite concat_map, map_map. f_equal. apply map_ext. intros e. by rewrite map_map. }
  rewrite E. unfold global_sections. rewrite map_app, concat_app.
  assert (N : (if match nested l with [] => false | _ => true end then
                 [tab "GlobalSection(NestedProjects) = preSolution"] ++ items_lines (nested l) ++ [tab "EndGlobalSection"]
               else [])%list = concat (map (section_lines "Global") (items_section "NestedProjects" "preSolution" (nested l)))).
  { destruct (nested l) as [|kv kvs]; [done|]. cbn [items_section map concat]. by rewrite app_nil_r. }
  rewrite N. cbn [map concat]. unfold section_lines at 2 3 4. cbn [s_items s_name s_when].
  rewrite items_same, <- !app_assoc. reflexivity.
Qed.
End Meaning.

(** ** Which entries are in a solution *)
Definition child (st : store) (a b : nat) : Prop := b ∈ entries_of (st !!! a).
Definition reachable (st : store) (roots : list nat) (r : nat) : Prop := exists x, x ∈ roots /\ rtc (child st) x r.

(** The entries of folders that have not been seen *)
Definition to_come (st : store) (seen : gset nat) (l : list nat) : nat :=
  sum_list_with (fun r => if decide (r ∈ seen) then 0 else length (entries_of (st !!! r))) l.
Lemma to_come_mono st seen e l : to_come st (seen ∪ {[e]}) l <= to_come st seen l.
Proof. unfold to_come. induction l as [|r l IH]; [done|]. cbn. repeat case_decide; try lia. set_solver. Qed.
Lemma to_come_visit st seen e l : e ∈ l -> e ∉ seen ->
  to_come st (seen ∪ {[e]}) l + length (entries_of (st !!! e)) <= to_come st seen l.
Proof.
  intros He Hn. induction l as [|r l IH]; [set_solver|]. apply elem_of_cons in He as [->|He].
  - pose proof (to_come_mono st seen r l) as Hm. unfold to_come in *. cbn. repeat case_decide; try set_solver. lia.
  - specialize (IH He). unfold to_come in *. cbn. repeat case_decide; try lia. set_solver.
Qed.
Lemma entries_beyond (st : store) r : length st <= r -> entries_of (st !!! r) = [].
Proof. intros H. rewrite list_lookup_total_alt, lookup_ge_None_2 by done. done. Qed.
Lemma to_come_step st seen e : e ∉ seen ->
  to_come st (seen ∪ {[e]}) (seq 0 (length st)) + length (entries_of (st !!! e)) <= to_come st seen (seq 0 (length st)).
Proof.
  intros Hn. destruct (decide (e < length st)) as [He|He].
  - apply to_come_visit; [|done]. apply elem_of_seq. lia.
  - rewrite entries_beyond by lia. pose proof (to_come_mono st seen e (seq 0 (length st))). cbn. lia.
Qed.
Lemma to_come_start st : to_come st ∅ (seq 0 (length st)) = sum_list_with (fun e => length (entries_of e)) st.
Proof.
  unfold to_come. assert (H : forall l0 : store, sum_list_with (fun r => if decide (r ∈ (∅ : gset nat)) then 0 else length (entries_of ((l0 ++ st) !!! r)))
    (seq (length l0) (length st)) = sum_list_with (fun e => length (entries_of e)) st); [|exact (H [])].
  induction st as [|e st' IH]; intros l0; [done|]. cbn [length seq sum_list_with].
  rewrite decide_False by set_solver. rewrite list_lookup_total_alt, list_lookup_middle by done. cbn. f_equal.
  specialize (IH (l0 ++ [e])%list). rewrite length_app in IH. cbn [length] in IH. rewrite Nat.add_1_r in IH.
  rewrite <- IH. f_equal. by rewrite <- app_assoc.
Qed.
Lemma collect_spec fuel st roots seen todo :
  (forall r, r ∈ seen \/ r ∈ todo -> reachable st roots r) ->
  (forall r, r ∈ roots -> r ∈ seen \/ r ∈ todo) ->
  (forall a b, a ∈ seen -> child st a b -> b ∈ seen \/ b ∈ todo) ->
  length todo + to_come st seen (seq 0 (length st)) <= fuel ->
  exists s, collect fuel st seen todo = Ok s /\ forall r, r ∈ s <-> reachable st roots r.
Proof.
  revert seen todo. induction fuel as [|fuel IH]; intros seen [|e todo] H1 H2 H3 Hf; cbn [length] in Hf; try lia; cbn [collect].
  1, 2: exists seen; split; [done|]; intros r; split; [intros; apply H1; by left|]; intros (x & Hx & Hr);
    assert (Hin : x ∈ seen) by (destruct (H2 _ Hx); [done|set_solver]); clear Hx;
    induction Hr as [|a b c Hab _ IHr]; [done|]; apply IHr; destruct (H3 _ _ Hin Hab); [done|set_solver].
  case_decide as He.
  - apply IH; [intros r Hr; apply H1; set_solver|intros r Hr; specialize (H2 r Hr); set_solver
      |intros a b Ha Hb; specialize (H3 a b Ha Hb); set_solver|lia].
  - pose proof (to_come_step st seen e He). apply IH.
    + assert (Hre : reachable st roots e) by (apply H1; set_solver).
      intros r Hr. rewrite elem_of_app in Hr. destruct Hr as [Hr|[Hr|Hr]]; [|apply H1; set_solver|].
      * apply elem_of_union in Hr as [Hr| ->%elem_of_singleton]; [apply H1; by left|done].
      * destruct Hre as (x & Hx & Hxe). exists x. split; [done|]. by eapply rtc_r.
    + intros r Hr. specialize (H2 r Hr). set_solver.
    + intros a b Ha Hb. apply elem_of_union in Ha as [Ha| ->%elem_of_singleton]; [specialize (H3 a b Ha Hb); set_solver|].
      right. apply elem_of_app. by right.
    + rewrite length_app. lia.
Qed.
Lemma collect_reachable st roots :
  exists s, collect (collect_fuel st roots) st ∅ roots = Ok s /\ forall r, r ∈ s <-> reachable st roots r.
Proof.
  apply collect_spec; [|set_solver|set_solver|].
  - intros r [?|Hr]; [set_solver|]. exists r. by split; [|constructor].
  - rewrite to_come_start. unfold collect_fuel. lia.
Qed.

(** ** The order of the entries *)
Lemma pair_leb_spec a b : pair_leb a b = true <-> a.1 = b.1 /\ String.leb a.2 b.2 = true \/ a.1 <> b.1 /\ String.leb a.1 b.1 = true.
Proof. unfold pair_leb. destruct (String.eqb_spec a.1 b.1); tauto. Qed.
#[export] Instance entry_le_total st : Total (entry_le st).
Proof.
  intros a b. unfold entry_le. rewrite !pair_leb_spec.
  destruct (string_leb_total (key (st !!! a)).1 (key (st !!! b)).1), (string_leb_total (key (st !!! a)).2 (key (st !!! b)).2),
    (decide ((key (st !!! a)).1 = (key (st !!! b)).1)) as [E|E]; rewrite ?E; naive_solver.
Qed.
Lemma string_leb_antisym s t : String.leb s t = true -> String.leb t s = true -> s = t.
Proof. apply String.leb_antisym. Qed.
#[export] Instance entry_le_trans st : Transitive (entry_le st).
Proof.
  intros a b c. unfold entry_le. generalize (key (st !!! a)) (key (st !!! b)) (key (st !!! c)). clear.
  intros [a1 a2] [b1 b2] [c1 c2]. rewrite !pair_leb_spec. cbn [fst snd].
  intros [[-> H1]|[N1 H1]] [[-> H2]|[N2 H2]]; [left|right|right|].
  - split; [done|]. by eapply string_leb_trans.
  - done.
  - done.
  - right. split; [|by eapply string_leb_trans]. intros ->. by apply N1, string_leb_antisym.
Qed.

(** ** The whole file *)
Section Whole.
Context (cwd : string) (set_order : gset nat -> list nat) (st : store) (sln : solution).

(** Names without quotation marks, equality signs and line ends; folders hold entries of
    the store. *)
Definition plain_entry (e : entry) : bool :=
  plain (name e) && match guid e with Some g => plain g | None => true end && plain (folder_name cwd sln e)
  && forallb (fun r => r <? length st) (entries_of e)
  && match content e with Folder _ items => forallb plain items | Project _ o => forallb (fun kv => plain kv.2) o end.
Definition plain_solution : bool :=
  forallb plain_entry st && forallb (fun r => r <? length st) (sln_entries sln) && forallb plain (variants sln)
  && one_line (solution_version sln) && one_line (description sln).

Lemma upper_hex_plain c : is_hex c = true -> (Ascii.eqb (toupper c) dquote || Ascii.eqb (toupper c) newline || Ascii.eqb (toupper c) "=") = false.
Proof. by destruct c as [[] [] [] [] [] [] [] []]. Qed.
Lemma plain_app a b : plain (a +:+ b) = plain a && plain b.
Proof. apply str_forallb_app. Qed.
Lemma plain_take n s : plain s = true -> plain (str_take n s) = true.
Proof. intros H. rewrite <- (str_take_drop n s), plain_app in H. by apply andb_prop in H as [H _]. Qed.
Lemma plain_drop n s : plain s = true -> plain (str_drop n s) = true.
Proof. intros H. rewrite <- (str_take_drop n s), plain_app in H. by apply andb_prop in H as [_ H]. Qed.
Lemma MakeGuid_plain n seed : plain (MakeGuid n seed) = true.
Proof.
  clear. assert (H : plain (upper (hexdigest (md5 (seed +:+ n)))) = true).
  { destruct (md5_hexdigest (seed +:+ n)) as [_ H]. revert H. generalize (hexdigest (md5 (seed +:+ n))). clear. intros s.
    induction s as [|c s IH]; [done|]. cbn [str_forallb]. intros [Hc Hs]%andb_prop.
    unfold plain, upper in *. cbn [str_map str_forallb]. by rewrite upper_hex_plain, IH. }
  unfold MakeGuid. cbv zeta. unfold str_slice. rewrite !plain_app, !plain_take; [done|by try apply plain_drop..].
Qed.
Lemma guid_plain e : match guid e with Some g => plain g | None => true end = true -> plain (get_guid e) = true.
Proof. clear. unfold get_guid. destruct (guid e); [done|]. intros _. destruct (content e); apply MakeGuid_plain. Qed.

Definition item_fine (kv : string * string) : Prop := plain kv.1 = true /\ one_line kv.2 = true.
Definition section_fine (s : section) : Prop :=
  str_mem ")" (s_name s) = false /\ one_line (s_name s) = true /\ one_line (s_when s) = true /\ Forall item_fine (s_items s).
Lemma section_fine_ok s : section_fine s -> section_ok s.
Proof.
  clear. intros (H1 & _ & _ & H2). split; [done|]. eapply list.Forall_impl; [exact H2|].
  intros kv [H _]. by apply (plain_free "=").
Qed.
Lemma section_fine_lines owner s : section_fine s -> one_line owner = true ->
  Forall (fun l => one_line l = true) (section_lines owner s).
Proof.
  clear. intros (_ & Hn & Hw & Hi) Ho. unfold section_lines. rewrite !Forall_app. split_and!.
  - constructor; [|done]. apply (one_line_app (String "009" "")); [done|]. by repeat (apply one_line_app; [done|]).
  - apply Forall_map. eapply list.Forall_impl; [exact Hi|]. intros kv [Hk Hv]. apply (one_line_app (String "009" (String "009" ""))); [done|].
    apply one_line_app; [by apply plain_one_line|]. by apply one_line_app.
  - constructor; [|done]. apply (one_line_app (String "009" "End")); [done|]. by apply one_line_app.
Qed.
Lemma items_section_fine n w l : str_mem ")" n = false -> one_line n = true -> one_line w = true -> Forall item_fine l ->
  Forall section_fine (items_section n w l).
Proof. clear. intros H1 H2 H3 H4. destruct l; [constructor|]. constructor; [|done]. done. Qed.
Lemma same_fine l : Forall (fun s => plain s = true) l -> Forall item_fine (map same l).
Proof. clear. intros H. apply Forall_map. eapply list.Forall_impl; [exact H|]. intros s Hs. split; [done|]. by apply plain_one_line. Qed.

Context (Hplain : plain_solution = true).
Lemma solution_facts : Forall (fun e => plain_entry e = true) st /\ Forall (fun r => r < length st) (sln_entries sln) /\
  Forall (fun v => plain v = true) (variants sln) /\ one_line (solution_version sln) = true /\ one_line (description sln) = true.
Proof using Hplain.
  unfold plain_solution in Hplain. repeat apply andb_prop in Hplain as [Hplain ?].
  split_and!; try done; [by apply forallb_Forall| |by apply forallb_Forall].
  eapply list.Forall_impl; [by apply forallb_Forall|]. intros r. by apply Nat.ltb_lt.
Qed.
Record entry_facts (e : entry) : Prop := {
  ef_name : plain (name e) = true;
  ef_guid : plain (get_guid e) = true;
  ef_folder : plain (folder_name cwd sln e) = true;
  ef_entries : Forall (fun r => r < length st) (entries_of e);
  ef_items : match content e with
             | Folder _ items => Forall (fun i => plain i = true) items
             | Project _ o => Forall (fun kv => plain kv.2 = true) o
             end }.
Lemma plain_entry_facts e : plain_entry e = true -> entry_facts e.
Proof using.
  clear Hplain. unfold plain_entry. intros H. repeat apply andb_prop in H as [H ?].
  split; try done; [by apply guid_plain| |].
  - eapply list.Forall_impl; [by apply forallb_Forall|]. intros r. by apply Nat.ltb_lt.
  - destruct (content e); by apply forallb_Forall.
Qed.
Lemma entry_at r : r < length st -> entry_facts (st !!! r).
Proof using Hplain.
  intros Hr. destruct solution_facts as (H & _). apply plain_entry_facts.
  destruct (lookup_lt_is_Some_2 st r Hr) as [e He]. rewrite (list_lookup_total_correct _ _ _ He).
  rewrite list.Forall_lookup in H. by apply (H _ _ He).
Qed.
Lemma reachable_lt r : reachable st (sln_entries sln) r -> r < length st.
Proof using Hplain.
  intros (x & Hx & Hr). destruct solution_facts as (_ & H & _). rewrite list.Forall_forall in H.
  specialize (H _ Hx). clear Hx. induction Hr as [|a b c Hab _ IH]; [done|]. apply IH.
  destruct (entry_at _ H) as [_ _ _ He _]. rewrite list.Forall_forall in He. by apply He.
Qed.
Lemma any_guid_plain r : plain (get_guid (st !!! r)) = true.
Proof using Hplain.
  destruct (decide (r < length st)); [by apply entry_at|].
  rewrite list_lookup_total_alt, lookup_ge_None_2 by lia. apply MakeGuid_plain.
Qed.

Lemma read_header e : entry_facts e ->
  read_project (project_header cwd sln e) =
  Some {| p_type := entry_type_guid e; p_name := name e; p_path := folder_name cwd sln e; p_guid := get_guid e; p_sections := [] |}.
Proof using.
  clear. intros [Hn Hg Hf _ _]. unfold read_project, project_header, quoted.
  assert (Ht : str_mem dquote (entry_type_guid e) = false) by (unfold entry_type_guid; by destruct (content e)).
  assert (E : "Project(" +:+ String dquote (entry_type_guid e +:+ String dquote "") +:+ ") = " +:+
      String dquote (name e +:+ String dquote "") +:+ ", " +:+ String dquote (folder_name cwd sln e +:+ String dquote "") +:+ ", " +:+
      String dquote (get_guid e +:+ String dquote "") =
    "Project(" +:+ String dquote (entry_type_guid e +:+ String dquote (") = " +:+
      String dquote (name e +:+ String dquote (", " +:+ String dquote (folder_name cwd sln e +:+ String dquote (", " +:+
      String dquote (get_guid e +:+ String dquote "")))))))).
  { cbn [String.append]. repeat (f_equal; rewrite ?append_assoc; cbn [String.append]). }
  rewrite E, split_char_app by done. rewrite split_char_app by done. rewrite (split_char_app dquote ") = ") by done.
  rewrite split_char_app by by apply (plain_free dquote). rewrite (split_char_app dquote ", ") by done.
  rewrite split_char_app by by apply (plain_free dquote). rewrite (split_char_app dquote ", ") by done.
  by rewrite split_char_app by by apply (plain_free dquote).
Qed.
Lemma sections_fine r : r < length st -> Forall section_fine (sections_of st sln (st !!! r)).
Proof using Hplain.
  intros Hr. destruct (entry_at _ Hr) as [_ _ _ _ Hi]. unfold sections_of. apply Forall_app. split.
  - destruct (websiteProperties sln); [|constructor]. constructor; [|done]. split_and!; try done. by repeat constructor.
  - destruct (content (st !!! r)) as [l items|deps o]; apply items_section_fine; try done.
    + by apply same_fine.
    + apply Forall_map, list.Forall_forall. intros d _. split; [apply any_guid_plain|]. apply plain_one_line, any_guid_plain.
Qed.
Lemma read_project_lines c r ls : r < length st ->
  read_all (c, Outside) (project_lines cwd st sln r ++ ls) =
  read_all ({| projects := projects c ++ [project_of cwd st sln (st !!! r)]; globals := globals c |}, Outside) ls.
Proof using Hplain.
  intros Hr. rewrite project_lines_sections, <- !app_assoc. cbn [app read_all read_line].
  rewrite read_header by by apply entry_at. change (String.eqb (project_header _ _ _) "Global") with false. cbv iota.
  cbn [mbind option_bind]. rewrite read_project_sections; [done|].
  eapply list.Forall_impl; [by apply sections_fine|]. apply section_fine_ok.
Qed.
Lemma read_projects c l ls : Forall (fun r => r < length st) l ->
  read_all (c, Outside) (concat (map (project_lines cwd st sln) l) ++ ls) =
  read_all ({| projects := projects c ++ map (fun r => project_of cwd st sln (st !!! r)) l; globals := globals c |}, Outside) ls.
Proof using Hplain.
  intros H. revert c. induction H as [|r l Hr Hl IH]; intros c; cbn [map concat].
  - rewrite app_nil_r. by destruct c.
  - rewrite <- app_assoc, read_project_lines, IH by done. cbn. by rewrite <- app_assoc.
Qed.

Lemma assoc_in {V} k (l : list (string * V)) v : OrderedDict.assoc k l = Some v -> exists k', (k', v) ∈ l.
Proof using.
  clear. induction l as [|[k' w] l IH]; [done|]. cbn. case_decide.
  - intros [= ->]. exists k'. left.
  - intros (k'' & Hk)%IH. exists k''. by right.
Qed.
Lemma projects_entry_facts l e : Forall (fun r => r < length st) l -> e ∈ projects_in st l -> entry_facts e.
Proof using Hplain.
  intros Hl (_ & (r & -> & Hr)%list_elem_of_fmap)%list_elem_of_filter. rewrite list.Forall_forall in Hl. by apply entry_at, Hl.
Qed.
Lemma configuration_one_line l g v : Forall (fun r => r < length st) l -> one_line v = true -> one_line (configuration_of st l g v) = true.
Proof using Hplain.
  intros Hl Hv. unfold configuration_of. destruct (List.find _ _) as [e|] eqn:E; [|done]. cbn [mbind option_bind].
  apply find_some in E as [He _]. apply in_rev, list_elem_of_In in He.
  destruct (OrderedDict.assoc v (overrides_of e)) as [nv|] eqn:Ea; [|done]. apply assoc_in in Ea as (k & Hk).
  apply plain_one_line. destruct (projects_entry_facts l e Hl He) as [_ _ _ _ Hi]. unfold overrides_of in Hk.
  destruct (content e); [set_solver|]. rewrite list.Forall_forall in Hi. by apply (Hi _ Hk).
Qed.
Lemma configurations_fine l : Forall (fun r => r < length st) l -> Forall item_fine (configurations st sln l).
Proof using Hplain.
  intros Hl. destruct solution_facts as (_ & _ & Hv & _). unfold configurations. apply Forall_concat, Forall_map.
  apply list.Forall_forall. intros g Hg. unfold project_configurations. apply Forall_concat, Forall_map.
  eapply list.Forall_impl; [exact Hv|]. intros v Hpv. cbv zeta.
  assert (Hpg : plain g = true).
  { unfold config_guids in Hg. rewrite merge_sort_Permutation in Hg. apply list_elem_of_fmap in Hg as (e & -> & He).
    by destruct (projects_entry_facts l e Hl He). }
  repeat constructor; cbn [fst snd]; try (apply configuration_one_line; [done|by apply plain_one_line]);
    by rewrite !plain_app, Hpg, Hpv.
Qed.
Lemma nested_fine l : Forall (fun r => r < length st) l -> Forall item_fine (nested st l).
Proof using Hplain.
  intros Hl. unfold nested. apply Forall_concat, Forall_map, list.Forall_forall.
  intros e (_ & (r & -> & Hr)%list_elem_of_fmap)%list_elem_of_filter. apply Forall_map, list.Forall_forall. intros sub _.
  split; [apply any_guid_plain|]. apply plain_one_line, any_guid_plain.
Qed.
Lemma global_sections_fine l : Forall (fun r => r < length st) l -> Forall section_fine (global_sections st sln l).
Proof using Hplain.
  intros Hl. destruct solution_facts as (_ & _ & Hv & _). unfold global_sections. apply Forall_app. split.
  - repeat constructor; cbn; try done; [by apply same_fine|by apply configurations_fine].
  - apply items_section_fine; try done. by apply nested_fine.
Qed.
Lemma sections_lines_one_line owner l : Forall section_fine l -> one_line owner = true ->
  Forall (fun s => one_line s = true) (concat (map (section_lines owner) l)).
Proof using.
  clear. intros H Ho. apply Forall_concat, Forall_map. eapply list.Forall_impl; [exact H|]. intros s Hs.
  by apply section_fine_lines.
Qed.
Lemma project_lines_one_line l : Forall (fun r => r < length st) l ->
  Forall (fun s => one_line s = true) (concat (map (project_lines cwd st sln) l)).
Proof using Hplain.
  intros Hl. apply Forall_concat, Forall_map. eapply list.Forall_impl; [exact Hl|]. intros r Hr. cbv beta.
  rewrite project_lines_sections. apply Forall_app. split; [|apply Forall_app; split].
  - constructor; [|done]. destruct (entry_at _ Hr) as [Hn Hg Hf _ _].
    assert (Hq : forall s, plain s = true -> one_line (quoted s) = true).
    { intros s Hs%plain_one_line. apply (one_line_app (String dquote "")); [done|]. by apply one_line_app. }
    unfold project_header. repeat (apply one_line_app; [first [done|by apply Hq|unfold entry_type_guid; by destruct (content _)]|]). by apply Hq.
  - apply sections_lines_one_line; [by apply sections_fine|done].
  - by constructor.
Qed.
Lemma read_globals c l : Forall section_ok l ->
  read_all (c, Outside) ("Global" :: concat (map (section_lines "Global") l) ++ ["EndGlobal"]) =
  Some ({| projects := projects c; globals := globals c ++ l |}, Outside).
Proof using.
  clear. intros H. cbn [read_all read_line]. change (String.eqb "Global" "Global") with true. cbv iota.
  change (Some (c, InGlobal) ≫= ?f) with (f (c, InGlobal)). cbv beta. by rewrite read_global_sections.
Qed.
Lemma read_lines_of l globals : Forall (fun r => r < length st) l -> global_lines st sln l = Ok globals ->
  read_sln (lns (["Microsoft Visual Studio Solution File, Format Version " +:+ solution_version sln; "# " +:+ description sln]
                 ++ concat (map (project_lines cwd st sln) l) ++ globals)) =
  Some {| projects := map (fun r => project_of cwd st sln (st !!! r)) l; globals := global_sections st sln l |}.
Proof using Hplain.
  intros Hl Hgl. assert (globals = ("Global" :: concat (map (section_lines "Global") (global_sections st sln l)) ++ ["EndGlobal"])%list) as ->
    by (assert (H : forall a b : list string, Ok a = Ok b -> a = b) by congruence; apply H; by rewrite <- Hgl, global_lines_ok).
  destruct solution_facts as (_ & _ & _ & Hsv & Hd).
  pose proof (global_sections_fine l Hl) as Hg. unfold read_sln. rewrite split_crlf_lns.
  - cbn [app]. rewrite read_projects by done. rewrite read_globals; [done|]. eapply list.Forall_impl; [exact Hg|]. apply section_fine_ok.
  - rewrite !Forall_app. split_and!; [|by apply project_lines_one_line|].
    + constructor; [by apply one_line_app|]. constructor; [by apply one_line_app|done].
    + constructor; [done|]. apply Forall_app. split; [by apply sections_lines_one_line|by constructor].
Qed.
End Whole.

Lemma Write_reads_all cwd set_order st sln :
  (forall s, set_order s ≡ₚ elements s) -> plain_solution cwd st sln = true ->
  exists text l, Write cwd set_order st sln = Ok text /\
    NoDup l /\ (forall r, r ∈ l <-> reachable st (sln_entries sln) r) /\ StronglySorted (entry_le st) l /\
    read_sln text = Some {| projects := map (fun r => project_of cwd st sln (st !!! r)) l;
                            globals := global_sections st sln l |}.
Proof.
  intros Ho Hp. destruct (collect_reachable st (sln_entries sln)) as (s & Hc & Hs).
  set (l := merge_sort (entry_le st) (set_order s)).
  assert (Hl : l ≡ₚ elements s) by (unfold l; by rewrite merge_sort_Permutation).
  assert (Hin : forall r, r ∈ l <-> reachable st (sln_entries sln) r) by (intros r; by rewrite Hl, elem_of_elements, Hs).
  destruct (global_lines st sln l) as [g|x|] eqn:Eg; [|by rewrite global_lines_ok in Eg..].
  eexists. exists l. split_and!.
  - unfold Write. rewrite Hc. cbn [mbind res_bind]. fold l. by rewrite Eg.
  - rewrite Hl. apply NoDup_elements.
  - done.
  - apply StronglySorted_merge_sort; apply _.
  - apply read_lines_of; [done| |done]. apply list.Forall_forall. intros r Hr%Hin. by eapply reachable_lt.
Qed.

(** No entry is in two places of the store, in the solution and its folders. *)
Definition entries_once (st : store) (sln : solution) : Prop :=
  NoDup (sln_entries sln ++ concat (map entries_of st)).

(** The entries of the solution and of the folders of [l] *)
Definition listed (st : store) (sln : solution) (l : list nat) : list nat :=
  (sln_entries sln ++ concat (map (fun r => entries_of (st !!! r)) l))%list.
Lemma lookup_seq (st : store) : map (fun r => st !!! r) (seq 0 (length st)) = st.
Proof.
  apply list_eq. intros i. rewrite list_lookup_fmap. destruct (decide (i < length st)) as [Hi|Hi].
  - rewrite lookup_seq_lt by done. cbn. destruct (lookup_lt_is_Some_2 st i Hi) as [e He].
    rewrite He. f_equal. by apply list_lookup_total_correct.
  - rewrite lookup_seq_ge by lia. cbn. symmetry. apply lookup_ge_None. lia.
Qed.
Lemma listed_NoDup st sln l : entries_once st sln -> NoDup l -> Forall (fun r => r < length st) l ->
  NoDup (listed st sln l).
Proof.
  intros Honce Hl Hlt. destruct (submseteq_Permutation l (seq 0 (length st))) as [k Hk].
  { apply NoDup_submseteq; [done|]. intros r Hr. rewrite list.Forall_forall in Hlt.
    apply elem_of_seq. specialize (Hlt r Hr). lia. }
  assert (Hp : sln_entries sln ++ concat (map entries_of st) ≡ₚ
    listed st sln l ++ concat (map (fun r => entries_of (st !!! r)) k)).
  { unfold listed. rewrite <- app_assoc. apply Permutation_app_head.
    rewrite <- concat_app, <- map_app, <- (lookup_seq st) at 1. rewrite map_map.
    rewrite <- !flat_map_concat_map. by apply Permutation_flat_map. }
  unfold entries_once in Honce. rewrite Hp in Honce. by apply list.NoDup_app in Honce as [Honce _].
Qed.
Lemma listed_reachable st sln l :
  (forall r, r ∈ l <-> reachable st (sln_entries sln) r) ->
  forall r, r ∈ listed st sln l <-> reachable st (sln_entries sln) r.
Proof.
  intros Hl r. unfold listed. rewrite elem_of_app, (list_elem_of_In (concat _)), in_concat. split.
  - intros [Hr|(x & (y & <- & Hy%list_elem_of_In%Hl)%in_map_iff & Hr)]; [by exists r; split; [|constructor]|].
    destruct Hy as (z & Hz & Hzy). exists z. split; [done|]. eapply rtc_r; [done|]. by apply list_elem_of_In.
  - intros (x & Hx & Hr). apply rtc_inv_r in Hr as [->|(y & Hy & Hr)]; [by left|right].
    exists (entries_of (st !!! y)). split; [|by apply list_elem_of_In].
    apply in_map_iff. exists y. split; [done|]. apply list_elem_of_In, Hl. by exists x.
Qed.

(** C37. A solution in which no entry appears multiple times is written, and a reader finds
    in its file one entry for each that the solution or one of its folders lists, which are
    those that it reaches through its folders, sorted by name and GUID: with its names and
    its sections, the configuration of each project for each one of the solution, and for
    each folder what is in it. *)
Theorem Write_reads cwd set_order st sln :
  (forall s, set_order s ≡ₚ elements s) -> plain_solution cwd st sln = true -> entries_once st sln ->
  exists text l, Write cwd set_order st sln = Ok text /\
    l ≡ₚ listed st sln l /\
    NoDup l /\ (forall r, r ∈ l <-> reachable st (sln_entries sln) r) /\ StronglySorted (entry_le st) l /\
    read_sln text = Some {| projects := map (fun r => project_of cwd st sln (st !!! r)) l;
                            globals := global_sections st sln l |}.
Proof.
  intros Ho Hp Honce. destruct (Write_reads_all cwd set_order st sln Ho Hp) as (text & l & Hw & Hnd & Hl & Hsort & Hread).
  exists text, l. split_and!; [done| |done..]. apply NoDup_Permutation; [done| |].
  - apply listed_NoDup; [done..|]. apply list.Forall_forall. intros r Hr%Hl. by eapply reachable_lt.
  - intros r. rewrite Hl. symmetry. by apply listed_reachable.
Qed.

Definition once_sln : solution := MSVSSolution "iojs.sln" "Visual Studio 2013" "13.00" [2] [] false.
Lemma Write_reads_witness : exists text l, Write "/w" elements three_entries once_sln = Ok text /\
  l ≡ₚ listed three_entries once_sln l /\
  NoDup l /\ (forall r, r ∈ l <-> reachable three_entries [2] r) /\ StronglySorted (entry_le three_entries) l /\
  read_sln text = Some {| projects := map (fun r => project_of "/w" three_entries once_sln (three_entries !!! r)) l;
                          globals := global_sections three_entries once_sln l |}.
Proof.
  apply (Write_reads "/w" elements three_entries once_sln); [done|vm_compute; reflexivity|].
  apply (bool_decide_unpack _). vm_compute. exact I.
Defined.

(** The docstring of [Write] says that it raises [IndexError] when an entry appears
    multiple times; it writes the entry once. *)
Theorem Write_repeated : ~ entries_once three_entries example_sln /\
  exists text, Write "/w" elements three_entries example_sln = Ok text.
Proof.
  split; [|by destruct (Write_reads_all "/w" elements three_entries example_sln)
             as (text & l & H & _); [done|vm_compute; reflexivity|exists text]].
  apply (bool_decide_unpack _). vm_compute. exact I.
Qed.
