(* ===== verification/Make.v ===== *)
(** * The make generator ([gyp/generator/make.py])

    What [MakefileWriter] writes for a target on any platform but a Mac (the branches
    that ask [xcode_emulation] are not here), and the loop of [GenerateOutput] that
    writes one file per target.  A target is a record of what the code reads of it;
    a text that is written is the result of the method that writes it.  [ldflags] is
    extended in place in the code, but nothing reads it afterwards. *)
From S2P Require Import Prelude PyStr PyFormat PyPath Common.
From stdpp Require Import options.
#[local] Open Scope nat_scope.

(** ** File names *)

(** Maps every compilable file extension to the command that compiles it. *)
Definition COMPILABLE_EXTENSIONS : list (string * string) :=
  [(".c", "cc"); (".cc", "cxx"); (".cpp", "cxx"); (".cxx", "cxx"); (".s", "cc"); (".S", "cc")].
Definition Compilable (filename : string) : bool := existsb (fun e => endswith e.1 filename) COMPILABLE_EXTENSIONS.
Definition Linkable (filename : string) : bool := endswith ".o" filename.
Definition Target (filename : string) : string := (splitext filename).1 +:+ ".o".

(** ** Quoting *)
Definition EscapeShellArgument (s : string) : string := "'" +:+ str_replace "'" "'\''" s +:+ "'".
Definition EscapeMakeVariableExpansion (s : string) : string := str_replace "$" "$$" s.
Definition EscapeCppDefine (s : string) : string :=
  str_replace "#" "\#" (EscapeMakeVariableExpansion (EscapeShellArgument s)).
Definition QuoteIfNecessary (s : string) : string :=
  if str_mem dquote s then
    String dquote (str_replace (String dquote "") (String "\" (String dquote "")) s +:+ String dquote "")
  else s.
Definition StringToMakefileVariable (s : string) : string :=
  str_map (fun c => if isalpha c || isdigit c || Ascii.eqb c "_" then c else "_"%char) s.
Definition QuoteSpaces_ (quote s : string) : string := str_replace " " quote s.
Definition QuoteSpaces : string -> string := QuoteSpaces_ "\ ".
Definition SPACE_REPLACEMENT : string := "?".

Definition WriteLn (text : string) : string := text +:+ nl.
Definition lines (l : list string) : string := join "" (map WriteLn l).

(** ** Lists and rules *)
Definition WriteList (value_list : list string) (variable prefix : string) (quoter : string -> string) : string :=
  let sep := " \" +:+ nl +:+ String tab "" in
  let values := match value_list with
                | [] => ""
                | _ => sep +:+ join sep (map (fun l => quoter (prefix +:+ l)) value_list)
                end in
  variable +:+ " :=" +:+ values +:+ nl +:+ nl.

Record flags := { order_only : bool; force : bool; phony : bool }.
Definition no_flags : flags := {| order_only := false; force := false; phony := false |}.
Definition WriteMakeRule (outputs inputs actions : list string) (comment : option string) (f : flags) : res string :=
  let outputs := map QuoteSpaces outputs in
  let inputs := map QuoteSpaces inputs in
  let order_insert := if order_only f then "| " else "" in
  let force_append := if force f then " FORCE_DO_CMD" else "" in
  pick_output ← (if order_only f then Ok (join " " outputs) else of_option IndexError (head outputs));
  first_output ← (match actions with [] => Ok "" | _ => of_option IndexError (head outputs) end);
  let more := negb (order_only f) && (1 <? length outputs) in
  Ok (lines (match comment with Some "" | None => [] | Some c => ["# " +:+ c] end
        ++ (if phony f then [".PHONY: " +:+ join " " outputs] else [])
        ++ (match actions with [] => [] | _ => [first_output +:+ ": TOOLSET := $(TOOLSET)"] end)
        ++ [pick_output +:+ ": " +:+ order_insert +:+ join " " inputs +:+ force_append]
        ++ map (fun a => String tab a) actions
        ++ (if more then [join " " (tail outputs) +:+ ": " +:+ pick_output; join " " (tail outputs) +:+ ": ;"] else [])
        ++ [""])%list).
Definition WriteDoCmd (outputs inputs : list string) (command : string) (comment : option string) : res string :=
  t ← WriteMakeRule outputs inputs ["$(call do_cmd," +:+ command +:+ ")"] comment
        {| order_only := false; force := true; phony := false |};
  Ok (t +:+ WriteLn ("all_deps += " +:+ join " " (map (QuoteSpaces_ SPACE_REPLACEMENT) outputs))).

(** ** Targets *)
Record action := {
  action_name : string; a_inputs : list string; a_outputs : list string; a_action : list string;
  a_outputs_as_sources : bool; a_message : option string }.
Record rule := {
  rule_name : string; rule_sources : list string; r_inputs : list string; r_outputs : list string; r_action : list string;
  r_outputs_as_sources : bool }.
Record copy := { destination : string; copy_files : list string }.
Record config := {
  defines : list string; cflags : list string; cflags_c : list string; cflags_cc : list string; include_dirs : list string;
  ldflags : list string; library_dirs : list string }.
Record spec := {
  target_name : string; type : string; toolset : string;
  actions : option (list action); rules : option (list rule); copies : option (list copy);
  sources : list string; dependencies : option (list string); libraries : list string;
  product_prefix : option string; product_name : option string; product_extension : option string;
  product_dir : option string; standalone_static_library : bool;
  default_configuration : string; dependencies_original : list string;
  configurations : list (string * config) }.

(** What the methods know: the flavor of the platform, the prefix of sources, whether an
    Android version is set, and the order in which a set is iterated. *)
Record env := { flavor : string; srcdir_prefix : string; android_ndk_version : bool; set_order : gset string -> list string;
                other_directive : directive -> option string }.
Record self := { qualified_target : string; path : string; target : spec; alias : string; output : string }.

Definition in_parens : string := "$(".
Definition Sourceify (e : env) (path : string) : string :=
  if contains in_parens path then path else if isabs path then path else srcdir_prefix e +:+ path.
Definition Absolutify (base path : string) : string :=
  if contains in_parens path then rstrip_of (Ascii.eqb "/") path else normpath (path_join base [path]).
Definition Objectify (toolset path : string) : string :=
  let path := if contains in_parens path then
                str_replace "$(obj)/" ("$(obj)." +:+ toolset +:+ "/$(TARGET)/") path else path in
  if contains "$(obj)" path then path else "$(obj)." +:+ toolset +:+ "/$(TARGET)/" +:+ path.
Definition ExpandInputRoot (e : env) (template expansion dirname : string) : res string :=
  if negb (contains "%(INPUT_ROOT)s" template) && negb (contains "%(INPUT_DIRNAME)s" template) then Ok template
  else percent (other_directive e) [("INPUT_ROOT", expansion); ("INPUT_DIRNAME", dirname)] template.

(** ** Actions, rules and copies *)
Section Target.
Context (e : env) (w : self).

Definition variable_name (name : string) : string :=
  StringToMakefileVariable (qualified_target w +:+ "_" +:+ name).
Definition hardcode_target : string -> string := str_replace "$(TARGET)" (target_name (target w)).
Definition cd_action : string :=
  hardcode_target ("cd " +:+ Sourceify e (if String.eqb (path w) "" then "." else path w) +:+ "; ").
Definition ld_library_path : string :=
  "LD_LIBRARY_PATH=$(builddir)/lib.host:$(builddir)/lib.target:$$LD_LIBRARY_PATH; export LD_LIBRARY_PATH; ".
Definition dirs_of (outputs : list string) : list string :=
  set_order e (list_to_set (filter (fun d => d <> "") (map dirname outputs))).
Definition no_space (s : string) : bool := negb (str_mem " " s).
Definition source_paths : list string -> list string := map (fun p => Sourceify e (Absolutify (path w) p)).

(** The text, with the sources and outputs that are added *)
Definition extras : Type := string * list string * list string.
Definition write_action (st : extras) (a : action) : res extras :=
  let '(text, extra_sources, extra_outputs) := st in
  let name := variable_name (action_name a) in
  let dirs := dirs_of (a_outputs a) in
  let extra_sources := if a_outputs_as_sources a then (extra_sources ++ a_outputs a)%list else extra_sources in
  let command := EncodePOSIXShellList (a_action a) in
  let command := match dirs with [] => command | _ => "mkdir -p " +:+ join " " dirs +:+ "; " +:+ command end in
  let outputs := map (Absolutify (path w)) (a_outputs a) in
  output_0 ← of_option IndexError (head outputs);
  _ ← assert_ (forallb no_space (a_inputs a));
  _ ← assert_ (forallb no_space outputs);
  cmd ← WriteDoCmd outputs (source_paths (a_inputs a)) name None;
  let outputs_variable := "action_" +:+ name +:+ "_outputs" in
  Ok (text
      +:+ lines ["### Rules for action " +:+ String dquote (action_name a +:+ String dquote ":");
                 "quiet_cmd_" +:+ name +:+ " = ACTION " +:+ default name (a_message a) +:+ " $@";
                 "cmd_" +:+ name +:+ " = " +:+ ld_library_path +:+ cd_action +:+ hardcode_target command; "";
                 QuoteSpaces output_0 +:+ ": obj := $(abs_obj)";
                 QuoteSpaces output_0 +:+ ": builddir := $(abs_builddir)"]
      +:+ cmd +:+ lines [outputs_variable +:+ " := " +:+ join " " outputs; ""],
      extra_sources, (extra_outputs ++ ["$(" +:+ outputs_variable +:+ ")"])%list).
Definition WriteActions (actions : list action) (st : extras) : res extras :=
  '(text, extra_sources, extra_outputs) ← foldM write_action st actions;
  Ok (text +:+ WriteLn "", extra_sources, extra_outputs).

(** [re.sub(r'\$\([^ ]* \$<\)', '', s)]: [skip] characters are within a match. *)
Fixpoint remove_variables (skip : nat) (s : string) : string :=
  match s with
  | "" => ""
  | String c s' =>
      match skip with
      | S skip => remove_variables skip s'
      | 0 =>
          let '(inner, rest) := span (fun c => negb (Ascii.eqb c " ")) (str_drop 2 s) in
          if startswith in_parens s && startswith " $<)" rest then
            remove_variables (String.length inner + 5) s'
          else String c (remove_variables 0 s')
      end
  end.
(** One source of a rule: [st] has the number of those before it and all their outputs. *)
Definition write_rule_source (r : rule) (name : string) (st : extras * nat * list string) (rule_source : string)
    : res (extras * nat * list string) :=
  let '((text, extra_sources, extra_outputs), count, all_outputs) := st in
  let '(rule_source_dirname, rule_source_basename) := path_split rule_source in
  let rule_source_root := (splitext rule_source_basename).1 in
  outputs ← mapM (fun out => ExpandInputRoot e out rule_source_root rule_source_dirname) (r_outputs r);
  let dirs := dirs_of outputs in
  let extra_sources := if r_outputs_as_sources r then (extra_sources ++ outputs)%list else extra_sources in
  let inputs := source_paths (rule_source :: r_inputs r) in
  let call := name +:+ "_" +:+ string_of_int (Z.of_nat count) in
  let actions := (["$(call do_cmd," +:+ call +:+ ")"] ++
                  (if String.eqb name "resources_grit" then ["@touch --no-create $@"] else []))%list in
  let outputs := map (Absolutify (path w)) outputs in
  output_0 ← of_option IndexError (head outputs);
  made ← WriteMakeRule outputs (inputs ++ ["FORCE_DO_CMD"]) actions None no_flags;
  _ ← assert_ (forallb (fun o => no_space (remove_variables 0 o)) outputs);
  action ← mapM (fun ac => ExpandInputRoot e ac rule_source_root rule_source_dirname) (r_action r);
  let mkdirs := match dirs with [] => "" | _ => "mkdir -p " +:+ join " " dirs +:+ "; " end in
  Ok ((text
       +:+ lines [output_0 +:+ ": obj := $(abs_obj)"; output_0 +:+ ": builddir := $(abs_builddir)"]
       +:+ made +:+ WriteLn ("all_deps += " +:+ join " " outputs)
       +:+ lines ["cmd_" +:+ call +:+ " = " +:+ ld_library_path +:+ cd_action +:+ hardcode_target mkdirs +:+
                    hardcode_target (EncodePOSIXShellList action);
                  "quiet_cmd_" +:+ call +:+ " = RULE " +:+ call +:+ " $@"; ""],
       extra_sources, extra_outputs), S count, (all_outputs ++ outputs)%list).
Definition write_rule (st : extras) (r : rule) : res extras :=
  let name := variable_name (rule_name r) in
  let '(text, extra_sources, extra_outputs) := st in
  let text := text +:+ WriteLn ("### Generated for rule " +:+ name +:+ ":") in
  '((text, extra_sources, extra_outputs), _, all_outputs) ←
    foldM (write_rule_source r name) ((text, extra_sources, extra_outputs), 0, []) (rule_sources r);
  let outputs_variable := "rule_" +:+ name +:+ "_outputs" in
  Ok (text +:+ WriteList all_outputs outputs_variable "" QuoteIfNecessary
        +:+ lines ["### Finished generating for rule: " +:+ name; ""],
      extra_sources, (extra_outputs ++ ["$(" +:+ outputs_variable +:+ ")"])%list).
Definition WriteRules (rules : list rule) (st : extras) : res extras :=
  '(text, extra_sources, extra_outputs) ← foldM write_rule st rules;
  Ok (text +:+ lines ["### Finished generating for all rules"; ""], extra_sources, extra_outputs).

Definition copy_one (destination : string) (st : string * list string) (file : string) : res (string * list string) :=
  let '(text, outputs) := st in
  let file := Sourceify e (Absolutify (path w) file) in
  let output := Sourceify e (Absolutify (path w) (path_join destination [basename file])) in
  cmd ← WriteDoCmd [output] [file] "copy" None;
  Ok (text +:+ cmd, (outputs ++ [output])%list).
Definition WriteCopies (copies : list copy) (st : extras) : res extras :=
  let '(text, extra_sources, extra_outputs) := st in
  let variable := StringToMakefileVariable (qualified_target w +:+ "_copies") in
  '(text, outputs) ← foldM (fun st c => foldM (copy_one (destination c)) st (copy_files c))
                       (text +:+ WriteLn "### Generated for copy rule.", []) copies;
  Ok (text +:+ lines [variable +:+ " = " +:+ join " " (map QuoteSpaces outputs); ""],
      extra_sources, (extra_outputs ++ ["$(" +:+ variable +:+ ")"])%list).

(** ** Sources *)
Definition config_lists (kv : string * config) : string :=
  let '(configname, config) := kv in
  WriteList (defines config) ("DEFS_" +:+ configname) "-D" EscapeCppDefine
  +:+ WriteLn "# Flags passed to all source files."
  +:+ WriteList (cflags config) ("CFLAGS_" +:+ configname) "" QuoteIfNecessary
  +:+ WriteLn "# Flags passed to only C files."
  +:+ WriteList (cflags_c config) ("CFLAGS_C_" +:+ configname) "" QuoteIfNecessary
  +:+ WriteLn "# Flags passed to only C++ files."
  +:+ WriteList (cflags_cc config) ("CFLAGS_CC_" +:+ configname) "" QuoteIfNecessary
  +:+ WriteList (source_paths (include_dirs config)) ("INCS_" +:+ configname) "-I" QuoteIfNecessary.
Definition objects (sources : list string) : list string :=
  map (fun s => Objectify (toolset (target w)) (Absolutify (path w) (Target s))) (filter (fun s => Compilable s = true) sources).
(** The text, and the files that are to be linked *)
Definition WriteSources (configs : list (string * config)) (deps sources extra_outputs : list string)
    : res (string * list string) :=
  let objs := objects sources in
  _ ← assert_ (forallb no_space objs);
  built ← match deps with
          | [] => Ok ""
          | _ => WriteMakeRule ["$(OBJS)"] deps [] (Some "Make sure our dependencies are built before any of us.")
                   {| order_only := true; force := false; phony := false |}
          end;
  ran ← match extra_outputs with
        | [] => Ok ""
        | _ => WriteMakeRule ["$(OBJS)"] extra_outputs [] (Some "Make sure our actions/rules run before any of us.")
                 {| order_only := true; force := false; phony := false |}
        end;
  Ok (join "" (map config_lists configs)
      +:+ WriteList objs "OBJS" "" QuoteIfNecessary
      +:+ lines ["# Add to the list of files we specially track dependencies for."; "all_deps += $(OBJS)"; ""]
      +:+ built +:+ ran
      +:+ match objs with
          | [] => ""
          | _ => lines ["# CFLAGS et al overrides must be target-local.";
                        "# See " +:+ String dquote ("Target-specific Variable Values" +:+
                           String dquote " in the GNU Make manual.");
                        "$(OBJS): TOOLSET := $(TOOLSET)";
                        "$(OBJS): GYP_CFLAGS := $(DEFS_$(BUILDTYPE)) $(INCS_$(BUILDTYPE))  " +:+
                          "$(CFLAGS_$(BUILDTYPE)) $(CFLAGS_C_$(BUILDTYPE))";
                        "$(OBJS): GYP_CXXFLAGS := $(DEFS_$(BUILDTYPE)) $(INCS_$(BUILDTYPE))  " +:+
                          "$(CFLAGS_$(BUILDTYPE)) $(CFLAGS_CC_$(BUILDTYPE))"]
          end
      +:+ WriteLn "",
      ((match objs with [] => [] | _ => ["$(OBJS)"] end) ++ filter (fun s => Linkable s = true) sources)%list).
Definition suffix_rule (object source : string) (ext : string * string) : string :=
  object +:+ ": " +:+ source +:+ ext.1 +:+ " FORCE_DO_CMD" +:+ nl +:+
  String tab ("@$(call do_cmd," +:+ ext.2 +:+ ",1)" +:+ nl).
Definition suffix_rules (sources : list string) : string :=
  match filter (fun s => Compilable s = true) sources with
  | [] => ""
  | compilable =>
      let extensions := set_order e (list_to_set (map (fun s => (splitext s).2) compilable)) in
      let known := omap (fun x => List.find (fun e => String.eqb e.1 x) COMPILABLE_EXTENSIONS) extensions in
      let rules source := join "" (map (fun x => WriteLn (suffix_rule "$(obj).$(TOOLSET)/$(TARGET)/%.o" source x)) known) in
      WriteLn ("# Suffix rules, putting all outputs into $(obj)." +:+ nl) +:+ rules "$(srcdir)/%"
      +:+ WriteLn ("# Try building from generated source, too." +:+ nl) +:+ rules "$(obj).$(TOOLSET)/%" +:+ rules "$(obj)/%"
      +:+ WriteLn "# End of this set of suffix rules"
  end.
End Target.

(** ** Outputs *)

(** What the code prints when it knows no output is not kept. *)
Definition ComputeOutputBasename (spec : spec) : string :=
  let target := target_name spec in
  let without_lib := if startswith "lib" target then str_drop 3 target else target in
  let '(target, target_prefix, target_ext) :=
    if String.eqb (type spec) "static_library" then (without_lib, "lib", ".a")
    else if String.eqb (type spec) "loadable_module" || String.eqb (type spec) "shared_library" then (without_lib, "lib", ".so")
    else if String.eqb (type spec) "none" then (target +:+ ".stamp", "", "")
    else (target, "", "") in
  let target_prefix := default target_prefix (product_prefix spec) in
  let target := default target (product_name spec) in
  let target_ext := match product_extension spec with
                    | Some x => if String.eqb x "" then target_ext else "." +:+ x
                    | None => target_ext
                    end in
  target_prefix +:+ target +:+ target_ext.
Definition ComputeOutput (base : string) (spec : spec) : string :=
  let path := path_join ("$(obj)." +:+ toolset spec) [base] in
  let path := if String.eqb (type spec) "executable" then "$(builddir)" else path in
  path_join (default path (product_dir spec)) [ComputeOutputBasename spec].

(** The two global dictionaries *)
Record outputs := { target_outputs : gmap string string; target_link_deps : gmap string string }.
Definition ComputeDeps (st : outputs) (spec : spec) : res (list string * list string) :=
  match dependencies spec with
  | None => Ok ([], [])
  | Some dependencies =>
      outs ← mapM (fun dep => of_option (KeyError dep) (target_outputs st !! dep)) dependencies;
      let deps := filter (fun o => o <> "") outs in
      let link_deps := omap (fun dep => target_link_deps st !! dep) dependencies in
      Ok (uniquer (deps ++ link_deps)%list, uniquer link_deps)
  end.
Definition _InstallableTargetInstallPath (spec : spec) (alias : string) : string :=
  if String.eqb (type spec) "shared_library" then "$(builddir)/lib." +:+ toolset spec +:+ "/" +:+ alias
  else "$(builddir)/" +:+ alias.
Definition installable (spec : spec) : bool :=
  existsb (String.eqb (type spec)) ["executable"; "loadable_module"; "shared_library"].

(** ** The rules for the final target *)
Section Final.
Context (e : env) (w : self).

Definition order_rule (outs deps : list string) (comment : string) : res string :=
  WriteMakeRule outs deps [] (Some comment) {| order_only := true; force := false; phony := false |}.
Definition phony_rule (outs deps : list string) (comment : string) : res string :=
  WriteMakeRule outs deps [] (Some comment) {| order_only := false; force := false; phony := true |}.
Definition is_shared (dep : string) : bool := endswith ".so" dep || contains ".so." dep.
Definition link_flags (deps : list string) (kv : string * config) : string :=
  let '(configname, config) := kv in
  let rpath := if existsb is_shared deps then
                 ["-Wl,-rpath=\$$ORIGIN/lib." +:+ toolset (target w) +:+ "/";
                  "-Wl,-rpath-link=\$(builddir)/lib." +:+ toolset (target w) +:+ "/"]
               else [] in
  WriteList (ldflags config ++ rpath ++ map (fun d => "-L" +:+ d) (library_dirs config))%list
    ("LDFLAGS_" +:+ configname) "" QuoteIfNecessary.
Definition on_android_host : bool := String.eqb (toolset (target w)) "host" && String.eqb (flavor e) "android".
Definition ld_inputs (link_deps : list string) : string :=
  WriteLn (QuoteSpaces (output w) +:+ ": LD_INPUTS := " +:+ join " " (map QuoteSpaces link_deps)).
(** The rule that builds the output *)
Definition link_rule (deps link_deps : list string) : res string :=
  let command (c : string) := WriteDoCmd [output w] link_deps c None in
  let t := type (target w) in
  if String.eqb t "executable" then
    c ← command (if on_android_host then "link_host" else "link"); Ok (ld_inputs link_deps +:+ c)
  else if String.eqb t "static_library" then
    _ ← assert_ (forallb no_space link_deps);
    command (if negb (existsb (String.eqb (flavor e)) ["mac"; "openbsd"; "win"]) && negb (standalone_static_library (target w))
             then "alink_thin" else "alink")
  else if String.eqb t "shared_library" then c ← command "solink"; Ok (ld_inputs link_deps +:+ c)
  else if String.eqb t "loadable_module" then
    _ ← assert_ (forallb no_space link_deps);
    command (if on_android_host then "solink_module_host" else "solink_module")
  else if String.eqb t "none" then WriteDoCmd [output w] deps "touch" None
  else Err (NameError "target").
Definition file_desc : string :=
  if String.eqb (type (target w)) "shared_library" then "shared library"
  else if String.eqb (type (target w)) "static_library" then "static library" else "executable".
(** [target: output] and [all: target], for what is not installed *)
Definition plain_aliases (part_of_all : bool) : res string :=
  let name := target_name (target w) in
  if negb (String.eqb (output w) "") && negb (String.eqb (output w) name) && negb (installable (target w)) then
    a ← phony_rule [name] [output w] "Add target alias";
    b ← (if part_of_all : bool then phony_rule ["all"] [name] ("Add target alias to " +:+ String dquote ("all" +:+ String dquote " target."))
         else Ok "");
    Ok (a +:+ b)
  else Ok "".
Definition install_rules (part_of_all : bool) : res string :=
  let name := target_name (target w) in
  if installable (target w) || standalone_static_library (target w) then
    let install_path := _InstallableTargetInstallPath (target w) (alias w) in
    a ← phony_rule [name] [install_path] "Add target alias";
    b ← (if String.eqb install_path (output w) then Ok ""
         else WriteDoCmd [install_path] [output w] "copy" (Some ("Copy this to the " +:+ file_desc +:+ " output path.")));
    let installable_deps := (output w :: if String.eqb install_path (output w) then [] else [install_path])%list in
    c ← (if negb (String.eqb (output w) (alias w)) && negb (String.eqb (alias w) name) then
           phony_rule [alias w] installable_deps ("Short alias for building this " +:+ file_desc +:+ ".")
         else Ok "");
    d ← (if part_of_all : bool then
           phony_rule ["all"] [install_path] ("Add " +:+ file_desc +:+ " to " +:+ String dquote ("all" +:+ String dquote " target."))
         else Ok "");
    Ok (a +:+ b +:+ c +:+ d)
  else Ok "".
Definition WriteTarget (configs : list (string * config)) (deps link_deps extra_outputs : list string) (part_of_all : bool)
    : res string :=
  special ← match extra_outputs with
            | [] => Ok ""
            | _ => a ← order_rule [output w] extra_outputs "Build our special outputs first.";
                   b ← order_rule extra_outputs deps "Preserve order dependency of special output on deps.";
                   Ok (a +:+ b)
            end;
  let settings :=
    if String.eqb (type (target w)) "none" then ""
    else join "" (map (link_flags deps) configs)
         +:+ WriteList (uniquer (libraries (target w))) "LIBS" "" QuoteIfNecessary
         +:+ lines [QuoteSpaces (output w) +:+ ": GYP_LDFLAGS := $(LDFLAGS_$(BUILDTYPE))";
                    QuoteSpaces (output w) +:+ ": LIBS := $(LIBS)"] in
  rule ← link_rule deps link_deps;
  aliases ← plain_aliases part_of_all;
  installs ← install_rules part_of_all;
  Ok (WriteLn "### Rules for final target." +:+ special +:+ settings +:+ rule +:+ aliases +:+ installs).
End Final.

(** ** A target's file, and all of them *)
(** The definitions for the Android NDK *)
Definition count_extension (st : gmap string nat * string) (filename : string) : gmap string nat * string :=
  let '(cpp_ext, default_cpp_ext) := st in
  let ext := (splitext filename).2 in
  match cpp_ext !! ext with
  | Some n =>
      let cpp_ext := <[ext := S n]> cpp_ext in
      (cpp_ext, if default 0 (cpp_ext !! default_cpp_ext) <? S n then ext else default_cpp_ext)
  | None => st
  end.
Definition DepsToModules (deps : list string) (prefix suffix : string) : list string :=
  omap (fun filepath =>
          let filename := basename filepath in
          if startswith prefix filename && endswith suffix filename then
            Some (str_slice (String.length prefix) (String.length filename - String.length suffix) filename)
          else None) deps.
Definition WriteAndroidNdkModuleRule (w : self) (module_name : string) (all_sources link_deps : list string) : string :=
  if negb (existsb (String.eqb (type (target w))) ["executable"; "shared_library"; "static_library"]) then ""
  else
    let cpp_ext : gmap string nat := {[".cc" := 0; ".cpp" := 0; ".cxx" := 0]} in
    let default_cpp_ext := (foldl count_extension (cpp_ext, ".cpp") all_sources).2 in
    lines ["# Variable definitions for Android applications"; "include $(CLEAR_VARS)"; "LOCAL_MODULE := " +:+ module_name;
           "LOCAL_CFLAGS := $(CFLAGS_$(BUILDTYPE)) $(DEFS_$(BUILDTYPE)) $(CFLAGS_C_$(BUILDTYPE)) $(INCS_$(BUILDTYPE))";
           "LOCAL_CPPFLAGS := $(CFLAGS_CC_$(BUILDTYPE))"; "LOCAL_C_INCLUDES :=";
           "LOCAL_LDLIBS := $(LDFLAGS_$(BUILDTYPE)) $(LIBS)"; "LOCAL_CPP_EXTENSION := " +:+ default_cpp_ext]
    +:+ WriteList (map (Absolutify (path w)) (filter (fun s => Compilable s = true) all_sources)) "LOCAL_SRC_FILES" "" QuoteIfNecessary
    +:+ WriteList (DepsToModules link_deps "lib" ".so") "LOCAL_SHARED_LIBRARIES" "" QuoteIfNecessary
    +:+ WriteList (DepsToModules link_deps "lib" ".a") "LOCAL_STATIC_LIBRARIES" "" QuoteIfNecessary
    +:+ (if String.eqb (type (target w)) "executable" then WriteLn "include $(BUILD_EXECUTABLE)"
         else if String.eqb (type (target w)) "shared_library" then WriteLn "include $(BUILD_SHARED_LIBRARY)"
         else WriteLn "include $(BUILD_STATIC_LIBRARY)")
    +:+ WriteLn "".

Definition header : string := "# This file is generated by gyp; do not edit." +:+ nl +:+ nl.
Definition self_of (qualified_target base_path : string) (spec : spec) : self :=
  let output := ComputeOutput base_path spec in
  {| qualified_target := qualified_target; path := base_path; target := spec; output := output;
     alias := if standalone_static_library spec || installable spec then basename output else output |}.
Definition Write (e : env) (qualified_target base_path : string) (spec : spec) (part_of_all : bool) (st : outputs)
    : res (string * outputs) :=
  let configs := sorted_items (configurations spec) in
  '(deps, link_deps) ← ComputeDeps st spec;
  let w := self_of qualified_target base_path spec in
  let install_path := if standalone_static_library spec || installable spec
                      then _InstallableTargetInstallPath spec (alias w) else output w in
  let text := header +:+ lines ["TOOLSET := " +:+ toolset spec; "TARGET := " +:+ target_name spec] in
  x ← match actions spec with Some l => WriteActions e w l (text, [], []) | None => Ok (text, [], []) end;
  x ← match rules spec with Some l => WriteRules e w l x | None => Ok x end;
  '(text, extra_sources, extra_outputs) ← match copies spec with Some l => WriteCopies e w l x | None => Ok x end;
  let all_sources := (sources spec ++ extra_sources)%list in
  '(text', extra_link_deps) ← match all_sources with
                              | [] => Ok ("", [])
                              | _ => '(t, l) ← WriteSources e w configs deps all_sources extra_outputs;
                                     Ok (t +:+ suffix_rules e all_sources, l)
                              end;
  final ← WriteTarget e w configs deps (extra_link_deps ++ link_deps)%list extra_outputs part_of_all;
  let module := if android_ndk_version e then WriteAndroidNdkModuleRule w (target_name spec) all_sources link_deps else "" in
  Ok (text +:+ text' +:+ final +:+ module,
      {| target_outputs := <[qualified_target := install_path]> (target_outputs st);
         target_link_deps := if existsb (String.eqb (type spec)) ["static_library"; "shared_library"]
                             then <[qualified_target := output w]> (target_link_deps st) else target_link_deps st |}).
(** The loop over the targets, which are written in the given order; [base_path] tells the
    directory of a target's file. *)
Definition write_targets (e : env) (base_path : string -> string) (needed : string -> bool)
    (target_dicts : gmap string spec) (target_list : list string) (st : outputs) : res (list (string * string) * outputs) :=
  foldM (fun '(files, st) t =>
           spec ← of_option (KeyError t) (target_dicts !! t);
           '(text, st) ← Write e t (base_path t) spec (needed t) st;
           Ok ((files ++ [(t, text)])%list, st)) ([], st) target_list.
Definition no_outputs : outputs := {| target_outputs := ∅; target_link_deps := ∅ |}.
