(* ===== verification/MakeProps.v ===== *)
(** * What make and the shell read of the files of the make generator *)
From S2P Require Import Prelude PyStr PyFormat PyPath Common GypValue InstallProps Make.
From stdpp Require Import options.
#[local] Open Scope nat_scope.

(** ** GNU make's reading of an assignment

    A line that ends in a backslash goes on in the next one, the white space around the
    break being one space; then comments are removed ([\#] is a [#], and of the
    backslashes in front of it half are left); then [$$] is a dollar.  References to
    variables are not followed. *)
Definition blank (c : ascii) : bool := Ascii.eqb c " " || Ascii.eqb c tab.
Fixpoint logical_line (lines : list string) : string :=
  match lines with
  | [] => ""
  | l :: rest =>
      if endswith "\" l then rstrip_of blank (str_init 1 l) +:+ " " +:+ lstrip_of blank (logical_line rest) else l
  end.
Fixpoint uncomment (backslashes : nat) (s : string) : string :=
  match s with
  | "" => str_repeat backslashes "\"
  | String c s =>
      if Ascii.eqb c "\" then uncomment (S backslashes) s
      else if Ascii.eqb c "#" then
        str_repeat (backslashes / 2) "\" +:+ (if Nat.even backslashes then "" else "#" +:+ uncomment 0 s)
      else str_repeat backslashes "\" +:+ String c (uncomment 0 s)
  end.
Fixpoint expand (s : string) : option string :=
  match s with
  | "" => Some ""
  | String c s =>
      if Ascii.eqb c "$" then
        match s with String d s => if Ascii.eqb d "$" then String "$" <$> expand s else None | "" => None end
      else String c <$> expand s
  end.
(** The value that is assigned by the text behind [:=]. *)
Definition make_value (text : string) : option string := expand (uncomment 0 (logical_line (split_char newline text))).

(** ** A posix shell's reading of a command line with quoted words

    Within single quotes everything but a quote is itself; outside, a backslash
    quotes, and what means more to a shell than itself is refused. *)
Definition plain_outside (c : ascii) : bool := isalpha c || isdigit c || str_mem c "_-+=/.,:@%".
Fixpoint words (quoted : bool) (word : option string) (s : string) : option (list string) :=
  let put (c : ascii) := Some (default "" word +:+ String c "") in
  match s with
  | "" => if quoted then None else Some (match word with Some w => [w] | None => [] end)
  | String c s =>
      if quoted then
        if Ascii.eqb c "'" then words false word s else words true (put c) s
      else if Ascii.eqb c "'" then words true (Some (default "" word)) s
      else if Ascii.eqb c "\" then match s with String d s => words false (put d) s | "" => None end
      else if blank c then
        l ← words false None s; Some (match word with Some w => w :: l | None => l end)
      else if plain_outside c then words false (put c) s
      else None
  end.

(** What [str.replace] does with a single character *)
Lemma str_replace_char c new s :
  str_replace (String c "") new s = str_subst (fun d => if Ascii.eqb c d then new else String d "") s.
Proof.
  unfold str_replace. induction s as [|d s IH]; [done|].
  cbn [str_replace_from str_subst]. rewrite <- IH. fold (startswith (String c "") (String d s)).
  rewrite startswith_cons, startswith_nil, andb_true_r. by destruct (Ascii.eqb c d).
Qed.
Lemma str_subst_subst f g s : str_subst f (str_subst g s) = str_subst (fun c => str_subst f (g c)) s.
Proof. induction s as [|c s IH]; [done|]. cbn [str_subst]. by rewrite str_subst_app, IH. Qed.
Lemma str_subst_ext f g s : (forall c, f c = g c) -> str_subst f s = str_subst g s.
Proof. intros H. induction s as [|c s IH]; [done|]. cbn [str_subst]. by rewrite H, IH. Qed.

(** ** A define, letter by letter *)
Definition define_char (c : ascii) : string :=
  if Ascii.eqb "'" c then "'\''" else if Ascii.eqb "$" c then "$$" else if Ascii.eqb "#" c then "\#" else String c "".
Lemma EscapeCppDefine_chars s : EscapeCppDefine s = "'" +:+ str_subst define_char s +:+ "'".
Proof.
  unfold EscapeCppDefine, EscapeMakeVariableExpansion, EscapeShellArgument. rewrite !str_replace_char, !str_subst_app.
  rewrite !str_subst_subst. f_equal. f_equal. apply str_subst_ext. intros c. unfold define_char.
  destruct (Ascii.eqb_spec "'" c) as [<-|]; [done|]. cbn [str_subst]. rewrite append_nil_r.
  destruct (Ascii.eqb_spec "$" c) as [<-|]; [done|]. cbn [str_subst]. rewrite append_nil_r. done.
Qed.
(** What is left of it when comments are removed, and after expansion *)
Definition commented_char (c : ascii) : string :=
  if Ascii.eqb "'" c then "'\''" else if Ascii.eqb "$" c then "$$" else String c "".
Definition expanded_char (c : ascii) : string := if Ascii.eqb "'" c then "'\''" else String c "".

(** No newline, and no backslash in front of a hash: make would halve the backslashes. *)
Fixpoint no_quoted_hash (backslash : bool) (s : string) : bool :=
  match s with
  | "" => true
  | String c s => negb (backslash && Ascii.eqb c "#") && no_quoted_hash (Ascii.eqb c "\") s
  end.
Definition definable (s : string) : bool := negb (str_mem newline s) && no_quoted_hash false s.

Lemma str_repeat_snoc n s : str_repeat n "\" +:+ String "\" s = str_repeat (S n) "\" +:+ s.
Proof. induction n as [|n IH]; [done|]. cbn [str_repeat String.append]. f_equal. exact IH. Qed.
Lemma uncomment_define s X n b : no_quoted_hash b s = true -> (n <> 0 -> b = true) ->
  uncomment n (str_subst define_char s +:+ String "'" X) =
  str_repeat n "\" +:+ str_subst commented_char s +:+ String "'" (uncomment 0 X).
Proof.
  revert n b. induction s as [|c s IH]; intros n b; cbn [no_quoted_hash str_subst].
  { intros _ _. reflexivity. }
  intros [Hc Hs]%andb_true_iff Hn. rewrite !append_assoc. unfold define_char at 1, commented_char at 1.
  destruct (Ascii.eqb_spec "'" c) as [<-|Hq].
  { cbn. by rewrite (IH 0 false). }
  destruct (Ascii.eqb_spec "$" c) as [<-|Hd].
  { cbn. by rewrite (IH 0 false). }
  destruct (Ascii.eqb_spec "#" c) as [<-|Hh].
  { destruct n as [|n]; [|rewrite Hn in Hc by done; done]. cbn. by rewrite (IH 0 false). }
  cbn [String.append uncomment]. apply not_eq_sym, Ascii.eqb_neq in Hh. rewrite Hh.
  destruct (Ascii.eqb_spec c "\") as [->|Hb].
  - rewrite (IH (S n) true); [|done..]. by rewrite str_repeat_snoc.
  - rewrite (IH 0 false); [done|exact Hs|done].
Qed.

Lemma expand_define s X : expand (str_subst commented_char s +:+ String "'" X) =
  (fun t => str_subst expanded_char s +:+ String "'" t) <$> expand X.
Proof.
  induction s as [|c s IH]; [done|]. cbn [str_subst]. rewrite !append_assoc.
  unfold commented_char at 1, expanded_char at 1.
  destruct (Ascii.eqb_spec "'" c) as [<-|Hq].
  { cbn. rewrite IH. by destruct (expand X). }
  destruct (Ascii.eqb_spec "$" c) as [<-|Hd].
  { cbn. rewrite IH. by destruct (expand X). }
  cbn [String.append expand]. apply not_eq_sym, Ascii.eqb_neq in Hd. rewrite Hd, IH. by destruct (expand X).
Qed.
Lemma words_define s w X : words true (Some w) (str_subst expanded_char s +:+ String "'" X) = words false (Some (w +:+ s)) X.
Proof.
  revert w. induction s as [|c s IH]; intros w; cbn [str_subst]; [by rewrite append_nil_r|].
  rewrite append_assoc. unfold expanded_char at 1.
  destruct (Ascii.eqb_spec "'" c) as [<-|Hq].
  - cbn [String.append words Ascii.eqb Bool.eqb default from_option id]. rewrite IH. by rewrite append_assoc.
  - cbn [String.append words default from_option id]. apply not_eq_sym, Ascii.eqb_neq in Hq. rewrite Hq, IH. by rewrite append_assoc.
Qed.

(** ** A list of defines *)
Definition quoted (f : ascii -> string) (s : string) : string := "'" +:+ str_subst f s +:+ "'".
Lemma quoted_app f s X : quoted f s +:+ X = String "'" (str_subst f s +:+ String "'" X).
Proof. unfold quoted. by rewrite !append_assoc. Qed.
Lemma join_cons sep x l : l <> [] -> join sep (x :: l) = x +:+ sep +:+ join sep l.
Proof. by destruct l. Qed.
Lemma uncomment_plain c s : Ascii.eqb c "\" || Ascii.eqb c "#" = false -> uncomment 0 (String c s) = String c (uncomment 0 s).
Proof. intros [H1 H2]%orb_false_iff. cbn [uncomment]. by rewrite H1, H2. Qed.
Lemma make_expand_plain c s : Ascii.eqb c "$" = false -> expand (String c s) = String c <$> expand s.
Proof. intros H. cbn [expand]. by rewrite H. Qed.
Lemma words_open s : words false None (String "'" s) = words true (Some "") s.
Proof. done. Qed.
Lemma words_space w s : words false (Some w) (" " +:+ s) = (l ← words false None s; Some (w :: l)).
Proof. done. Qed.
Lemma words_lead s : words false None (String " " s) = words false None s.
Proof. change (words false None (String " " s)) with (l ← words false None s; Some l). by destruct (words false None s). Qed.
Lemma defines_value l : Forall (fun s => definable s = true) l ->
  expand (uncomment 0 (join " " (map (quoted define_char) l))) = Some (join " " (map (quoted expanded_char) l)).
Proof.
  induction l as [|s [|s' l] IH]; [done| |]; intros [Hs Hl]%list.Forall_cons; apply andb_true_iff in Hs as [_ Hs].
  - cbn [map join String.concat]. rewrite <- (append_nil_r (quoted define_char s)), quoted_app.
    rewrite (uncomment_plain "'") by done. rewrite (uncomment_define _ _ 0 false) by done.
    rewrite (make_expand_plain "'") by done. cbn [str_repeat String.append].
    rewrite expand_define. by rewrite <- (append_nil_r (quoted expanded_char s)), quoted_app.
  - cbn [map] in *. rewrite !(join_cons " " (quoted _ s)) by done. rewrite !quoted_app.
    rewrite (uncomment_plain "'") by done. rewrite (uncomment_define _ _ 0 false) by done.
    rewrite (make_expand_plain "'") by done. cbn [str_repeat String.append].
    rewrite expand_define. rewrite (uncomment_plain " "), (make_expand_plain " ") by done. rewrite (IH Hl). done.
Qed.
Lemma defines_words l : words false None (join " " (map (quoted expanded_char) l)) = Some l.
Proof.
  induction l as [|s [|s' l] IH]; [done| |].
  - cbn [map join String.concat]. rewrite <- (append_nil_r (quoted expanded_char s)), quoted_app.
    rewrite words_open. by rewrite words_define.
  - cbn [map] in *. rewrite !join_cons by done. rewrite quoted_app.
    rewrite words_open. rewrite words_define.
    rewrite words_space. by rewrite IH.
Qed.

(** ** The lines of [WriteList] *)
Fixpoint list_lines (vs : list string) : list string :=
  match vs with
  | [] => []
  | [v] => [String tab v; ""; ""]
  | v :: vs => (String tab v +:+ " \") :: list_lines vs
  end.
Definition list_sep : string := " \" +:+ nl +:+ String tab "".
(** A quoted define: one line, and no white space at its ends. *)
Definition tight (v : string) : Prop := str_mem newline v = false /\ exists s, v = "'" +:+ s +:+ "'".

Lemma list_text_lines vs : vs <> [] -> Forall tight vs ->
  split_char newline (String tab (join list_sep vs +:+ nl +:+ nl)) = list_lines vs.
Proof.
  intros Hne H. induction H as [|v vs [Hv _] H IH]; [done|].
  destruct vs as [|v' vs].
  - cbn [join String.concat list_lines]. change (String tab (v +:+ nl +:+ nl)) with (String tab v +:+ String newline nl).
    rewrite split_char_app; [done|]. by rewrite str_mem_cons, Hv.
  - rewrite join_cons by done. unfold list_sep at 1. rewrite !append_assoc.
    replace (String tab (v +:+ " \" +:+ nl +:+ String tab "" +:+ join list_sep (v' :: vs) +:+ nl +:+ nl))
      with ((String tab v +:+ " \") +:+ String newline (String tab (join list_sep (v' :: vs) +:+ nl +:+ nl)))
      by (by rewrite append_assoc).
    rewrite split_char_app; [|rewrite str_mem_app, str_mem_cons, Hv; done]. by rewrite IH.
Qed.
Lemma rstrip_tight v t : tight v -> str_forallb blank t = true -> rstrip_of blank (String tab v +:+ t) = String tab v.
Proof.
  intros [_ [s ->]] Ht. rewrite rstrip_of_rest by done. rewrite <- (append_assoc "'" s "'").
  rewrite <- append_cons. by apply rstrip_of_last.
Qed.
Lemma lstrip_tight v X : tight v -> lstrip_of blank (String tab (v +:+ X)) = v +:+ X.
Proof. intros [_ [s ->]]. by rewrite !append_assoc. Qed.
Lemma logical_list vs : vs <> [] -> Forall tight vs ->
  lstrip_of blank (logical_line (list_lines vs)) = join " " vs.
Proof.
  intros Hne H. induction H as [|v vs Hv H IH]; [done|].
  destruct vs as [|v' vs].
  - cbn [list_lines logical_line join String.concat].
    assert (E : endswith "\" (String tab v) = false).
    { destruct Hv as [_ [s ->]]. rewrite <- (append_assoc "'" s "'"), <- append_cons. by rewrite endswith_last. }
    rewrite E. pose proof (lstrip_tight v "" Hv) as L. by rewrite append_nil_r in L.
  - change (list_lines (v :: v' :: vs)) with ((String tab v +:+ " \") :: list_lines (v' :: vs)). cbn [logical_line].
    replace (String tab v +:+ " \") with ((String tab v +:+ " ") +:+ "\") by (by rewrite append_assoc).
    rewrite endswith_last, Ascii.eqb_refl, str_init_snoc, rstrip_tight by done.
    rewrite IH by done. rewrite (join_cons " " v) by done. exact (lstrip_tight v _ Hv).
Qed.
Lemma tight_define s : definable s = true -> tight (EscapeCppDefine ("-D" +:+ s)).
Proof.
  intros [Hn _]%andb_true_iff. apply negb_true_iff in Hn. rewrite EscapeCppDefine_chars. split; [|by eexists].
  assert (H : forall t, str_mem newline t = false -> str_mem newline (str_subst define_char t) = false).
  { induction t as [|c t IH]; [done|]. rewrite str_mem_cons. intros [Hc Ht]%orb_false_iff. cbn [str_subst].
    rewrite str_mem_app, (IH Ht), orb_false_r. unfold define_char.
    repeat case_match; try done. by rewrite str_mem_cons, Hc. }
  rewrite !str_mem_app, H; [done|]. by rewrite !append_cons, !str_mem_cons.
Qed.
Lemma definable_D s : definable s = true -> definable ("-D" +:+ s) = true.
Proof. unfold definable. rewrite !append_cons, !str_mem_cons. done. Qed.

(** C34. A define reaches the compiler unaltered: what make reads of the list that
    [WriteSources] writes for the defines of a configuration, with its broken lines,
    escaped hashes and doubled dollars, a shell splits into one word for each define,
    [-D] and the define itself, whatever quotation marks, spaces, dollars or hashes are
    in it; all that may not be in it is a newline and a backslash in front of a hash. *)
Theorem defines_reach_compiler l variable : Forall (fun s => definable s = true) l ->
  exists text value, WriteList l variable "-D" EscapeCppDefine = variable +:+ " :=" +:+ text /\
    make_value text = Some value /\ words false None value = Some (map (String.append "-D") l).
Proof.
  intros Hl. destruct l as [|s l]; [by exists (nl +:+ nl), ""|].
  set (vs := map (fun d => EscapeCppDefine ("-D" +:+ d)) (s :: l)).
  assert (Ht : Forall tight vs).
  { unfold vs. apply Forall_map. eapply list.Forall_impl; [exact Hl|]. intros d. apply tight_define. }
  assert (Hvs : vs = map (quoted define_char) (map (String.append "-D") (s :: l))).
  { unfold vs. rewrite map_map. apply map_ext. intros d. apply EscapeCppDefine_chars. }
  exists (list_sep +:+ join list_sep vs +:+ nl +:+ nl), (" " +:+ join " " (map (quoted expanded_char) (map (String.append "-D") (s :: l)))).
  split; [unfold WriteList; fold vs; by rewrite !append_assoc|]. split.
  - unfold make_value, list_sep at 1. rewrite !append_assoc.
    change (split_char newline (" \" +:+ nl +:+ String tab "" +:+ join list_sep vs +:+ nl +:+ nl))
      with (" \" :: split_char newline (String tab (join list_sep vs +:+ nl +:+ nl))).
    rewrite list_text_lines by done. cbn [logical_line].
    change (endswith "\" " \") with true. cbv iota. rewrite logical_list by done.
    change (rstrip_of blank (str_init 1 " \")) with "". cbn [String.append].
    rewrite (uncomment_plain " "), (make_expand_plain " ") by done. rewrite Hvs, defines_value; [done|].
    apply Forall_map. eapply list.Forall_impl; [exact Hl|]. intros d. apply definable_D.
  - cbn [String.append]. rewrite words_lead. apply (defines_words (map (String.append "-D") (s :: l))).
Qed.

Definition awkward : list string := ["NAME='a b'"; "PRICE=$5 # cheap"; String dquote "x"].
Lemma defines_reach_compiler_witness : exists text value,
  WriteList awkward "DEFS_Debug" "-D" EscapeCppDefine = "DEFS_Debug :=" +:+ text /\
  make_value text = Some value /\ words false None value = Some (map (String.append "-D") awkward).
Proof. apply (defines_reach_compiler awkward "DEFS_Debug"). decided. Defined.
(** Make takes the rest for a comment. *)
Example quoted_hash_is_lost : make_value (EscapeCppDefine "A=\#1" +:+ nl) = Some "'A=\".
Proof. reflexivity. Qed.
