(* ===== verification/MakeRules.v ===== *)
(** * What make reads of the rules of the make generator, and the order of its targets *)
From S2P Require Import Prelude PyStr PyFormat PyPath Common Make.
From stdpp Require Import options.
#[local] Open Scope nat_scope.

(** ** GNU make's reading of rules

    Names are separated by spaces, a backslash quotes one; what is behind a bar is only
    an order; a line that starts with a tab belongs to the recipe of the rule above.
    Variables are not expanded, and lines that set a variable of a target are skipped. *)
Fixpoint names (word : option string) (s : string) : list string :=
  match s with
  | "" => match word with Some w => [w] | None => [] end
  | String c s =>
      let put (c : ascii) := Some (default "" word +:+ String c "") in
      if Ascii.eqb c " " then match word with Some w => w :: names None s | None => names None s end
      else if Ascii.eqb c "\" then
        match s with
        | String d s' => if Ascii.eqb d " " then names (put d) s' else names (put c) s
        | "" => names (put c) s
        end
      else names (put c) s
  end.
Record mk_rule := { targets : list string; prerequisites : list string; order_prerequisites : list string;
                    recipe : list string }.
Definition split_bar (l : list string) : list string * list string :=
  match list_find (fun w => w = "|") l with Some (i, _) => (take i l, drop (S i) l) | None => (l, []) end.
Definition read_rule (line : string) : option mk_rule :=
  '(outs, rest) ← split1 ":" line;
  if str_mem "=" rest then None
  else
    let '(needs, cmds) := match split1 ";" rest with Some (needs, c) => (needs, [c]) | None => (rest, []) end in
    let '(normal, order) := split_bar (names None needs) in
    Some {| targets := names None outs; prerequisites := normal; order_prerequisites := order; recipe := cmds |}.
Fixpoint read_lines (ls : list string) : list string * list mk_rule :=
  match ls with
  | [] => ([], [])
  | l :: ls =>
      let '(cmds, rules) := read_lines ls in
      if startswith (String tab "") l then (str_drop 1 l :: cmds, rules)
      else if startswith "#" l then (cmds, rules)
      else match read_rule l with
           | Some r => ([], {| targets := targets r; prerequisites := prerequisites r;
                               order_prerequisites := order_prerequisites r; recipe := (recipe r ++ cmds)%list |} :: rules)
           | None => (cmds, rules)
           end
  end.
Definition read_makefile (text : string) : list mk_rule := (read_lines (split_char newline text)).2.

Example reads_two_outputs :
  (WriteMakeRule ["a b"; "c"] ["x"; "FORCE"] ["$(call do_cmd,f)"] (Some "why") no_flags ≫= fun t => Ok (read_makefile t)) =
  Ok [{| targets := ["a b"]; prerequisites := ["x"; "FORCE"]; order_prerequisites := []; recipe := ["$(call do_cmd,f)"] |};
      {| targets := ["c"]; prerequisites := ["a b"]; order_prerequisites := []; recipe := [] |};
      {| targets := ["c"]; prerequisites := []; order_prerequisites := []; recipe := [""] |}].
Proof. vm_compute. reflexivity. Qed.

(** ** Names *)

(** What may be in a name, and in a list of them *)
Definition good (c : ascii) : bool := negb (str_mem c (String newline (String tab ":;|#="))).
Definition name_ok (s : string) : bool :=
  negb (String.eqb s "") && str_forallb (fun c => good c && negb (Ascii.eqb c "\")) s.

Lemma QuoteSpaces_cons c s : QuoteSpaces (String c s) = (if Ascii.eqb c " " then "\ " else String c "") +:+ QuoteSpaces s.
Proof.
  unfold QuoteSpaces, QuoteSpaces_, str_replace. cbn [str_replace_from]. fold (startswith " " (String c s)).
  rewrite startswith_cons, startswith_nil, andb_true_r, Ascii.eqb_sym. by destruct (Ascii.eqb c " ").
Qed.
Lemma good_app s t : str_forallb good (s +:+ t) = str_forallb good s && str_forallb good t.
Proof. apply str_forallb_app. Qed.
Lemma good_QuoteSpaces s : name_ok s = true -> str_forallb good (QuoteSpaces s) = true.
Proof.
  intros [_ H]%andb_true_iff. induction s as [|c s IH]; [done|]. cbn [str_forallb] in H.
  apply andb_true_iff in H as [[Hc _]%andb_true_iff H]. rewrite QuoteSpaces_cons, good_app, (IH H), andb_true_r.
  destruct (Ascii.eqb c " "); [done|]. cbn [str_forallb]. by rewrite Hc.
Qed.
Lemma good_names l : Forall (fun s => name_ok s = true) l -> str_forallb good (join " " (map QuoteSpaces l)) = true.
Proof.
  induction 1 as [|s l Hs Hl IH]; [done|]. destruct l as [|s' l].
  - by apply good_QuoteSpaces.
  - change (join " " (map QuoteSpaces (s :: s' :: l))) with (QuoteSpaces s +:+ " " +:+ join " " (map QuoteSpaces (s' :: l))).
    rewrite !good_app, IH, (good_QuoteSpaces _ Hs). done.
Qed.
Lemma good_free c s : str_forallb good s = true -> good c = false -> str_mem c s = false.
Proof.
  intros Hs Hc. induction s as [|d s IH]; [done|]. cbn [str_forallb] in Hs. apply andb_true_iff in Hs as [Hd Hs].
  rewrite str_mem_cons, (IH Hs), orb_false_r. destruct (Ascii.eqb_spec c d) as [->|]; [congruence|done].
Qed.

Definition ends (t : string) : Prop := t = "" \/ exists t', t = " " +:+ t'.
Lemma names_end w t : ends t -> names (Some w) t = w :: names None t.
Proof. by intros [->|[t' ->]]. Qed.
Lemma names_space t : names None (" " +:+ t) = names None t.
Proof. done. Qed.
Lemma names_word s w t : str_forallb (fun c => good c && negb (Ascii.eqb c "\")) s = true ->
  names (Some w) (QuoteSpaces s +:+ t) = names (Some (w +:+ s)) t.
Proof.
  revert w. induction s as [|c s IH]; intros w; cbn [str_forallb]; [by rewrite append_nil_r|].
  intros [[_ Hb]%andb_true_iff Hs]%andb_true_iff. apply negb_true_iff in Hb. rewrite QuoteSpaces_cons, append_assoc.
  destruct (Ascii.eqb c " ") eqn:Hc.
  - apply Ascii.eqb_eq in Hc as ->. change (names (Some w) ("\ " +:+ QuoteSpaces s +:+ t)) with (names (Some (w +:+ " ")) (QuoteSpaces s +:+ t)).
    by rewrite (IH _ Hs), append_assoc.
  - cbn [String.append names]. rewrite Hc, Hb. cbn [default from_option id]. by rewrite (IH _ Hs), append_assoc.
Qed.
Lemma names_first s t : name_ok s = true -> ends t -> names None (QuoteSpaces s +:+ t) = s :: names None t.
Proof.
  intros [Hne Hs]%andb_true_iff Ht. rewrite <- (names_end s t Ht). destruct s as [|c s]; [done|].
  pose proof (names_word (String c s) "" t Hs) as H. cbn [String.append] in H. rewrite <- H.
  rewrite QuoteSpaces_cons, append_assoc. destruct (Ascii.eqb c " ") eqn:Hc; [done|].
  cbn [str_forallb] in Hs. apply andb_true_iff in Hs as [[_ Hb]%andb_true_iff _]. apply negb_true_iff in Hb.
  cbn [String.append names]. by rewrite Hc, Hb.
Qed.
Lemma names_join l t : Forall (fun s => name_ok s = true) l -> ends t ->
  names None (join " " (map QuoteSpaces l) +:+ t) = (l ++ names None t)%list.
Proof.
  intros Hl Ht. induction Hl as [|s l Hs Hl IH]; [done|]. destruct l as [|s' l].
  - by apply names_first.
  - change (join " " (map QuoteSpaces (s :: s' :: l))) with (QuoteSpaces s +:+ " " +:+ join " " (map QuoteSpaces (s' :: l))).
    rewrite !append_assoc, names_first; [|done|right; by eexists]. by rewrite names_space, IH.
Qed.

(** ** Lines *)
Lemma skip_line l ls : read_rule l = None -> startswith (String tab "") l = false -> read_lines (l :: ls) = read_lines ls.
Proof.
  intros Hr Ht. cbn [read_lines]. rewrite Ht, Hr. destruct (read_lines ls) as [c rs]. by destruct (startswith "#" l).
Qed.
Lemma skip_comment c ls : read_lines (("# " +:+ c) :: ls) = read_lines ls.
Proof. cbn [read_lines]. destruct (read_lines ls). done. Qed.
Lemma recipe_lines cmds ls : read_lines (map (fun a => String tab a) cmds ++ ls)%list =
  ((cmds ++ (read_lines ls).1)%list, (read_lines ls).2).
Proof.
  induction cmds as [|c cmds IH]; cbn [map app]; [by destruct (read_lines ls)|]. cbn [read_lines].
  rewrite IH, startswith_cons, startswith_nil. done.
Qed.
Lemma rule_line l r ls : read_rule l = Some r -> startswith (String tab "") l = false -> startswith "#" l = false ->
  read_lines (l :: ls) = ([], {| targets := targets r; prerequisites := prerequisites r;
    order_prerequisites := order_prerequisites r; recipe := (recipe r ++ (read_lines ls).1)%list |} :: (read_lines ls).2).
Proof. intros Hr Ht Hc. cbn [read_lines]. rewrite Ht, Hc, Hr. by destruct (read_lines ls). Qed.

Lemma split_bar_none l : Forall (fun s => name_ok s = true) l -> split_bar l = (l, []).
Proof.
  intros H. unfold split_bar. destruct (list_find _ l) as [[i w]|] eqn:E; [|done].
  apply list_find_Some in E as (Hi & -> & _). rewrite list.Forall_lookup in H. by specialize (H _ _ Hi).
Qed.

(** A line with the names [outs] in front of its colon *)
Lemma line_starts outs rest c : Forall (fun s => name_ok s = true) outs -> outs <> [] -> good c = false ->
  startswith (String c "") (join " " (map QuoteSpaces outs) +:+ rest) = false.
Proof.
  intros Ho Hne Hc. pose proof (good_names _ Ho) as Hg.
  destruct (join " " (map QuoteSpaces outs)) as [|d s] eqn:E.
  - pose proof (names_join outs "" Ho (or_introl eq_refl)) as Hn. rewrite E in Hn. cbn in Hn. by destruct outs.
  - cbn [String.append]. rewrite startswith_cons, startswith_nil, andb_true_r. cbn [str_forallb] in Hg.
    apply andb_true_iff in Hg as [Hd _]. destruct (Ascii.eqb_spec c d) as [->|]; [congruence|done].
Qed.
Lemma read_rule_line outs needs : Forall (fun s => name_ok s = true) outs ->
  str_mem "=" needs = false -> str_mem ";" needs = false ->
  read_rule (join " " (map QuoteSpaces outs) +:+ ": " +:+ needs) =
  Some {| targets := outs; prerequisites := (split_bar (names None needs)).1;
          order_prerequisites := (split_bar (names None needs)).2; recipe := [] |}.
Proof.
  intros Ho Heq Hsemi. unfold read_rule. cbn [String.append]. rewrite split1_app by (by apply good_free; [apply good_names|]).
  cbn [mbind option_bind]. rewrite str_mem_cons, Heq. cbn [orb].
  rewrite split1_free by (by rewrite str_mem_cons, Hsemi). change (names None (String " " needs)) with (names None needs).
  destruct (split_bar (names None needs)) as [n o].
  pose proof (names_join outs "" Ho (or_introl eq_refl)) as Hn. rewrite append_nil_r in Hn. rewrite Hn. cbn [names fst snd].
  by rewrite app_nil_r.
Qed.
Lemma split_lines l : Forall (fun s => one_line s = true) l -> split_char newline (lines l) = (l ++ [""])%list.
Proof. apply split_newlines. Qed.

(** ** Rules *)

(** The rules for [outs], where their commands need [needs] *)
Definition rules_with (needs outs acts : list string) (f : flags) : list mk_rule :=
  ((if phony f then [{| targets := [".PHONY"]; prerequisites := outs; order_prerequisites := []; recipe := [] |}] else [])
   ++ (if order_only f then [{| targets := outs; prerequisites := []; order_prerequisites := needs; recipe := acts |}]
       else {| targets := take 1 outs; prerequisites := needs; order_prerequisites := []; recipe := acts |} ::
            (if 1 <? length outs then
               [{| targets := tail outs; prerequisites := take 1 outs; order_prerequisites := []; recipe := [] |};
                {| targets := tail outs; prerequisites := []; order_prerequisites := []; recipe := [""] |}]
             else [])))%list.
Definition rules_of (outs ins acts : list string) (f : flags) : list mk_rule :=
  rules_with ins outs acts f.
(** The same rules without the name that forces one *)
Definition without_force (r : mk_rule) : mk_rule := {|
  targets := targets r;
  prerequisites := filter (fun n => n <> "FORCE_DO_CMD") (prerequisites r);
  order_prerequisites := filter (fun n => n <> "FORCE_DO_CMD") (order_prerequisites r);
  recipe := recipe r |}.

Section Rule.
Context (outs ins : list string) (Houts : Forall (fun s => name_ok s = true) outs) (Hne : outs <> []).
Context (Hins : Forall (fun s => name_ok s = true) ins).

Definition force_text (b : bool) : string := if b then " FORCE_DO_CMD" else "".
Definition force_names (b : bool) : list string := if b then ["FORCE_DO_CMD"] else [].
Lemma ends_force b : ends (force_text b).
Proof. destruct b; [right; by exists "FORCE_DO_CMD"|by left]. Qed.
Lemma needs_names b : names None (join " " (map QuoteSpaces ins) +:+ force_text b) = (ins ++ force_names b)%list.
Proof using Hins. rewrite names_join; [by destruct b|done|apply ends_force]. Qed.
Lemma needs_free c b : good c = false -> str_mem c (force_text b) = false ->
  str_mem c (join " " (map QuoteSpaces ins) +:+ force_text b) = false.
Proof using Hins. intros Hc Hf. rewrite str_mem_app, Hf, orb_false_r. by apply good_free; [apply good_names|]. Qed.
Lemma needs_ok b : Forall (fun s => name_ok s = true) (ins ++ force_names b)%list.
Proof using Hins. apply Forall_app. split; [done|]. destruct b; by repeat constructor. Qed.
Lemma main_line (order b : bool) : read_rule (join " " (map QuoteSpaces outs) +:+ ": " +:+ (if order then "| " else "") +:+
    join " " (map QuoteSpaces ins) +:+ force_text b) =
  Some {| targets := outs; prerequisites := if order then [] else (ins ++ force_names b)%list;
          order_prerequisites := if order then (ins ++ force_names b)%list else []; recipe := [] |}.
Proof using Hins Houts.
  rewrite read_rule_line; [|done| |].
  - destruct order.
    + change (names None ("| " +:+ join " " (map QuoteSpaces ins) +:+ force_text b))
        with ("|" :: names None (join " " (map QuoteSpaces ins) +:+ force_text b)).
      by rewrite needs_names.
    + change ("" +:+ join " " (map QuoteSpaces ins) +:+ force_text b) with (join " " (map QuoteSpaces ins) +:+ force_text b).
      rewrite needs_names, split_bar_none by apply needs_ok. done.
  - rewrite str_mem_app, needs_free by (by destruct b). by destruct order.
  - rewrite str_mem_app, needs_free by (by destruct b). by destruct order.
Qed.
Lemma phony_line : read_rule (".PHONY: " +:+ join " " (map QuoteSpaces outs)) =
  Some {| targets := [".PHONY"]; prerequisites := outs; order_prerequisites := []; recipe := [] |}.
Proof using Houts.
  change (".PHONY: " +:+ join " " (map QuoteSpaces outs))
    with (join " " (map QuoteSpaces [".PHONY"]) +:+ ": " +:+ join " " (map QuoteSpaces outs)).
  rewrite read_rule_line; [|by repeat constructor|by apply good_free; [apply good_names|]..].
  pose proof (names_join outs "" Houts (or_introl eq_refl)) as Hn. rewrite append_nil_r in Hn. rewrite Hn.
  cbn [names]. rewrite app_nil_r, split_bar_none by done. done.
Qed.
Lemma variable_line : read_rule (join " " (map QuoteSpaces outs) +:+ ": TOOLSET := $(TOOLSET)") = None.
Proof using Houts.
  unfold read_rule. cbn [String.append]. by rewrite split1_app by (by apply good_free; [apply good_names|]).
Qed.
Lemma dummy_line : read_rule (join " " (map QuoteSpaces outs) +:+ ": ;") =
  Some {| targets := outs; prerequisites := []; order_prerequisites := []; recipe := [""] |}.
Proof using Houts.
  unfold read_rule. cbn [String.append]. rewrite split1_app by (by apply good_free; [apply good_names|]). cbn.
  pose proof (names_join outs "" Houts (or_introl eq_refl)) as Hn. rewrite append_nil_r in Hn. rewrite Hn. by rewrite app_nil_r.
Qed.
End Rule.

(** The lines that serialise further outputs on the first *)
Lemma more_lines o outs : Forall (fun s => name_ok s = true) (o :: outs) -> outs <> [] ->
  read_lines [join " " (map QuoteSpaces outs) +:+ ": " +:+ QuoteSpaces o; join " " (map QuoteSpaces outs) +:+ ": ;"; ""; ""] =
  ([], [{| targets := outs; prerequisites := [o]; order_prerequisites := []; recipe := [] |};
        {| targets := outs; prerequisites := []; order_prerequisites := []; recipe := [""] |}]).
Proof.
  intros [Ho Houts]%list.Forall_cons Hne.
  assert (Hg : str_forallb good (QuoteSpaces o) = true) by by apply good_QuoteSpaces.
  erewrite rule_line; [|apply read_rule_line; [done|by apply good_free..]|by apply line_starts..].
  erewrite rule_line; [|by apply dummy_line|by apply line_starts..].
  pose proof (names_first o "" Ho (or_introl eq_refl)) as Hn. rewrite append_nil_r in Hn. rewrite Hn. cbn [names].
  rewrite split_bar_none by (by constructor). done.
Qed.

Lemma one_line_names l : Forall (fun s => name_ok s = true) l -> one_line (join " " (map QuoteSpaces l)) = true.
Proof. intros H. unfold one_line. by rewrite (good_free newline _ (good_names _ H)). Qed.
Lemma head_rule o outs : Forall (fun s => name_ok s = true) (o :: outs) -> Forall (fun s => name_ok s = true) [o].
Proof. intros [Ho _]%list.Forall_cons. by constructor. Qed.

Section Reads.
Context (o : string) (outs ins acts : list string) (comment : option string) (f : flags).
Context (Ho : Forall (fun s => name_ok s = true) (o :: outs)) (Hi : Forall (fun s => name_ok s = true) ins).
Context (Ha : Forall (fun s => one_line s = true) acts) (Hc : match comment with Some c => one_line c | None => true end = true).

Definition comment_lines : list string := match comment with Some "" | None => [] | Some c => ["# " +:+ c] end.
Definition phony_lines : list string :=
  if phony f then [".PHONY: " +:+ join " " (map QuoteSpaces (o :: outs))] else [].
Definition variable_lines : list string :=
  match acts with [] => [] | _ => [QuoteSpaces o +:+ ": TOOLSET := $(TOOLSET)"] end.
Definition main_outs : list string := if order_only f then o :: outs else [o].
Definition main_text : string :=
  join " " (map QuoteSpaces main_outs) +:+ ": " +:+ (if order_only f then "| " else "") +:+
    join " " (map QuoteSpaces ins) +:+ force_text (force f).
Definition more_text : list string :=
  if negb (order_only f) && (1 <? S (length outs)) then
    [join " " (map QuoteSpaces outs) +:+ ": " +:+ QuoteSpaces o; join " " (map QuoteSpaces outs) +:+ ": ;"] else [].
Definition rule_lines : list string :=
  (comment_lines ++ phony_lines ++ variable_lines ++ [main_text] ++ map (fun a => String tab a) acts ++ more_text ++ [""])%list.

Lemma written_lines : WriteMakeRule (o :: outs) ins acts comment f = Ok (lines rule_lines).
Proof using.
  clear Ho Hi Ha Hc. unfold WriteMakeRule, rule_lines, main_text, main_outs, more_text, force_text, comment_lines, phony_lines, variable_lines.
  cbn [map head of_option mbind res_bind tail length]. rewrite !length_map.
  destruct (order_only f); cbn [mbind res_bind negb andb]; by destruct acts.
Qed.
Lemma main_outs_ok : Forall (fun s => name_ok s = true) main_outs /\ main_outs <> [].
Proof using Ho. unfold main_outs. destruct (order_only f); [done|]. split; [by apply head_rule in Ho|done]. Qed.
Lemma all_one_line : Forall (fun s => one_line s = true) rule_lines.
Proof using Ho Hi Ha Hc.
  destruct main_outs_ok as [Hm _]. pose proof (head_rule _ _ Ho) as Hh. pose proof Ho as [_ Ht]%list.Forall_cons.
  unfold rule_lines. rewrite !Forall_app. split_and!.
  - unfold comment_lines. destruct comment as [[|c s]|]; [done| |done]. constructor; [by apply one_line_app|done].
  - unfold phony_lines. destruct (phony f); [|done]. constructor; [|done]. apply one_line_app; [done|by apply one_line_names].
  - unfold variable_lines. destruct acts; [done|]. constructor; [|done]. apply one_line_app; [|done]. exact (one_line_names [o] Hh).
  - constructor; [|done]. unfold main_text. repeat apply one_line_app; [by apply one_line_names|done|by destruct (order_only f)| |by destruct (force f)].
    by apply one_line_names.
  - apply Forall_map. eapply list.Forall_impl; [exact Ha|]. intros a H. by apply (one_line_app (String tab "") a).
  - unfold more_text. destruct (_ && _); [|done]. constructor; [|constructor; [|done]].
    + apply one_line_app; [by apply one_line_names|]. apply one_line_app; [done|]. exact (one_line_names [o] Hh).
    + apply one_line_app; [by apply one_line_names|done].
  - by constructor.
Qed.
Lemma read_more : read_lines (more_text ++ [""; ""])%list =
  ([], if negb (order_only f) && (1 <? S (length outs)) then
         [{| targets := outs; prerequisites := [o]; order_prerequisites := []; recipe := [] |};
          {| targets := outs; prerequisites := []; order_prerequisites := []; recipe := [""] |}] else []).
Proof using Ho.
  unfold more_text. destruct (_ && _) eqn:E; [|done]. apply more_lines; [done|]. intros ->. by rewrite andb_false_r in E.
Qed.
Lemma read_rule_lines : read_lines (rule_lines ++ [""])%list =
  ([], rules_with (ins ++ force_names (force f)) (o :: outs) acts f).
Proof using Ho Hi Ha Hc.
  destruct main_outs_ok as [Hm Hmne]. pose proof (head_rule _ _ Ho) as Hh.
  assert (H1 : read_lines ([main_text] ++ map (fun a => String tab a) acts ++ more_text ++ [""; ""])%list =
    ([], {| targets := main_outs; prerequisites := if order_only f then [] else (ins ++ force_names (force f))%list;
            order_prerequisites := if order_only f then (ins ++ force_names (force f))%list else []; recipe := acts |} ::
         (read_lines (more_text ++ [""; ""])%list).2)).
  { cbn [app]. unfold main_text. erewrite rule_line; [|by apply main_line|by apply line_starts..].
    rewrite recipe_lines, read_more. cbn [fst snd targets prerequisites order_prerequisites recipe app]. by rewrite app_nil_r. }
  assert (H2 : read_lines (variable_lines ++ [main_text] ++ map (fun a => String tab a) acts ++ more_text ++ [""; ""])%list =
    read_lines ([main_text] ++ map (fun a => String tab a) acts ++ more_text ++ [""; ""])%list).
  { unfold variable_lines. destruct acts; [done|]. cbn [app].
    rewrite skip_line; [done|exact (variable_line [o] Hh)|exact (line_starts [o] ": TOOLSET := $(TOOLSET)" tab Hh ltac:(done) eq_refl)]. }
  unfold rule_lines. rewrite <- !app_assoc. cbn [app] in *.
  assert (H3 : forall ls, read_lines (comment_lines ++ ls)%list = read_lines ls).
  { intros ls. unfold comment_lines. destruct comment as [[|c s]|]; [done|apply skip_comment|done]. }
  rewrite H3. unfold phony_lines, rules_with. rewrite read_more in H1.
  destruct (phony f); cbn [app].
  - erewrite rule_line; [|by apply phony_line|done..]. rewrite H2, H1. unfold main_outs. cbn [fst snd].
    destruct (order_only f); done.
  - rewrite H2, H1. unfold main_outs. destruct (order_only f); done.
Qed.
End Reads.

Lemma WriteMakeRule_exact outs ins acts comment f text :
  Forall (fun s => name_ok s = true) outs -> Forall (fun s => name_ok s = true) ins ->
  Forall (fun s => one_line s = true) acts -> match comment with Some c => one_line c | None => true end = true ->
  outs <> [] -> WriteMakeRule outs ins acts comment f = Ok text ->
  read_makefile text = rules_with (ins ++ force_names (force f)) outs acts f.
Proof.
  intros Ho Hi Ha Hc Hne. destruct outs as [|o outs]; [done|]. rewrite written_lines. intros [= <-].
  unfold read_makefile. rewrite split_lines by by apply all_one_line. by rewrite read_rule_lines.
Qed.

(** A rule that is forced has [FORCE_DO_CMD] among its normal prerequisites, so that its
    commands run each time make considers it; the docstring of [WriteMakeRule] says that
    it is an order-only one. *)
Theorem WriteMakeRule_forced outs ins acts comment text :
  Forall (fun s => name_ok s = true) outs -> Forall (fun s => name_ok s = true) ins ->
  Forall (fun s => one_line s = true) acts -> match comment with Some c => one_line c | None => true end = true ->
  outs <> [] -> WriteMakeRule outs ins acts comment {| order_only := false; force := true; phony := false |} = Ok text ->
  head (read_makefile text) =
    Some {| targets := take 1 outs; prerequisites := (ins ++ ["FORCE_DO_CMD"])%list; order_prerequisites := []; recipe := acts |}.
Proof. intros Ho Hi Ha Hc Hne Hw. by rewrite (WriteMakeRule_exact _ _ _ _ _ _ Ho Hi Ha Hc Hne Hw). Qed.

Lemma filter_force l b : filter (fun n => n <> "FORCE_DO_CMD") (l ++ force_names b) =
  filter (fun n => n <> "FORCE_DO_CMD") l.
Proof. rewrite list.filter_app. destruct b; cbn; [|by rewrite app_nil_r]. by rewrite app_nil_r. Qed.

(** C35. Make reads a rule as it was meant, the name that forces it apart: every output,
    names with spaces included, has the given inputs, which only order it where the rule
    only orders; where there are several outputs the first of them has the inputs and the
    commands, and each other one waits for it and has an empty command, so that the
    commands run once for all.  A rule that is not forced is read as exactly that, and one
    that is forced has the name [FORCE_DO_CMD] as well, with the outputs that have the
    commands. *)
Theorem WriteMakeRule_reads outs ins acts comment f text :
  Forall (fun s => name_ok s = true) outs -> Forall (fun s => name_ok s = true) ins ->
  Forall (fun s => one_line s = true) acts -> match comment with Some c => one_line c | None => true end = true ->
  outs <> [] -> WriteMakeRule outs ins acts comment f = Ok text ->
  map without_force (read_makefile text) = map without_force (rules_of outs ins acts f) /\
  (force f = false -> read_makefile text = rules_of outs ins acts f) /\
  (force f = true -> exists r, r ∈ read_makefile text /\ recipe r = acts /\
     targets r = (if order_only f then outs else take 1 outs) /\
     "FORCE_DO_CMD" ∈ (prerequisites r ++ order_prerequisites r)%list).
Proof.
  intros Ho Hi Ha Hc Hne Hw. rewrite (WriteMakeRule_exact _ _ _ _ _ _ Ho Hi Ha Hc Hne Hw).
  unfold rules_of, rules_with. split_and!.
  - rewrite !map_app. f_equal. unfold without_force.
    destruct (order_only f); cbn [map targets prerequisites order_prerequisites recipe]; by rewrite filter_force.
  - intros ->. by rewrite app_nil_r.
  - intros ->. destruct (order_only f); eexists; (split; [apply elem_of_app; right; left|]);
      (split_and!; [done..|]); cbn; rewrite ?app_nil_r; apply elem_of_app; right; left.
Qed.
Lemma WriteMakeRule_reads_witness : exists text,
  WriteMakeRule ["out/a b.c"; "out/a.h"] ["a.y"] ["$(call do_cmd,yacc)"] None
    {| order_only := false; force := true; phony := false |} = Ok text /\
  map without_force (read_makefile text) =
    [{| targets := ["out/a b.c"]; prerequisites := ["a.y"]; order_prerequisites := []; recipe := ["$(call do_cmd,yacc)"] |};
     {| targets := ["out/a.h"]; prerequisites := ["out/a b.c"]; order_prerequisites := []; recipe := [] |};
     {| targets := ["out/a.h"]; prerequisites := []; order_prerequisites := []; recipe := [""] |}] /\
  exists r, r ∈ read_makefile text /\ recipe r = ["$(call do_cmd,yacc)"] /\ targets r = ["out/a b.c"] /\
    "FORCE_DO_CMD" ∈ (prerequisites r ++ order_prerequisites r)%list.
Proof.
  eexists. split; [reflexivity|].
  match goal with |- context [read_makefile ?t] =>
    destruct (WriteMakeRule_reads ["out/a b.c"; "out/a.h"] ["a.y"] ["$(call do_cmd,yacc)"] None
      {| order_only := false; force := true; phony := false |} t) as (H1 & _ & H2);
      [decided|decided|decided|reflexivity|discriminate|reflexivity|] end.
  split; [exact H1|exact (H2 eq_refl)].
Defined.

(** ** The order of the targets *)
Section Order.
Context (e : env) (base_path : string -> string) (needed : string -> bool) (target_dicts : gmap string spec).

(** Where a target is installed, and what is linked of it, whatever was written before. *)
Definition install_of (t : string) (s : spec) : string :=
  let w := self_of t (base_path t) s in
  if standalone_static_library s || installable s then _InstallableTargetInstallPath s (alias w) else output w.
Definition link_of (t : string) (s : spec) : option string :=
  if existsb (String.eqb (type s)) ["static_library"; "shared_library"] then Some (ComputeOutput (base_path t) s) else None.

Lemma Write_outputs t s st text st' : Write e t (base_path t) s (needed t) st = Ok (text, st') ->
  target_outputs st' = <[t := install_of t s]> (target_outputs st) /\
  target_link_deps st' = match link_of t s with Some o => <[t := o]> (target_link_deps st) | None => target_link_deps st end.
Proof.
  unfold Write. intros ([deps links] & _ & H)%bind_ok. apply bind_ok in H as (x & _ & H). apply bind_ok in H as (x' & _ & H).
  apply bind_ok in H as ([[text0 es] eo] & _ & H). apply bind_ok in H as ([text' el] & _ & H).
  apply bind_ok in H as (final & _ & [= _ <-]). cbn [target_outputs target_link_deps]. split; [done|].
  unfold link_of. cbn [existsb]. by destruct (_ || _).
Qed.

(** What the dictionaries hold when the targets of [l] have been written. *)
Definition written_so_far (l : list string) (st : outputs) : Prop := forall t,
  (t ∈ l -> exists s, target_dicts !! t = Some s /\ target_outputs st !! t = Some (install_of t s) /\
                      target_link_deps st !! t = link_of t s) /\
  (t ∉ l -> target_outputs st !! t = None /\ target_link_deps st !! t = None).
Lemma write_targets_snoc l t files st : write_targets e base_path needed target_dicts (l ++ [t]) no_outputs = Ok (files, st) ->
  exists files0 st0 s text, write_targets e base_path needed target_dicts l no_outputs = Ok (files0, st0) /\
    target_dicts !! t = Some s /\ Write e t (base_path t) s (needed t) st0 = Ok (text, st).
Proof.
  unfold write_targets. rewrite foldM_app. intros ([files0 st0] & H0 & H)%bind_ok. rewrite H0. cbn [foldM] in H.
  apply bind_ok in H as (p & H & [= ->]). apply bind_ok in H as (s & Hs%of_option_ok & H).
  apply bind_ok in H as ([text st1] & Hw & [= _ <-]). eauto 10.
Qed.
Lemma link_fresh t s (m : gmap string string) : m !! t = None ->
  (match link_of t s with Some o => <[t := o]> m | None => m end) !! t = link_of t s.
Proof. destruct (link_of t s); [intros _; by rewrite lookup_insert_eq|done]. Qed.
Lemma link_again t s (m : gmap string string) : m !! t = link_of t s ->
  (match link_of t s with Some o => <[t := o]> m | None => m end) !! t = link_of t s.
Proof. destruct (link_of t s); [intros _; by rewrite lookup_insert_eq|done]. Qed.
Lemma link_other t s u (m : gmap string string) : u <> t ->
  (match link_of t s with Some o => <[t := o]> m | None => m end) !! u = m !! u.
Proof. intros. destruct (link_of t s); [by rewrite lookup_insert_ne|done]. Qed.
Lemma write_targets_so_far l files st :
  write_targets e base_path needed target_dicts l no_outputs = Ok (files, st) -> written_so_far l st.
Proof.
  revert files st. induction l as [|t l IH] using rev_ind; intros files st.
  - intros [= <- <-] t. split; [set_solver|done].
  - intros (files0 & st0 & s & text & H0%IH & Hs & [Ho Hl]%Write_outputs)%write_targets_snoc u. rewrite Ho, Hl.
    destruct (decide (u = t)) as [->|Hut].
    + split; [|set_solver]. intros _. exists s. rewrite lookup_insert_eq. split_and!; [done..|].
      destruct (decide (t ∈ l)) as [Ht|Ht].
      * destruct (proj1 (H0 t) Ht) as (s' & Hs' & _ & Hl'). simplify_eq. by apply link_again.
      * apply link_fresh. by apply (H0 t).
    + rewrite lookup_insert_ne, link_other by done.
      split; intros Hu; apply (H0 u); set_solver.
Qed.

Lemma mapM_missing {A B} (f : A -> option B) (err : A -> exn) l :
  match mapM (fun x => of_option (err x) (f x)) l with
  | Ok k => Forall2 (fun x y => f x = Some y) l k
  | Err x => exists d, d ∈ l /\ f d = None /\ x = err d
  | NoFuel => False
  end.
Proof.
  induction l as [|d l IH]; [by constructor|]. cbn [mapM].
  destruct (f d) as [b|] eqn:E; cbn; [|exists d; split; [left|done]].
  destruct (mapM _ l); cbn; [by constructor| |done]. destruct IH as (d' & Hd & H). exists d'. split; [by right|done].
Qed.

Lemma linked l st ds o : written_so_far l st -> ds ⊆ l ->
  o ∈ omap (fun d => target_link_deps st !! d) ds <->
  exists d sd, d ∈ ds /\ target_dicts !! d = Some sd /\ link_of d sd = Some o.
Proof.
  intros Hw Hl. rewrite list_elem_of_omap. split.
  - intros (d & Hd & H). destruct (proj1 (Hw d) (Hl d Hd)) as (sd & Hs & _ & Hk). exists d, sd. split_and!; congruence.
  - intros (d & sd & Hd & Hs & H). exists d. split; [done|].
    destruct (proj1 (Hw d) (Hl d Hd)) as (sd' & Hs' & _ & Hk). simplify_eq. congruence.
Qed.
Lemma installed l st ds outs o : written_so_far l st ->
  Forall2 (fun d o => target_outputs st !! d = Some o) ds outs -> ds ⊆ l ->
  o ∈ outs <-> exists d sd, d ∈ ds /\ target_dicts !! d = Some sd /\ o = install_of d sd.
Proof.
  intros Hw H Hl. split.
  - intros (i & Hi)%list_elem_of_lookup. destruct (Forall2_lookup_r _ _ _ _ _ H Hi) as (d & Hd%list_elem_of_lookup_2 & Ho).
    destruct (proj1 (Hw d) (Hl d Hd)) as (sd & Hs & Hk & _). exists d, sd. split_and!; congruence.
  - intros (d & sd & Hd & Hs & ->). destruct (proj1 (Hw d) (Hl d Hd)) as (sd' & Hs' & Hk & _). simplify_eq.
    apply list_elem_of_lookup in Hd as (i & Hi). destruct (Forall2_lookup_l _ _ _ _ _ H Hi) as (o & Ho%list_elem_of_lookup_2 & E).
    congruence.
Qed.

(** C36. After any number of targets have been written, the inputs of a further one are
    found exactly when all it depends on is written: without repetition, the installed
    file of each dependency and the file of each library among them, only the latter
    being linked; else a dependency that is not written raises [KeyError]. *)
Theorem ComputeDeps_in_order l files st s ds :
  write_targets e base_path needed target_dicts l no_outputs = Ok (files, st) -> dependencies s = Some ds ->
  match ComputeDeps st s with
  | Ok (deps, links) =>
      ds ⊆ l /\ NoDup deps /\ NoDup links /\
      (forall o, o ∈ links <-> exists d sd, d ∈ ds /\ target_dicts !! d = Some sd /\ link_of d sd = Some o) /\
      (forall o, o ∈ deps <-> o ∈ links \/
         o <> "" /\ exists d sd, d ∈ ds /\ target_dicts !! d = Some sd /\ o = install_of d sd)
  | Err x => exists d, d ∈ ds /\ (d ∉ l) /\ x = KeyError d
  | NoFuel => False
  end.
Proof.
  intros Hw%write_targets_so_far Hds. unfold ComputeDeps. rewrite Hds.
  pose proof (mapM_missing (fun d => target_outputs st !! d) KeyError ds) as H.
  destruct (mapM _ ds) as [outs|x|]; cbn; [|destruct H as (d & Hd & Hn & ->)|done].
  - assert (Hl : ds ⊆ l).
    { intros d Hd. destruct (decide (d ∈ l)) as [|Hn]; [done|]. apply list_elem_of_lookup in Hd as (i & Hi).
      destruct (Forall2_lookup_l _ _ _ _ _ H Hi) as (o & _ & Ho). destruct (proj2 (Hw d) Hn). congruence. }
    set (links := omap _ _).
    destruct (uniquer_spec (filter (fun o => o <> "") outs ++ links)%list) as (Hd1 & Hd2 & _).
    destruct (uniquer_spec links) as (Hl1 & Hl2 & _).
    split_and!; [done..| |].
    + intros o. rewrite Hl2. by apply (linked l).
    + intros o. rewrite Hd2, Hl2, elem_of_app, list_elem_of_filter, (installed l st ds) by done. tauto.
  - exists d. split_and!; [done| |done]. intros (s' & _ & Hs & _)%(Hw d). congruence.
Qed.
End Order.

(** A library in [zlib], a generator and a program that needs both. *)
Definition unix : env :=
  {| flavor := "linux"; srcdir_prefix := "$(srcdir)/"; android_ndk_version := false; set_order := elements; other_directive := fun _ => None |}.
Definition plain_config : config :=
  {| defines := ["NDEBUG"]; cflags := ["-O2"]; cflags_c := []; cflags_cc := []; include_dirs := ["."]; ldflags := [];
     library_dirs := [] |}.
Definition plain_spec (name type : string) (sources : list string) (deps : option (list string)) : spec :=
  {| target_name := name; Make.type := type; toolset := "target"; actions := None; rules := None; copies := None;
     Make.sources := sources; dependencies := deps; libraries := []; product_prefix := None; product_name := None;
     product_extension := None; product_dir := None; standalone_static_library := false;
     default_configuration := "Release"; dependencies_original := [];
     configurations := [("Release", plain_config)] |}.
Definition three : gmap string spec :=
  {["zlib" := plain_spec "zlib" "static_library" ["adler32.c"] None;
    "gen" := plain_spec "gen" "executable" ["gen.cc"] None;
    "iojs" := plain_spec "iojs" "executable" ["node.cc"] (Some ["zlib"; "gen"])]}.
Lemma ComputeDeps_in_order_witness : exists files st,
  write_targets unix (fun _ => "deps") (fun _ => true) three ["zlib"; "gen"] no_outputs = Ok (files, st) /\
  match ComputeDeps st (plain_spec "iojs" "executable" ["node.cc"] (Some ["zlib"; "gen"])) with
  | Ok (deps, links) =>
      deps = ["$(obj).target/deps/libzlib.a"; "$(builddir)/gen"] /\ links = ["$(obj).target/deps/libzlib.a"] /\ NoDup deps
  | _ => False
  end.
Proof.
  destruct (write_targets unix (fun _ => "deps") (fun _ => true) three ["zlib"; "gen"] no_outputs) as [[files st]|x|] eqn:E;
    [|by vm_compute in E..].
  exists files, st. split; [done|].
  pose proof (ComputeDeps_in_order unix (fun _ => "deps") (fun _ => true) three ["zlib"; "gen"] files st
    (plain_spec "iojs" "executable" ["node.cc"] (Some ["zlib"; "gen"])) ["zlib"; "gen"] E eq_refl) as H.
  assert (Hst : ComputeDeps st (plain_spec "iojs" "executable" ["node.cc"] (Some ["zlib"; "gen"])) =
    Ok (["$(obj).target/deps/libzlib.a"; "$(builddir)/gen"], ["$(obj).target/deps/libzlib.a"])).
  { revert E. clear. intros E.
    assert (Hs : st = match write_targets unix (fun _ => "deps") (fun _ => true) three ["zlib"; "gen"] no_outputs with
                      | Ok p => p.2 | _ => st end) by by rewrite E.
    rewrite Hs. vm_compute. reflexivity. }
  rewrite Hst in H |- *. destruct H as (_ & Hd & _). by split_and!.
Defined.
