(* ===== verification/MakeRoot.v ===== *)
(** * The root makefile ([GenerateOutput] in [gyp/generator/make.py])

    The files for all targets, the makefiles that stand for one gyp file each, and the
    root makefile, which includes the former.  The tool scripts that are copied next to
    it are not here, nor is the branch for Mac of [CalculateVariables]. *)
From S2P Require Import Prelude PyStr PyFormat PyPath Common GypMain Make MakeTemplates.
From stdpp Require Import sorting options.
#[local] Open Scope nat_scope.

(** ** What is written into it *)

(** [sorted(COMPILABLE_EXTENSIONS.keys(), key=str.lower)]; the order of the two that are
    the same in lower case is that of the dictionary. *)
Definition lower_le (a b : string * string) : Prop := String.leb (lower a.1) (lower b.1) = true.
#[export] Instance lower_le_dec : RelDecision lower_le.
Proof. intros a b. unfold lower_le. apply _. Defined.
Definition root_extensions : list (string * string) := merge_sort lower_le COMPILABLE_EXTENSIONS.
Definition WriteRootHeaderSuffixRules : string :=
  let rules (source : string) := PyStr.join "" (map (fun e : string * string =>
    "$(obj).$(TOOLSET)/%.o: " +:+ source +:+ "/%" +:+ e.1 +:+ " FORCE_DO_CMD" +:+ nl +:+
    String tab ("@$(call do_cmd," +:+ e.2 +:+ ",1)" +:+ nl)) root_extensions) in
  "# Suffix rules, putting all outputs into $(obj)." +:+ nl +:+ rules "$(srcdir)"
  +:+ nl +:+ "# Try building from generated source, too." +:+ nl +:+ rules "$(obj).$(TOOLSET)" +:+ nl
  +:+ rules "$(obj)" +:+ nl.
Definition WriteSubMake (output_filename makefile_path : string) (targets : list string) (build_dir : string) : string :=
  let makefile_path := if String.eqb makefile_path "" then "" else " -C " +:+ makefile_path in
  header +:+ lines ["export builddir_name ?= " +:+ path_join (dirname output_filename) [build_dir]; ".PHONY: all"; "all:";
                    String tab ("$(MAKE)" +:+ makefile_path +:+ " " +:+ PyStr.join " " targets)].
Definition include_block (include_file : string) : string :=
  "ifeq ($(strip $(foreach prefix,$(NO_LOAD),\" +:+ nl
  +:+ "    $(findstring $(join ^,$(prefix)),\" +:+ nl
  +:+ "                 $(join ^," +:+ include_file +:+ ")))),)" +:+ nl
  +:+ "  include " +:+ include_file +:+ nl +:+ "endif" +:+ nl.

(** The settings for every makefile: tools that gyp files name, with their wrappers *)
Section Settings.
Context (environ : gmap string string).
Definition abspath_call (v : string) : string := "$(abspath " +:+ v +:+ ")".
Definition wrappers_of (settings : list (string * string)) : gmap string string :=
  foldl (fun w kv => if endswith "_wrapper" kv.1 then <[str_init 8 kv.1 := abspath_call kv.2]> w else w) ∅ settings.
Definition one_setting (st : string * gmap string string) (kv : string * string) : res (string * gmap string string) :=
  let '(text, wrappers) := st in
  let '(key, value) := kv in
  if contains "_wrapper" (default "" (head (split_char newline key))) then Ok st
  else
    first ← of_option IndexError (head (String.list_ascii_of_string value));
    let value := if Ascii.eqb first "$" then value else abspath_call value in
    let '(value, wrappers) := match wrappers !! key with
                              | Some w => (w +:+ " " +:+ value, delete key wrappers)
                              | None => (value, wrappers)
                              end in
    Ok (text +:+
        (if existsb (String.eqb key) ["CC"; "CC.host"; "CXX"; "CXX.host"] then
           let value := default value (environ !! str_replace "." "_" key) in
           "ifneq (,$(filter $(origin " +:+ key +:+ "), undefined default))" +:+ nl
           +:+ "  " +:+ key +:+ " = " +:+ value +:+ nl +:+ "endif" +:+ nl
         else key +:+ " ?= " +:+ value +:+ nl), wrappers).
Definition make_global_settings_text (settings : list (string * string)) : res string :=
  '(text, _) ← foldM one_setting ("", wrappers_of settings) settings;
  Ok text.
End Settings.

(** ** [GenerateOutput] *)
Record file_data := { make_global_settings : list (string * string); included_files : list string }.
Record generator_flags := {
  output_dir : string; ndk_version : bool; default_target : string; standalone : bool; auto_regeneration : bool }.
Record root_params := {
  depth : string; toplevel_dir : string; generator_output : string; suffix : string; build_files : list string;
  build_files_arg : list string; gyp_binary : string; home_dot_gyp : string; flags : generator_flags }.

(** What the generator adds to the input of gyp's middle *)
Definition setdefault (key value : string) (d : gmap string string) : gmap string string :=
  match d !! key with Some _ => d | None => <[key := value]> d end.
Definition CalculateVariables (flavor : string) (default_variables : gmap string string) : gmap string string :=
  let operating_system := if String.eqb flavor "android" then "linux" else flavor in
  setdefault "LIB_DIR" "$(obj).$(TOOLSET)" (setdefault "SHARED_LIB_DIR" "$(builddir)/lib.$(TOOLSET)"
    (setdefault "SHARED_LIB_SUFFIX" ".so" (setdefault "OS" operating_system default_variables))).
(** Whether dependencies have to be sorted, and where lists of files go *)
Definition CalculateGeneratorInputInfo (p : root_params) : bool * string * string :=
  let base := if String.eqb (generator_output p) "" then toplevel_dir p else generator_output p in
  (ndk_version (flags p), toplevel_dir p, normpath (path_join base [output_dir (flags p); "gypfiles"])).
(** The commands that [PerformBuild] runs *)
Definition PerformBuild (p : root_params) (configurations : list string) : list (list string) :=
  map (fun config => ["make"] ++ (if String.eqb (toplevel_dir p) "" || String.eqb (toplevel_dir p) "." then []
                                  else ["-C"; toplevel_dir p]) ++ ["BUILDTYPE=" +:+ config])%list configurations.

Section Generate.
(** The directory, the environment, the flavor; how sets are iterated and popped; the
    command-line options with what the parser remembers of them, for the regeneration. *)
Context (cwd : string) (environ : gmap string string) (flavor_ : string) (order : gset string -> list string)
  (pop : gset string -> option string) (other : directive -> option string) (vals : values) (metadata : list option_).
Context (p : root_params) (target_dicts : gmap string spec) (data : gmap string file_data) (target_list : list string).

Definition the_env : env :=
  {| flavor := flavor_; srcdir_prefix := if String.eqb (generator_output p) "" then "" else "$(srcdir)/";
     android_ndk_version := ndk_version (flags p); set_order := order; other_directive := other |}.
(** The base path and the file *)
Definition CalculateMakefilePath (build_file base_name : string) : string * string :=
  let base_path := RelativePath cwd (dirname build_file) (depth p) in
  let output_file := if String.eqb (generator_output p) "" then path_join (depth p) [base_path; base_name]
                     else path_join (depth p) [generator_output p; base_path; base_name] in
  (RelativePath cwd (dirname build_file) (toplevel_dir p), output_file).
Definition makefile_name : string := "Makefile" +:+ suffix p.
Definition makefile_path : string :=
  if String.eqb (generator_output p) "" then path_join (toplevel_dir p) [makefile_name]
  else path_join (toplevel_dir p) [generator_output p; makefile_name].
Definition data_of (target : string) : res file_data :=
  build_file ← of_option (KeyError "None") (ParseQualifiedTarget target).1.1;
  of_option (KeyError build_file) (data !! build_file).
Definition spec_of (target : string) : res spec := of_option (KeyError target) (target_dicts !! target).

Definition default_configuration_of : res string :=
  specs ← mapM spec_of target_list;
  Ok (match List.find (fun s => negb (String.eqb (default_configuration s) "Default")) specs with
      | Some s => if String.eqb (default_configuration s) "" then "Default" else default_configuration s
      | None => "Default"
      end).
(** [%(flock_index)d] *)
Definition number_directive (params : list (string * string)) (d : directive) : option string :=
  if Ascii.eqb (d_type d) "d" then k ← d_key d; snd <$> List.find (fun kv => String.eqb k kv.1) params else other d.
Definition header_params (default_configuration settings : string) : list (string * string) :=
  let srcdir := if String.eqb (generator_output p) "" then "." else RelativePath cwd "." (generator_output p) in
  let fallback (vars : list string) (default : string) := GetEnvironFallback environ vars default in
  [("default_target", default_target (flags p)); ("builddir", output_dir (flags p));
   ("default_configuration", default_configuration);
   ("flock", if existsb (String.eqb flavor_) ["solaris"; "aix"] then "./gyp-flock-tool flock"
             else if String.eqb flavor_ "freebsd" then "lockf" else "flock");
   ("flock_index", if existsb (String.eqb flavor_) ["solaris"; "aix"] then "2" else "1");
   ("link_commands", if String.eqb flavor_ "android" then LINK_COMMANDS_ANDROID
                     else if String.eqb flavor_ "aix" then LINK_COMMANDS_AIX else LINK_COMMANDS_LINUX);
   ("extra_commands", ""); ("srcdir", srcdir);
   ("CC.target", fallback ["CC_target"; "CC"] "$(CC)"); ("AR.target", fallback ["AR_target"; "AR"] "$(AR)");
   ("CXX.target", fallback ["CXX_target"; "CXX"] "$(CXX)"); ("LINK.target", fallback ["LINK_target"; "LINK"] "$(LINK)");
   ("CC.host", fallback ["CC_host"] "gcc"); ("AR.host", fallback ["AR_host"] "ar"); ("CXX.host", fallback ["CXX_host"] "g++");
   ("LINK.host", fallback ["LINK_host"] "$(CXX.host)"); ("make_global_settings", settings)].
Definition root_header (settings : list (string * string)) : res string :=
  default_configuration ← default_configuration_of;
  settings_text ← make_global_settings_text environ settings;
  let params := header_params default_configuration settings_text in
  shared ← percent (number_directive params) params SHARED_HEADER;
  toolsets ← mapM (fun t => s ← spec_of t; Ok (toolset s)) target_list;
  Ok (shared
      +:+ (if ndk_version (flags p) then
             "# Define LOCAL_PATH for build of Android applications." +:+ nl +:+ "LOCAL_PATH := $(call my-dir)" +:+ nl +:+ nl
           else "")
      +:+ PyStr.join "" (map (fun t => "TOOLSET := " +:+ t +:+ nl +:+ WriteRootHeaderSuffixRules) (order (list_to_set toolsets)))).
Definition needed_targets : res (gset string) :=
  let deps := (fun s => {| Common.dependencies := default [] (Make.dependencies s);
                           Common.dependencies_original := Make.dependencies_original s |}) <$> target_dicts in
  foldM (fun needed build_file =>
           '(own, deep) ← AllTargets pop deps target_list build_file;
           Ok (needed ∪ list_to_set own ∪ deep)) ∅ (build_files p).

(** The names of gyp files that [included_file] adds *)
Definition build_file_entry (build_file included_file : string) : string :=
  let relative_include_file := RelativePath cwd (UnrelativePath included_file build_file) (toplevel_dir p) in
  let abs_include_file := abspath cwd relative_include_file in
  if negb (String.eqb (home_dot_gyp p) "") && startswith (home_dot_gyp p) abs_include_file then abs_include_file
  else relative_include_file.
(** Files, the outputs of targets, gyp files and what is to be included *)
Record progress := {
  written : list (string * string); st : outputs; gyp_files : gset string; include_list : gset string }.
Definition nothing : progress := {| written := []; st := no_outputs; gyp_files := ∅; include_list := ∅ |}.
Definition output_file_of (qualified_target : string) : res (string * string) :=
  let '(build_file, target, toolset) := ParseQualifiedTarget qualified_target in
  build_file ← of_option (KeyError "None") build_file;
  toolset ← of_option (TypeError "cannot concatenate 'str' and 'NoneType' objects") toolset;
  Ok (CalculateMakefilePath build_file (target +:+ "." +:+ toolset +:+ suffix p +:+ ".mk")).
Definition relative_makefile (output_file : string) : string := RelativePath cwd output_file (dirname makefile_path).
Definition write_one (settings : list (string * string)) (needed : gset string) (g : progress) (qualified_target : string)
    : res progress :=
  d ← data_of qualified_target;
  _ ← assert_ (bool_decide (settings = make_global_settings d));
  let build_file := default "" (ParseQualifiedTarget qualified_target).1.1 in
  let entries := RelativePath cwd build_file (toplevel_dir p) :: map (build_file_entry build_file) (included_files d) in
  '(base_path, output_file) ← output_file_of qualified_target;
  spec ← spec_of qualified_target;
  '(text, st) ← Write the_env qualified_target base_path spec (bool_decide (qualified_target ∈ needed)) (st g);
  Ok {| written := (written g ++ [(output_file, text)])%list; st := st; gyp_files := gyp_files g ∪ list_to_set entries;
        include_list := include_list g ∪ {[relative_makefile output_file]} |}.
Definition write_sub (needed : gset string) (written : list (string * string)) (build_file : string)
    : res (list (string * string)) :=
  let build_file := path_join (RelativePath cwd (depth p) cwd) [build_file] in
  gyp_targets ← mapM (fun t => s ← spec_of t; Ok (target_name s))
    (filter (fun t => startswith build_file t = true /\ t ∈ needed) target_list);
  match gyp_targets with
  | [] => Ok written
  | _ =>
      let output_file := (CalculateMakefilePath build_file ((splitext (basename build_file)).1 +:+ ".Makefile")).2 in
      let makefile_rel_path := RelativePath cwd (dirname makefile_path) (dirname output_file) in
      Ok (written ++ [(output_file, WriteSubMake output_file makefile_rel_path gyp_targets (output_dir (flags p)))])%list
  end.
Definition WriteAutoRegenerationRule (gyp_files : gset string) : res string :=
  let build_files_args := map (fun f => RelativePath cwd f (toplevel_dir p)) (build_files_arg p) in
  let binary := FixIfRelativePath cwd (gyp_binary p) (toplevel_dir p) in
  let binary := if startswith "/" binary then binary else path_join "." [binary] in
  again ← RegenerateFlags cwd (fun n => environ !! n) vals metadata;
  Ok ("quiet_cmd_regen_makefile = ACTION Regenerating $@" +:+ nl
      +:+ "cmd_regen_makefile = cd $(srcdir); " +:+ EncodePOSIXShellList ([binary; "-fmake"] ++ again ++ build_files_args)%list +:+ nl
      +:+ makefile_name +:+ ": " +:+ PyStr.join " " (map (Sourceify the_env) (order gyp_files)) +:+ nl
      +:+ String tab ("$(call do_cmd,regen_makefile)" +:+ nl +:+ nl)).
Definition include_text (include_list : gset string) : string :=
  nl +:+ PyStr.join "" (map include_block (merge_sort string_le (elements include_list))) +:+ nl.
(** All files, the root makefile last *)
Definition GenerateOutput : res (list (string * string)) :=
  first ← of_option IndexError (head target_list);
  settings ← (d ← data_of first; Ok (make_global_settings d));
  before ← root_header settings;
  needed ← needed_targets;
  g ← foldM (write_one settings needed) nothing target_list;
  written ← foldM (write_sub needed) (written g) (order (gyp_files g));
  regeneration ← (if standalone (flags p) then Ok ""
                  else if auto_regeneration (flags p) then WriteAutoRegenerationRule (gyp_files g) else Ok "");
  Ok (written ++ [(makefile_path, before +:+ include_text (include_list g) +:+ regeneration +:+ SHARED_FOOTER)])%list.
End Generate.
