(* ===== verification/MakeRootProps.v ===== *)
(** * What the root makefile includes *)
From S2P Require Import Prelude PyStr PyFormat PyPath Common GypMain Make MakeRules MakeTemplates MakeRoot.
From stdpp Require Import sorting options.
#[local] Open Scope nat_scope.

#[export] Instance string_le_total : Total string_le.
Proof. intros a b. apply string_leb_total. Qed.
#[export] Instance string_le_trans : Transitive string_le.
Proof. intros a b c. apply string_leb_trans. Qed.

(** ** What make includes

    The names in the lines that include files.  Names are separated by white space, a
    sharp sign starts a comment; variables and conditionals are not evaluated, and each
    line is read on its own, those that a backslash continues as well. *)
Definition include_words (line : string) : list string :=
  if startswith (String tab "") line then []
  else
    match split_ws (span (fun c => negb (Ascii.eqb c "#")) line).1 with
    | w :: names => if existsb (String.eqb w) ["include"; "-include"; "sinclude"] then names else []
    | [] => []
    end.
Definition includes_of (text : string) : list string := concat (map include_words (split_char newline text)).



Section Root.
Context (cwd : string) (environ : gmap string string) (flavor_ : string) (order : gset string -> list string)
  (pop : gset string -> option string) (other : directive -> option string) (vals : values) (metadata : list option_).
Context (p : root_params) (target_dicts : gmap string spec) (data : gmap string file_data) (target_list : list string).


Abbreviation write_one_ := (write_one cwd flavor_ order other p target_dicts data).

End Root.

(** The three targets in two gyp files *)
Definition some_targets : gmap string spec :=
  {["deps/zlib/zlib.gyp:zlib#target" := plain_spec "zlib" "static_library" ["adler32.c"] None;
    "node.gyp:iojs#target" := plain_spec "iojs" "executable" ["src/node.cc"] (Some ["deps/zlib/zlib.gyp:zlib#target"])]}.
Definition some_data : gmap string file_data :=
  {["deps/zlib/zlib.gyp" := {| make_global_settings := [("CC", "gcc")]; included_files := [] |};
    "node.gyp" := {| make_global_settings := [("CC", "gcc")]; included_files := ["common.gypi"] |}]}.
Definition some_params : root_params :=
  {| depth := "."; toplevel_dir := "."; generator_output := ""; MakeRoot.suffix := ""; build_files := ["node.gyp"];
     build_files_arg := ["node.gyp"]; gyp_binary := "tools/gyp/gyp"; home_dot_gyp := "";
     flags := {| output_dir := "out"; ndk_version := false; default_target := "all"; standalone := false;
                 auto_regeneration := true |} |}.
Definition some_list : list string := ["deps/zlib/zlib.gyp:zlib#target"; "node.gyp:iojs#target"].
Definition generated : res (list (string * string)) :=
  GenerateOutput "/w" ∅ "linux" elements (fun s => head (elements s)) (fun _ => None) (defaults gyp_options) regeneratable
    some_params some_targets some_data some_list.
Example generated_files : (files ← generated; Ok (map fst files)) =
  Ok ["./deps/zlib/zlib.target.mk"; "./iojs.target.mk"; "./node.Makefile"; "./deps/zlib/zlib.Makefile"; "./Makefile"].
Proof. vm_compute. reflexivity. Qed.
Example included_names : (files ← generated; Ok (map includes_of (map snd files))) =
  Ok [[]; []; []; []; ["deps/zlib/zlib.target.mk"; "iojs.target.mk"; "$(d_files)"]].
Proof. vm_compute. reflexivity. Qed.
