(* ===== verification/Js2c.v ===== *)
(** * [tools/js2c.py]: JavaScript sources to C arrays

    Constants and macros are expanded in the text of each [.js] file, which is then
    written as an array of character codes into [node_natives.h].  The files are an
    argument ([read]), and so is the order in which Python iterates over a
    dictionary ([items]) and [eval] of a lambda expression ([lambda]). *)
From S2P Require Import Prelude PyStr PyPath Ordered.
From stdpp Require Import options.

(** ** [ToCArray]

    The row and the column only go into the message of the failure. *)
Fixpoint char_codes (lines : string) : res (list string) :=
  match lines with
  | "" => Ok ["0"]
  | String chr lines =>
      let value := ord chr in
      if 128 <=? value then Err (SystemExit 1)
      else result ← char_codes lines; Ok (string_of_int (Z.of_nat value) :: result)
  end.
Definition ToCArray (lines : string) : res string :=
  result ← char_codes lines; Ok (join ", " result).

(** The module imports [jsmin], not the name it uses. *)
Definition CompressScript (lines : string) (do_jsmin : bool) : res string :=
  if do_jsmin then Err (NameError "JavaScriptMinifier") else Ok lines.

(** ** Reading *)

(** [line[:line.index('#')]], or the whole line *)
Definition before_hash (line : string) : string :=
  match split1 "#" line with Some (before, _) => before | None => line end.
Definition ReadLines (file : string) : list string :=
  filter (fun line => line <> "")
    (map (fun line => strip (before_hash line)) (split_char newline file)).

Inductive config_value := Words (l : list string) | Text (s : string).
Definition ParseValue (s : string) : config_value :=
  let s := strip s in
  if startswith "[" s && endswith "]" s
  then Words (split_ws (rstrip_of (fun c => Ascii.eqb c "]") (lstrip_of (fun c => Ascii.eqb c "[") s)))
  else Text s.

(** [s.replace(old, new)]; an empty [old] is found around every character. *)
Fixpoint interleave (new s : string) : string :=
  match s with "" => new | String c s => new +:+ String c (interleave new s) end.
Definition replace (old new s : string) : string :=
  if String.eqb old "" then interleave new s else str_replace old new s.

Section Js2c.
Context (items : forall V, list (string * V) -> list (string * V)).
Arguments items {V}.

Definition ExpandConstants (lines : string) (constants : list (string * string)) : string :=
  foldl (fun lines kv => replace kv.1 kv.2 lines) lines (items constants).

(** ** Macros *)
Inductive macro :=
  | TextMacro (args : list string) (body : string)
  | PythonMacro (args : list string) (fun_ : list string -> res string).
Definition macro_args (m : macro) : list string :=
  match m with TextMacro args _ => args | PythonMacro args _ => args end.

Definition expand (m : macro) (mapping : list (string * string)) : res string :=
  match m with
  | TextMacro _ body => Ok (foldl (fun result kv => replace kv.1 kv.2 result) body (items mapping))
  | PythonMacro args fun_ =>
      args ← foldM (fun acc arg =>
               v ← of_option (KeyError arg) (OrderedDict.assoc arg mapping);
               Ok (acc ++ [v])%list) [] args;
      fun_ args
  end.

(** [add_arg] of [ExpandMacros]: [arg_index] is 0, and nothing changes it. *)
Definition arg_index : nat := 0.
Definition add_arg (m : macro) (replacement : string) (mapping : list (string * string))
    : res (list (string * string)) :=
  arg ← of_option IndexError (macro_args m !! arg_index);
  Ok (OrderedDict.assoc_set arg replacement mapping).

Section Expansion.
Context (macros : list (string * macro)).

(** The scan over the arguments: [text] is [lines[last_match:]], of which [taken]
    characters are before [end]; [rec] expands an argument.  The result is the
    mapping, with the text behind the closing bracket. *)
Section Scan.
Context (rec : string -> res string) (m : macro).
Fixpoint scan_args (taken : string) (rest : string) (height : nat) (mapping : list (string * string))
    : res (list (string * string) * string) :=
  match rest with
  | "" =>
      (* the text ended: [lines[last_match:end-1]] *)
      replacement ← rec (strip (str_init 1 taken));
      mapping ← add_arg m replacement mapping;
      Ok (mapping, "")
  | String c rest =>
      if Ascii.eqb c "," && (height =? 1) then
        replacement ← rec (strip taken);
        mapping ← add_arg m replacement mapping;
        scan_args "" rest height mapping
      else
        let height :=
          if str_mem c "({[" then S height else if str_mem c ")}]" then height - 1 else height in
        if height =? 0 then
          replacement ← rec (strip taken);
          mapping ← add_arg m replacement mapping;
          Ok (mapping, rest)
        else scan_args (taken +:+ String c "") rest height mapping
  end.
End Scan.

(** One macro, from [start] on.  An expansion can hold the macro's name again, so
    the loop and the recursion need not end. *)
Fixpoint ExpandMacros (fuel : nat) (lines : string) : res string :=
  match fuel with
  | 0 => NoFuel
  | S fuel =>
      foldM (fun lines (nm : string * macro) => expand_macro fuel nm.1 nm.2 lines 0) lines (items macros)
  end
with expand_macro (fuel : nat) (name : string) (m : macro) (lines : string) (start : nat)
    : res string :=
  match fuel with
  | 0 => NoFuel
  | S fuel =>
      match str_find (name +:+ "(") start lines with
      | None => Ok lines
      | Some start =>
          let rest := str_drop (start + String.length name + 1) lines in
          '(mapping, behind) ← scan_args (ExpandMacros fuel) m "" rest 1 [];
          result ← expand m mapping;
          expand_macro fuel name m (str_take start lines +:+ result +:+ behind) start
      end
  end.
End Expansion.

(** ** [ReadMacros]

    A line is one of three forms; [lambda] is Python's [eval] of a lambda
    expression. *)
Section Macros.
Context (lambda : list string -> string -> res (list string -> res string)).

Definition is_name_char (c : ascii) : bool := isalpha c || isdigit c || Ascii.eqb c "_".
(** [word], then at least one white-space character *)
Definition after_word (word s : string) : option string :=
  if startswith word s then
    let rest := str_drop (String.length word) s in
    let rest' := lstrip_of isspace rest in
    if String.length rest' <? String.length rest then Some rest' else None
  else None.
(** The rest of a definition: an equals sign, a value without semicolon, and a
    semicolon at the end of the line *)
Definition definition_body (s : string) : option string :=
  match lstrip_of isspace s with
  | String "="%char s =>
      let (value, rest) := span (fun c => negb (Ascii.eqb c ";")) (lstrip_of isspace s) in
      if String.eqb rest ";" then Some value else None
  | _ => None
  end.
Definition name_of (s : string) : option (string * string) :=
  match span is_name_char s with ("", _) => None | r => Some r end.

Definition CONST_PATTERN (line : string) : option (string * string) :=
  s ← after_word "const" line;
  '(name, s) ← name_of s;
  value ← definition_body s;
  Some (name, value).
(** [MACRO_PATTERN] without its first word *)
Definition macro_pattern (s : string) : option (string * string * string) :=
  '(name, s) ← name_of s;
  match lstrip_of isspace s with
  | String "("%char s =>
      match span (fun c => negb (Ascii.eqb c ")")) s with
      | (args, String _ s) => body ← definition_body s; Some (name, args, body)
      | _ => None
      end
  | _ => None
  end.
Definition MACRO_PATTERN (line : string) : option (string * string * string) :=
  s ← after_word "macro" line; macro_pattern s.
Definition PYTHON_MACRO_PATTERN (line : string) : option (string * string * string) :=
  s ← after_word "python" line; MACRO_PATTERN s.

Definition read_macro_line (st : list (string * string) * list (string * macro)) (line : string)
    : res (list (string * string) * list (string * macro)) :=
  let '(constants, macros) := st in
  let line := strip (before_hash line) in
  if String.eqb line "" then Ok st
  else
    match CONST_PATTERN line with
    | Some (name, value) => Ok (OrderedDict.assoc_set name (strip value) constants, macros)
    | None =>
        match MACRO_PATTERN line with
        | Some (name, args, body) =>
            Ok (constants, OrderedDict.assoc_set name
                  (TextMacro (map strip (split_char "," args)) (strip body)) macros)
        | None =>
            match PYTHON_MACRO_PATTERN line with
            | Some (name, args, body) =>
                let args := map strip (split_char "," args) in
                fun_ ← lambda args (strip body);
                Ok (constants, OrderedDict.assoc_set name (PythonMacro args fun_) macros)
            | None => Err (ScriptError ("Illegal line: " +:+ line))
            end
        end
    end.
Definition ReadMacros (lines : list string) : res (list (string * string) * list (string * macro)) :=
  foldM read_macro_line ([], []) lines.

(** ** [JS2C] *)
Definition dq : string := String (ascii_of_nat 34) "".
Definition nat_text (n : nat) : string := string_of_int (Z.of_nat n).

Definition NATIVE_DECLARATION (id escaped_id : string) : string :=
  "  { " +:+ dq +:+ id +:+ dq +:+ ", " +:+ escaped_id +:+ "_native, sizeof(" +:+ escaped_id
  +:+ "_native)-1 }," +:+ nl.
Definition SOURCE_DECLARATION (escaped_id data : string) : string :=
  "  const char " +:+ escaped_id +:+ "_native[] = { " +:+ data +:+ " };" +:+ nl.
Definition GET_DELAY_INDEX_CASE (id : string) (i : nat) : string :=
  "    if (strcmp(name, " +:+ dq +:+ id +:+ dq +:+ ") == 0) return " +:+ nat_text i +:+ ";" +:+ nl.
Definition GET_DELAY_SCRIPT_SOURCE_CASE (id : string) (length i : nat) : string :=
  "    if (index == " +:+ nat_text i +:+ ") return Vector<const char>(" +:+ id +:+ ", "
  +:+ nat_text length +:+ ");" +:+ nl.
Definition GET_DELAY_SCRIPT_NAME_CASE (name : string) (length i : nat) : string :=
  "    if (index == " +:+ nat_text i +:+ ") return Vector<const char>(" +:+ dq +:+ name +:+ dq +:+ ", "
  +:+ nat_text length +:+ ");" +:+ nl.

(** [HEADER_TEMPLATE % mapping]: a missing key raises. *)
Definition HEADER_TEMPLATE (mapping : list (string * string)) : res string :=
  source_lines ← of_option (KeyError "source_lines") (OrderedDict.assoc "source_lines" mapping);
  native_lines ← of_option (KeyError "native_lines") (OrderedDict.assoc "native_lines" mapping);
  Ok (join nl ["#ifndef node_natives_h"; "#define node_natives_h"; "namespace node {"; "";
               source_lines; "struct _native {"; "  const char* name;";
               "  const char* source;"; "  size_t source_len;"; "};"; "";
               "static const struct _native natives[] = {"; "";
               native_lines; "  { NULL, NULL, 0 } /* sentinel */"; ""; "};"; "";
               "}"; "#endif"; ""]).

(** The name of a native: the path without its first directory, up to the first dot. *)
Definition native_id (s : string) : string :=
  let slash := fun c => Ascii.eqb c "/" || Ascii.eqb c "\" in
  let id := if str_existsb slash s then join "/" (tl (split_on slash s)) else s in
  let id := match split1 "." id with Some (id, _) => id | None => id end in
  if endswith "-delay.js" s then str_init 6 id else id.

Record natives := Natives {
  ids : list (string * nat);
  delay_ids : list (string * nat);
  source_lines : list string;
  source_lines_empty : list string;
  native_lines : list string;
}.

Section Files.
Context (read : string -> res string) (fuel : nat).

Definition is_macro_file (s : string) : bool := endswith "macros.py" (path_split s).2.
Definition read_macro_files (source : list string) : res (list string) :=
  foldM (fun macro_lines s => text ← read s; Ok (macro_lines ++ ReadLines text)%list) []
    (filter (fun s => is_macro_file s) source).

Definition add_module (consts : list (string * string)) (macros : list (string * macro))
    (n : natives) (s : string) : res natives :=
  lines ← read s;
  let do_jsmin := contains "// jsminify this file, js2c: jsmin" lines in
  lines ← ExpandMacros macros fuel (ExpandConstants lines consts);
  lines ← CompressScript lines do_jsmin;
  data ← ToCArray lines;
  let id := native_id s in
  let entry := (id, String.length lines) in
  let delay := endswith "-delay.js" s in
  let escaped_id := str_replace "/" "$" id in
  Ok (Natives (if delay then ids n else ids n ++ [entry])%list
              (if delay then delay_ids n ++ [entry] else delay_ids n)%list
              (source_lines n ++ [SOURCE_DECLARATION escaped_id data])%list
              (source_lines_empty n ++ [SOURCE_DECLARATION escaped_id "0"])%list
              (native_lines n ++ [NATIVE_DECLARATION id escaped_id])%list).

Definition numbered (n : natives) : list (nat * (string * nat)) :=
  imap pair (delay_ids n ++ ids n).
Definition native_name (id : string) : string := "native " +:+ id +:+ ".js".
Definition common_entries (n : natives) : list (string * string) :=
  [("builtin_count", nat_text (length (ids n) + length (delay_ids n)));
   ("delay_count", nat_text (length (delay_ids n)));
   ("get_index_cases",
      join "" (map (fun '(i, (id, _)) => GET_DELAY_INDEX_CASE id i) (numbered n)));
   ("get_script_source_cases",
      join "" (map (fun '(i, (id, len)) => GET_DELAY_SCRIPT_SOURCE_CASE id len i) (numbered n)));
   ("get_script_name_cases",
      join "" (map (fun '(i, (id, _)) =>
        GET_DELAY_SCRIPT_NAME_CASE (native_name id) (String.length (native_name id)) i) (numbered n)))].

(** What is written to the targets, in order; the second target's mapping has no
    entry for the natives. *)
Definition emit (n : natives) (target : list string) : list (string * res string) :=
  match target with
  | [] => []
  | header :: target =>
      (header, HEADER_TEMPLATE ([("source_lines", join nl (source_lines n));
                                 ("native_lines", join nl (native_lines n))] ++ common_entries n)%list)
      :: match target with
         | [] => []
         | empty :: _ =>
             [(empty, HEADER_TEMPLATE ([("source_lines", join nl (source_lines_empty n))]
                                       ++ common_entries n)%list)]
         end
  end.

Definition JS2C (source : list string) (target : list string) : res (list (string * res string)) :=
  macro_lines ← read_macro_files source;
  '(consts, macros) ← ReadMacros macro_lines;
  n ← foldM (add_module consts macros) (Natives [] [] [] [] [])
        (filter (fun s => ~ is_macro_file s) source);
  _ ← of_option IndexError (head target);
  Ok (emit n target).
End Files.
End Macros.
End Js2c.

(** ** The array *)
Section ArrayLemmas.
(** How the C compiler reads the initialiser: numbers between commas. *)
Definition array_values (data : string) : option (list Z) :=
  mapM (fun w => int_of_string (strip w)) (split_char "," data).
Definition ascii_text (lines : string) : bool := str_forallb (fun c => ord c <? 128) lines.
Definition char_values (lines : string) : list Z :=
  map (fun c => Z.of_nat (ord c)) (String.list_ascii_of_string lines).

(** A number as [str] prints it, with and without a space in front *)
Definition code_word (w : string) : Prop :=
  str_mem "," w = false /\ strip w = w /\ strip (String " " w) = w.

Lemma code_word_ord c :
  let w := string_of_int (Z.of_nat (ord c)) in
  code_word w /\ int_of_string w = Some (Z.of_nat (ord c)).
Proof. by destruct c as [[] [] [] [] [] [] [] []]; vm_compute. Qed.

Lemma split_spaced_join l : l <> [] -> Forall code_word l ->
  map strip (split_char "," (String " " (join ", " l))) = l.
Proof.
  intros Hne H. induction H as [|w l (Hc & _ & Hs) H IH]; [done|].
  assert (Hc' : str_mem "," (String " " w) = false) by (by rewrite str_mem_cons, Hc).
  destruct l as [|w' l].
  - cbn [join String.concat]. rewrite split_char_free by done. cbn [map]. by rewrite Hs.
  - change (join ", " (w :: w' :: l)) with (w +:+ String "," (String " " (join ", " (w' :: l)))).
    rewrite <- append_cons, split_char_app by done. cbn [map]. by rewrite Hs, IH.
Qed.

Lemma split_join_words l : l <> [] -> Forall code_word l ->
  map strip (split_char "," (join ", " l)) = l.
Proof.
  intros Hne H. destruct H as [|w l (Hc & Hs & _) H]; [done|]. destruct l as [|w' l].
  - cbn [join String.concat]. rewrite split_char_free by done. cbn [map]. by rewrite Hs.
  - change (join ", " (w :: w' :: l)) with (w +:+ String "," (String " " (join ", " (w' :: l)))).
    rewrite split_char_app by done. cbn [map]. by rewrite Hs, split_spaced_join.
Qed.

Lemma char_codes_words lines words : char_codes lines = Ok words ->
  Forall code_word words /\ words <> [] /\
  mapM int_of_string words = Some (char_values lines ++ [0%Z])%list.
Proof.
  revert words. induction lines as [|c lines IH]; intros words; cbn [char_codes].
  - intros [= <-]. split_and!; [|done|done]. apply list.Forall_singleton. by vm_compute.
  - destruct (128 <=? ord c); [done|]. intros (l & Hl & [= <-])%bind_ok.
    destruct (IH l Hl) as (H1 & H2 & H3). destruct (code_word_ord c) as [Hw Hi].
    split_and!; [by apply list.Forall_cons|done|]. unfold char_values in *. simpl in *.
    rewrite Hi. simpl. by rewrite H3.
Qed.

Lemma char_codes_ascii lines :
  if ascii_text lines then exists words, char_codes lines = Ok words
  else char_codes lines = Err (SystemExit 1).
Proof.
  unfold ascii_text. induction lines as [|c lines IH]; cbn [char_codes str_forallb]; [by eexists|].
  rewrite Nat.leb_antisym. destruct (ord c <? 128); simpl; [|done].
  destruct (str_forallb _ lines).
  - destruct IH as [l ->]. by eexists.
  - by rewrite IH.
Qed.

Lemma mapM_map {A B C} (f : A -> B) (g : B -> option C) l :
  mapM g (map f l) = mapM (fun x => g (f x)) l.
Proof. induction l as [|x l IH]; [done|]. cbn [map]. simpl. by rewrite IH. Qed.
End ArrayLemmas.

(** [ToCArray] of an ASCII text is an initialiser that C reads as the codes of
    its characters and a final zero, so that [sizeof - 1] is the length of the text;
    any other text ends the tool with exit code 1. *)
Theorem ToCArray_roundtrip lines :
  if ascii_text lines
  then exists data, ToCArray lines = Ok data /\
    array_values data = Some (char_values lines ++ [0%Z])%list /\
    length (char_values lines) = String.length lines
  else ToCArray lines = Err (SystemExit 1).
Proof.
  pose proof (char_codes_ascii lines) as H. unfold ToCArray. destruct (ascii_text lines); [|by rewrite H].
  destruct H as [words H]. rewrite H. simpl. eexists. split; [done|].
  apply char_codes_words in H as (Hw & Hne & Hv). split.
  - unfold array_values. rewrite <- mapM_map, split_join_words; done.
  - unfold char_values. rewrite length_map. clear. induction lines; simpl; congruence.
Qed.

(** ** Macro calls *)
Section MacroLemmas.
(** The text of a call behind its opening bracket, cut at the commas that are in no
    inner bracket, and what follows its closing bracket.  When there is none, the
    last argument is the rest of the text without its last character. *)
Fixpoint call_args (taken rest : string) (height : nat) : list string * string :=
  match rest with
  | "" => ([str_init 1 taken], "")
  | String c rest =>
      if Ascii.eqb c "," && (height =? 1)
      then let '(args, behind) := call_args "" rest height in (taken :: args, behind)
      else
        let height :=
          if str_mem c "({[" then S height else if str_mem c ")}]" then height - 1 else height in
        if height =? 0 then ([taken], rest) else call_args (taken +:+ String c "") rest height
  end.

Lemma call_args_nonempty taken rest height : (call_args taken rest height).1 <> [].
Proof.
  revert taken height. induction rest as [|c rest IH]; intros taken height; cbn [call_args]; [done|].
  destruct (_ && _); [by destruct (call_args "" rest height)|].
  destruct (_ =? 0); [done|apply IH].
Qed.

(** Each argument is expanded, in order, and bound to the first parameter. *)
Lemma scan_args_binds rec m taken rest height mapping a ps :
  macro_args m = a :: ps ->
  scan_args rec m taken rest height mapping =
    (mapping ← foldM (fun mapping arg => v ← rec (strip arg); Ok (OrderedDict.assoc_set a v mapping))
                     mapping (call_args taken rest height).1;
     Ok (mapping, (call_args taken rest height).2)).
Proof.
  intros Ha. assert (Hadd : forall v mp, add_arg m v mp = Ok (OrderedDict.assoc_set a v mp)).
  { intros v mp. unfold add_arg. by rewrite Ha. }
  revert taken height mapping.
  induction rest as [|c rest IH]; intros taken height mapping; cbn [scan_args call_args].
  - cbn [fst snd foldM]. destruct (rec _); simpl; [by rewrite Hadd|done..].
  - destruct (_ && _).
    + destruct (call_args "" rest height) as [args behind] eqn:E. cbn [fst snd foldM].
      destruct (rec _) as [v| |]; simpl; [|done..]. rewrite Hadd. simpl. by rewrite IH, E.
    + destruct (_ =? 0); [|apply IH]. cbn [fst snd foldM].
      destruct (rec _); simpl; [by rewrite Hadd|done..].
Qed.

Definition expand_args (rec : string -> res string) (args : list string) : res (list string) :=
  foldM (fun vs arg => v ← rec (strip arg); Ok (vs ++ [v])%list) [] args.

Lemma expand_args_cons rec arg args :
  expand_args rec (arg :: args) = (v ← rec (strip arg); vs ← expand_args rec args; Ok (v :: vs)).
Proof.
  assert (H : forall vs l, foldM (fun vs arg => v ← rec (strip arg); Ok (vs ++ [v])%list) vs l =
    (l' ← expand_args rec l; Ok (vs ++ l')%list)).
  { intros vs l. revert vs. unfold expand_args.
    induction l as [|x l IH]; intros vs; simpl; [by rewrite app_nil_r|].
    destruct (rec (strip x)) as [v| |]; simpl; [|done..]. rewrite IH, (IH [v]).
    destruct (foldM _ [] l); simpl; [by rewrite <- app_assoc|done..]. }
  unfold expand_args at 1. simpl. destruct (rec (strip arg)); simpl; [|done..]. apply H.
Qed.

(** Binding one key again and again leaves the last value. *)
Lemma bind_last rec a args mapping : mapping.*1 = [] \/ mapping.*1 = [a] -> args <> [] ->
  foldM (fun mapping arg => v ← rec (strip arg); Ok (OrderedDict.assoc_set a v mapping)) mapping args =
  (vs ← expand_args rec args; Ok [(a, List.last vs "")]).
Proof.
  revert mapping. induction args as [|x args IH]; intros mapping Hm Hne; [done|].
  rewrite expand_args_cons. cbn [foldM]. destruct (rec (strip x)) as [v| |]; simpl; [|done..].
  assert (Hset : OrderedDict.assoc_set a v mapping = [(a, v)]).
  { destruct mapping as [|[k w] [|? ?]]; destruct Hm as [Hm|Hm]; try done.
    injection Hm as ->. cbn [OrderedDict.assoc_set]. by rewrite decide_True. }
  rewrite Hset. destruct args as [|y args]; [done|]. rewrite IH by (auto || done).
  rewrite expand_args_cons. destruct (rec (strip y)); simpl; [|done..].
  destruct (expand_args rec args) as [[|z vs]| |]; done.
Qed.

Lemma python_args (a v : string) (args acc : list string) :
  foldM (fun acc arg => (w ← of_option (KeyError arg) (OrderedDict.assoc arg [(a, v)]);
                         Ok (acc ++ [w])%list) : res (list string)) acc args =
  match list_find (fun p => p <> a) args with
  | Some (_, p) => Err (KeyError p)
  | None => Ok (acc ++ map (fun _ => v) args)%list
  end.
Proof.
  revert acc. induction args as [|p args IH]; intros acc; cbn [foldM]; [by rewrite app_nil_r|].
  cbn [OrderedDict.assoc list_find]. destruct (decide (a = p)) as [<-|Hne].
  - rewrite decide_False by auto. simpl. rewrite IH.
    destruct (list_find _ args) as [[i q]|]; simpl; [done|]. by rewrite <- app_assoc.
  - by rewrite decide_True by auto.
Qed.
End MacroLemmas.

(** Every argument of a macro call is expanded, from the left, but [arg_index]
    stays 0: the first parameter stands for the last argument, and nothing is bound
    to the others.  In a text macro they stay in the text; a macro with a Python
    body raises [KeyError] on the first parameter that is another. *)
Theorem macro_call_binds_first (items : forall V, list (string * V) -> list (string * V))
    (Hitems : forall V l, items V l ≡ₚ l) rec m rest a ps (Ha : macro_args m = a :: ps) :
  let call := call_args "" rest 1 in
  scan_args rec m "" rest 1 [] =
    (vs ← expand_args rec call.1; Ok ([(a, List.last vs "")], call.2)) /\
  forall v, expand items m [(a, v)] =
    match m with
    | TextMacro _ body => Ok (replace a v body)
    | PythonMacro _ fun_ =>
        match list_find (fun p => p <> a) ps with
        | Some (_, p) => Err (KeyError p)
        | None => fun_ (v :: map (fun _ => v) ps)
        end
    end.
Proof.
  intros call. split.
  - rewrite (scan_args_binds _ _ _ _ _ _ a ps Ha).
    rewrite bind_last by (auto using call_args_nonempty). by destruct (expand_args rec _).
  - intros v. destruct m as [args body|args fun_]; cbn [expand macro_args] in *.
    + by rewrite (proj1 (Permutation_singleton_r _ _) (Hitems _ [(a, v)])).
    + subst args. rewrite python_args. cbn [list_find]. rewrite decide_False by auto.
      by destruct (list_find _ ps) as [[i p]|].
Qed.

Lemma macro_call_binds_first_witness :
  let m := TextMacro ["a"; "b"] "(a+b)" in
  let items := fun V (l : list (string * V)) => l in
  scan_args (fun s => Ok s) m "" "1, [2,3]) + x" 1 [] = Ok ([("a", "[2,3]")], " + x") /\
  expand items m [("a", "[2,3]")] = Ok "([2,3]+b)".
Proof.
  pose proof (macro_call_binds_first (fun V l => l) (fun V l => Permutation_refl l) (fun s => Ok s)
    (TextMacro ["a"; "b"] "(a+b)") "1, [2,3]) + x" "a" ["b"] eq_refl) as [H1 H2].
  split; [exact H1|exact (H2 "[2,3]")].
Defined.
