(* ===== verification/NinjaSyntax.v ===== *)
(** * [gyp/ninja_syntax.py]: writing Ninja files

    A method of [Writer] is modelled by the texts it passes to [output.write], in
    order.  [width] is the writer's; the keys and texts are Python strings.
    [textwrap.wrap] is the argument [wrap]. *)
From S2P Require Import Prelude PyStr.
From stdpp Require Import options.

Definition escape_path (word : string) : string :=
  str_replace ":" "$:" (str_replace " " "$ " (str_replace "$ " "$$ " word)).

(** [escape] *)
Definition escape (s : string) : res string :=
  _ ← assert_ (negb (str_mem newline s));
  Ok (str_replace "$" "$$" s).

(** An argument that is [None], a list or a string *)
Inductive value := VNone | VList (l : list string) | VStr (s : string).
Definition truthy (v : value) : bool :=
  match v with VNone => false | VList l => negb (bool_decide (l = [])) | VStr s => negb (String.eqb s "") end.
Definition _as_list (input : value) : list string :=
  match input with VNone => [] | VList l => l | VStr s => [s] end.

(** ** [_line]

    [None] is the index -1. *)
Fixpoint find_char (c : ascii) (s : string) (start : nat) : option nat :=
  match s with
  | "" => None
  | String a s' =>
      match start with
      | S start => S <$> find_char c s' start
      | 0 => if Ascii.eqb c a then Some 0 else S <$> find_char c s' 0
      end
  end.
Fixpoint rfind_char (c : ascii) (s : string) (end_ : nat) : option nat :=
  match end_ with
  | 0 => None
  | S e => if bool_decide (String.get e s = Some c) then Some e else rfind_char c s e
  end.
(** The position that the bound [i] of a slice stands for *)
Definition slice_index (s : string) (i : Z) : nat :=
  Z.to_nat (if (i <? 0)%Z then i + Z.of_nat (String.length s) else i)%Z.

(** [dollar_index] is the position of the next character to look at, which is
    never that of the first character. *)
Fixpoint dollars_from (s : string) (dollar_index : nat) : nat :=
  match dollar_index with
  | 0 => 0
  | S k => if bool_decide (String.get dollar_index s = Some "$"%char)
           then S (dollars_from s k) else 0
  end.
Definition _count_dollars_before_index (s : string) (i : nat) : nat := dollars_from s (i - 1).

(** The two inner loops: from [space] to the left, and to the right. *)
Fixpoint break_left (fuel : nat) (text : string) (space : nat) : res (option nat) :=
  match fuel with
  | 0 => NoFuel
  | S fuel =>
      match rfind_char " " text space with
      | None => Ok None
      | Some space => if Nat.even (_count_dollars_before_index text space)
                      then Ok (Some space) else break_left fuel text space
      end
  end.
Fixpoint break_right (fuel : nat) (text : string) (start : nat) : res (option nat) :=
  match fuel with
  | 0 => NoFuel
  | S fuel =>
      match find_char " " text start with
      | None => Ok None
      | Some space => if Nat.even (_count_dollars_before_index text space)
                      then Ok (Some space) else break_right fuel text (S space)
      end
  end.
Definition find_break (text : string) (available_space : Z) : res (option nat) :=
  let position := slice_index text available_space in
  space ← break_left (S position) text position;
  match space with
  | Some space => Ok (Some space)
  | None => break_right (S (String.length text)) text position
  end.

Section Writer.
Context (width : Z).

Definition spaces (n : nat) : string := str_repeat n "  ".

Fixpoint wrap_line (fuel : nat) (indent : nat) (leading_space text : string) : res (list string) :=
  match fuel with
  | 0 => NoFuel
  | S fuel =>
      let leading := Z.of_nat (String.length leading_space) in
      if (width <? leading + Z.of_nat (String.length text))%Z then
        space ← find_break text (width - leading - 2);
        match space with
        | None => Ok [leading_space +:+ text +:+ nl]
        | Some space =>
            rest ← wrap_line fuel indent (spaces (indent + 2)) (str_drop (space + 1) text);
            Ok ((leading_space +:+ str_take space text +:+ " $" +:+ nl) :: rest)
        end
      else Ok [leading_space +:+ text +:+ nl]
  end.
(** Each turn drops a character at least. *)
Definition _line (text : string) (indent : nat) : res (list string) :=
  wrap_line (S (String.length text)) indent (spaces indent) text.

Definition newline_ : list string := [nl].
Definition comment (wrap : string -> Z -> list string) (text : string) : list string :=
  map (fun line => "# " +:+ line +:+ nl) (wrap text (width - 2)%Z).

Definition variable (key : string) (val : value) (indent : nat) : res (list string) :=
  match val with
  | VNone => Ok []
  | VList l => _line (key +:+ " = " +:+ join " " (filter (fun s => s <> "") l)) indent
  | VStr s => _line (key +:+ " = " +:+ s) indent
  end.

(** Calls one after the other *)
Fixpoint writes (calls : list (res (list string))) : res (list string) :=
  match calls with
  | [] => Ok []
  | c :: calls => w ← c; ws ← writes calls; Ok (w ++ ws)%list
  end.
Definition when (b : bool) (call : res (list string)) : res (list string) := if b then call else Ok [].

Definition pool (name : string) (depth : value) : res (list string) :=
  writes [_line ("pool " +:+ name) 0; variable "depth" depth 1].

Definition rule (name : string) (command description depfile : value) (generator : bool)
    (pool : value) (restat : bool) (rspfile rspfile_content deps : value) : res (list string) :=
  let optional key v := when (truthy v) (variable key v 1) in
  writes [_line ("rule " +:+ name) 0;
          variable "command" command 1;
          optional "description" description;
          optional "depfile" depfile;
          when generator (variable "generator" (VStr "1") 1);
          optional "pool" pool;
          when restat (variable "restat" (VStr "1") 1);
          optional "rspfile" rspfile;
          optional "rspfile_content" rspfile_content;
          optional "deps" deps].

(** The value of [build], the outputs, is [_as_list outputs]. *)
Definition build (outputs : value) (rule : string) (inputs implicit order_only : value)
    (variables : list (string * value)) : res (list string) :=
  let out_outputs := map escape_path (_as_list outputs) in
  let all_inputs := map escape_path (_as_list inputs) in
  let all_inputs := (if truthy implicit
                     then all_inputs ++ "|" :: map escape_path (_as_list implicit) else all_inputs)%list in
  let all_inputs := (if truthy order_only
                     then all_inputs ++ "||" :: map escape_path (_as_list order_only) else all_inputs)%list in
  writes (_line ("build " +:+ join " " out_outputs +:+ ": " +:+ join " " (rule :: all_inputs)) 0
          :: map (fun kv => variable kv.1 kv.2 1) variables).

Definition include (path : string) : res (list string) := _line ("include " +:+ path) 0.
Definition subninja (path : string) : res (list string) := _line ("subninja " +:+ path) 0.
Definition default (paths : value) : res (list string) :=
  _line ("default " +:+ join " " (_as_list paths)) 0.
End Writer.

(** ** Where a line may be broken *)
Section Breaks.
Definition breakable (text : string) (i : nat) : Prop :=
  String.get i text = Some " "%char /\ Nat.even (_count_dollars_before_index text i) = true.

Lemma get_lt s i c : String.get i s = Some c -> i < String.length s.
Proof.
  revert i; induction s as [|a s IH]; intros i; [done|]. destruct i as [|i]; simpl; [lia|].
  intros H%IH. lia.
Qed.

Lemma find_char_spec c s start :
  match find_char c s start with
  | Some i => start <= i /\ String.get i s = Some c /\
              forall j, start <= j < i -> String.get j s <> Some c
  | None => forall j, start <= j -> String.get j s <> Some c
  end.
Proof.
  revert start; induction s as [|a s IH]; intros start; cbn [find_char]; [by destruct j|].
  assert (Hstep : forall k, k <= start -> (start = S k \/ (start = 0 /\ k = 0 /\ a <> c)) ->
    match S <$> find_char c s k with
    | Some i => start <= i /\ String.get i (String a s) = Some c /\
                forall j, start <= j < i -> String.get j (String a s) <> Some c
    | None => forall j, start <= j -> String.get j (String a s) <> Some c
    end).
  { intros k _ Hk. specialize (IH k). destruct (find_char c s k) as [i|]; simpl.
    - destruct IH as (H1 & H2 & H3). split_and!; [lia|done|]. intros [|j] Hj; [naive_solver lia|].
      apply H3. lia.
    - intros [|j] Hj; [naive_solver lia|]. apply IH. lia. }
  destruct start as [|start]; [|apply Hstep; [lia|by left]].
  destruct (Ascii.eqb_spec c a) as [->|Hne].
  - split_and!; [lia|done|]. lia.
  - apply Hstep; [lia|]. right. auto.
Qed.

Lemma rfind_char_spec c s e :
  match rfind_char c s e with
  | Some i => i < e /\ String.get i s = Some c /\ forall j, i < j < e -> String.get j s <> Some c
  | None => forall j, j < e -> String.get j s <> Some c
  end.
Proof.
  induction e as [|e IH]; cbn [rfind_char]; [lia|].
  destruct (bool_decide_reflect (String.get e s = Some c)) as [H|H].
  - split_and!; [lia|done|lia].
  - assert (Hj : forall j, j < S e -> j < e \/ j = e) by lia.
    destruct (rfind_char c s e) as [i|].
    + destruct IH as (H1 & H2 & H3). split_and!; [lia|done|].
      intros j [Hl Hr]. destruct (Hj j Hr) as [?| ->]; auto.
    + intros j Hr. destruct (Hj j Hr) as [?| ->]; auto.
Qed.

(** The loops end, with the nearest position on their side. *)
Lemma break_left_spec fuel text space : space < fuel ->
  exists r, break_left fuel text space = Ok r /\
    match r with
    | Some i => i < space /\ breakable text i
    | None => forall j, j < space -> ~ breakable text j
    end.
Proof.
  revert space; induction fuel as [|fuel IH]; intros space Hf; [lia|]. cbn [break_left].
  pose proof (rfind_char_spec " " text space) as H. destruct (rfind_char _ _ _) as [i|].
  - destruct H as (Hi & Hg & Hn). destruct (Nat.even _) eqn:Hev; [by exists (Some i)|].
    destruct (IH i) as ([j|] & -> & Hr); [lia|exists (Some j)|exists None].
    + split; [done|]. destruct Hr. split; [lia|done].
    + split; [done|]. intros j Hj [Hb He]. destruct (lt_eq_lt_dec j i) as [[?| ->]|?].
      * by apply (Hr j).
      * congruence.
      * apply (Hn j); [lia|done].
  - exists None. split; [done|]. intros j Hj [? _]. by apply (H j).
Qed.

Lemma break_right_spec fuel text start :
  String.length text < fuel + start -> 0 < fuel ->
  exists r, break_right fuel text start = Ok r /\
    match r with
    | Some i => start <= i /\ breakable text i /\ forall j, start <= j < i -> ~ breakable text j
    | None => forall j, start <= j -> ~ breakable text j
    end.
Proof.
  revert start; induction fuel as [|fuel IH]; intros start Hf H0; [lia|]. cbn [break_right].
  pose proof (find_char_spec " " text start) as H. destruct (find_char _ _ _) as [i|].
  - destruct H as (Hi & Hg & Hn). pose proof (get_lt _ _ _ Hg) as Hlt.
    assert (Hno : forall j, start <= j < i -> ~ breakable text j) by (intros j Hj [? _]; by apply (Hn j)).
    destruct (Nat.even _) eqn:Hev; [by exists (Some i)|].
    assert (Hi' : ~ breakable text i) by (intros [_ ?]; congruence).
    assert (Hall : forall j, start <= j < S i -> ~ breakable text j).
    { intros j Hj. destruct (decide (j = i)) as [->|?]; [done|]. apply Hno. lia. }
    destruct (IH (S i)) as ([j|] & -> & Hr); [lia|lia|exists (Some j)|exists None]; (split; [done|]).
    + destruct Hr as (Hr1 & Hr2 & Hr3). split_and!; [lia|done|].
      intros k Hk. destruct (decide (k < S i)); [apply Hall|apply Hr3]; lia.
    + intros k Hk. destruct (decide (k < S i)); [apply Hall|apply Hr]; lia.
  - exists None. split; [done|]. intros j Hj [? _]. by apply (H j).
Qed.
End Breaks.

Section Wrapping.
Lemma find_break_spec text available : exists r, find_break text available = Ok r /\
  match r with
  | Some i => breakable text i /\ (i < slice_index text available \/ forall j, j < i -> ~ breakable text j)
  | None => forall j, ~ breakable text j
  end.
Proof.
  unfold find_break. set (p := slice_index text available).
  destruct (break_left_spec (S p) text p) as ([i|] & -> & Hl); [lia| |]; cbn [mbind res_bind].
  { exists (Some i). destruct Hl. auto. }
  destruct (break_right_spec (S (String.length text)) text p) as ([i|] & -> & Hr); [lia..| |].
  - exists (Some i). destruct Hr as (H1 & H2 & H3). split_and!; [done|done|right]. intros j Hj.
    destruct (decide (j < p)); [by apply Hl|apply H3; lia].
  - exists None. split; [done|]. intros j. destruct (decide (j < p)); [by apply Hl|apply Hr; lia].
Qed.

(** ** Reading a line back

    Ninja joins lines at a dollar before the newline, and drops the spaces that
    follow; a dollar before another character escapes that character. *)
Fixpoint read (skip : bool) (s : string) : string :=
  match s with
  | "" => ""
  | String a s =>
      if Ascii.eqb a "$" then
        match s with
        | "" => "$"
        | String c s => if Ascii.eqb c newline then read true s else String a (String c (read false s))
        end
      else if skip && Ascii.eqb a " " then read true s
      else String a (read false s)
  end.

(** No dollar at the end is left without a character to escape. *)
Fixpoint complete (s : string) : bool :=
  match s with
  | "" => true
  | String a s =>
      if Ascii.eqb a "$" then match s with "" => false | String _ s => complete s end
      else complete s
  end.
Fixpoint single_spaced (s : string) : bool :=
  match s with
  | "" => true
  | String a s => negb (Ascii.eqb a " " && startswith " " s) && single_spaced s
  end.

Lemma escape_ind (P : string -> Prop) :
  P "" -> P "$" -> (forall c s, P s -> P (String "$" (String c s))) ->
  (forall a s, Ascii.eqb a "$" = false -> P s -> P (String a s)) -> forall s, P s.
Proof.
  intros H0 H1 H2 H3. assert (H : forall n s, String.length s <= n -> P s).
  { induction n as [|n IH]; intros [|a s]; simpl; try done; intros Hn; [lia|].
    destruct (Ascii.eqb_spec a "$") as [->|Hne]; [|apply H3; [by apply Ascii.eqb_neq|apply IH; lia]].
    destruct s as [|c s]; [done|]. apply H2, IH. simpl in Hn. lia. }
  intros s. by apply (H (String.length s)).
Qed.

Lemma read_app skip a b :
  complete a = true -> str_mem newline a = false ->
  (skip = true -> startswith " " a = false /\ a <> "") ->
  read skip (a +:+ b) = a +:+ read false b.
Proof.
  revert skip. induction a as [| |c a IH|c a Hc IH] using escape_ind; intros skip.
  - destruct skip; [|done]. intros _ _ H. by destruct H.
  - done.
  - rewrite !str_mem_cons. intros Hcl [_ [Hn Hm]%orb_false_iff]%orb_false_iff _.
    rewrite !append_cons. cbn [read]. rewrite (Ascii.eqb_sym c), Hn. cbn. f_equal. f_equal. by apply IH.
  - rewrite str_mem_cons, !append_cons. intros Hcl [Hn Hm]%orb_false_iff Hs.
    cbn [read complete] in *. rewrite Hc in *.
    assert (Hskip : skip && Ascii.eqb c " " = false).
    { destruct skip; [|done]. destruct Hs as [Hs _]; [done|]. rewrite startswith_cons in Hs.
      rewrite startswith_nil, andb_true_r in Hs. by rewrite Ascii.eqb_sym. }
    rewrite Hskip. f_equal. by apply IH.
Qed.

Lemma read_spaces skip n s : read skip (spaces n +:+ s) = if skip then read true s else spaces n +:+ read false s.
Proof.
  unfold spaces. destruct skip.
  - induction n as [|n IH]; [done|]. cbn [str_repeat]. rewrite append_assoc. exact IH.
  - induction n as [|n IH]; [done|]. cbn [str_repeat]. rewrite !append_assoc. cbn. by rewrite IH.
Qed.

Lemma complete_app a b : complete a = true -> complete (a +:+ b) = complete b.
Proof.
  induction a as [| |c a IH|c a Hc IH] using escape_ind; [done|done|exact IH|].
  rewrite append_cons. cbn [complete]. by rewrite Hc.
Qed.

(** A space is never the first half of an escape. *)
Lemma complete_upto s i : String.get i s = Some " "%char ->
  complete (str_take i s +:+ " ") = true.
Proof.
  revert i. induction s as [| |c s IH|c s Hc IH] using escape_ind; intros i; [done|by destruct i as [|[]]| |].
  - destruct i as [|[|i]]; [done|done|apply IH].
  - destruct i as [|i]; [done|]. intros H. cbn [str_take]. rewrite append_cons. cbn [complete].
    rewrite Hc. by apply IH.
Qed.

Lemma split_at_space s i : String.get i s = Some " "%char ->
  s = (str_take i s +:+ " ") +:+ str_drop (i + 1) s.
Proof.
  revert i. induction s as [|c s IH]; intros [|i]; [done|done| |].
  - intros [= ->]. by destruct s.
  - intros H. cbn [str_take str_drop Nat.add]. rewrite !append_cons. f_equal. by apply IH.
Qed.

Lemma single_spaced_app a b : single_spaced ((a +:+ " ") +:+ b) = true ->
  single_spaced b = true /\ startswith " " b = false.
Proof.
  induction a as [|c a IH]; rewrite ?append_cons.
  - cbn. intros [H ->]%andb_true_iff. split; [done|]. by apply negb_true_iff.
  - cbn [single_spaced]. intros [_ H]%andb_true_iff. by apply IH.
Qed.
End Wrapping.

Section LineLemmas.
Context (width : Z) (indent : nat).

(** A line as it is written: a part of the text between its indentation and its end *)
Definition fits (w : string) : Prop :=
  exists n part suffix, w = spaces n +:+ part +:+ suffix /\ (suffix = nl \/ suffix = " $" +:+ nl) /\
    ((Z.of_nat (String.length w) <= width + 1)%Z \/ forall i, ~ breakable part i).

Lemma get_take s n i : i < n -> String.get i (str_take n s) = String.get i s.
Proof. revert n i; induction s as [|c s IH]; intros [|n] [|i] H; simpl; try done; try lia. apply IH. lia. Qed.

Lemma breakable_take text n i : i < n -> breakable (str_take n text) i <-> breakable text i.
Proof.
  intros Hi. unfold breakable, _count_dollars_before_index. rewrite get_take by done.
  replace (dollars_from (str_take n text) (i - 1)) with (dollars_from text (i - 1)); [done|].
  assert (Hk : i - 1 < n) by lia. clear Hi. induction (i - 1) as [|k IH]; [done|].
  cbn [dollars_from]. rewrite get_take by done. by rewrite IH by lia.
Qed.

Lemma breakable_in text i : breakable text i -> i < String.length text.
Proof. intros [H _]. by eapply get_lt. Qed.

Lemma spaces_length n : String.length (spaces n) = 2 * n.
Proof. unfold spaces. induction n as [|n IH]; cbn [str_repeat]; [done|]. rewrite length_append, IH. simpl. lia. Qed.

Lemma concat_app_head a b l : String.concat "" ((a +:+ b) :: l) = a +:+ String.concat "" (b :: l).
Proof. destruct l; [done|]. cbn [String.concat]. by rewrite append_assoc. Qed.

Lemma concat_two a b l : String.concat "" (a :: b :: l) = a +:+ String.concat "" (b :: l).
Proof. done. Qed.

(** A break in front of [x] reads as a space. *)
Lemma read_broken skip a x y n :
  complete (a +:+ " ") = true -> str_mem newline a = false ->
  (skip = true -> startswith " " (a +:+ " ") = false) -> read true x = y ->
  read skip ((a +:+ " $" +:+ nl) +:+ spaces n +:+ x) = (a +:+ " ") +:+ y.
Proof.
  intros Hc Hn Hs <-. rewrite append_assoc.
  change (a +:+ (" $" +:+ nl) +:+ ?z) with (a +:+ " " +:+ String "$" (String newline z)).
  rewrite <- append_assoc. rewrite read_app; [|done| |].
  - f_equal. cbn [read]. by rewrite read_spaces.
  - by rewrite str_mem_app, Hn.
  - intros ->. split; [by apply Hs|]. by destruct a.
Qed.

(** Breaking a line, with what is read of it. *)
Lemma wrap_line_spec fuel n text :
  String.length text < fuel -> (0 <= width - 2 * Z.of_nat (Nat.max n (indent + 2)) - 2)%Z ->
  exists body rest, wrap_line width fuel indent (spaces n) text = Ok ((spaces n +:+ body) :: rest) /\
    Forall fits ((spaces n +:+ body) :: rest) /\
    (complete text = true -> str_mem newline text = false -> single_spaced text = true ->
     forall skip, (skip = true -> startswith " " text = false) ->
     read skip (String.concat "" (body :: rest)) = text +:+ nl).
Proof.
  revert n text. induction fuel as [|fuel IH]; intros n text Hf Hw; [lia|]. cbn [wrap_line].
  assert (Hread : complete text = true -> str_mem newline text = false -> single_spaced text = true ->
     forall skip, (skip = true -> startswith " " text = false) ->
     read skip (String.concat "" [text +:+ nl]) = text +:+ nl).
  { intros Hc Hn _ skip Hs. cbn [String.concat]. destruct (decide (text = "")) as [->|Hne].
    - by destruct skip.
    - rewrite read_app by auto. done. }
  rewrite spaces_length.
  destruct (Z.ltb_spec width (Z.of_nat (2 * n) + Z.of_nat (String.length text))) as [Hl|Hl].
  - destruct (find_break_spec text (width - Z.of_nat (2 * n) - 2)) as ([i|] & -> & Hr); cbn [mbind res_bind].
    + destruct Hr as [Hb Hi]. pose proof (breakable_in _ _ Hb) as Hlen. pose proof Hb as [Hg _].
      destruct (IH (indent + 2) (str_drop (i + 1) text)) as (body & rest & -> & Hfits & Hrd).
      { rewrite length_str_drop. lia. }
      { lia. }
      cbn [mbind res_bind]. exists (str_take i text +:+ " $" +:+ nl), ((spaces (indent + 2) +:+ body) :: rest).
      split_and!; [done| |].
      * apply list.Forall_cons. split; [|done].
        exists n, (str_take i text), (" $" +:+ nl). split_and!; [done|by right|].
        rewrite !length_append, spaces_length, length_str_take. unfold slice_index in Hi.
        replace (_ <? 0)%Z with false in Hi by (symmetry; apply Z.ltb_ge; lia).
        destruct Hi as [Hi|Hi]; [left; simpl; lia|right]. intros j Hj.
        pose proof (breakable_in _ _ Hj) as Hlj. rewrite length_str_take in Hlj.
        apply (Hi j); [lia|]. eapply breakable_take; [|done]. lia.
      * intros Hc Hn Hs skip Hsk. pose proof (complete_upto _ _ Hg) as Hcu.
        pose proof (split_at_space text i Hg) as Ht. set (b := str_drop (i + 1) text) in *.
        set (a := str_take i text) in *. clearbody a b. subst text.
        rewrite !str_mem_app in Hn. apply orb_false_iff in Hn as [[Hna _]%orb_false_iff Hnb].
        apply single_spaced_app in Hs as [Hsb Hb']. rewrite complete_app in Hc by done.
        rewrite concat_two, concat_app_head, (read_broken skip a _ (b +:+ nl)); [by rewrite !append_assoc|done|done| |].
        -- intros E. specialize (Hsk E). destruct a as [|c [|d a]]; [by destruct b|exact Hsk|exact Hsk].
        -- by apply Hrd.
    + exists (text +:+ nl), []. split_and!; [done| |done].
      apply list.Forall_singleton. exists n, text, nl. auto.
  - exists (text +:+ nl), []. split_and!; [done| |done].
    apply list.Forall_singleton. exists n, text, nl. split_and!; [done|by left|left].
    rewrite !length_append, spaces_length. simpl. lia.
Qed.
End LineLemmas.

(** C19. [_line] ends.  What Ninja reads of the lines it writes is the text, behind
    its indentation, provided no dollar stands alone at the end and no two spaces
    are adjacent; and no line is longer than the width unless it has no space that
    it could have been broken at. *)
Theorem _line_reads width text indent :
  (2 * Z.of_nat (indent + 2) + 2 <= width)%Z ->
  complete text = true -> str_mem newline text = false -> single_spaced text = true ->
  exists lines, _line width text indent = Ok lines /\ Forall (fits width) lines /\
    read false (String.concat "" lines) = spaces indent +:+ text +:+ nl.
Proof.
  intros Hw Hc Hn Hs. unfold _line.
  destruct (wrap_line_spec width indent (S (String.length text)) indent text) as (body & rest & -> & Hf & Hr);
    [lia..|]. eexists. split_and!; [done|done|].
  rewrite concat_app_head, read_spaces. f_equal. by apply Hr.
Qed.

Lemma _line_reads_witness :
  let text := "command = cc $in -o $out a$ b" in
  exists lines, _line 20 text 1 = Ok lines /\ length lines = 3 /\
    read false (String.concat "" lines) = spaces 1 +:+ text +:+ nl.
Proof.
  destruct (_line_reads 20 "command = cc $in -o $out a$ b" 1) as (lines & H & _ & Hr);
    [by vm_compute|done..|]. exists lines. split_and!; [exact H| |exact Hr].
  vm_compute in H. injection H as <-. done.
Defined.

(** A second space at a break is lost. *)
Example line_two_spaces :
  exists lines, _line 20 "command = touch  a b" 1 = Ok lines /\
    read false (String.concat "" lines) = "  command = touch a b" +:+ nl.
Proof. eexists. split; vm_compute; reflexivity. Qed.
